(* ===== verification/_CoqProject ===== *)
-Q . S2P
Prelude.v
Text.v
Json.v
Wire.v
Frame.v
Validate.v
Regex.v
Limits.v
Serde.v
JsonText.v
FrameJson.v
Ndjson.v
NdjsonProps.v
Chunk.v
ChunkProps.v
Port.v
NdjsonPort.v
NdjsonPortProps.v
SharedWriter.v
SharedWriterProps.v
WebSocket.v
WebSocketProps.v
WebSocketLink.v
WebSocketRecv.v
Deadline.v
Upgrade.v
Spawn.v
SpawnProps.v
Ssh.v
Files.v
Ipc.v
IpcProps.v
IpcAddress.v
IpcListen.v
IpcPorts.v
PipeSecurity.v
Session.v
Dispatch.v
DispatchProps.v
Driver.v
Handle.v
System.v
Lifecycle.v
Outbound.v
Responses.v
Replies.v
Streams.v
Closing.v
ClosingProps.v
Handshake.v
Requests.v
Origins.v
Duplex.v
DuplexProps.v
Conformance.v
Harness.v
BulkCase.v
InProcess.v
NdjsonFixture.v
Fuzz.v
SessionPair.v
Catalog.v
Schema.v
SchemaProps.v
Contract.v
ContractProps.v
Examples.v
Scenario.v
TestKit.v
TestsWire.v
TestsCodec.v
TestsPorts.v
TestsStreams.v
TestsSockets.v
UnitTests.v
