(* ===== verification/Prelude.v ===== *)
(** * Mango Protocol: a verified model of the Rust crate

    This library models [crates/mango-protocol/src] and proves what makes it correct.  The crate
    implements a symmetric request, response and event protocol: two peers open a session over some
    transport, exchange a [hello], then call each other's methods and emit events until one of them
    closes.  Source paths below are relative to [crates/mango-protocol/src].

    ** The program and its parts

    - Wire vocabulary: versions and negotiation ([version.rs]), close codes ([close.rs]), error codes
      and errors ([error.rs]), the nine frame types ([frame.rs]), their validation ([validate.rs]).
    - Codecs: one frame per line with a push decoder ([codec/ndjson.rs]), frames cut into bounded
      messages and reassembled ([codec/chunk.rs]), the floors of configurable ceilings
      ([codec/limits.rs]).
    - Ports: what a transport promises a session ([port.rs]), the in-memory pair ([port/pair.rs]), the
      port over any byte stream ([transports/ndjson.rs]) with stdio as its simplest use
      ([transports/stdio.rs]), and the port over WebSocket messages ([transports/websocket.rs]).
    - Reaching a peer: the upgrade on both sides ([transports/websocket/{client,server}.rs]), local
      sockets and named pipes ([transports/ipc.rs], [ipc/unix.rs], [ipc/windows.rs]), child processes
      ([transports/spawn.rs]), the command line of a launch over ssh ([transports/ssh.rs]), and the
      deadline a dial runs under ([transports/deadline.rs]).
    - Sessions: a handle many tasks share ([session/handle.rs]) talks to one driver task
      ([session/driver.rs]) over a command channel; the driver routes frames, runs handlers as tasks
      ([session/dispatch.rs]), writes through a writer task, and ends everything in one teardown
      ([session/teardown.rs]).  Handle and driver share the state of [session/shared.rs].
    - Contracts: a catalog document ([catalog.rs]) compiled into validators and served as typed
      handlers, with a typed client and typed events ([contract.rs] and [contract/]).
    - Schemas: the JSON Schema documents of frames and catalogs ([schema.rs]).
    - Around the crate: the conformance suite a transport is judged by ([testing.rs]) with its
      fixtures ([tests/conformance.rs], [tests/transport_ndjson.rs]), the unit tests of its modules, the
      fuzz targets ([fuzz/]) and three example programs ([examples/roundtrip.rs],
      [examples/conformance_peer.rs], [examples/session_pair.rs]).

    ** Which file models what

    - [Prelude.v]: machine integers, bytes and UTF-8 strings, the [result] type with its [let?]
      notation, the loops [for_each] and [try_map], the hint database [mango], shared lemmas.
      [Text.v]: the [str] methods the transports use.
    - [Json.v]: [serde_json::Value] and its key-sorted [Map].
    - [Wire.v]: [version.rs], [close.rs], [error.rs].  [Frame.v]: [frame.rs].  [Validate.v]:
      [validate.rs], with the languages of the documented patterns as inductive predicates.
      [Limits.v]: [codec/limits.rs]; a panic is the error side of [panics].
    - [Serde.v]: what the crate asks of [serde_json] as a class of operations and a class of laws.
      [JsonText.v], [FrameJson.v]: an implementation of both (printer, parser, the serde attributes of
      [frame.rs]), so that the laws are shown to be satisfiable and every model below runs.
    - [Ndjson.v], [NdjsonProps.v]: [codec/ndjson.rs] and its theorems.  [Chunk.v], [ChunkProps.v]:
      [codec/chunk.rs].
    - [Port.v]: the traits of [port.rs] as classes with their laws, tokio's unbounded channel, and
      [port/pair.rs].  [NdjsonPort.v], [NdjsonPortProps.v]: [transports/ndjson.rs], each call run to its
      end.  [SharedWriter.v], [SharedWriterProps.v]: the writable half two port halves and any closers
      share, the calls of any number of tasks one suspension point at a time.
    - [WebSocket.v]: [transports/websocket.rs], the calls of the port's halves one access to the shared
      atomics at a time, the writer task one command or one poll of the socket at a time.  [WebSocketProps.v] (the counter of queued bytes, the stall
      rule), [WebSocketLink.v] (refinement of a first-in first-out link, draining), [WebSocketRecv.v]
      (the receiver).  [Upgrade.v]: [transports/websocket/{client,server}.rs].
    - [Deadline.v]: [transports/deadline.rs].  [Spawn.v], [SpawnProps.v]: [transports/spawn.rs].
      [Ssh.v]: [transports/ssh.rs].
    - [Files.v]: the POSIX calls on a directory tree with inodes, modes and two users.  [Ipc.v]:
      [transports/ipc/unix.rs] one system call per step, with other listeners, crashes and strangers
      in between.  [IpcProps.v], [IpcAddress.v], [IpcListen.v]: who can connect, whose address it is,
      what listening alone leaves behind.  [IpcPorts.v]: addresses of [transports/ipc.rs], accepted
      and dialled ports on Unix and Windows, the farewell of a listener.  [PipeSecurity.v]:
      [ipc/windows/security.rs] and the Windows listener over a heap of security descriptors and a
      set of pipes.
    - [Session.v]: [session.rs], [session/options.rs], [session/shared.rs], [session/command.rs],
      [session/handler.rs].  [Dispatch.v]: [session/dispatch.rs] and the writer task.  [Driver.v]:
      [session/driver.rs] and [session/teardown.rs].  [Handle.v]: [session/handle.rs].
    - [System.v]: a whole session: handles, writer, handler tasks, driver and peer as interleaved
      actions.  [DispatchProps.v], [Lifecycle.v], [Outbound.v], [Responses.v], [Replies.v],
      [Streams.v], [Handshake.v], [Requests.v]: its invariants and theorems.  [Closing.v],
      [ClosingProps.v]: the same session while [teardown] runs, one of its statements per step, with
      handles, writer, handlers and peer in between.  [Scenario.v]: one concrete session to which each
      of the theorems is applied.
    - [Origins.v]: where each frame of a session comes from.  [Duplex.v]: two sessions of [System.v]
      over the memory pair of [Port.v], scheduled in any way, each with a log of what its driver took
      from its port and of how its handlers settled.  [DuplexProps.v]: what the two have in common.
    - [Conformance.v]: [testing.rs], the 23 cases as programs against the interface [Fixture], and the
      runner.  [Harness.v]: fixtures over any [Link] between two sessions, with one fair scheduler.
      [InProcess.v]: the link is the [Duplex].  [NdjsonFixture.v]: the link is a pair of pipes of bytes
      between two [NdjsonPort]s.  [BulkCase.v]: the case whose result has more than 2^24 bytes, for any
      link.
    - [Fuzz.v]: the generator and four targets of [fuzz/].  [Examples.v]: the programs [roundtrip] and
      [conformance_peer].  [SessionPair.v]: [examples/session_pair.rs], on the executor of [Harness.v].
    - [Catalog.v]: [catalog.rs].  [Contract.v], [ContractProps.v]: [contract.rs] and
      [contract/{params,serve,client,events}.rs].
    - [Regex.v]: the patterns of JSON Schema with a matcher by derivatives.  [Schema.v],
      [SchemaProps.v]: [schema.rs], what a constraint accepts, and the comparison with [validate.rs].
    - [TestKit.v]: the assertion macros in the panic monad.  [TestsWire.v], [TestsCodec.v],
      [TestsPorts.v], [TestsStreams.v], [TestsSockets.v]: the unit tests of the crate's modules, one
      definition per test.  [UnitTests.v]: the suite.

    ** How the model follows the code

    A Rust function is a Rocq function of the same name wherever Rocq allows it (a method gets a
    prefix when its bare name is taken).  Fallible functions return [result]; assertions that panic
    return [panics].  A struct behind [&mut self] is passed and returned.  Each critical section on
    the session's shared state is one function on [Shared]; the mutex-guarded writer of an NDJSON
    port is one record both halves work on.  A task and its cancellation token are a number; a
    [oneshot] is an entry of a map that is filled at most once; a dropped sender is an entry too, so
    nothing that awaits it is forgotten.

    The driver's [select!] is the function [select]: it takes which outside futures are ready
    (timers, a settled handler, an inbound item) and returns the branch the biased order picks, and
    [on_branch] is that branch's body.  [System.act] interleaves driver turns, writer turns and any
    calls of any number of handles; theorems about sessions quantify over every list of actions,
    every port ([PortTx] is a class), every peer and every timing.  [APort] is what a transport does to
    its half of the port by itself, such as bytes arriving.  Time is not modelled there: a
    timer is due whenever the action says so, so nothing depends on durations.

    A future of a transport is a function polled with a clock and the state of what it waits for
    ([connect_poll], [terminate_poll], [escalate_poll], [drive_step]); durations are numbers and the
    clock only moves forward.  Where halves of a port share atomics, each access is a step of its own
    ([caller_step]), so that the theorems hold of every interleaving; a listener's calls on the file
    system are steps of [ipc_step] for the same reason.

    ** What the theorems show

    - Codec: round trips of stable frames through lines and chunks for every cut of the stream
      ([frame_stable]: a frame that fits its Rust types, whose values hold no floating-point number and
      nest at most 125 deep; deeper ones are encoded and then refused by the parser); the result does
      not depend on the cut; memory stays bounded whatever arrives; refusals have the right kind; only
      the chunk sequence the specification defines, byte for byte, yields a frame.
    - Vocabulary: validation is exactly what the emitted schema accepts, with the two exceptions
      [beyond_schema] names; the documents have one branch for each frame; negotiation is symmetric; the fatal set.
    - Session, over all runs: every request routed is answered exactly once or still active; the
      bookkeeping of active requests is consistent and bounded; a settled call keeps its outcome, a
      response settles only its own call, no call hangs after a close; ids are never reused; events
      are numbered without gaps per stream; everything enqueued but [err] frames is valid and fits;
      state, peer, [ready()] and closure only move forward.  Per step: agreement of the two
      handshakes, liveness, the loop's priorities, every outcome of a call and of an emit, teardown.
    - A session that closes, over all interleavings with the statements of its teardown: a published
      closure means everything before it is done, every call, the late ones too, resolves; teardown is
      over after a bounded number of turns once its sends are through, and stays in its third step as
      long as one is not; undisturbed, its steps are the one action of [System.v].
    - Two sessions over a memory pair that clones frames (the default), over all schedules: what one hears is a prefix of what the other spoke; a returned
      value is the one the other side's handler returned for that very request; requests are routed at
      most once and in order, events heard without a gap; each reports the peer the other announced.
    - A session fed by the fuzzer ends.
    - Ports: the memory pair and the NDJSON port deliver in order and end exactly once; a refused
      record closes with its code; the farewell always fits.  The shared writer of an NDJSON port puts
      whole records on the wire whoever is stuck, and ending it waits for nobody; a farewell that is
      given up half-way is the exception, and spoils the record behind it.  The WebSocket port refines a link that
      delivers in order, counts what it queues, gives up on a peer that stops reading, and drains.
    - Reaching a peer: which upgrades are admitted and that client and server agree on them; a dial
      settles within its deadline; a local socket is never open to another user and its address is
      kept until its listener ends; every named pipe instance is its owner's; a child sees the allowed environment only, its last output is
      kept, nothing is started that the options rule out, and it gets the signals asked for and no
      others, each after its grace.
    - Contracts: which catalogs compile, the seven courses a request can take, what serving
      registers and takes back, discovery end to end.  Ssh: the remote shell runs the command given.
      Examples: one answer per line that reads back as itself, whom the peer admits, its command line.
    - Computations, as evidence that the definitions behave like the program and not as properties of
      it: on the one schedule of [Harness.v] the in-process transport passes the conformance suite in
      both of its modes and the NDJSON one all 23 cases; the definitions pass 205 of the crate's own unit
      tests; the narrated example prints what it says.

    ** Bounds and fuel

    [push_loop] runs on one turn more than the buffer has bytes: each turn that continues consumes one, and
    [push_loop_ref] equates it with the fuel-free reference.  The JSON parser runs on
    [2 * length + 2], which [calls_bound] shows no value exceeds; [MAX_DEPTH] is serde_json's own
    recursion limit.  Sequence counters are kept at 64 bits
    where they wrap ([fetch_add_u64]); the theorem on request ids assumes fewer than 2^64 actions.
    Teardown takes at most [turns_left] turns of the driver, 11 and one for each pending request, next to
    the sends it waits for, one for each frame [blocked] counts, and the grace timer.  A call that ends a shared writer takes at most [work] turns of its own and of those it
    evicts: 8, two for each call in line and two for each step of anybody else's in between.
    A call on the WebSocket port makes at most the 9 shared accesses [caller_run] allows, a listener
    alone at most the 14 calls [alone] allows; [caller_run_returns] and [listen_ipc_outcomes] show that
    they reach their end.  A fixture's [await] runs [quiet_rounds] rounds before the deadlines pass, which is more
    than any exchange of the suite takes: the theorems state that every case returns.  A scripted
    session ends within 65 polls, one per frame of the at most 64 and one for the closure.
    [parse_seq] runs on
    the pattern's length, and the three patterns of the crate are evaluated in full.  Every other recursion
    is structural.

    ** Assumptions about the world

    [address_kept] assumes of a run ([orderly]) that a checked file is removed before anybody else
    acts, that sockets can be linked and that no inode number comes back; [reused_inode] shows a run
    that goes wrong without the last.  The HTTP upgrade, header maps and TLS, the creation of
    a process, the socket below a WebSocket and what [schemars] derives are arguments of the
    definitions that use them.

    ** What is not modelled, and why

    - Handlers and guards are the application's code: a handler is the number of its closure in the
      session and an outcome in a contract.
    - A send of a port's [PortTx] completes in the turn in which it is taken: a send that waits for its
      peer is a writer turn that does not come.  In [System.v] [teardown] is one action, although it
      awaits the writer and the grace period; [ClosingProps.v] shows that this is its steps undisturbed
      with sends that complete, and what holds when they are disturbed or a send does not.  In
      [NdjsonPort.v] a call on the shared writer is one step, which [solo_calls] justifies the same way.
    - [serde]'s sequence form of a struct, floats beyond their text (the crate does not enable
      [float_roundtrip]), and the wording of serde's own errors.
    - The [jsonschema] crate, tokio, the operating system's streams: parameters of the model.
    - Windows: its calls have their documented effect on the state of [PipeSecurity.v]; what an access
      list admits is read off its text.  Symbolic links and a stranger's hard links in [Files.v].
    - The scheduler of the fixtures is one fair schedule instead of tokio in real time; the capacity of a pipe, which only delays a
      writer, is not bounded.  The handlers of the suite settle within a round.
    - The fuzz targets [decode_line] and [catalog_parse], which call one modelled function and drop its
      result; the two examples that print a schema; [lib.rs] and the module roots, which re-export.
    - The unit tests of [contract.rs], [contract/params.rs] and [schema.rs], which run the [jsonschema]
      and [schemars] crates; those of a real process, a TLS provider, a lossy UTF-8 decoder and an
      [Arc]'s count; and the test of a [recv] dropped in the middle of its farewell.
    - Two sessions over a WebSocket pair end to end: the port's own theorems say what each delivers to
      the other, but the pair is not composed with the sessions as the memory pair is. *)

From stdpp Require Export base gmap sets list strings pretty.
From Stdlib Require Export Ascii ZArith Lia.
Local Open Scope Z_scope.

(** ** Machine integers and byte strings *)

(** A [u8] is an [ascii], a [&[u8]] or [Vec<u8>] a [list ascii]; a Rust [String] is the
    Rocq [string] of its UTF-8 bytes.  Wider integers are [Z] kept inside their range. *)
Abbreviation u8 := ascii (only parsing).
Abbreviation bytes := (list ascii) (only parsing).

Definition u16_max : Z := 65535.
Definition u32_max : Z := 4294967295.
Definition u64_max : Z := 18446744073709551615.
Definition usize_max : Z := u64_max.

Definition is_u16 (z : Z) : bool := (0 <=? z) && (z <=? u16_max).
Definition is_u32 (z : Z) : bool := (0 <=? z) && (z <=? u32_max).
Definition is_u64 (z : Z) : bool := (0 <=? z) && (z <=? u64_max).

(** [(lo..=hi).contains(&v)] *)
Definition in_range (lo hi v : Z) : bool := (lo <=? v) && (v <=? hi).

Definition len {A} (l : list A) : Z := Z.of_nat (length l).

(** [usize::div_ceil] *)
Definition div_ceil (a b : Z) : Z :=
  let d := a / b in if 0 <? a mod b then d + 1 else d.

Definition saturating_mul (a b : Z) : Z := Z.min usize_max (a * b).
Definition saturating_sub (a b : Z) : Z := Z.max 0 (a - b).

(** [u32::try_from(z).unwrap_or(u32::MAX)] *)
Definition u32_saturate (z : Z) : Z := if z <=? u32_max then z else u32_max.

Definition Z_of_byte (b : u8) : Z :=
  let bit (b : bool) (z : Z) := if b then Z.succ_double z else Z.double z in
  let '(Ascii b0 b1 b2 b3 b4 b5 b6 b7) := b in
  bit b0 (bit b1 (bit b2 (bit b3 (bit b4 (bit b5 (bit b6 (bit b7 0))))))).
Definition byte_of_Z (z : Z) : u8 := ascii_of_N (Z.to_N (Z.land z 255)).

(** [u32::to_be_bytes] and [u32::from_be_bytes]. *)
Definition to_be_bytes (z : Z) : bytes :=
  [byte_of_Z (Z.shiftr z 24); byte_of_Z (Z.shiftr z 16); byte_of_Z (Z.shiftr z 8); byte_of_Z z].
Definition from_be_bytes (a b c d : u8) : Z :=
  Z.lor (Z.shiftl (Z_of_byte a) 24)
    (Z.lor (Z.shiftl (Z_of_byte b) 16) (Z.lor (Z.shiftl (Z_of_byte c) 8) (Z_of_byte d))).

(** ** Strings *)

Definition to_bytes (s : string) : bytes := String.list_ascii_of_string s.
Definition of_bytes (b : bytes) : string := String.string_of_list_ascii b.

(** A UTF-8 continuation byte [0b10xxxxxx]; every other byte starts a character. *)
Definition is_continuation (b : u8) : bool :=
  match b with Ascii _ _ _ _ _ _ false true => true | _ => false end.

(** [s.chars().count()], as core counts it: the bytes that start a character. *)
Definition chars_count (s : string) : Z :=
  len (filter (fun b => negb (is_continuation b) = true) (to_bytes s)).

Definition cont (b : u8) : bool := in_range 128 191 (Z_of_byte b).

(** Well-formed UTF-8, the invariant of a Rust [String]: no overlong form, no surrogate,
    nothing above [U+10FFFF]. *)
Fixpoint is_utf8 (b : bytes) : bool :=
  match b with
  | [] => true
  | a :: r =>
      let z := Z_of_byte a in
      if z <=? 127 then is_utf8 r
      else match r with
      | b1 :: r1 =>
          if in_range 194 223 z then cont b1 && is_utf8 r1
          else match r1 with
          | b2 :: r2 =>
              if in_range 224 239 z
              then (if z =? 224 then in_range 160 191 (Z_of_byte b1)
                    else if z =? 237 then in_range 128 159 (Z_of_byte b1) else cont b1)
                   && cont b2 && is_utf8 r2
              else match r2 with
              | b3 :: r3 =>
                  in_range 240 244 z &&
                  (if z =? 240 then in_range 144 191 (Z_of_byte b1)
                   else if z =? 244 then in_range 128 143 (Z_of_byte b1) else cont b1)
                  && cont b2 && cont b3 && is_utf8 r3
              | [] => false
              end
          | [] => false
          end
      | [] => false
      end
  end.
Definition str_ok (s : string) : bool := is_utf8 (to_bytes s).

(** [s.chars().take(n).collect()]: the bytes before the [n+1]-st character start. *)
Fixpoint take_chars_bytes (n : nat) (b : bytes) : bytes :=
  match b with
  | [] => []
  | c :: rest =>
      if is_continuation c then c :: take_chars_bytes n rest
      else match n with O => [] | S n' => c :: take_chars_bytes n' rest end
  end.
Definition take_chars (n : nat) (s : string) : string := of_bytes (take_chars_bytes n (to_bytes s)).

(** [s.split(sep)] for an ASCII separator: never empty, one more piece than separators. *)
Fixpoint split_bytes (sep : u8) (b : bytes) : list bytes :=
  match b with
  | [] => [[]]
  | c :: rest =>
      if bool_decide (c = sep) then [] :: split_bytes sep rest
      else match split_bytes sep rest with
           | piece :: more => (c :: piece) :: more
           | [] => [[c]]
           end
  end.
Definition str_split (sep : u8) (s : string) : list string := of_bytes <$> split_bytes sep (to_bytes s).

Definition str_starts_with (p s : string) : bool := String.prefix p s.

(** [s.ends_with(c)] for an ASCII [c]. *)
Definition ends_with_byte (c : u8) (s : string) : bool := bool_decide (last (to_bytes s) = Some c).

Definition is_ascii_lowercase (b : u8) : bool := in_range 97 122 (Z_of_byte b).
Definition is_ascii_uppercase (b : u8) : bool := in_range 65 90 (Z_of_byte b).
Definition is_ascii_digit (b : u8) : bool := in_range 48 57 (Z_of_byte b).

(** [u8::is_ascii_whitespace]: space, tab, line feed, form feed, carriage return. *)
Definition is_ascii_whitespace (b : u8) : bool :=
  let z := Z_of_byte b in (z =? 32) || (z =? 9) || (z =? 10) || (z =? 12) || (z =? 13).

(** [Display] of an integer. *)
Definition show_Z (z : Z) : string := pretty z.

(** Text around a double quote, for messages that quote a name as ["{name}"]. *)
Definition dquote : string := String "034"%char EmptyString.
Definition quoted (s : string) : string := dquote +:+ s +:+ dquote.

(** The two pieces of the standard library whose output depends on Unicode tables; they only
    ever shape the text of an error message.  [fmt_debug] is [format!("{s:?}")] on a string,
    [from_utf8_lossy] is [String::from_utf8_lossy]. *)
Class RustText : Type := { fmt_debug : string -> string; from_utf8_lossy : bytes -> string }.

(** ** Results *)

Inductive result (A E : Type) : Type :=
| Ok (a : A)
| Err (e : E).
Arguments Ok {A E} a.
Arguments Err {A E} e.

Definition result_bind {A B E} (r : result A E) (k : A -> result B E) : result B E :=
  match r with Ok a => k a | Err e => Err e end.
Definition map_err {A E F} (f : E -> F) (r : result A E) : result A F :=
  match r with Ok a => Ok a | Err e => Err (f e) end.
Definition is_ok {A E} (r : result A E) : bool :=
  match r with Ok _ => true | Err _ => false end.

(** [for (index, item) in items.iter().enumerate() { f(index, item)?; }] *)
Fixpoint for_each {A E} (f : Z -> A -> result unit E) (index : Z) (items : list A) : result unit E :=
  match items with
  | [] => Ok tt
  | item :: rest => result_bind (f index item) (fun _ => for_each f (index + 1) rest)
  end.

(** [.map(f).collect::<Result<Vec<_>, _>>()], with the index of each item. *)
Fixpoint try_map {A B E} (f : Z -> A -> result B E) (index : Z) (items : list A) : result (list B) E :=
  match items with
  | [] => Ok []
  | item :: rest =>
      result_bind (f index item) (fun b => result_bind (try_map f (index + 1) rest) (fun bs => Ok (b :: bs)))
  end.

Declare Scope mango_scope.
Delimit Scope mango_scope with mango.
Notation "'let?' x ':=' r 'in' k" := (result_bind r (fun x => k))
  (at level 10, x pattern, r at level 100, k at level 200) : mango_scope.
Global Open Scope mango_scope.

Global Instance result_eq_dec {A E} `{EqDecision A} `{EqDecision E} : EqDecision (result A E).
Proof. solve_decision. Defined.

Lemma result_bind_Ok {A B E} (r : result A E) (k : A -> result B E) b :
  result_bind r k = Ok b <-> exists a, r = Ok a /\ k a = Ok b.
Proof. destruct r; simpl; naive_solver. Qed.

Lemma result_bind_Err {A B E} (r : result A E) (k : A -> result B E) e :
  result_bind r k = Err e <-> r = Err e \/ exists a, r = Ok a /\ k a = Err e.
Proof. destruct r; simpl; naive_solver. Qed.

(** A check followed by the rest of the function. *)
Lemma result_bind_unit {B E} (r : result unit E) (k : result B E) b :
  result_bind r (fun _ => k) = Ok b <-> r = Ok tt /\ k = Ok b.
Proof. destruct r as [[]|]; simpl; naive_solver. Qed.

Lemma for_each_Ok {A E} (f : Z -> A -> result unit E) (P : A -> Prop) items : forall index,
  (forall i x, f i x = Ok tt <-> P x) -> for_each f index items = Ok tt <-> Forall P items.
Proof.
  induction items as [|x items IH]; intros index Hf; simpl; [done|].
  rewrite result_bind_Ok, Forall_cons, <- (Hf index x), <- (IH (index + 1) Hf).
  split; [intros ([] & ? & ?)|intros []]; eauto.
Qed.

Lemma try_map_map {A B C E} (f : Z -> B -> result C E) (g : A -> B) items : forall index,
  try_map f index (map g items) = try_map (fun i a => f i (g a)) index items.
Proof. induction items as [|x items IH]; intros index; simpl; [done|]. by rewrite IH. Qed.

Lemma try_map_total {A B E} (f : Z -> A -> result B E) (g : A -> B) items : forall index,
  Forall (fun x => forall i, f i x = Ok (g x)) items -> try_map f index items = Ok (map g items).
Proof.
  induction items as [|x items IH]; intros index H; simpl; [done|].
  apply Forall_cons in H as [Hx H]. rewrite Hx. simpl. by rewrite IH.
Qed.

Lemma map_err_Ok {A E F} (f : E -> F) (r : result A E) a : map_err f r = Ok a <-> r = Ok a.
Proof. destruct r; simpl; naive_solver. Qed.

(** ** Automation *)

(** Facts that close the routine goals of the session proofs: what an operation leaves alone, and
    the reflexivity of the relations between states. *)
Create HintDb mango.

(** Case analysis on the head of a [match] or [if] in the goal or in a hypothesis, keeping
    the equation. *)
Ltac case_step :=
  match goal with
  | |- context [match ?x with _ => _ end] => destruct x eqn:?; simplify_eq/=
  | H : context [match ?x with _ => _ end] |- _ => destruct x eqn:?; simplify_eq/=
  end.

(** Boolean tests of the code turned into propositions for [lia]. *)
Ltac bools :=
  repeat match goal with
  | H : _ && _ = true |- _ => apply andb_true_iff in H as [? ?]
  | H : _ || _ = false |- _ => apply orb_false_iff in H as [? ?]
  | H : negb _ = true |- _ => apply negb_true_iff in H
  | H : negb _ = false |- _ => apply negb_false_iff in H
  | H : (_ <=? _) = true |- _ => apply Z.leb_le in H
  | H : (_ <=? _) = false |- _ => apply Z.leb_gt in H
  | H : (_ <? _) = true |- _ => apply Z.ltb_lt in H
  | H : (_ <? _) = false |- _ => apply Z.ltb_ge in H
  | H : (_ =? _) = true |- _ => apply Z.eqb_eq in H
  | H : (_ =? _) = false |- _ => apply Z.eqb_neq in H
  | H : bool_decide _ = true |- _ => apply bool_decide_eq_true in H
  | H : bool_decide _ = false |- _ => apply bool_decide_eq_false in H
  end.

Lemma in_range_spec lo hi v : in_range lo hi v = true <-> lo <= v <= hi.
Proof. unfold in_range. rewrite andb_true_iff, !Z.leb_le. lia. Qed.

(** ** Lists *)

Lemma len_app {A} (l k : list A) : len (l ++ k) = len l + len k.
Proof. unfold len. rewrite length_app. lia. Qed.

Lemma len_nonneg {A} (l : list A) : 0 <= len l.
Proof. unfold len. lia. Qed.

Lemma len_cons {A} (x : A) l : len (x :: l) = 1 + len l.
Proof. unfold len. simpl. lia. Qed.

Lemma forallb_Forall {A} (p : A -> bool) (l : list A) :
  forallb p l = true <-> Forall (fun x => p x = true) l.
Proof.
  induction l as [|x l IH]; simpl; [done|].
  rewrite andb_true_iff, Forall_cons, IH. done.
Qed.

Lemma len_nil {A} : len (@nil A) = 0.
Proof. done. Qed.

(** ** Bytes and strings *)

Lemma of_to_bytes s : of_bytes (to_bytes s) = s.
Proof. apply String.string_of_list_ascii_of_string. Qed.

Lemma to_of_bytes b : to_bytes (of_bytes b) = b.
Proof. apply String.list_ascii_of_string_of_list_ascii. Qed.

Global Instance to_bytes_inj : Inj (=) (=) to_bytes.
Proof. intros s t H. by rewrite <- (of_to_bytes s), <- (of_to_bytes t), H. Qed.

Lemma to_bytes_app s t : to_bytes (s +:+ t) = to_bytes s ++ to_bytes t.
Proof. induction s; simpl; [done|]. unfold to_bytes in *. simpl. by f_equal. Qed.

Lemma Z_of_byte_N b : Z_of_byte b = Z.of_N (N_of_ascii b).
Proof. by destruct b as [[] [] [] [] [] [] [] []]. Qed.

Lemma Z_of_byte_range b : 0 <= Z_of_byte b < 256.
Proof.
  rewrite Z_of_byte_N. pose proof (N_ascii_bounded b). lia.
Qed.

Lemma Z_of_byte_of_Z z : Z_of_byte (byte_of_Z z) = Z.land z 255.
Proof.
  rewrite Z_of_byte_N. unfold byte_of_Z.
  assert (0 <= Z.land z 255 < 256) as Hb.
  { change 255 with (Z.ones 8). rewrite Z.land_ones by lia. apply Z.mod_pos_bound. lia. }
  rewrite N_ascii_embedding by lia. lia.
Qed.

Global Instance Z_of_byte_inj : Inj (=) (=) Z_of_byte.
Proof.
  intros a b H. rewrite !Z_of_byte_N in H. apply N2Z.inj in H.
  by rewrite <- (ascii_N_embedding a), <- (ascii_N_embedding b), H.
Qed.

(** The big-endian header fields survive their encoding: bit by bit, every bit of a 32-bit
    value lands in exactly one of the four bytes. *)
Lemma from_to_be_bytes z a b c d :
  0 <= z <= u32_max -> to_be_bytes z = [a; b; c; d] -> from_be_bytes a b c d = z.
Proof.
  unfold to_be_bytes, from_be_bytes, u32_max. intros Hz [= <- <- <- <-].
  rewrite !Z_of_byte_of_Z. apply Z.bits_inj'. intros n Hn.
  rewrite !Z.lor_spec, !Z.shiftl_spec, !Z.land_spec by lia.
  change 255 with (Z.ones 8).
  assert (Hhi : 32 <= n -> Z.testbit z n = false).
  { intros. apply Z.bits_above_log2; [lia|].
    destruct (decide (z = 0)) as [->|]; [simpl; lia|].
    apply Z.log2_lt_pow2; [lia|]. eapply Z.lt_le_trans with (2 ^ 32); [lia|].
    apply Z.pow_le_mono_r; lia. }
  rewrite !Z.testbit_ones by lia.
  destruct (decide (n < 8)), (decide (n < 16)), (decide (n < 24)), (decide (n < 32)); try lia;
    repeat match goal with
    | |- context [Z.testbit (Z.shiftr z ?k) (n - ?j)] =>
        destruct (decide (n < j));
          [rewrite (Z.testbit_neg_r (Z.shiftr z k) (n - j)) by lia
          |rewrite (Z.shiftr_spec z k (n - j)) by lia]
    end;
    repeat match goal with
    | |- context [0 <=? ?x] => destruct (Z.leb_spec 0 x); try lia
    | |- context [?x <? 8] => destruct (Z.ltb_spec x 8); try lia
    end;
    rewrite ?Bool.andb_false_r, ?Bool.andb_true_r, ?Bool.orb_false_r, ?Bool.orb_false_l; simpl;
    rewrite ?Hhi by lia; try done; f_equal; lia.
Qed.

(** ** Cutting a string at a character *)

Lemma is_continuation_range c : is_continuation c = in_range 128 191 (Z_of_byte c).
Proof. destruct c as [[] [] [] [] [] [] [] []]; reflexivity. Qed.

Lemma continuation_in lo hi c :
  128 <= lo -> hi <= 191 -> in_range lo hi (Z_of_byte c) = true -> is_continuation c = true.
Proof. rewrite is_continuation_range, !in_range_spec. lia. Qed.

Lemma not_continuation c : Z_of_byte c <= 127 \/ 192 <= Z_of_byte c -> is_continuation c = false.
Proof.
  intros H. rewrite is_continuation_range. destruct (in_range _ _ _) eqn:E; [|done].
  apply in_range_spec in E. lia.
Qed.

Lemma take_chars_bytes_count b : forall n,
  len (filter (fun c => negb (is_continuation c) = true) (take_chars_bytes n b)) <= Z.of_nat n.
Proof.
  induction b as [|c b IH]; intros n; simpl; [unfold len; simpl; lia|].
  destruct (is_continuation c) eqn:E.
  { rewrite filter_cons_False by (rewrite E; done). apply IH. }
  destruct n as [|n]; [unfold len; simpl; lia|]. rewrite filter_cons_True by (rewrite E; done).
  rewrite len_cons. specialize (IH n). lia.
Qed.

Lemma chars_count_take n s : chars_count (take_chars n s) <= Z.of_nat n.
Proof. unfold chars_count, take_chars. rewrite to_of_bytes. apply take_chars_bytes_count. Qed.

(** One character: its first byte and the continuation bytes after it. *)
Lemma take_chars_bytes_char n c tail rest :
  is_continuation c = false -> Forall (fun b => is_continuation b = true) tail ->
  take_chars_bytes (S n) (c :: tail ++ rest) = c :: tail ++ take_chars_bytes n rest.
Proof.
  intros Hc Ht. simpl. rewrite Hc. f_equal. induction Ht as [|t tail Htt _ IH]; [done|].
  simpl. by rewrite Htt, IH.
Qed.

Lemma take_chars_utf8 b : is_utf8 b = true -> forall n, is_utf8 (take_chars_bytes n b) = true.
Proof.
  induction b as [b IH] using (induction_ltof1 _ (@length u8)). unfold ltof in IH.
  intros Hb n. destruct b as [|a r]; [done|].
  assert (Hchar : forall tail rest, is_continuation a = false -> Forall (fun b => is_continuation b = true) tail ->
    r = tail ++ rest -> is_utf8 rest = true ->
    (forall t, is_utf8 t = true -> is_utf8 (a :: tail ++ t) = true) ->
    is_utf8 (take_chars_bytes n (a :: r)) = true).
  { intros tail rest Ha Ht -> Hrest Hk. destruct n as [|n]; [simpl; by rewrite Ha|].
    rewrite take_chars_bytes_char by done. apply Hk, IH; [|done]. simpl. rewrite length_app. lia. }
  simpl in Hb. destruct (Z.leb_spec (Z_of_byte a) 127) as [Hz|Hz].
  { apply (Hchar [] r); try done; [by apply not_continuation; auto|].
    apply Z.leb_le in Hz. intros t Ht. simpl. by rewrite Hz. }
  destruct r as [|b1 r1]; [done|].
  destruct (in_range 194 223 (Z_of_byte a)) eqn:H2.
  { bools. apply (Hchar [b1] r1); try done.
    - apply not_continuation. apply in_range_spec in H2. lia.
    - repeat constructor. by eapply (continuation_in 128 191).
    - intros t Ht. simpl. rewrite (proj2 (Z.leb_gt _ _) Hz), H2. by rewrite H, Ht. }
  destruct r1 as [|b2 r2]; [done|].
  destruct (in_range 224 239 (Z_of_byte a)) eqn:H3.
  { bools. apply (Hchar [b1; b2] r2); try done.
    - apply not_continuation. apply in_range_spec in H3. lia.
    - repeat constructor; [|by eapply (continuation_in 128 191)].
      destruct (_ =? 224); [by eapply (continuation_in 160 191)|].
      destruct (_ =? 237); [by eapply (continuation_in 128 159)|by eapply (continuation_in 128 191)].
    - intros t Ht. simpl. rewrite (proj2 (Z.leb_gt _ _) Hz), H2, H3, Ht. by rewrite !andb_true_iff. }
  destruct r2 as [|b3 r3]; [done|].
  bools. apply (Hchar [b1; b2; b3] r3); try done.
  - apply not_continuation. match goal with H : in_range 240 244 _ = true |- _ => apply in_range_spec in H end. lia.
  - repeat constructor; try by eapply (continuation_in 128 191).
    destruct (_ =? 240); [by eapply (continuation_in 144 191)|].
    destruct (_ =? 244); [by eapply (continuation_in 128 143)|by eapply (continuation_in 128 191)].
  - intros t Ht. simpl. rewrite (proj2 (Z.leb_gt _ _) Hz), H2, H3, Ht. by rewrite !andb_true_iff.
Qed.

Lemma take_chars_ok n s : str_ok s = true -> str_ok (take_chars n s) = true.
Proof. unfold str_ok, take_chars. rewrite to_of_bytes. intros H. by apply take_chars_utf8. Qed.

(** ** Cutting a string at a byte *)

(** A prefix that ends at a character is a number of characters. *)
Lemma take_boundary b : forall k,
  (forall c, b !! k = Some c -> is_continuation c = false) ->
  take k b = take_chars_bytes (length (filter (fun c => negb (is_continuation c) = true) (take k b))) b.
Proof.
  induction b as [|c b IH]; intros k Hk; [by rewrite take_nil|]. destruct k as [|k]; cbn [take].
  - cbn. specialize (Hk c eq_refl). by rewrite Hk.
  - destruct (is_continuation c) eqn:E; cbn [take_chars_bytes]; rewrite E.
    + rewrite filter_cons_False by (by rewrite E). f_equal. by apply IH.
    + rewrite filter_cons_True by (by rewrite E). cbn [length]. f_equal. by apply IH.
Qed.

Lemma take_boundary_utf8 b k :
  is_utf8 b = true -> (forall c, b !! k = Some c -> is_continuation c = false) -> is_utf8 (take k b) = true.
Proof. intros Hb Hk. rewrite take_boundary by done. by apply take_chars_utf8. Qed.

(** What follows whole characters is well-formed on its own. *)
Lemma is_utf8_app p : forall q, is_utf8 p = true -> is_utf8 (p ++ q) = is_utf8 q.
Proof.
  induction p as [p IH] using (induction_ltof1 _ (@length u8)). unfold ltof in IH. intros q Hp.
  destruct p as [|a r]; [done|]. cbn in Hp |- *. destruct (_ <=? 127); [apply IH; [cbn; lia|done]|].
  destruct r as [|b1 r1]; [done|]. cbn [app]. destruct (in_range 194 223 _).
  { bools. rewrite IH by (cbn; lia || done). by rewrite H. }
  destruct r1 as [|b2 r2]; [done|]. cbn [app]. destruct (in_range 224 239 _).
  { bools. rewrite IH by (cbn; lia || done). rewrite H, H1. done. }
  destruct r2 as [|b3 r3]; [done|]. cbn [app]. bools. rewrite IH by (cbn; lia || done).
  repeat match goal with H : _ = true |- _ => rewrite H; clear H end. done.
Qed.

Lemma is_utf8_first c b : is_utf8 (c :: b) = true -> is_continuation c = false.
Proof.
  intros H. apply not_continuation. cbn in H. destruct (Z.leb_spec (Z_of_byte c) 127); [by left|right].
  destruct b as [|b1 b]; [done|].
  destruct (in_range 194 223 _) eqn:E2; [apply in_range_spec in E2; lia|].
  destruct b as [|b2 b]; [done|].
  destruct (in_range 224 239 _) eqn:E3; [apply in_range_spec in E3; lia|].
  destruct b as [|b3 b]; [done|]. bools. match goal with H : in_range 240 244 _ = true |- _ => apply in_range_spec in H end. lia.
Qed.
