(* ===== verification/Text.v ===== *)
(** * Text operations of the standard library

    The [str] methods the transports use beyond those of the prelude: characters with their code
    points, trimming, lines, splitting at a separator, case and substrings.  A string is its UTF-8
    bytes; on bytes that are not well-formed the functions stop at the first incomplete character,
    which no Rust string has. *)

From S2P Require Import Prelude.
Local Open Scope Z_scope.

(** ** Characters *)

(** [str::chars] of well-formed UTF-8: each code point with its bytes. *)
Fixpoint chars (b : bytes) : list (Z * bytes) :=
  match b with
  | [] => []
  | a :: r =>
      let z := Z_of_byte a in
      let low b := Z.land (Z_of_byte b) 63 in
      if z <=? 127 then (z, [a]) :: chars r
      else match r with
      | b1 :: r1 =>
          if z <=? 223 then (Z.lor (Z.shiftl (Z.land z 31) 6) (low b1), [a; b1]) :: chars r1
          else match r1 with
          | b2 :: r2 =>
              if z <=? 239
              then (Z.lor (Z.shiftl (Z.land z 15) 12) (Z.lor (Z.shiftl (low b1) 6) (low b2)), [a; b1; b2]) :: chars r2
              else match r2 with
              | b3 :: r3 =>
                  (Z.lor (Z.shiftl (Z.land z 7) 18)
                     (Z.lor (Z.shiftl (low b1) 12) (Z.lor (Z.shiftl (low b2) 6) (low b3))), [a; b1; b2; b3]) :: chars r3
              | [] => []
              end
          | [] => []
          end
      | [] => []
      end
  end.

(** [char::is_whitespace]: the White_Space property of Unicode. *)
Definition is_whitespace (c : Z) : bool :=
  in_range 9 13 c || (c =? 32) || (c =? 133) || (c =? 160) || (c =? 5760) || in_range 8192 8202 c ||
  (c =? 8232) || (c =? 8233) || (c =? 8239) || (c =? 8287) || (c =? 12288).

Definition any_whitespace (s : string) : bool := existsb (fun c => is_whitespace c.1) (chars (to_bytes s)).

Fixpoint drop_while {A} (p : A -> bool) (l : list A) : list A :=
  match l with
  | [] => []
  | x :: l' => if p x then drop_while p l' else l
  end.

(** [str::trim]. *)
Definition trim_chars (cs : list (Z * bytes)) : list (Z * bytes) :=
  let blank c := is_whitespace c.1 in rev (drop_while blank (rev (drop_while blank cs))).
Definition str_trim (s : string) : string := of_bytes (concat (map snd (trim_chars (chars (to_bytes s))))).

(** ** Lines and pieces *)

Definition line_feed : u8 := "010"%char.
Definition carriage_return : u8 := "013"%char.

Definition strip_last (c : u8) (b : bytes) : bytes :=
  match rev b with
  | d :: r => if bool_decide (d = c) then rev r else b
  | [] => b
  end.

(** [str::lines]: no last line after the last terminator; [\r\n] ends a line too. *)
Definition str_lines (s : string) : list string :=
  let pieces := split_bytes line_feed (to_bytes s) in
  let pieces := match rev pieces with [] :: r => rev r | _ => pieces end in
  map (fun b => of_bytes (strip_last carriage_return b)) pieces.

(** [str::split_once] at an ASCII separator. *)
Fixpoint split_once_bytes (sep : u8) (b : bytes) : option (bytes * bytes) :=
  match b with
  | [] => None
  | c :: r =>
      if bool_decide (c = sep) then Some ([], r)
      else option_map (fun '(x, y) => (c :: x, y)) (split_once_bytes sep r)
  end.
Definition split_once (sep : u8) (s : string) : option (string * string) :=
  option_map (fun '(x, y) => (of_bytes x, of_bytes y)) (split_once_bytes sep (to_bytes s)).

(** ** Case and substrings *)

Definition ascii_lower (c : u8) : u8 := if is_ascii_uppercase c then byte_of_Z (Z_of_byte c + 32) else c.
Definition ascii_upper (c : u8) : u8 := if is_ascii_lowercase c then byte_of_Z (Z_of_byte c - 32) else c.
Definition ascii_lowercase (s : string) : string := of_bytes (map ascii_lower (to_bytes s)).

(** [str::eq_ignore_ascii_case]. *)
Definition eq_ignore_ascii_case (s t : string) : bool :=
  bool_decide (map ascii_lower (to_bytes s) = map ascii_lower (to_bytes t)).

(** [str::starts_with], [ends_with] and [contains] of a byte string. *)
Fixpoint bytes_prefix (p b : bytes) : bool :=
  match p, b with
  | [], _ => true
  | c :: p, d :: b => bool_decide (c = d) && bytes_prefix p b
  | _ :: _, [] => false
  end.
Fixpoint bytes_contain (p b : bytes) : bool :=
  bytes_prefix p b || match b with [] => false | _ :: b => bytes_contain p b end.
Definition str_ends_with (p s : string) : bool := bytes_prefix (rev (to_bytes p)) (rev (to_bytes s)).
Definition str_contains (p s : string) : bool := bytes_contain (to_bytes p) (to_bytes s).

(** [str::to_uppercase] depends on Unicode tables; only ASCII letters are fixed here. *)
Class UnicodeCase : Type := { to_uppercase : string -> string }.
Class UnicodeCaseLaws `{UnicodeCase} : Prop := {
  to_uppercase_ascii s : forallb (fun c => Z_of_byte c <=? 127) (to_bytes s) = true ->
    to_uppercase s = of_bytes (map ascii_upper (to_bytes s))
}.

(** ** Lemmas *)

Lemma bytes_prefix_spec p b : bytes_prefix p b = true <-> exists r, b = p ++ r.
Proof.
  revert b. induction p as [|c p IH]; intros b; cbn; [split; [by exists b|done]|].
  destruct b as [|d b]; [split; [done|by intros [r ?]]|]. rewrite andb_true_iff, bool_decide_eq_true, IH.
  split; [intros (-> & r & ->); by exists r|intros (r & [= -> ->]); split; [done|by exists r]].
Qed.

Lemma bytes_contain_spec p b : bytes_contain p b = true <-> exists l r, b = l ++ p ++ r.
Proof.
  induction b as [|c b IH]; cbn [bytes_contain]; rewrite orb_true_iff, bytes_prefix_spec.
  - split; [intros [[r Hr]|?]; [by exists [], r|done]|]. intros (l & r & H). left. exists r. destruct l; [done|discriminate].
  - rewrite IH. split.
    + intros [[r Hr]|(l & r & ->)]; [by exists [], r|by exists (c :: l), r].
    + intros (l & r & H). destruct l as [|d l]; [left; by exists r|]. right. injection H as -> ->. by exists l, r.
Qed.

Lemma str_ends_with_spec p s : str_ends_with p s = true <-> exists l, s = l +:+ p.
Proof.
  unfold str_ends_with. rewrite bytes_prefix_spec. split.
  - intros [r Hr]. exists (of_bytes (rev r)). apply to_bytes_inj. rewrite to_bytes_app, to_of_bytes.
    rewrite <- (rev_involutive (to_bytes s)), Hr, rev_app_distr, rev_involutive. done.
  - intros [l ->]. exists (rev (to_bytes l)). rewrite to_bytes_app, rev_app_distr. done.
Qed.

Lemma split_once_at sep l r : ~ In sep l -> split_once_bytes sep (l ++ sep :: r) = Some (l, r).
Proof.
  induction l as [|c l IH]; cbn; intros H.
  - by rewrite bool_decide_true.
  - rewrite bool_decide_false by (intros ->; apply H; by left). rewrite IH by (intros ?; apply H; by right). done.
Qed.

Lemma str_starts_with_spec p : forall s, str_starts_with p s = true <-> exists rest, s = p +:+ rest.
Proof.
  unfold str_starts_with. induction p as [|c p IH]; intros s; [split; [by exists s|by destruct s]|].
  destruct s as [|d s]; cbn; [split; [done|by intros [rest ?]]|].
  destruct (ascii_dec c d) as [->|Hne]; [|split; [done|]; intros [rest [= ? ?]]; congruence].
  rewrite IH. split; intros [rest H]; exists rest; [by rewrite H|by injection H].
Qed.

Lemma str_contains_spec p s : str_contains p s = true <-> exists l r, s = l +:+ p +:+ r.
Proof.
  unfold str_contains. rewrite bytes_contain_spec. split; intros (l & r & H).
  - exists (of_bytes l), (of_bytes r). apply to_bytes_inj. by rewrite !to_bytes_app, !to_of_bytes.
  - exists (to_bytes l), (to_bytes r). by rewrite H, !to_bytes_app.
Qed.
