(* ===== verification/Json.v ===== *)
(** * JSON values

    The data model of [serde_json::Value] and its ordered [Map], which the frames, the error
    details and the catalog carry.  The crate builds [serde_json] without [preserve_order], so a
    [Map] is a [BTreeMap]: a key-sorted association list here.  Only the operations the sources
    call are defined ([Map::get], [Map::insert], [Value::is_object], the [From] conversions),
    with the two measures that bound which values survive a text round trip: nesting depth and
    the absence of floating-point numbers. *)

From S2P Require Import Prelude.
Local Open Scope Z_scope.

(** A JSON number: [u64], negative [i64], or a finite [f64] named by the text it prints as. *)
Inductive Number : Type :=
| PosInt (n : Z)
| NegInt (n : Z)
| Float (repr : string).

#[warnings="-register-all"]
Inductive Value : Type :=
| Null
| VBool (b : bool)
| VNumber (n : Number)
| VString (s : string)
| VArray (items : list Value)
| VObject (members : list (string * Value)).

Abbreviation Map := (list (string * Value)) (only parsing).

Section value_ind.
Variable P : Value -> Prop.
Hypothesis HNull : P Null.
Hypothesis HBool : forall b, P (VBool b).
Hypothesis HNumber : forall n, P (VNumber n).
Hypothesis HString : forall s, P (VString s).
Hypothesis HArray : forall l, Forall P l -> P (VArray l).
Hypothesis HObject : forall m, Forall (fun kv => P kv.2) m -> P (VObject m).

(** Induction through the two nested lists. *)
Fixpoint value_nested_ind (v : Value) : P v :=
  match v with
  | Null => HNull
  | VBool b => HBool b
  | VNumber n => HNumber n
  | VString s => HString s
  | VArray l =>
      HArray l ((fix go (l : list Value) : Forall P l :=
        match l with
        | [] => Forall_nil_2 P
        | x :: r => Forall_cons_2 P x r (value_nested_ind x) (go r)
        end) l)
  | VObject m =>
      HObject m ((fix go (m : Map) : Forall (fun kv => P kv.2) m :=
        match m with
        | [] => Forall_nil_2 _
        | kv :: r => Forall_cons_2 _ kv r (value_nested_ind kv.2) (go r)
        end) m)
  end.
End value_ind.

Global Instance Number_eq_dec : EqDecision Number.
Proof. solve_decision. Defined.

Global Instance Value_eq_dec : EqDecision Value.
Proof.
  unfold EqDecision, Decision. fix IH 1. intros [|b|n|s|l|m] [|b'|n'|s'|l'|m'];
    try (right; discriminate).
  - left; done.
  - destruct (decide (b = b')); [left|right]; congruence.
  - destruct (decide (n = n')); [left|right]; congruence.
  - destruct (decide (s = s')); [left|right]; congruence.
  - assert (Decision (l = l')) as [|]; [|left; congruence|right; congruence].
    revert l'. induction l as [|x l IHl]; intros [|x' l']; try (right; discriminate); [by left|].
    destruct (IH x x'); [|right; congruence].
    destruct (IHl l'); [left|right]; congruence.
  - assert (Decision (m = m')) as [|]; [|left; congruence|right; congruence].
    revert m'. induction m as [|[k x] m IHm]; intros [|[k' x'] m']; try (right; discriminate);
      [by left|].
    destruct (decide (k = k')); [|right; congruence].
    destruct (IH x x'); [|right; congruence].
    destruct (IHm m'); [left|right]; congruence.
Defined.

(** ** The map operations *)

(** [Map::get]. *)
Fixpoint map_get (k : string) (m : Map) : option Value :=
  match m with
  | [] => None
  | (k', v) :: r => if bool_decide (k = k') then Some v else map_get k r
  end.

(** [Map::insert]: replaces in place, or inserts at the key's place in the order. *)
Fixpoint map_insert (k : string) (v : Value) (m : Map) : Map :=
  match m with
  | [] => [(k, v)]
  | (k', v') :: r =>
      match String.compare k k' with
      | Lt => (k, v) :: m
      | Eq => (k, v) :: r
      | Gt => (k', v') :: map_insert k v r
      end
  end.

(** [Value::is_object]. *)
Definition is_object (v : Value) : bool := match v with VObject _ => true | _ => false end.

(** ** The [From] conversions the sources use *)

Definition from_u64 (n : Z) : Value := VNumber (PosInt n).
Definition from_str (s : string) : Value := VString s.

(** ** Well-formedness: what the Rust types guarantee *)

Definition number_ok (n : Number) : bool :=
  match n with
  | PosInt z => is_u64 z
  | NegInt z => (-9223372036854775808 <=? z) && (z <? 0)
  | Float _ => true
  end.

(** The keys of a [BTreeMap], strictly ascending. *)
Fixpoint keys_sorted (m : Map) : bool :=
  match m with
  | (k, _) :: (((k', _) :: _) as r) =>
      match String.compare k k' with Lt => keys_sorted r | _ => false end
  | _ => true
  end.

Fixpoint value_ok (v : Value) : bool :=
  match v with
  | VNumber n => number_ok n
  | VString s => str_ok s
  | VArray l => forallb value_ok l
  | VObject m => keys_sorted m && forallb (fun kv => str_ok kv.1 && value_ok kv.2) m
  | _ => true
  end.

(** No floating-point number anywhere: without the [float_roundtrip] feature, which the crate
    does not enable, a float may come back rounded. *)
Fixpoint float_free (v : Value) : bool :=
  match v with
  | VNumber (Float _) => false
  | VArray l => forallb float_free l
  | VObject m => forallb (fun kv => float_free kv.2) m
  | _ => true
  end.

(** Nesting depth: [serde_json] refuses to parse past a depth of 127. *)
Fixpoint depth (v : Value) : Z :=
  match v with
  | VArray l => 1 + foldr (fun x d => Z.max (depth x) d) 0 l
  | VObject m => 1 + foldr (fun kv d => Z.max (depth kv.2) d) 0 m
  | _ => 0
  end.

(** ** Lemmas *)

Lemma string_compare_refl s : String.compare s s = Eq.
Proof.
  induction s as [|a s IH]; simpl; [done|].
  unfold Ascii.compare. by rewrite N.compare_refl.
Qed.

Lemma string_compare_trans a b c :
  String.compare a b = Lt -> String.compare b c = Lt -> String.compare a c = Lt.
Proof.
  revert b c. induction a as [|x a IH]; intros [|y b] [|z c]; simpl; try done.
  unfold Ascii.compare.
  destruct (N.compare_spec (N_of_ascii x) (N_of_ascii y)),
    (N.compare_spec (N_of_ascii y) (N_of_ascii z)),
    (N.compare_spec (N_of_ascii x) (N_of_ascii z)); intros; try done; try lia; eauto.
Qed.

(** The keys that precede a sorted map's suffix are all smaller than its first key. *)
Lemma keys_sorted_before acc k v m :
  keys_sorted (acc ++ (k, v) :: m) = true ->
  Forall (fun kv => String.compare kv.1 k = Lt) acc /\ keys_sorted ((k, v) :: m) = true.
Proof.
  induction acc as [|[j w] acc IH]; [done|]. intros H.
  assert (keys_sorted (acc ++ (k, v) :: m) = true) as Hacc.
  { destruct acc as [|[i u] acc]; simpl in *; case_match; done. }
  destruct (IH Hacc) as [Hall Hs]. split; [|done]. constructor; [|done]. simpl.
  destruct acc as [|[i u] acc]; simpl in H; case_match; try done.
  inversion Hall; simplify_eq/=. by eapply string_compare_trans.
Qed.

Lemma map_insert_last acc k v :
  Forall (fun kv => String.compare kv.1 k = Lt) acc -> map_insert k v acc = acc ++ [(k, v)].
Proof.
  induction 1 as [|[k' v'] acc Hk _ IH]; simpl in *; [done|].
  by rewrite String.compare_antisym, Hk, IH.
Qed.

(** Re-inserting the members of a sorted map in order rebuilds it. *)
Lemma insert_all_sorted m : forall acc,
  keys_sorted (acc ++ m) = true ->
  foldl (fun acc kv => map_insert kv.1 kv.2 acc) acc m = acc ++ m.
Proof.
  induction m as [|[k v] m IH]; intros acc Hs; simpl; [by rewrite app_nil_r|].
  destruct (keys_sorted_before acc k v m Hs) as [Hk _].
  rewrite map_insert_last, IH by (rewrite <- ?app_assoc; done). by rewrite <- app_assoc.
Qed.

Lemma map_get_insert_eq k v m : map_get k (map_insert k v m) = Some v.
Proof.
  induction m as [|[k' v'] r IH]; simpl; [by rewrite bool_decide_true|].
  destruct (String.compare k k') eqn:E; simpl.
  - by rewrite bool_decide_true.
  - by rewrite bool_decide_true.
  - rewrite bool_decide_false; [done|]. intros ->. by rewrite string_compare_refl in E.
Qed.

Lemma map_get_insert_ne k k' v m : k <> k' -> map_get k (map_insert k' v m) = map_get k m.
Proof.
  intros Hne. induction m as [|[j w] r IH]; simpl; [by rewrite bool_decide_false|].
  destruct (String.compare k' j) eqn:E; simpl; rewrite ?(bool_decide_false (k = k')) by done;
    [|done|].
  - apply String.compare_eq_iff in E as ->. by rewrite (bool_decide_false (k = j)).
  - by rewrite IH.
Qed.
