(* ===== verification/Wire.v ===== *)
(** * Versions, close codes and errors

    [version.rs], [close.rs] and [error.rs]: the wire version and its negotiation rule, the
    close-code table with its fatal set, the reserved error codes, the codec's refusal type and
    the error a requester sees. *)

From S2P Require Import Prelude Json.
Local Open Scope Z_scope.

(** ** [version.rs] *)

Record ProtocolVersion : Type := { major : Z; minor : Z }.

Global Instance ProtocolVersion_eq_dec : EqDecision ProtocolVersion.
Proof. solve_decision. Defined.

Definition version_new (major minor : Z) : ProtocolVersion := {| major := major; minor := minor |}.

Definition PROTOCOL_VERSION : ProtocolVersion := version_new 1 1.
Definition PROTOCOL_MAJOR : Z := 1.
Definition PROTOCOL_MINOR : Z := 1.

Inductive Negotiation : Type :=
| Compatible (effective_minor : Z)
| Mismatch (close_code : Z).

Global Instance Negotiation_eq_dec : EqDecision Negotiation.
Proof. solve_decision. Defined.

Definition negotiated_minor (n : Negotiation) : option Z :=
  match n with
  | Compatible effective_minor => Some effective_minor
  | Mismatch _ => None
  end.

(** ** [close.rs] *)

Module close_codes.
Definition RELEASED : Z := 4000.
Definition PROTOCOL_ERROR : Z := 4400.
Definition UNAUTHORIZED : Z := 4401.
Definition FORBIDDEN : Z := 4403.
Definition SUPERSEDED : Z := 4409.
Definition PROTOCOL_MISMATCH : Z := 4426.
Definition RATE_LIMITED : Z := 4429.
Definition INTERNAL : Z := 4500.
End close_codes.

Definition MIN_CLOSE_CODE : Z := 4000.
Definition MAX_CLOSE_CODE : Z := 4999.

Definition FATAL : list Z :=
  [close_codes.UNAUTHORIZED; close_codes.FORBIDDEN; close_codes.SUPERSEDED;
   close_codes.PROTOCOL_MISMATCH].

Definition is_fatal_close_code (code : Z) : bool := existsb (Z.eqb code) FATAL.

Definition close_code_name (code : Z) : option string :=
  if code =? close_codes.RELEASED then Some "RELEASED"
  else if code =? close_codes.PROTOCOL_ERROR then Some "PROTOCOL_ERROR"
  else if code =? close_codes.UNAUTHORIZED then Some "UNAUTHORIZED"
  else if code =? close_codes.FORBIDDEN then Some "FORBIDDEN"
  else if code =? close_codes.SUPERSEDED then Some "SUPERSEDED"
  else if code =? close_codes.PROTOCOL_MISMATCH then Some "PROTOCOL_MISMATCH"
  else if code =? close_codes.RATE_LIMITED then Some "RATE_LIMITED"
  else if code =? close_codes.INTERNAL then Some "INTERNAL"
  else None.

(** The negotiation rule of [version.rs], which names a close code. *)
Definition negotiate (local remote : ProtocolVersion) : Negotiation :=
  if negb (major local =? major remote)
  then Mismatch close_codes.PROTOCOL_MISMATCH
  else Compatible (Z.min (minor local) (minor remote)).

(** ** [error.rs] *)

Module codes.
Definition UNAVAILABLE : string := "UNAVAILABLE".
Definition INVALID_REQUEST : string := "INVALID_REQUEST".
Definition METHOD_UNSUPPORTED : string := "METHOD_UNSUPPORTED".
Definition INVALID_PARAMS : string := "INVALID_PARAMS".
Definition DENIED : string := "DENIED".
Definition CANCELLED : string := "CANCELLED".
Definition TIMEOUT : string := "TIMEOUT".
Definition FRAME_TOO_LARGE : string := "FRAME_TOO_LARGE".
Definition PROTOCOL_MISMATCH : string := "PROTOCOL_MISMATCH".
Definition INTERNAL : string := "INTERNAL".

Definition RESERVED : list string :=
  [UNAVAILABLE; INVALID_REQUEST; METHOD_UNSUPPORTED; INVALID_PARAMS; DENIED; CANCELLED; TIMEOUT;
   FRAME_TOO_LARGE; PROTOCOL_MISMATCH; INTERNAL].
End codes.

Definition is_reserved_error_code (code : string) : bool := existsb (String.eqb code) codes.RESERVED.

Inductive CodecErrorKind : Type :=
| InvalidJson | Schema | TooLarge | ChunkVersion | ChunkHeader | ChunkCount | ChunkIndex
| ChunkDribble.

Global Instance CodecErrorKind_eq_dec : EqDecision CodecErrorKind.
Proof. solve_decision. Defined.

Definition reason (kind : CodecErrorKind) : string :=
  match kind with
  | InvalidJson => "invalid-json"
  | Schema => "schema"
  | TooLarge => "too-large"
  | ChunkVersion => "chunk-version"
  | ChunkHeader => "chunk-header"
  | ChunkCount => "chunk-count"
  | ChunkIndex => "chunk-index"
  | ChunkDribble => "chunk-dribble"
  end.

Record CodecError : Type := mkCodecError
  { kind : CodecErrorKind; message : string; frame_type : option string }.

Global Instance CodecError_eq_dec : EqDecision CodecError.
Proof. solve_decision. Defined.

Definition codec_error (k : CodecErrorKind) (m : string) : CodecError :=
  {| kind := k; message := m; frame_type := None |}.

Definition with_frame_type (e : CodecError) (t : string) : CodecError :=
  {| kind := kind e; message := message e; frame_type := Some t |}.

Definition show_codec_error (e : CodecError) : string := reason (kind e) +:+ ": " +:+ message e.

(** [close.rs] again: the code a decoder closes with when it refuses bytes. *)
Definition close_code_for_codec_error (e : CodecError) : Z :=
  if bool_decide (kind e = Schema) && bool_decide (frame_type e = Some "hello")
  then close_codes.PROTOCOL_MISMATCH
  else close_codes.PROTOCOL_ERROR.

Record RemoteError : Type := mkRemoteError
  { re_code : string; re_message : string; re_details : option Map }.

Global Instance RemoteError_eq_dec : EqDecision RemoteError.
Proof. solve_decision. Defined.

Definition remote_error (code message : string) : RemoteError :=
  {| re_code := code; re_message := message; re_details := None |}.

Definition with_details (e : RemoteError) (details : Map) : RemoteError :=
  {| re_code := re_code e; re_message := re_message e; re_details := Some details |}.

(** [get_or_insert_with(Map::new).insert(key, value)]. *)
Definition with_detail (e : RemoteError) (key : string) (v : Value) : RemoteError :=
  {| re_code := re_code e; re_message := re_message e;
     re_details := Some (map_insert key v (default [] (re_details e))) |}.

Definition show_remote_error (e : RemoteError) : string := re_code e +:+ ": " +:+ re_message e.

(** ** Lemmas *)

(** [negotiate] is a function of the unordered pair of versions. *)
Lemma negotiate_comm a b : negotiate a b = negotiate b a.
Proof.
  unfold negotiate. rewrite (Z.eqb_sym (major a)), (Z.min_comm (minor a)). done.
Qed.

Lemma reason_inj : Inj (=) (=) reason.
Proof. by intros [] []. Qed.

Lemma with_detail_get e k v m :
  re_details (with_detail e k v) = Some m -> map_get k m = Some v.
Proof. simpl. intros [= <-]. apply map_get_insert_eq. Qed.

(** ** Properties *)

(** Negotiation, spec section 5.2.  The two peers run [negotiate] with the arguments
    swapped and reach the same outcome: either both see the lower of the two announced minors,
    which neither exceeds, or both see a mismatch and close with the one fatal code for it. *)
Lemma negotiate_agreement (local remote : ProtocolVersion) :
  negotiate local remote = negotiate remote local /\
  match negotiate local remote with
  | Compatible m =>
      major local = major remote /\ m <= minor local /\ m <= minor remote /\
      (m = minor local \/ m = minor remote)
  | Mismatch c =>
      major local <> major remote /\ c = 4426 /\ is_fatal_close_code c = true
  end.
Proof.
  split; [apply negotiate_comm|]. unfold negotiate.
  destruct (Z.eqb_spec (major local) (major remote)); simpl; [lia|done].
Qed.

(** Close codes, spec section 10.  The fatal set is exactly 4401, 4403, 4409 and 4426;
    every fatal code is named in the table; and a refusal closes with a fatal code exactly when
    it is a schema refusal of a [hello]. *)
Theorem fatal_set_exact (code : Z) (e : CodecError) :
  (is_fatal_close_code code = true <-> code = 4401 \/ code = 4403 \/ code = 4409 \/ code = 4426) /\
  (is_fatal_close_code code = true -> is_Some (close_code_name code)) /\
  (is_fatal_close_code (close_code_for_codec_error e) = true <->
     kind e = Schema /\ frame_type e = Some "hello").
Proof.
  assert (is_fatal_close_code code = true <->
    code = 4401 \/ code = 4403 \/ code = 4409 \/ code = 4426) as Hf.
  { unfold is_fatal_close_code. simpl. rewrite !orb_true_iff, !Z.eqb_eq.
    unfold close_codes.UNAUTHORIZED, close_codes.FORBIDDEN, close_codes.SUPERSEDED,
      close_codes.PROTOCOL_MISMATCH. naive_solver. }
  split; [done|]. split.
  - rewrite Hf. intros [->|[->|[->| ->]]]; by eexists.
  - unfold close_code_for_codec_error.
    destruct (decide (kind e = Schema)), (decide (frame_type e = Some "hello"));
      rewrite ?bool_decide_true, ?bool_decide_false by done; simpl; naive_solver.
Qed.
