(* ===== verification/Frame.v ===== *)
(** * The frame types

    [frame.rs]: the nine frame types of wire 1 and their members, and what their Rust types
    guarantee before any validation runs ([frame_typed]).  How a frame becomes JSON text is
    the business of [Serde.v]. *)

From S2P Require Import Prelude Json Wire.
Local Open Scope Z_scope.

(** The [end] marker of an [evt]. *)
Inductive End : Type := TheEnd.

Record PeerInfo : Type := { peer_name : string; peer_version : string; peer_role : string }.

Record Limits : Type := { max_frame_bytes : option Z; max_in_flight : option Z }.

Record Hello : Type :=
  { hello_protocol : ProtocolVersion;
    hello_peer : PeerInfo;
    hello_capabilities : Map;
    hello_limits : option Limits }.

Record Request : Type := { req_id : string; req_method : string; req_params : Value }.

Record Response : Type := { res_id : string; res_result : Value }.

Record ErrorPayload : Type :=
  { err_code : string; err_message : string; err_details : option Map }.

Record ErrorResponse : Type := { err_id : string; err_error : ErrorPayload }.

Record Event : Type :=
  { evt_topic : string;
    evt_seq : Z;
    evt_stream_id : option string;
    evt_payload : Value;
    evt_end : option End }.

Record Cancel : Type := { cancel_id : string }.

Record Close : Type := { close_code : Z; close_reason : option string }.

Inductive Frame : Type :=
| FHello (hello : Hello)
| FReq (request : Request)
| FRes (response : Response)
| FErr (error : ErrorResponse)
| FEvt (event : Event)
| FCancel (cancel : Cancel)
| FPing
| FPong
| FClose (close : Close).

Definition type_name (f : Frame) : string :=
  match f with
  | FHello _ => "hello"
  | FReq _ => "req"
  | FRes _ => "res"
  | FErr _ => "err"
  | FEvt _ => "evt"
  | FCancel _ => "cancel"
  | FPing => "ping"
  | FPong => "pong"
  | FClose _ => "close"
  end.

(** [Limits::default()]: both members absent. *)
Definition limits_default : Limits := {| max_frame_bytes := None; max_in_flight := None |}.

Global Instance End_eq_dec : EqDecision End.
Proof. solve_decision. Defined.
Global Instance PeerInfo_eq_dec : EqDecision PeerInfo.
Proof. solve_decision. Defined.
Global Instance Limits_eq_dec : EqDecision Limits.
Proof. solve_decision. Defined.
Global Instance Hello_eq_dec : EqDecision Hello.
Proof. solve_decision. Defined.
Global Instance Request_eq_dec : EqDecision Request.
Proof. solve_decision. Defined.
Global Instance Response_eq_dec : EqDecision Response.
Proof. solve_decision. Defined.
Global Instance ErrorPayload_eq_dec : EqDecision ErrorPayload.
Proof. solve_decision. Defined.
Global Instance ErrorResponse_eq_dec : EqDecision ErrorResponse.
Proof. solve_decision. Defined.
Global Instance Event_eq_dec : EqDecision Event.
Proof. solve_decision. Defined.
Global Instance Cancel_eq_dec : EqDecision Cancel.
Proof. solve_decision. Defined.
Global Instance Close_eq_dec : EqDecision Close.
Proof. solve_decision. Defined.
Global Instance Frame_eq_dec : EqDecision Frame.
Proof. solve_decision. Defined.

(** ** What the Rust types guarantee *)

Definition option_ok {A} (p : A -> bool) (o : option A) : bool :=
  match o with Some a => p a | None => true end.

Definition limits_typed (l : Limits) : bool :=
  option_ok is_u64 (max_frame_bytes l) && option_ok is_u64 (max_in_flight l).

(** Integer members inside their width, strings well-formed UTF-8, maps with sorted keys. *)
Definition frame_typed (f : Frame) : bool :=
  match f with
  | FHello h =>
      is_u32 (major (hello_protocol h)) && is_u32 (minor (hello_protocol h)) &&
      str_ok (peer_name (hello_peer h)) && str_ok (peer_version (hello_peer h)) &&
      str_ok (peer_role (hello_peer h)) &&
      value_ok (VObject (hello_capabilities h)) && option_ok limits_typed (hello_limits h)
  | FReq r => str_ok (req_id r) && str_ok (req_method r) && value_ok (req_params r)
  | FRes r => str_ok (res_id r) && value_ok (res_result r)
  | FErr e =>
      str_ok (err_id e) && str_ok (err_code (err_error e)) && str_ok (err_message (err_error e)) &&
      option_ok (fun m => value_ok (VObject m)) (err_details (err_error e))
  | FEvt e =>
      str_ok (evt_topic e) && is_u64 (evt_seq e) && option_ok str_ok (evt_stream_id e) &&
      value_ok (evt_payload e)
  | FCancel c => str_ok (cancel_id c)
  | FClose c => is_u16 (close_code c) && option_ok str_ok (close_reason c)
  | FPing | FPong => true
  end.

(** The JSON values a frame carries. *)
Definition frame_values (f : Frame) : list Value :=
  match f with
  | FHello h => [VObject (hello_capabilities h)]
  | FReq r => [req_params r]
  | FRes r => [res_result r]
  | FErr e => match err_details (err_error e) with Some m => [VObject m] | None => [] end
  | FEvt e => [evt_payload e]
  | _ => []
  end.

(** A frame whose JSON text reads back as the same frame: no float in its values, and values
    that stay inside the parser's nesting limit of 127 below the frame object itself
    ([error.details] sits one object deeper). *)
Definition frame_stable (f : Frame) : bool :=
  frame_typed f &&
  forallb (fun v => float_free v && (depth v <=? 125)) (frame_values f).
