(* ===== verification/Validate.v ===== *)
(** * Frame validation

    [validate.rs]: the lengths, grammars and ranges serde cannot express, with every refusal
    naming the member, the received value and the expected shape.  The grammars are checked
    against the languages the documented regular expressions describe. *)

From S2P Require Import Prelude Json Wire Frame.
Local Open Scope Z_scope.

Definition MAX_ID_CHARS : Z := 256.
Definition MIN_NAME_CHARS : Z := 3.
Definition MAX_NAME_CHARS : Z := 128.
Definition METHOD_NAME_PATTERN : string :=
  "^[a-z](?:[a-z0-9-]*[a-z0-9])?(?:\.[a-z](?:[a-z0-9-]*[a-z0-9])?)+$".
Definition MAX_CODE_CHARS : Z := 64.
Definition RPC_RESERVED_PREFIX : string := "rpc.".
Definition MAX_REASON_CHARS : Z := 1024.
Definition MIN_ANNOUNCED_FRAME_BYTES : Z := 4096.
Definition MAX_ANNOUNCED_FRAME_BYTES : Z := 2147483647.
Definition MIN_ANNOUNCED_IN_FLIGHT : Z := 1.
Definition MAX_ANNOUNCED_IN_FLIGHT : Z := 2147483647.

Record ValidationError : Type := mkValidationError
  { ve_field : string; ve_received : string; ve_expected : string }.

Definition show_validation_error (e : ValidationError) : string :=
  ve_field e +:+ ": received " +:+ ve_received e +:+ ", expected " +:+ ve_expected e.

(** ** Grammars *)

Definition segment_char (c : u8) : bool :=
  is_ascii_lowercase c || is_ascii_digit c || bool_decide (c = "-"%char).

(** The tests are on characters in the source and on bytes here: every byte of a multi-byte
    character is outside ASCII, so it fails each test just as its character does. *)
Definition is_valid_segment (segment : string) : bool :=
  match to_bytes segment with
  | [] => false
  | first :: _ =>
      if negb (is_ascii_lowercase first) then false
      else if ends_with_byte "-"%char segment then false
      else forallb segment_char (to_bytes segment)
  end.

(** The segments after the first: each is checked, a bad one ends the loop, the rest count. *)
Fixpoint count_segments (count : Z) (segments : list string) : option Z :=
  match segments with
  | [] => Some count
  | segment :: rest => if is_valid_segment segment then count_segments (count + 1) rest else None
  end.

Definition is_valid_method_name (name : string) : bool :=
  if MAX_NAME_CHARS <? chars_count name then false
  else match str_split "."%char name with
  | [] => false
  | first :: segments =>
      if is_valid_segment first
      then match count_segments 1 segments with Some count => 2 <=? count | None => false end
      else false
  end.

Definition is_reserved_method_name (name : string) : bool :=
  str_starts_with RPC_RESERVED_PREFIX name.

Definition RPC_DISCOVER : string := "rpc.discover".
Definition RPC_DISCOVER_MINOR : Z := 1.

Definition is_defined_reserved_method (name : string) (effective_minor : Z) : bool :=
  String.eqb name RPC_DISCOVER && (RPC_DISCOVER_MINOR <=? effective_minor).

Definition is_valid_role (role : string) : bool :=
  in_range 1 MAX_CODE_CHARS (chars_count role) && is_valid_segment role.

Definition code_char (c : u8) : bool :=
  is_ascii_uppercase c || is_ascii_digit c || bool_decide (c = "_"%char).

Definition is_valid_error_code (code : string) : bool :=
  if negb (in_range 1 MAX_CODE_CHARS (chars_count code)) then false
  else match to_bytes code with
  | [] => false
  | first :: rest => is_ascii_uppercase first && forallb code_char rest
  end.

(** ** Member checks *)

Section checks.
Context {RT : RustText}.

Definition describe (value : string) : string :=
  let count := chars_count value in
  if count <=? 48 then fmt_debug value
  else fmt_debug (take_chars 48 value) +:+ "… (" +:+ show_Z count +:+ " characters)".

Definition check_length (field value : string) (min max : Z) : result unit ValidationError :=
  let count := chars_count value in
  if in_range min max count then Ok tt
  else Err (mkValidationError field (describe value)
    ("a string of " +:+ show_Z min +:+ " to " +:+ show_Z max +:+ " characters")).

Definition check_id (field value : string) : result unit ValidationError :=
  check_length field value 1 MAX_ID_CHARS.

Definition check_method_name (field value : string) : result unit ValidationError :=
  if is_valid_method_name value then Ok tt
  else Err (mkValidationError field (describe value)
    ("at least two dot-separated lowercase segments matching " +:+ METHOD_NAME_PATTERN +:+
     ", at most " +:+ show_Z MAX_NAME_CHARS +:+ " characters")).

Definition check_range (field : string) (value : option Z) (minimum maximum : Z)
    : result unit ValidationError :=
  match value with
  | None => Ok tt
  | Some value =>
      if in_range minimum maximum value then Ok tt
      else Err (mkValidationError field (show_Z value)
        ("an integer from " +:+ show_Z minimum +:+ " to " +:+ show_Z maximum))
  end.

Definition validate_limits (limits : Limits) : result unit ValidationError :=
  let? _ := check_range "hello.limits.maxFrameBytes" (max_frame_bytes limits)
              MIN_ANNOUNCED_FRAME_BYTES MAX_ANNOUNCED_FRAME_BYTES in
  check_range "hello.limits.maxInFlight" (max_in_flight limits)
    MIN_ANNOUNCED_IN_FLIGHT MAX_ANNOUNCED_IN_FLIGHT.

Definition validate_hello (hello : Hello) : result unit ValidationError :=
  if major (hello_protocol hello) <? 1 then
    Err (mkValidationError "hello.protocol.major" (show_Z (major (hello_protocol hello)))
           "an integer of at least 1")
  else
    let? _ := check_length "hello.peer.name" (peer_name (hello_peer hello)) 1 MAX_NAME_CHARS in
    let? _ := check_length "hello.peer.version" (peer_version (hello_peer hello)) 1
                MAX_NAME_CHARS in
    if negb (is_valid_role (peer_role (hello_peer hello))) then
      Err (mkValidationError "hello.peer.role" (describe (peer_role (hello_peer hello)))
        ("a lowercase label matching ^[a-z][a-z0-9-]*$, at most " +:+ show_Z MAX_CODE_CHARS +:+
         " characters"))
    else match hello_limits hello with
    | Some limits => validate_limits limits
    | None => Ok tt
    end.

Definition validate_error_payload (field : string) (payload : ErrorPayload)
    : result unit ValidationError :=
  if negb (is_valid_error_code (err_code payload)) then
    Err (mkValidationError (field +:+ ".code") (describe (err_code payload))
      ("a code matching ^[A-Z][A-Z0-9_]*$, 1 to " +:+ show_Z MAX_CODE_CHARS +:+ " characters"))
  else check_length (field +:+ ".message") (err_message payload) 1 usize_max.

Definition validate_request (request : Request) : result unit ValidationError :=
  let? _ := check_id "req.id" (req_id request) in
  check_method_name "req.method" (req_method request).

Definition validate_response (response : Response) : result unit ValidationError :=
  check_id "res.id" (res_id response).

Definition validate_event (event : Event) : result unit ValidationError :=
  let? _ := check_method_name "evt.topic" (evt_topic event) in
  match evt_stream_id event with
  | Some stream_id => check_id "evt.streamId" stream_id
  | None => Ok tt
  end.

Definition validate_close (close : Close) : result unit ValidationError :=
  if negb (in_range MIN_CLOSE_CODE MAX_CLOSE_CODE (close_code close)) then
    Err (mkValidationError "close.code" (show_Z (close_code close))
      ("an integer from " +:+ show_Z MIN_CLOSE_CODE +:+ " to " +:+ show_Z MAX_CLOSE_CODE))
  else match close_reason close with
  | Some reason => check_length "close.reason" reason 0 MAX_REASON_CHARS
  | None => Ok tt
  end.

Definition validate (frame : Frame) : result unit ValidationError :=
  match frame with
  | FHello hello => validate_hello hello
  | FReq request => validate_request request
  | FRes response => validate_response response
  | FErr error =>
      let? _ := check_id "err.id" (err_id error) in
      validate_error_payload "err.error" (err_error error)
  | FEvt event => validate_event event
  | FCancel cancel => check_id "cancel.id" (cancel_id cancel)
  | FPing | FPong => Ok tt
  | FClose close => validate_close close
  end.
End checks.

(** ** The documented languages *)

Definition lower (c : u8) : Prop := is_ascii_lowercase c = true.
Definition lower_or_digit (c : u8) : Prop := is_ascii_lowercase c || is_ascii_digit c = true.

(** [[a-z]([a-z0-9-]*[a-z0-9])?] *)
Inductive segment_lang : bytes -> Prop :=
| segment_one c : lower c -> segment_lang [c]
| segment_more c middle d :
    lower c -> Forall (fun x => segment_char x = true) middle -> lower_or_digit d ->
    segment_lang (c :: middle ++ [d]).

(** [METHOD_NAME_PATTERN]: a segment followed by one or more dotted segments. *)
Inductive name_lang : bytes -> Prop :=
| name_two s t : segment_lang s -> segment_lang t -> name_lang (s ++ "."%char :: t)
| name_more s t : segment_lang s -> name_lang t -> name_lang (s ++ "."%char :: t).

(** [^[a-z][a-z0-9-]*$], the pattern documented for [peer.role]. *)
Definition role_lang (b : bytes) : Prop :=
  exists c rest, b = c :: rest /\ lower c /\ Forall (fun x => segment_char x = true) rest.

(** [^[A-Z][A-Z0-9_]*$], the pattern of [error.code]. *)
Definition code_lang (b : bytes) : Prop :=
  exists c rest, b = c :: rest /\ is_ascii_uppercase c = true /\
    Forall (fun x => code_char x = true) rest.

(** ** Lemmas *)

Lemma segment_char_not_dot c : segment_char c = true -> c <> "."%char.
Proof. by intros H ->. Qed.

Lemma lower_segment_char c : lower c -> segment_char c = true.
Proof. unfold lower, segment_char. by intros ->. Qed.

Lemma lower_or_digit_segment_char d : lower_or_digit d -> segment_char d = true.
Proof. unfold lower_or_digit, segment_char. by intros ->. Qed.

Lemma lower_or_digit_iff d : lower_or_digit d <-> segment_char d = true /\ d <> "-"%char.
Proof.
  unfold lower_or_digit, segment_char.
  destruct (decide (d = "-"%char)) as [->|]; [split; [discriminate|naive_solver]|].
  rewrite (bool_decide_false (d = "-"%char)), orb_false_r by done. naive_solver.
Qed.

Lemma lower_not_dash c : lower c -> c <> "-"%char.
Proof. by intros H ->. Qed.

Lemma segment_lang_chars b : segment_lang b -> Forall (fun x => segment_char x = true) b.
Proof.
  destruct 1.
  - repeat constructor. by apply lower_segment_char.
  - constructor; [by apply lower_segment_char|]. apply Forall_app. split; [done|].
    repeat constructor. by apply lower_or_digit_segment_char.
Qed.

Lemma segment_lang_last b : segment_lang b -> last b <> Some "-"%char.
Proof.
  destruct 1 as [c Hc|c middle d Hc _ Hd].
  - intros [= ->]. done.
  - rewrite app_comm_cons, last_snoc. intros [= ->]. done.
Qed.

Lemma is_valid_segment_spec s : is_valid_segment s = true <-> segment_lang (to_bytes s).
Proof.
  unfold is_valid_segment, ends_with_byte. generalize (to_bytes s) as b. clear s.
  intros [|c rest]; [split; [done|by inversion 1]|].
  destruct (is_ascii_lowercase c) eqn:Hc; simpl; [|split; [done|by inversion 1; unfold lower in *; congruence]].
  destruct rest as [|d rest _] using rev_ind.
  - simpl. rewrite bool_decide_false by (intros [= ->]; done).
    unfold segment_char. rewrite Hc. simpl. split; [by constructor|done].
  - rewrite app_comm_cons, last_snoc.
    destruct (decide (d = "-"%char)) as [->|Hd].
    + rewrite bool_decide_true by done. split; [done|].
      intros Hl%segment_lang_last. by rewrite last_snoc in Hl.
    + rewrite bool_decide_false by congruence.
      change (segment_char c && forallb segment_char (rest ++ [d]))
        with (forallb segment_char (c :: rest ++ [d])).
      rewrite forallb_Forall. split.
      * intros [_ [Hr [Hl _]%Forall_cons]%Forall_app]%Forall_cons.
        apply segment_more; [done|done|]. by apply lower_or_digit_iff.
      * intros Hl. by apply segment_lang_chars in Hl.
Qed.

Lemma split_bytes_nonempty sep b : split_bytes sep b <> [].
Proof. destruct b; simpl; [done|]. repeat case_match; done. Qed.

Lemma split_bytes_app sep s t :
  Forall (fun c => c <> sep) s -> split_bytes sep (s ++ sep :: t) = s :: split_bytes sep t.
Proof.
  induction 1 as [|c s Hc _ IH]; simpl; [by rewrite bool_decide_true|].
  rewrite bool_decide_false by done. by rewrite IH.
Qed.

Lemma split_bytes_none sep s : Forall (fun c => c <> sep) s -> split_bytes sep s = [s].
Proof. induction 1 as [|c s Hc _ IH]; simpl; [done|]. by rewrite bool_decide_false, IH. Qed.

(** Either there is no separator, or the first piece ends at the first one. *)
Lemma split_bytes_inv (sep : u8) (b : bytes) :
  Forall (fun c => c <> sep) b \/
  exists s t, b = s ++ sep :: t /\ Forall (fun c => c <> sep) s.
Proof.
  induction b as [|c b [IH|(s & t & -> & IH)]]; [by left| |].
  - destruct (decide (c = sep)) as [->|]; [right; by exists [], b|left; by constructor].
  - right. destruct (decide (c = sep)) as [->|].
    + by exists [], (s ++ sep :: t).
    + exists (c :: s), t. split; [done|by constructor].
Qed.

Lemma count_segments_spec n l :
  count_segments n l = if forallb is_valid_segment l then Some (n + len l) else None.
Proof.
  revert n. induction l as [|s l IH]; intros n; simpl; [f_equal; unfold len; simpl; lia|].
  destruct (is_valid_segment s); simpl; [|done]. rewrite IH.
  destruct (forallb is_valid_segment l); [|done]. f_equal. rewrite len_cons. lia.
Qed.

Lemma segment_not_dot b : segment_lang b -> Forall (fun c => c <> "."%char) b.
Proof.
  intros H%segment_lang_chars. eapply Forall_impl; [done|]. apply segment_char_not_dot.
Qed.

Lemma name_lang_split b :
  name_lang b <->
  Forall segment_lang (split_bytes "."%char b) /\ (2 <= length (split_bytes "."%char b))%nat.
Proof.
  split.
  - induction 1 as [s t Hs Ht|s t Hs Ht [IHa IHb]];
      rewrite split_bytes_app by by apply segment_not_dot.
    + rewrite split_bytes_none by by apply segment_not_dot.
      split; [by repeat constructor|simpl; lia].
    + split; [by constructor|simpl; lia].
  - intros [Hall Hlen]. remember (length b) as n eqn:Hn. revert b Hn Hall Hlen.
    induction (lt_wf n) as [n _ IH]. intros b Hn Hall Hlen.
    destruct (split_bytes_inv "."%char b) as [Hb|(s & t & -> & Hs)].
    { rewrite split_bytes_none in Hlen by done. simpl in Hlen. lia. }
    rewrite split_bytes_app in Hall, Hlen by done.
    apply Forall_cons in Hall as [Hseg Hall]. simpl in Hlen.
    destruct (split_bytes_inv "."%char t) as [Ht|(u & v & -> & Hu)].
    + rewrite split_bytes_none in Hall by done. apply Forall_cons in Hall as [? _].
      by apply name_two.
    + apply name_more; [done|]. eapply IH; [|done| |].
      * rewrite Hn, (length_app s). simpl. lia.
      * done.
      * rewrite split_bytes_app by done. simpl.
        destruct (split_bytes "."%char v) eqn:E; [by apply split_bytes_nonempty in E|simpl; lia].
Qed.

Lemma is_valid_method_name_lang name :
  is_valid_method_name name = true <->
  name_lang (to_bytes name) /\ chars_count name <= MAX_NAME_CHARS.
Proof.
  unfold is_valid_method_name. rewrite name_lang_split. unfold str_split.
  destruct (Z.ltb_spec MAX_NAME_CHARS (chars_count name)); [split; [done|lia]|].
  destruct (split_bytes "."%char (to_bytes name)) as [|first segments] eqn:E;
    [by apply split_bytes_nonempty in E|].
  rewrite fmap_cons. cbv beta iota. rewrite count_segments_spec.
  assert (Hf : forall l, forallb is_valid_segment (of_bytes <$> l) = true <-> Forall segment_lang l).
  { intros l. rewrite forallb_Forall, Forall_fmap. apply Forall_iff. intros x. simpl.
    by rewrite is_valid_segment_spec, to_of_bytes. }
  pose proof (is_valid_segment_spec (of_bytes first)) as Hfirst. rewrite to_of_bytes in Hfirst.
  rewrite Forall_cons.
  destruct (is_valid_segment (of_bytes first)); [|split; [done|naive_solver]].
  destruct (forallb is_valid_segment (of_bytes <$> segments)) eqn:Hs.
  - rewrite Z.leb_le. apply Hf in Hs. unfold len. rewrite length_fmap, length_cons.
    split; [intros; split; [split; [naive_solver|lia]|lia]|lia].
  - split; [done|]. intros [[[_ Hs'%Hf] _] _]. congruence.
Qed.

Lemma is_valid_error_code_lang code :
  is_valid_error_code code = true <->
  code_lang (to_bytes code) /\ 1 <= chars_count code <= MAX_CODE_CHARS.
Proof.
  unfold is_valid_error_code. rewrite <- in_range_spec.
  destruct (in_range 1 MAX_CODE_CHARS (chars_count code)); simpl; [|split; [done|by intros [_ ?]]].
  unfold code_lang. destruct (to_bytes code) as [|c rest]; [split; naive_solver|].
  rewrite andb_true_iff, forallb_Forall. naive_solver.
Qed.

(** What the code accepts as a role: the documented language minus a trailing dash. *)
Lemma segment_role_lang b : segment_lang b <-> role_lang b /\ last b <> Some "-"%char.
Proof.
  split.
  - intros Hs. split; [|by apply segment_lang_last].
    pose proof (segment_lang_chars b Hs) as Hall.
    destruct Hs; (eexists _, _; split; [done|]; split; [done|by apply Forall_cons in Hall as [_ ?]]).
  - intros [(c & rest & -> & Hc & Hr) Hl].
    destruct rest as [|d rest _] using rev_ind; [by constructor|].
    rewrite app_comm_cons, last_snoc in Hl. apply Forall_app in Hr as [? [? _]%Forall_cons].
    apply segment_more; [done|done|]. apply lower_or_digit_iff. naive_solver.
Qed.

Lemma segment_char_ascii c : segment_char c = true -> is_continuation c = false.
Proof.
  unfold segment_char. destruct (is_continuation c) eqn:E; [|done].
  intros H. exfalso. destruct c as [[] [] [] [] [] [] [] []]; done.
Qed.

(** A valid name is ASCII: its characters are its bytes. *)
Lemma chars_count_ascii s :
  Forall (fun c => is_continuation c = false) (to_bytes s) -> chars_count s = len (to_bytes s).
Proof.
  unfold chars_count, len. intros H. do 2 f_equal. induction H as [|c b Hc _ IH]; [done|].
  rewrite filter_cons_True by (by rewrite Hc). by rewrite IH.
Qed.

Lemma name_lang_ascii b : name_lang b -> Forall (fun c => is_continuation c = false) b.
Proof.
  assert (forall s, segment_lang s -> Forall (fun c => is_continuation c = false) s).
  { intros s Hs%segment_lang_chars. eapply Forall_impl; [done|]. apply segment_char_ascii. }
  induction 1; apply Forall_app; split; auto.
Qed.

Lemma name_lang_length b : name_lang b -> (3 <= length b)%nat.
Proof.
  assert (forall s, segment_lang s -> (1 <= length s)%nat).
  { intros s []; simpl; lia. }
  induction 1 as [s t Hs Ht|s t Hs Ht IH]; rewrite length_app; simpl;
    pose proof (H s Hs); [pose proof (H t Ht)|]; lia.
Qed.

(** ** The schema, declaratively *)

Definition id_ok (s : string) : Prop := 1 <= chars_count s <= 256.
Definition name_ok (s : string) : Prop := name_lang (to_bytes s) /\ chars_count s <= 128.
Definition label_ok (s : string) : Prop := 1 <= chars_count s <= 128.
Definition role_ok (s : string) : Prop :=
  role_lang (to_bytes s) /\ last (to_bytes s) <> Some "-"%char /\ 1 <= chars_count s <= 64.
Definition code_ok (s : string) : Prop := code_lang (to_bytes s) /\ 1 <= chars_count s <= 64.
Definition opt_in (o : option Z) (lo hi : Z) : Prop := forall v, o = Some v -> lo <= v <= hi.

(** The value constraints of [spec/schema/1/protocol.json], frame type by frame type. *)
Definition schema_valid (f : Frame) : Prop :=
  match f with
  | FHello h =>
      1 <= major (hello_protocol h) /\
      label_ok (peer_name (hello_peer h)) /\ label_ok (peer_version (hello_peer h)) /\
      role_ok (peer_role (hello_peer h)) /\
      (forall l, hello_limits h = Some l ->
         opt_in (max_frame_bytes l) 4096 2147483647 /\ opt_in (max_in_flight l) 1 2147483647)
  | FReq r => id_ok (req_id r) /\ name_ok (req_method r)
  | FRes r => id_ok (res_id r)
  | FErr e =>
      id_ok (err_id e) /\ code_ok (err_code (err_error e)) /\
      1 <= chars_count (err_message (err_error e)) <= usize_max
  | FEvt e => name_ok (evt_topic e) /\ (forall s, evt_stream_id e = Some s -> id_ok s)
  | FCancel c => id_ok (cancel_id c)
  | FPing | FPong => True
  | FClose c =>
      4000 <= close_code c <= 4999 /\
      (forall r, close_reason c = Some r -> chars_count r <= 1024)
  end.

Section validation.
Context {RT : RustText}.

Lemma check_length_Ok field s lo hi :
  check_length field s lo hi = Ok tt <-> lo <= chars_count s <= hi.
Proof.
  unfold check_length. rewrite <- in_range_spec. destruct (in_range lo hi _); naive_solver.
Qed.

Lemma check_id_Ok field s : check_id field s = Ok tt <-> id_ok s.
Proof. apply check_length_Ok. Qed.

Lemma check_method_name_Ok field s : check_method_name field s = Ok tt <-> name_ok s.
Proof.
  unfold check_method_name, name_ok. rewrite <- is_valid_method_name_lang.
  destruct (is_valid_method_name s); naive_solver.
Qed.

Lemma check_range_Ok field o lo hi : check_range field o lo hi = Ok tt <-> opt_in o lo hi.
Proof.
  unfold check_range, opt_in. destruct o as [v|]; [|naive_solver].
  destruct (in_range lo hi v) eqn:E.
  - split; [|done]. intros _ v' [= <-]. by apply in_range_spec.
  - split; [done|]. intros H. specialize (H v eq_refl). apply in_range_spec in H. congruence.
Qed.

Lemma is_valid_role_ok s : is_valid_role s = true <-> role_ok s.
Proof.
  unfold is_valid_role, role_ok.
  rewrite andb_true_iff, in_range_spec, is_valid_segment_spec, segment_role_lang.
  unfold MAX_CODE_CHARS. naive_solver.
Qed.

Lemma chars_count_nonneg s : 0 <= chars_count s.
Proof. apply len_nonneg. Qed.

Lemma validate_hello_Ok h : validate_hello h = Ok tt <-> schema_valid (FHello h).
Proof.
  unfold validate_hello, schema_valid. destruct (Z.ltb_spec (major (hello_protocol h)) 1);
    [split; [done|lia]|].
  rewrite result_bind_Ok. setoid_rewrite result_bind_Ok. setoid_rewrite <- is_valid_role_ok.
  destruct (is_valid_role _); simpl;
    [|split; [intros (? & _ & ? & _ & [=])|intros (_ & _ & _ & [=] & _)]].
  unfold label_ok, validate_limits. destruct (hello_limits h) as [l|].
  - setoid_rewrite result_bind_Ok. split.
    + intros ([] & Hn%check_length_Ok & [] & Hv%check_length_Ok & [] & Hf%check_range_Ok
              & Hi%check_range_Ok). naive_solver.
    + intros (_ & Hn & Hv & _ & [Hf Hi]%(fun H => H l eq_refl)).
      exists tt. split; [by apply check_length_Ok|]. exists tt.
      split; [by apply check_length_Ok|]. exists tt. by rewrite !check_range_Ok.
  - split.
    + intros ([] & Hn%check_length_Ok & [] & Hv%check_length_Ok & _). naive_solver.
    + intros (_ & Hn & Hv & _ & _). exists tt. split; [by apply check_length_Ok|]. exists tt.
      split; [by apply check_length_Ok|done].
Qed.

Lemma validate_err_Ok e : validate (FErr e) = Ok tt <-> schema_valid (FErr e).
Proof.
  simpl. rewrite result_bind_Ok. unfold validate_error_payload, code_ok.
  change 64 with MAX_CODE_CHARS. rewrite <- is_valid_error_code_lang.
  destruct (is_valid_error_code _); simpl; [|naive_solver].
  split.
  - intros ([] & Hid%check_id_Ok & Hm%check_length_Ok). naive_solver.
  - intros (Hid & _ & Hm). exists tt. split; [by apply check_id_Ok|by apply check_length_Ok].
Qed.

Lemma validate_close_Ok c : validate_close c = Ok tt <-> schema_valid (FClose c).
Proof.
  unfold validate_close. cbn [schema_valid]. rewrite <- in_range_spec.
  change 4000 with MIN_CLOSE_CODE. change 4999 with MAX_CLOSE_CODE.
  destruct (in_range _ _ (close_code c)); simpl; [|naive_solver].
  destruct (close_reason c) as [r|]; [|naive_solver].
  rewrite check_length_Ok. pose proof (chars_count_nonneg r). unfold MAX_REASON_CHARS.
  split; [intros ?; split; [done|intros ? [= <-]; lia]|].
  intros [_ Hr]. specialize (Hr r eq_refl). lia.
Qed.

(** [validate] accepts a frame exactly when its members satisfy the schema's lengths, grammars and
    ranges, for each of the nine frame types; method and topic names follow [METHOD_NAME_PATTERN] as a
    language.  [SchemaProps] restates it against the constraints [schema.rs] emits. *)
Theorem validate_iff_schema (f : Frame) : validate f = Ok tt <-> schema_valid f.
Proof.
  destruct f as [h|r|r|e|e|c| | |c]; simpl.
  - apply validate_hello_Ok.
  - unfold validate_request. rewrite result_bind_Ok. split.
    + intros ([] & ?%check_id_Ok & ?%check_method_name_Ok). done.
    + intros [? ?]. exists tt. by rewrite check_id_Ok, check_method_name_Ok.
  - apply check_id_Ok.
  - apply validate_err_Ok.
  - unfold validate_event. rewrite result_bind_Ok.
    destruct (evt_stream_id e) as [s|]; split.
    + intros ([] & ?%check_method_name_Ok & ?%check_id_Ok). naive_solver.
    + intros [? Hs]. exists tt. rewrite check_method_name_Ok, check_id_Ok. naive_solver.
    + intros ([] & ?%check_method_name_Ok & _). naive_solver.
    + intros [? _]. exists tt. by rewrite check_method_name_Ok.
  - apply check_id_Ok.
  - naive_solver.
  - naive_solver.
  - apply validate_close_Ok.
Qed.

End validation.

(** Method names, spec section 6.1.  A name is accepted exactly when it is in the language
    of [METHOD_NAME_PATTERN] and has at most 128 characters; an accepted name is ASCII and has
    at least [MIN_NAME_CHARS] of them. *)
Lemma method_name_grammar (name : string) :
  (is_valid_method_name name = true <-> name_lang (to_bytes name) /\ chars_count name <= 128) /\
  (is_valid_method_name name = true ->
     chars_count name = len (to_bytes name) /\ MIN_NAME_CHARS <= chars_count name).
Proof.
  split; [apply is_valid_method_name_lang|].
  intros [Hl _]%is_valid_method_name_lang.
  rewrite chars_count_ascii by by apply name_lang_ascii. split; [done|].
  apply name_lang_length in Hl. unfold MIN_NAME_CHARS, len. lia.
Qed.

(** Roles.  The documentation, the error message and the JSON Schema all give a role the
    pattern [^[a-z][a-z0-9-]*$]; the code reuses the segment check of method names, so it
    accepts exactly the documented roles that do not end with a dash: ["tool-"] satisfies the
    documented pattern and length, and is refused. *)
Theorem role_refuses_trailing_dash (role : string) :
  (is_valid_role role = true <->
     role_lang (to_bytes role) /\ 1 <= chars_count role <= 64 /\
     last (to_bytes role) <> Some "-"%char) /\
  (role_lang (to_bytes "tool-") /\ chars_count "tool-" = 5 /\ is_valid_role "tool-" = false).
Proof.
  split; [rewrite is_valid_role_ok; unfold role_ok; naive_solver|].
  split; [|done]. eexists _, _. split; [done|]. split; [done|]. repeat constructor.
Qed.
