(* ===== verification/Regex.v ===== *)
(** * Patterns

    The regular expressions a JSON Schema's [pattern] uses, for the fragment of ECMA 262 the crate's
    patterns are written in: the two anchors around literals, escapes, character classes with ranges,
    non-capturing groups and the postfix operators.  [parse_pattern] reads the text, [matches] decides
    by derivatives, and [matches_lang] relates the two to the language of the expression.

    The classes are positive and ASCII, so an expression over characters and the same expression over
    UTF-8 bytes have the same matches. *)

From S2P Require Import Prelude.
Local Open Scope Z_scope.

Inductive re : Type :=
| RNone
| REps
| RSet (ranges : list (u8 * u8))
| RCat (r s : re)
| RAlt (r s : re)
| RStar (r : re).

(** ** Reading a pattern *)

Definition in_ranges (ranges : list (u8 * u8)) (c : u8) : bool :=
  existsb (fun '(lo, hi) => in_range (Z_of_byte lo) (Z_of_byte hi) (Z_of_byte c)) ranges.

(** The inside of a class, up to its bracket. *)
Fixpoint parse_class (b : bytes) : option (list (u8 * u8) * bytes) :=
  match b with
  | [] => None
  | c :: rest =>
      if bool_decide (c = "]"%char) then Some ([], rest)
      else
        match rest with
        | dash :: d :: rest' =>
            if bool_decide (dash = "-"%char) && negb (bool_decide (d = "]"%char))
            then option_map (fun '(rs, r) => ((c, d) :: rs, r)) (parse_class rest')
            else option_map (fun '(rs, r) => ((c, c) :: rs, r)) (parse_class rest)
        | _ => option_map (fun '(rs, r) => ((c, c) :: rs, r)) (parse_class rest)
        end
  end.

(** The operators after an atom. *)
Definition postfix (r : re) (b : bytes) : re * bytes :=
  match b with
  | c :: rest =>
      if bool_decide (c = "*"%char) then (RStar r, rest)
      else if bool_decide (c = "+"%char) then (RCat r (RStar r), rest)
      else if bool_decide (c = "?"%char) then (RAlt REps r, rest)
      else (r, b)
  | [] => (r, b)
  end.

Definition group_open : bytes := to_bytes "(?:".

(** A sequence of atoms up to the end, a closing parenthesis or the final anchor; every atom takes a
    character, so the length of the pattern is fuel enough. *)
Fixpoint parse_seq (fuel : nat) (b : bytes) : option (re * bytes) :=
  match fuel with
  | O => None
  | S fuel =>
      match b with
      | [] => Some (REps, [])
      | c :: rest =>
          if bool_decide (c = ")"%char) || bool_decide (c = "$"%char) then Some (REps, b)
          else
            let atom :=
              if bool_decide (c = "\"%char) then
                match rest with d :: rest => Some (RSet [(d, d)], rest) | [] => None end
              else if bool_decide (c = "["%char) then option_map (fun '(rs, r) => (RSet rs, r)) (parse_class rest)
              else if bool_decide (c = "("%char) then
                if bool_decide (take 3 b = group_open) then
                  match parse_seq fuel (drop 3 b) with
                  | Some (r, d :: rest) => if bool_decide (d = ")"%char) then Some (r, rest) else None
                  | _ => None
                  end
                else None
              else Some (RSet [(c, c)], rest) in
            match atom with
            | None => None
            | Some (r, rest) =>
                let '(r, rest) := postfix r rest in
                match parse_seq fuel rest with
                | Some (s, rest) => Some (RCat r s, rest)
                | None => None
                end
            end
      end
  end.

Definition parse_pattern (pattern : string) : option re :=
  match to_bytes pattern with
  | c :: b =>
      if bool_decide (c = "^"%char) then
        match parse_seq (S (length b)) b with
        | Some (r, [d]) => if bool_decide (d = "$"%char) then Some r else None
        | _ => None
        end
      else None
  | [] => None
  end.

(** ** Matching *)

Fixpoint nullable (r : re) : bool :=
  match r with
  | RNone | RSet _ => false
  | REps | RStar _ => true
  | RCat r s => nullable r && nullable s
  | RAlt r s => nullable r || nullable s
  end.

Fixpoint derive (c : u8) (r : re) : re :=
  match r with
  | RNone | REps => RNone
  | RSet ranges => if in_ranges ranges c then REps else RNone
  | RCat r s => if nullable r then RAlt (RCat (derive c r) s) (derive c s) else RCat (derive c r) s
  | RAlt r s => RAlt (derive c r) (derive c s)
  | RStar r => RCat (derive c r) (RStar r)
  end.

Definition matches (r : re) (b : bytes) : bool := nullable (foldl (fun r c => derive c r) r b).

(** ** The language *)

Inductive lang : re -> bytes -> Prop :=
| lang_eps : lang REps []
| lang_set ranges c : in_ranges ranges c = true -> lang (RSet ranges) [c]
| lang_cat r s a b : lang r a -> lang s b -> lang (RCat r s) (a ++ b)
| lang_alt_l r s a : lang r a -> lang (RAlt r s) a
| lang_alt_r r s a : lang s a -> lang (RAlt r s) a
| lang_star_nil r : lang (RStar r) []
| lang_star_more r a b : lang r a -> lang (RStar r) b -> lang (RStar r) (a ++ b).

Lemma nullable_lang r : nullable r = true <-> lang r [].
Proof.
  split.
  - induction r; cbn; try done; try (by constructor).
    + intros [H1 H2]%andb_true_iff. change ([] : bytes) with ([] ++ [] : bytes). constructor; auto.
    + intros [H|H]%orb_true_iff; [apply lang_alt_l|apply lang_alt_r]; auto.
  - intros H. remember ([] : bytes) as a eqn:Ea. induction H; cbn; try done.
    + apply app_eq_nil in Ea as [-> ->]. by rewrite IHlang1, IHlang2.
    + by rewrite IHlang.
    + rewrite IHlang by done. apply orb_true_r.
Qed.

Lemma star_cons_inv r c b : lang (RStar r) (c :: b) -> exists x y, b = x ++ y /\ lang r (c :: x) /\ lang (RStar r) y.
Proof.
  intros H. remember (RStar r) as s eqn:Es. remember (c :: b) as a eqn:Ea. induction H; try done.
  injection Es as ->. destruct a as [|d a]; cbn in Ea; [by apply IHlang2|]. injection Ea as -> <-. by exists a, b0.
Qed.

Lemma derive_lang c r : forall b, lang (derive c r) b <-> lang r (c :: b).
Proof.
  induction r as [| |ranges|r IHr s IHs|r IHr s IHs|r IHr]; intros b; cbn.
  - split; intros H; inversion H.
  - split; intros H; inversion H.
  - destruct (in_ranges ranges c) eqn:E; split; intros H; inversion H; subst; try done; [by constructor|by constructor|congruence].
  - assert (Hcat : lang (RCat (derive c r) s) b <-> exists x y, b = x ++ y /\ lang r (c :: x) /\ lang s y).
    { split; [intros H; inversion H; subst; do 2 eexists; split; [done|]; by rewrite <- IHr|].
      intros (x & y & -> & Hx & Hy). constructor; [by apply IHr|done]. }
    assert (Hinv : lang (RCat r s) (c :: b) <-> (exists x y, b = x ++ y /\ lang r (c :: x) /\ lang s y) \/ lang r [] /\ lang s (c :: b)).
    { split.
      - intros H. inversion H as [| |r' s' a d Ha Hd E1 E2| | | |]; subst. destruct a as [|e a]; [right; cbn in E2; by subst|].
        injection E2 as -> <-. left. by exists a, d.
      - intros [(x & y & -> & Hx & Hy)|[Hr Hs]]; [by apply (lang_cat r s (c :: x) y)|by apply (lang_cat r s [] (c :: b))]. }
    rewrite Hinv, <- Hcat, <- nullable_lang, <- IHs. destruct (nullable r).
    + split; [intros H; inversion H; auto|]. intros [H|[_ H]]; [by apply lang_alt_l|by apply lang_alt_r].
    + split; [by left|]. by intros [H|[[=] _]].
  - split; intros H; inversion H; subst; [apply lang_alt_l|apply lang_alt_r|apply lang_alt_l|apply lang_alt_r]; try (by apply IHr); by apply IHs.
  - split.
    + intros H. inversion H; subst. rewrite app_comm_cons. constructor; [by apply IHr|done].
    + intros (x & y & -> & Hx & Hy)%star_cons_inv. constructor; [by apply IHr|done].
Qed.

(** The matcher decides the language. *)
Lemma matches_lang r b : matches r b = true <-> lang r b.
Proof.
  revert r. induction b as [|c b IH]; intros r; [apply nullable_lang|]. unfold matches in *. cbn [foldl].
  by rewrite IH, derive_lang.
Qed.
