(* ===== verification/Limits.v ===== *)
(** * Ceilings with a floor

    [codec/limits.rs]: the one rule every builder and codec entry point applies to a byte or
    count ceiling.  A panic is a [result] whose error is the panic message. *)

From S2P Require Import Prelude Validate.
Local Open Scope Z_scope.

(** What a function that may panic returns: a value, or the message it panicked with. *)
Definition panics (A : Type) : Type := result A string.

Definition limit_message (name : string) (value floor : Z) : string :=
  name +:+ " is " +:+ show_Z value +:+ "; expected at least " +:+ show_Z floor.

Definition check_at_least (name : string) (value floor : Z) : panics Z :=
  if floor <=? value then Ok value else Err (limit_message name value floor).

(** [MIN_MAX_FRAME_BYTES] of [codec/ndjson.rs]. *)
Definition MIN_MAX_FRAME_BYTES : Z := MIN_ANNOUNCED_FRAME_BYTES.

Definition check_max_frame_bytes (value : Z) : panics Z :=
  check_at_least "max_frame_bytes" value MIN_MAX_FRAME_BYTES.

Definition checked_at_least (name : string) (value floor : Z) : result Z string :=
  if value <? floor then Err (limit_message name value floor) else Ok value.

Lemma check_at_least_Ok name value floor v :
  check_at_least name value floor = Ok v <-> v = value /\ floor <= value.
Proof. unfold check_at_least. destruct (Z.leb_spec floor value); naive_solver lia. Qed.

Lemma checked_at_least_Ok name value floor v :
  checked_at_least name value floor = Ok v <-> v = value /\ floor <= value.
Proof. unfold checked_at_least. destruct (Z.ltb_spec value floor); naive_solver lia. Qed.

(** The panicking and the refusing spelling are one rule. *)
Lemma check_at_least_checked name value floor :
  check_at_least name value floor = checked_at_least name value floor.
Proof.
  unfold check_at_least, checked_at_least.
  destruct (Z.leb_spec floor value), (Z.ltb_spec value floor); lia || done.
Qed.
