(* ===== verification/Serde.v ===== *)
(** * The JSON codec interface

    What the crate asks of [serde_json] and of the code [serde_derive] generates for [Frame]:
    [to_vec], [from_slice] into a frame, [from_slice] into a value.  They are third-party and
    generated code, so they are the methods of a class, and what the crate relies on is the
    class of laws; [FrameJson.v] implements both. *)

From S2P Require Import Prelude Json Wire Frame.
Local Open Scope Z_scope.

(** [serde_json::error::Category]. *)
Inductive Category : Type := CatIo | CatSyntax | CatData | CatEof.

Record SerdeError : Type := { classify : Category; error_text : string }.

Class SerdeJson : Type := {
  to_vec : Frame -> result bytes SerdeError;
  from_slice : bytes -> result Frame SerdeError;
  value_from_slice : bytes -> result Value SerdeError
}.

(** The documented behaviour of the compact serialiser and of the parser:
    - serialising a type with neither a failing [Serialize] nor a non-string key succeeds;
    - the compact formatter writes one JSON object and escapes every control character, so no
      raw line feed appears and the text is delimited by braces;
    - a frame that is well typed, float-free and inside the recursion limit reads back. *)
Class SerdeJsonLaws `{SerdeJson} : Prop := {
  to_vec_total f : exists b, to_vec f = Ok b;
  to_vec_object f b : to_vec f = Ok b -> exists middle, b = "{"%char :: middle ++ ["}"%char];
  to_vec_one_line f b : frame_stable f = true -> to_vec f = Ok b -> Forall (fun c => c <> "010"%char) b;
  from_slice_to_vec f b : frame_stable f = true -> to_vec f = Ok b -> from_slice b = Ok f
}.
