(* ===== verification/JsonText.v ===== *)
(** * A JSON codec for frames

    An executable implementation of the interface of [Serde.v]: the compact JSON text of a
    frame with the member names, order and absent-optional rule that the serde attributes of
    [frame.rs] ask for, and a parser for it.  It discharges the laws the codec theorems rest
    on, and lets whole lines be encoded and decoded by evaluation. *)

From S2P Require Import Prelude Json Wire Frame Serde.
Local Open Scope Z_scope.

Definition ch (z : Z) : u8 := byte_of_Z z.
Definition quote : u8 := "034"%char.
Definition backslash : u8 := "\"%char.

(** ** Printing *)

Definition hex_digit (z : Z) : u8 := if z <? 10 then ch (48 + z) else ch (87 + z).

(** Two-character escapes of the compact formatter: the escaped byte and its letter. *)
Definition short_escape (c : u8) : option u8 :=
  match c with
  | "034" => Some quote
  | "\" => Some backslash
  | "008" => Some "b"
  | "009" => Some "t"
  | "010" => Some "n"
  | "012" => Some "f"
  | "013" => Some "r"
  | _ => None
  end%char.

Definition escape (c : u8) : bytes :=
  match short_escape c with
  | Some letter => [backslash; letter]
  | None =>
      let z := Z_of_byte c in
      if z <? 32
      then [backslash; "u"%char; "0"%char; "0"%char; hex_digit (z / 16); hex_digit (z mod 16)]
      else [c]
  end.

Definition escape_all (b : bytes) : bytes := concat (map escape b).
Definition print_string (s : string) : bytes := quote :: escape_all (to_bytes s) ++ [quote].

(** Decimal digits of a number below [10^fuel]. *)
Fixpoint digits (fuel : nat) (z : Z) : bytes :=
  match fuel with
  | O => []
  | S fuel => (if z <? 10 then [] else digits fuel (z / 10)) ++ [ch (48 + z mod 10)]
  end.

Definition print_number (n : Number) : bytes :=
  match n with
  | PosInt z => digits 20 z
  | NegInt z => "-"%char :: digits 20 (- z)
  | Float repr => to_bytes repr
  end.

Fixpoint join (sep : u8) (l : list bytes) : bytes :=
  match l with
  | [] => []
  | [x] => x
  | x :: r => x ++ sep :: join sep r
  end.

Fixpoint print_value (v : Value) : bytes :=
  match v with
  | Null => to_bytes "null"
  | VBool true => to_bytes "true"
  | VBool false => to_bytes "false"
  | VNumber n => print_number n
  | VString s => print_string s
  | VArray l => "["%char :: join ","%char (map print_value l) ++ ["]"%char]
  | VObject m =>
      "{"%char ::
      join ","%char (map (fun kv => print_string kv.1 ++ ":"%char :: print_value kv.2) m) ++
      ["}"%char]
  end.

(** ** Parsing *)

Definition is_json_space (c : u8) : bool :=
  let z := Z_of_byte c in (z =? 32) || (z =? 9) || (z =? 10) || (z =? 13).

Fixpoint skip_space (b : bytes) : bytes :=
  match b with
  | c :: r => if is_json_space c then skip_space r else b
  | [] => []
  end.

Definition hex_value (c : u8) : option Z :=
  let z := Z_of_byte c in
  if in_range 48 57 z then Some (z - 48)
  else if in_range 97 102 z then Some (z - 87)
  else if in_range 65 70 z then Some (z - 55)
  else None.

Definition hex4 (a b c d : u8) : option Z :=
  a ← hex_value a; b ← hex_value b; c ← hex_value c; d ← hex_value d;
  Some (a * 4096 + b * 256 + c * 16 + d).

Definition utf8_encode (z : Z) : bytes :=
  if z <? 128 then [ch z]
  else if z <? 2048 then [ch (192 + z / 64); ch (128 + z mod 64)]
  else if z <? 65536 then [ch (224 + z / 4096); ch (128 + z / 64 mod 64); ch (128 + z mod 64)]
  else [ch (240 + z / 262144); ch (128 + z / 4096 mod 64); ch (128 + z / 64 mod 64);
        ch (128 + z mod 64)].

Definition unescape_letter (c : u8) : option u8 :=
  match c with
  | "034" => Some quote
  | "\" => Some backslash
  | "/" => Some "/"
  | "b" => Some "008"
  | "t" => Some "009"
  | "n" => Some "010"
  | "f" => Some "012"
  | "r" => Some "013"
  | _ => None
  end%char.

(** The body of a string after its opening quote: the decoded bytes and what follows. *)
Fixpoint parse_string (b : bytes) : option (bytes * bytes) :=
  match b with
  | [] => None
  | c :: r =>
      if Ascii.eqb c quote then Some ([], r)
      else if Ascii.eqb c backslash then
        match r with
        | "u"%char :: h1 :: h2 :: h3 :: h4 :: r' =>
            code ← hex4 h1 h2 h3 h4;
            if in_range 55296 56319 code then
              match r' with
              | "\"%char :: "u"%char :: l1 :: l2 :: l3 :: l4 :: r'' =>
                  low ← hex4 l1 l2 l3 l4;
                  if in_range 56320 57343 low then
                    '(s, rest) ← parse_string r'';
                    Some (utf8_encode (65536 + (code - 55296) * 1024 + (low - 56320)) ++ s, rest)
                  else None
              | _ => None
              end
            else if in_range 56320 57343 code then None
            else '(s, rest) ← parse_string r'; Some (utf8_encode code ++ s, rest)
        | e :: r' =>
            x ← unescape_letter e; '(s, rest) ← parse_string r'; Some (x :: s, rest)
        | [] => None
        end
      else if Z_of_byte c <? 32 then None
      else '(s, rest) ← parse_string r; Some (c :: s, rest)
  end.

(** A string literal whose decoded bytes are UTF-8. *)
Definition parse_str (b : bytes) : option (string * bytes) :=
  '(s, rest) ← parse_string b;
  if is_utf8 s then Some (of_bytes s, rest) else None.

Definition number_char (c : u8) : bool :=
  is_ascii_digit c || existsb (Ascii.eqb c) ["+"; "-"; "."; "e"; "E"]%char.

Fixpoint span (p : u8 -> bool) (b : bytes) : bytes * bytes :=
  match b with
  | c :: r => if p c then let '(x, y) := span p r in (c :: x, y) else ([], b)
  | [] => ([], [])
  end.

Definition digits_value (b : bytes) : Z :=
  foldl (fun acc c => acc * 10 + (Z_of_byte c - 48)) 0 b.

(** Unsigned integer text: no leading zero. *)
Definition is_int_text (b : bytes) : bool :=
  match b with
  | [] => false
  | ["0"%char] => true
  | c :: _ => negb (Ascii.eqb c "0"%char) && forallb is_ascii_digit b
  end.

Definition fraction_text (b : bytes) : bool :=
  let '(ds, r) := span is_ascii_digit b in
  let exponent r :=
    match r with
    | [] => true
    | c :: r' =>
        (Ascii.eqb c "e"%char || Ascii.eqb c "E"%char) &&
        let r'' := match r' with
                   | s :: t => if Ascii.eqb s "+"%char || Ascii.eqb s "-"%char then t else r'
                   | [] => [] end in
        negb (bool_decide (r'' = [])) && forallb is_ascii_digit r''
    end in
  is_int_text ds &&
  match r with
  | "."%char :: r' =>
      let '(fs, r'') := span is_ascii_digit r' in negb (bool_decide (fs = [])) && exponent r''
  | _ => exponent r
  end.

Definition parse_number (token : bytes) : option Number :=
  let float := Some (Float (of_bytes token)) in
  match token with
  | "-"%char :: ds =>
      if is_int_text ds
      then let z := - digits_value ds in
           if (-9223372036854775808 <=? z) && (z <? 0) then Some (NegInt z) else float
      else if fraction_text ds then float else None
  | ds =>
      if is_int_text ds
      then if digits_value ds <=? u64_max then Some (PosInt (digits_value ds)) else float
      else if fraction_text ds then float else None
  end.

Definition strip_prefix (p b : bytes) : option bytes :=
  if bool_decide (take (length p) b = p) then Some (drop (length p) b) else None.

(** [rem] is the nesting that is still allowed; [fuel] bounds the calls. *)
Fixpoint parse_value (fuel : nat) (rem : Z) (b : bytes) : option (Value * bytes) :=
  match fuel with
  | O => None
  | S fuel =>
      match skip_space b with
      | [] => None
      | c :: r =>
          if bool_decide (c = "{"%char) then
            if rem <=? 0 then None
            else match skip_space r with
            | "}"%char :: r' => Some (VObject [], r')
            | _ => '(m, r') ← parse_members fuel (rem - 1) r; Some (VObject m, r')
            end
          else if bool_decide (c = "["%char) then
            if rem <=? 0 then None
            else match skip_space r with
            | "]"%char :: r' => Some (VArray [], r')
            | _ => '(l, r') ← parse_items fuel (rem - 1) r; Some (VArray l, r')
            end
          else if bool_decide (c = quote) then '(s, r') ← parse_str r; Some (VString s, r')
          else if bool_decide (c = "n"%char) then
            r' ← strip_prefix (to_bytes "null") (c :: r); Some (Null, r')
          else if bool_decide (c = "t"%char) then
            r' ← strip_prefix (to_bytes "true") (c :: r); Some (VBool true, r')
          else if bool_decide (c = "f"%char) then
            r' ← strip_prefix (to_bytes "false") (c :: r); Some (VBool false, r')
          else
            let '(token, r') := span number_char (c :: r) in
            n ← parse_number token; Some (VNumber n, r')
      end
  end
with parse_items (fuel : nat) (rem : Z) (b : bytes) : option (list Value * bytes) :=
  match fuel with
  | O => None
  | S fuel =>
      '(v, r) ← parse_value fuel rem b;
      match skip_space r with
      | ","%char :: r' => '(l, r'') ← parse_items fuel rem r'; Some (v :: l, r'')
      | "]"%char :: r' => Some ([v], r')
      | _ => None
      end
  end
with parse_members (fuel : nat) (rem : Z) (b : bytes) : option (Map * bytes) :=
  match fuel with
  | O => None
  | S fuel =>
      match skip_space b with
      | "034"%char :: r0 =>
          '(k, r1) ← parse_str r0;
          match skip_space r1 with
          | ":"%char :: r2 =>
              '(v, r) ← parse_value fuel rem r2;
              match skip_space r with
              | ","%char :: r' => '(m, r'') ← parse_members fuel rem r'; Some ((k, v) :: m, r'')
              | "}"%char :: r' => Some ([(k, v)], r')
              | _ => None
              end
          | _ => None
          end
      | _ => None
      end
  end.

Definition MAX_DEPTH : Z := 127.

Definition parse_json (b : bytes) : option (Value * bytes) :=
  parse_value (2 * length b + 2) MAX_DEPTH b.

(** Values whose text reads back: integers inside their width, well-formed strings, no float. *)
Fixpoint text_ok (v : Value) : bool :=
  match v with
  | VNumber (Float _) => false
  | VNumber n => number_ok n
  | VString s => str_ok s
  | VArray l => forallb text_ok l
  | VObject m => forallb (fun kv => str_ok kv.1 && text_ok kv.2) m
  | _ => true
  end.

(** The calls the parser makes on the text of a value. *)
Fixpoint calls (v : Value) : nat :=
  match v with
  | VArray l => S (foldr (fun x n => S (calls x + n)) 0 l)%nat
  | VObject m => S (foldr (fun kv n => S (calls kv.2 + n)) 0 m)%nat
  | _ => 1%nat
  end.

(** What may follow a printed value: nothing that would extend a number. *)
Definition delimited (rest : bytes) : bool :=
  match rest with [] => true | c :: _ => negb (number_char c) end.

(** ** Strings survive *)

Lemma parse_string_escape c rest :
  parse_string (escape c ++ rest) = '(s, r) ← parse_string rest; Some (c :: s, r).
Proof. destruct c as [[] [] [] [] [] [] [] []]; reflexivity. Qed.

Lemma parse_string_escape_all s rest :
  parse_string (escape_all s ++ quote :: rest) = Some (s, rest).
Proof.
  induction s as [|c s IH]; [reflexivity|].
  unfold escape_all in *. simpl. by rewrite <- app_assoc, parse_string_escape, IH.
Qed.

Lemma parse_str_print s rest :
  str_ok s = true -> parse_str (escape_all (to_bytes s) ++ quote :: rest) = Some (s, rest).
Proof.
  intros Hs. unfold parse_str. rewrite parse_string_escape_all. simpl.
  unfold str_ok in Hs. by rewrite Hs, of_to_bytes.
Qed.

(** ** Numbers survive *)

Lemma digit_char z : 0 <= z < 10 -> Z_of_byte (ch (48 + z)) = 48 + z.
Proof.
  intros. unfold ch. rewrite Z_of_byte_of_Z. change 255 with (Z.ones 8).
  rewrite Z.land_ones by lia. apply Z.mod_small. lia.
Qed.

Lemma digits_are_digits n z : 0 <= z -> Forall (fun c => is_ascii_digit c = true) (digits n z).
Proof.
  revert z. induction n as [|n IH]; intros z Hz; simpl; [constructor|].
  apply Forall_app. split.
  - destruct (z <? 10); [constructor|]. apply IH, Z.div_pos; lia.
  - constructor; [|constructor]. unfold is_ascii_digit.
    pose proof (Z.mod_pos_bound z 10). rewrite digit_char by lia. apply in_range_spec. lia.
Qed.

Lemma digits_value_app a b : forall acc,
  foldl (fun acc c => acc * 10 + (Z_of_byte c - 48)) acc (a ++ b) =
  foldl (fun acc c => acc * 10 + (Z_of_byte c - 48))
    (foldl (fun acc c => acc * 10 + (Z_of_byte c - 48)) acc a) b.
Proof. intros. by rewrite foldl_app. Qed.

Lemma digits_value_digits n z : 0 <= z < 10 ^ Z.of_nat n -> digits_value (digits n z) = z.
Proof.
  revert z. induction n as [|n IH]; intros z Hz; [simpl in *; unfold digits_value; simpl; lia|].
  pose proof (Z.mod_pos_bound z 10 ltac:(lia)). pose proof (Z.div_mod z 10 ltac:(lia)).
  unfold digits_value in *. cbn [digits]. rewrite digits_value_app. cbn [foldl].
  rewrite digit_char by lia.
  destruct (Z.ltb_spec z 10).
  - cbn [foldl]. rewrite Z.mod_small; lia.
  - rewrite IH; [lia|]. rewrite Nat2Z.inj_succ, Z.pow_succ_r in Hz by lia.
    split; [apply Z.div_pos; lia|]. apply Z.div_lt_upper_bound; lia.
Qed.

(** A positive number prints with a leading non-zero digit. *)
Lemma digits_head n z : 0 < z < 10 ^ Z.of_nat n ->
  exists c r, digits n z = c :: r /\ c <> "0"%char.
Proof.
  revert z. induction n as [|n IH]; intros z Hz; [simpl in *; lia|].
  cbn [digits]. destruct (Z.ltb_spec z 10).
  - eexists _, _. split; [reflexivity|]. intros Hc. apply (f_equal Z_of_byte) in Hc.
    rewrite Z.mod_small, digit_char in Hc by lia. change (Z_of_byte "0") with 48 in Hc. lia.
  - destruct (IH (z / 10)) as (c & r & -> & Hc).
    { rewrite Nat2Z.inj_succ, Z.pow_succ_r in Hz by lia.
      split; [apply Z.div_str_pos; lia|]. apply Z.div_lt_upper_bound; lia. }
    by eexists c, _.
Qed.

Lemma digits_int_text z : 0 <= z <= u64_max -> is_int_text (digits 20 z) = true.
Proof.
  intros Hz. destruct (decide (z = 0)) as [->|]; [reflexivity|].
  destruct (digits_head 20 z) as (c & r & E & Hc); [unfold u64_max in Hz; lia|].
  pose proof (digits_are_digits 20 z ltac:(lia)) as Hd. rewrite E in *.
  unfold is_int_text.
  assert (forallb is_ascii_digit (c :: r) = true) as Hall.
  { by apply forallb_Forall. }
  assert (negb (Ascii.eqb c "0"%char) = true) as Hz'.
  { apply negb_true_iff. apply Ascii.eqb_neq. done. }
  rewrite Hz', Hall.
  destruct c as [[] [] [] [] [] [] [] []]; try reflexivity; by destruct r.
Qed.

Local Arguments digits : simpl never.

Lemma span_all p a rest :
  Forall (fun c => p c = true) a ->
  match rest with [] => true | c :: _ => negb (p c) end = true ->
  span p (a ++ rest) = (a, rest).
Proof.
  intros Ha Hr. induction Ha as [|c a Hc _ IH]; simpl.
  - destruct rest as [|c rest]; [done|]. simpl. by destruct (p c).
  - by rewrite Hc, IH.
Qed.

Lemma digit_number_char c : is_ascii_digit c = true -> number_char c = true.
Proof. intros H. unfold number_char. by rewrite H. Qed.

Lemma print_number_chars n :
  number_ok n = true -> (forall r, n <> Float r) ->
  Forall (fun c => number_char c = true) (print_number n).
Proof.
  intros Hn Hf. destruct n as [z|z|r]; simpl in *.
  - unfold is_u64 in Hn. bools. eapply Forall_impl; [apply digits_are_digits; lia|].
    simpl. eauto using digit_number_char.
  - bools. constructor; [reflexivity|].
    eapply Forall_impl; [apply digits_are_digits; lia|]. simpl. eauto using digit_number_char.
  - by destruct (Hf r).
Qed.

Lemma parse_number_print n :
  number_ok n = true -> (forall r, n <> Float r) -> parse_number (print_number n) = Some n.
Proof.
  intros Hn Hf. destruct n as [z|z|r]; [| |by destruct (Hf r)]; simpl in Hn.
  - unfold is_u64 in Hn. bools.
    assert (Hv : digits_value (digits 20 z) = z) by (apply digits_value_digits; unfold u64_max in *; lia).
    pose proof (digits_int_text z ltac:(lia)) as Hi.
    cbn [print_number]. unfold parse_number.
    assert (Hh : exists c r, digits 20 z = c :: r /\ c <> "-"%char).
    { destruct (digits 20 z) as [|c r] eqn:E; [done|]. eexists _, _. split; [done|].
      pose proof (digits_are_digits 20 z ltac:(lia)) as Hd. rewrite E in Hd.
      intros ->. by inversion Hd. }
    destruct Hh as (c & r & E & Hc). rewrite E in *.
    assert (Hgo : (if is_int_text (c :: r)
      then if digits_value (c :: r) <=? u64_max then Some (PosInt (digits_value (c :: r)))
           else Some (Float (of_bytes (c :: r)))
      else if fraction_text (c :: r) then Some (Float (of_bytes (c :: r))) else None) = Some (PosInt z)).
    { rewrite Hi, Hv. by rewrite (proj2 (Z.leb_le z u64_max)). }
    destruct c as [[] [] [] [] [] [] [] []]; try exact Hgo. by destruct Hc.
  - bools. cbn [print_number]. unfold parse_number.
    rewrite digits_int_text by (unfold u64_max; lia).
    rewrite digits_value_digits by lia. rewrite Z.opp_involutive.
    rewrite (proj2 (Z.leb_le _ _)), (proj2 (Z.ltb_lt _ _)); [done|lia|lia].
Qed.

(** ** The shape of printed text *)

Lemma skip_space_cons c r : is_json_space c = false -> skip_space (c :: r) = c :: r.
Proof. intros H. simpl. by rewrite H. Qed.

Lemma digit_not_space c : is_ascii_digit c = true -> is_json_space c = false.
Proof. destruct c as [[] [] [] [] [] [] [] []]; done. Qed.

(** A printed value starts with a byte that is neither space nor a closing bracket. *)
Lemma print_value_head v :
  text_ok v = true ->
  exists c r, print_value v = c :: r /\ is_json_space c = false /\ c <> "]"%char /\ c <> "}"%char.
Proof.
  intros H. destruct v as [|[]|n|s|l|m]; try by eexists _, _.
  destruct n as [z|z|r]; simpl in H; [|by eexists _, _|done].
  unfold is_u64 in H. bools. simpl.
  pose proof (digits_are_digits 20 z ltac:(lia)) as Hd.
  pose proof (digits_int_text z ltac:(lia)) as Hi.
  change (print_number (PosInt z)) with (digits 20 z).
  destruct (digits 20 z) as [|c r]; [done|]. inversion Hd; simplify_eq.
  exists c, r. split; [done|]. split; [by apply digit_not_space|].
  split; intros ->; done.
Qed.

Lemma join_cons {A} sep (f : A -> bytes) x y r :
  join sep (map f (x :: y :: r)) = f x ++ sep :: join sep (map f (y :: r)).
Proof. done. Qed.

(** ** Values survive *)

Lemma depth_nonneg_list l : 0 <= foldr (fun x d => Z.max (depth x) d) 0 l.
Proof. induction l; simpl; lia. Qed.

Lemma depth_nonneg_map (m : Map) : 0 <= foldr (fun kv d => Z.max (depth kv.2) d) 0 m.
Proof. induction m; simpl; lia. Qed.

Section parse_print.
Definition parses (v : Value) : Prop :=
  forall fuel rem rest,
    text_ok v = true -> (calls v <= fuel)%nat -> depth v <= rem -> delimited rest = true ->
    parse_value fuel rem (print_value v ++ rest) = Some (v, rest).

Lemma parses_items l : forall fuel rem rest,
  l <> [] -> Forall parses l -> forallb text_ok l = true ->
  (foldr (fun x n => S (calls x + n)) 0 l <= fuel)%nat ->
  foldr (fun x d => Z.max (depth x) d) 0 l <= rem ->
  parse_items fuel rem (join ","%char (map print_value l) ++ "]"%char :: rest) = Some (l, rest).
Proof.
  induction l as [|x l IH]; intros fuel rem rest Hne Hl Hok Hf Hd; [done|].
  inversion Hl as [|? ? Hx Hl']; subst. simpl in Hok, Hf, Hd. bools.
  destruct fuel as [|fuel]; [lia|]. cbn [parse_items].
  destruct l as [|y l].
  - cbn [map join]. rewrite Hx; [reflexivity|done|lia|lia|reflexivity].
  - rewrite join_cons, <- app_assoc.
    rewrite Hx; [|done|lia|lia|reflexivity]. cbn [mbind option_bind app].
    rewrite (skip_space_cons ","%char) by reflexivity. cbv iota beta.
    rewrite (IH fuel rem rest); [done|done|done|done|simpl in *; lia|simpl in *; lia].
Qed.

Abbreviation print_member := (fun kv : string * Value => print_string kv.1 ++ ":"%char :: print_value kv.2).

Lemma parses_members m : forall fuel rem rest,
  m <> [] -> Forall (fun kv => parses kv.2) m ->
  forallb (fun kv => str_ok kv.1 && text_ok kv.2) m = true ->
  (foldr (fun kv n => S (calls kv.2 + n)) 0 m <= fuel)%nat ->
  foldr (fun kv d => Z.max (depth kv.2) d) 0 m <= rem ->
  parse_members fuel rem (join ","%char (map print_member m) ++ "}"%char :: rest) = Some (m, rest).
Proof.
  induction m as [|[k v] m IH]; intros fuel rem rest Hne Hl Hok Hf Hd; [done|].
  inversion Hl as [|? ? Hx Hl']; subst. simpl in Hok, Hf, Hd, Hx. bools.
  destruct fuel as [|fuel]; [lia|]. cbn [parse_members].
  assert (Hstart : forall tail,
    (join "," (map print_member ((k, v) :: m)) ++ "}" :: rest = print_string k ++ ":" :: print_value v ++ tail ->
     skip_space (join "," (map print_member ((k, v) :: m)) ++ "}" :: rest) =
     quote :: escape_all (to_bytes k) ++ quote :: ":" :: print_value v ++ tail)%char).
  { intros tail ->. unfold print_string. simpl. by rewrite <- app_assoc. }
  destruct m as [|kv m].
  - rewrite (Hstart ("}"%char :: rest)).
    2:{ simpl. unfold print_string. by rewrite <- app_assoc. }
    unfold quote at 1. cbv iota beta. rewrite parse_str_print by done.
    cbn [mbind option_bind]. rewrite (skip_space_cons ":"%char) by reflexivity.
    cbv iota beta. rewrite Hx; [reflexivity|done|lia|lia|reflexivity].
  - rewrite (Hstart (("," :: join "," (map print_member (kv :: m)) ++ "}" :: rest)%char)).
    2:{ rewrite join_cons, <- !app_assoc. simpl. by rewrite <- app_assoc. }
    unfold quote at 1. cbv iota beta. rewrite parse_str_print by done.
    cbn [mbind option_bind]. rewrite (skip_space_cons ":"%char) by reflexivity.
    cbv iota beta. rewrite Hx; [|done|lia|lia|reflexivity]. cbn [mbind option_bind].
    rewrite (skip_space_cons ","%char) by reflexivity. cbv iota beta.
    rewrite (IH fuel rem rest); [done|done|done|done|simpl in *; lia|simpl in *; lia].
Qed.

(** A non-empty sequence is not mistaken for an empty one: the first byte of its first
    element is no closing bracket. *)
Lemma skip_space_items x l rest :
  text_ok x = true ->
  exists c r, join ","%char (map print_value (x :: l)) ++ rest = c :: r /\
    is_json_space c = false /\ c <> "]"%char.
Proof.
  intros Hx. destruct (print_value_head x Hx) as (c & r & E & Hs & Hc & _).
  destruct l as [|y l]; [|rewrite join_cons]; simpl; rewrite E; eauto.
Qed.

Lemma parse_print v : parses v.
Proof.
  induction v as [|b|n|s|l Hl|m Hm] using value_nested_ind; intros fuel rem rest Hok Hf Hd Hr;
    (destruct fuel as [|fuel]; [cbn in Hf; lia|]).
  - reflexivity.
  - by destruct b.
  - assert (Hn : number_ok n = true) by (by destruct n).
    assert (Hnf : forall r, n <> Float r) by (by destruct n).
    destruct (print_value_head (VNumber n)) as (c & r & E & Hs & _); [by destruct n|].
    cbn [parse_value]. rewrite E. cbn [app]. rewrite skip_space_cons by done.
    pose proof (print_number_chars n Hn Hnf) as Hch. cbn [print_value] in E.
    assert (Hc : number_char c = true) by (rewrite E in Hch; by inversion Hch).
    rewrite !bool_decide_false by (intros ->; done).
    change (c :: r ++ rest) with ((c :: r) ++ rest).
    rewrite <- E, span_all; [|done|by destruct rest].
    cbn. by rewrite parse_number_print.
  - cbn [parse_value print_value]. unfold print_string. cbn [app].
    rewrite skip_space_cons by reflexivity. rewrite <- app_assoc. cbn [app].
    change (bool_decide (quote = "{"%char)) with false.
    change (bool_decide (quote = "["%char)) with false.
    change (bool_decide (quote = quote)) with true. cbv iota.
    by rewrite parse_str_print.
  - cbn [parse_value print_value app]. rewrite skip_space_cons by reflexivity.
    change (bool_decide ("["%char = "{"%char)) with false.
    change (bool_decide ("["%char = "["%char)) with true. cbv iota.
    rewrite (proj2 (Z.leb_gt rem 0)) by (cbn in Hd; pose proof (depth_nonneg_list l); lia).
    destruct l as [|x l]; [reflexivity|]. rewrite <- app_assoc. cbn [app].
    assert (text_ok x = true) as Hx by (simpl in Hok; by bools).
    pose proof (parses_items (x :: l) fuel (rem - 1) rest) as HI.
    destruct (skip_space_items x l ("]"%char :: rest) Hx) as (c & r & E & Hs & Hc).
    rewrite E in *. rewrite skip_space_cons by done.
    rewrite HI; [|done|done|done|simpl in *; lia|simpl in *; lia].
    destruct c as [[] [] [] [] [] [] [] []]; done.
  - cbn [parse_value print_value app]. rewrite skip_space_cons by reflexivity.
    change (bool_decide ("{"%char = "{"%char)) with true. cbv iota.
    rewrite (proj2 (Z.leb_gt rem 0)) by (cbn in Hd; pose proof (depth_nonneg_map m); lia).
    destruct m as [|kv m]; [reflexivity|]. rewrite <- app_assoc. cbn [app].
    pose proof (parses_members (kv :: m) fuel (rem - 1) rest) as HI.
    assert (exists r, join "," (map print_member (kv :: m)) ++ "}"%char :: rest = quote :: r)
      as [r E] by (destruct m; [|rewrite join_cons]; simpl; eauto).
    rewrite E in *. rewrite skip_space_cons by reflexivity. unfold quote at 1. cbv iota.
    rewrite HI; [done|done|done|done|simpl in *; lia|simpl in *; lia].
Qed.
End parse_print.

(** The fuel of [parse_json] is enough: the parser makes at most two calls per byte. *)
Lemma calls_items l :
  Forall (fun v => (text_ok v = true -> calls v <= 2 * length (print_value v))%nat) l ->
  forallb text_ok l = true ->
  (foldr (fun x n => S (calls x + n)) 0 l <= 2 * length (join ","%char (map print_value l)) + 1)%nat.
Proof.
  induction 1 as [|x l Hx Hl IH]; intros Hok; simpl in Hok; [simpl; lia|]. bools.
  specialize (Hx ltac:(done)). specialize (IH ltac:(done)).
  destruct l as [|y l]; [simpl in *; lia|]. rewrite join_cons, length_app. simpl in *. lia.
Qed.

Lemma calls_members m :
  Forall (fun kv => (text_ok kv.2 = true -> calls kv.2 <= 2 * length (print_value kv.2))%nat) m ->
  forallb (fun kv => str_ok kv.1 && text_ok kv.2) m = true ->
  (foldr (fun kv n => S (calls kv.2 + n)) 0 m <=
   2 * length (join ","%char (map (fun kv => print_string kv.1 ++ ":"%char :: print_value kv.2) m)) + 1)%nat.
Proof.
  induction 1 as [|x l Hx Hl IH]; intros Hok; simpl in Hok; [simpl; lia|]. bools.
  specialize (Hx ltac:(done)). specialize (IH ltac:(done)).
  destruct l as [|y l]; [|rewrite join_cons];
    rewrite ?length_app in *; simpl in *; rewrite ?length_app in *; simpl in *; lia.
Qed.

Lemma calls_bound v : text_ok v = true -> (calls v <= 2 * length (print_value v))%nat.
Proof.
  induction v as [|[]|n|s|l Hl|m Hm] using value_nested_ind; intros Hok; try (simpl; lia).
  - destruct (print_value_head (VNumber n) Hok) as (c & r & -> & _). simpl. lia.
  - pose proof (calls_items l Hl Hok). simpl. rewrite length_app. simpl. lia.
  - pose proof (calls_members m Hm Hok). simpl. rewrite length_app. simpl in *. lia.
Qed.

(** Printed text reads back as the same value, with nothing left over. *)
Lemma parse_json_print v :
  text_ok v = true -> depth v <= MAX_DEPTH -> parse_json (print_value v) = Some (v, []).
Proof.
  intros Hok Hd. unfold parse_json. pose proof (calls_bound v Hok).
  rewrite <- (app_nil_r (print_value v)) at 2. apply parse_print; auto; lia.
Qed.

(** ** The text of a value is one line *)

Definition not_newline (c : u8) : Prop := c <> "010"%char.

Lemma escape_one_line c : Forall not_newline (escape c).
Proof.
  unfold not_newline. destruct c as [[] [] [] [] [] [] [] []]; repeat constructor; discriminate.
Qed.

Lemma print_string_one_line s : Forall not_newline (print_string s).
Proof.
  unfold print_string, escape_all. constructor; [done|]. apply Forall_app. split; [|by repeat constructor].
  induction (to_bytes s); simpl; [constructor|]. apply Forall_app. split; [apply escape_one_line|done].
Qed.

Lemma join_one_line l : Forall (Forall not_newline) l -> Forall not_newline (join ","%char l).
Proof.
  induction 1 as [|x l Hx Hl IH]; [constructor|]. destruct l; [done|].
  simpl in *. apply Forall_app. split; [done|]. by constructor.
Qed.

Lemma print_value_one_line v : text_ok v = true -> Forall not_newline (print_value v).
Proof.
  induction v as [|[]|n|s|l Hl|m Hm] using value_nested_ind; intros Hok; simpl in Hok;
    try (by repeat constructor).
  - cbn [print_value]. eapply Forall_impl; [apply print_number_chars; by destruct n|].
    intros c Hc ->. done.
  - apply print_string_one_line.
  - constructor; [done|]. apply Forall_app. split; [|by repeat constructor]. apply join_one_line.
    apply List.Forall_map. apply forallb_Forall in Hok.
    eapply Forall_impl; [apply Forall_and; split; [exact Hl|exact Hok]|].
    intros x [Hx Hx']. auto.
  - constructor; [done|]. apply Forall_app. split; [|by repeat constructor]. apply join_one_line.
    apply List.Forall_map. apply forallb_Forall in Hok.
    eapply Forall_impl; [apply Forall_and; split; [exact Hm|exact Hok]|].
    intros [k x] [Hx Hx']. simpl in Hx, Hx'. bools.
    change (Forall not_newline (print_string k ++ ":"%char :: print_value x)).
    apply Forall_app. split; [apply print_string_one_line|]. constructor; [done|auto].
Qed.
