(* ===== verification/FrameJson.v ===== *)
(** * Frames as JSON

    The JSON object of each frame type as the serde attributes of [frame.rs] and [version.rs]
    lay it out: the [type] member first, the members in declaration order under their wire
    names, an absent optional member skipped, [end] written as [true].  The reader is the
    object form of the derived deserialiser: unknown members are ignored, a repeated member is
    refused, and an optional member is absent or well formed, never [null].

    With the text codec of [JsonText.v] they implement the interface of [Serde.v] and satisfy
    its laws, so every theorem that rests on those laws is about a codec that exists. *)

From S2P Require Import Prelude Json Wire Frame Serde JsonText.
Local Open Scope Z_scope.

(** ** Writing *)

Definition member (k : string) (v : Value) : Map := [(k, v)].

(** [skip_serializing_if = "Option::is_none"]. *)
Definition optional {A} (k : string) (f : A -> Value) (o : option A) : Map :=
  match o with Some a => [(k, f a)] | None => [] end.

(** [impl Serialize for End]. *)
Definition end_to_json (e : End) : Value := VBool true.

Definition version_to_json (v : ProtocolVersion) : Value :=
  VObject (member "major" (from_u64 (major v)) ++ member "minor" (from_u64 (minor v))).

Definition peer_to_json (p : PeerInfo) : Value :=
  VObject (member "name" (from_str (peer_name p)) ++ member "version" (from_str (peer_version p)) ++
           member "role" (from_str (peer_role p))).

Definition limits_to_json (l : Limits) : Value :=
  VObject (optional "maxFrameBytes" from_u64 (max_frame_bytes l) ++
           optional "maxInFlight" from_u64 (max_in_flight l)).

Definition payload_to_json (e : ErrorPayload) : Value :=
  VObject (member "code" (from_str (err_code e)) ++ member "message" (from_str (err_message e)) ++
           optional "details" VObject (err_details e)).

Definition frame_members (f : Frame) : Map :=
  match f with
  | FHello h =>
      member "protocol" (version_to_json (hello_protocol h)) ++
      member "peer" (peer_to_json (hello_peer h)) ++
      member "capabilities" (VObject (hello_capabilities h)) ++
      optional "limits" limits_to_json (hello_limits h)
  | FReq r =>
      member "id" (from_str (req_id r)) ++ member "method" (from_str (req_method r)) ++
      member "params" (req_params r)
  | FRes r => member "id" (from_str (res_id r)) ++ member "result" (res_result r)
  | FErr e => member "id" (from_str (err_id e)) ++ member "error" (payload_to_json (err_error e))
  | FEvt e =>
      member "topic" (from_str (evt_topic e)) ++ member "seq" (from_u64 (evt_seq e)) ++
      optional "streamId" from_str (evt_stream_id e) ++ member "payload" (evt_payload e) ++
      optional "end" end_to_json (evt_end e)
  | FCancel c => member "id" (from_str (cancel_id c))
  | FPing | FPong => []
  | FClose c =>
      member "code" (from_u64 (close_code c)) ++ optional "reason" from_str (close_reason c)
  end.

(** [#[serde(tag = "type")]]: the tag first. *)
Definition frame_to_json (f : Frame) : Value :=
  VObject (("type", from_str (type_name f)) :: frame_members f).

(** ** Reading *)

(** A parsed object, in text order and possibly with repeated keys, as the [BTreeMap] that
    [Map<String, Value>] keeps: the last occurrence of a key wins. *)
Fixpoint normalize (v : Value) : Value :=
  match v with
  | VArray l => VArray (map normalize l)
  | VObject m => VObject (foldl (fun acc kv => map_insert kv.1 kv.2 acc) []
                           (map (fun kv => (kv.1, normalize kv.2)) m))
  | _ => v
  end.

Abbreviation decoded A := (result A string).

Definition wrong_type (expected : string) : string := "invalid type, expected " +:+ expected.

Definition as_str (v : Value) : decoded string :=
  match v with VString s => Ok s | _ => Err (wrong_type "a string") end.

(** An unsigned integer of a given width. *)
Definition as_uint (max : Z) (v : Value) : decoded Z :=
  match v with
  | VNumber (PosInt n) => if n <=? max then Ok n else Err "invalid value, integer out of range"
  | _ => Err (wrong_type "an unsigned integer")
  end.

Definition as_members (v : Value) : decoded Map :=
  match v with VObject m => Ok m | _ => Err (wrong_type "an object") end.

(** A [Map<String, Value>] member. *)
Definition as_map (v : Value) : decoded Map := as_members (normalize v).

(** [impl Deserialize for End]: the only value accepted is [true]. *)
Definition as_end (v : Value) : decoded End :=
  match v with
  | VBool true => Ok TheEnd
  | VBool false => Err "invalid value: boolean `false`, expected the literal true"
  | _ => Err (wrong_type "a boolean")
  end.

Definition field (k : string) (m : Map) : decoded (option Value) :=
  match filter (fun kv => kv.1 = k) m with
  | [] => Ok None
  | [kv] => Ok (Some kv.2)
  | _ => Err ("duplicate field `" +:+ k +:+ "`")
  end.

Definition required {A} (k : string) (m : Map) (f : Value -> decoded A) : decoded A :=
  let? v := field k m in
  match v with Some v => f v | None => Err ("missing field `" +:+ k +:+ "`") end.

(** [#[serde(default, deserialize_with = "present::option")]]: a missing member is [None], a
    present one is decoded, so [null] is refused by every decoder here. *)
Definition present_option {A} (k : string) (m : Map) (f : Value -> decoded A) :
    decoded (option A) :=
  let? v := field k m in
  match v with Some v => let? a := f v in Ok (Some a) | None => Ok None end.

Definition as_version (v : Value) : decoded ProtocolVersion :=
  let? m := as_members v in
  let? major := required "major" m (as_uint u32_max) in
  let? minor := required "minor" m (as_uint u32_max) in
  Ok {| major := major; minor := minor |}.

Definition as_peer (v : Value) : decoded PeerInfo :=
  let? m := as_members v in
  let? name := required "name" m as_str in
  let? version := required "version" m as_str in
  let? role := required "role" m as_str in
  Ok {| peer_name := name; peer_version := version; peer_role := role |}.

Definition as_limits (v : Value) : decoded Limits :=
  let? m := as_members v in
  let? bytes := present_option "maxFrameBytes" m (as_uint u64_max) in
  let? flight := present_option "maxInFlight" m (as_uint u64_max) in
  Ok {| max_frame_bytes := bytes; max_in_flight := flight |}.

Definition as_payload (v : Value) : decoded ErrorPayload :=
  let? m := as_members v in
  let? code := required "code" m as_str in
  let? message := required "message" m as_str in
  let? details := present_option "details" m as_map in
  Ok {| err_code := code; err_message := message; err_details := details |}.

Definition as_value (v : Value) : decoded Value := Ok (normalize v).

Definition read_members (type : string) (m : Map) : decoded Frame :=
  if bool_decide (type = "hello") then
    let? protocol := required "protocol" m as_version in
    let? peer := required "peer" m as_peer in
    let? capabilities := required "capabilities" m as_map in
    let? limits := present_option "limits" m as_limits in
    Ok (FHello {| hello_protocol := protocol; hello_peer := peer;
                  hello_capabilities := capabilities; hello_limits := limits |})
  else if bool_decide (type = "req") then
    let? id := required "id" m as_str in
    let? method := required "method" m as_str in
    let? params := required "params" m as_value in
    Ok (FReq {| req_id := id; req_method := method; req_params := params |})
  else if bool_decide (type = "res") then
    let? id := required "id" m as_str in
    let? res := required "result" m as_value in
    Ok (FRes {| res_id := id; res_result := res |})
  else if bool_decide (type = "err") then
    let? id := required "id" m as_str in
    let? error := required "error" m as_payload in
    Ok (FErr {| err_id := id; err_error := error |})
  else if bool_decide (type = "evt") then
    let? topic := required "topic" m as_str in
    let? seq := required "seq" m (as_uint u64_max) in
    let? stream := present_option "streamId" m as_str in
    let? payload := required "payload" m as_value in
    let? end_ := present_option "end" m as_end in
    Ok (FEvt {| evt_topic := topic; evt_seq := seq; evt_stream_id := stream;
                evt_payload := payload; evt_end := end_ |})
  else if bool_decide (type = "cancel") then
    let? id := required "id" m as_str in
    Ok (FCancel {| cancel_id := id |})
  else if bool_decide (type = "ping") then Ok FPing
  else if bool_decide (type = "pong") then Ok FPong
  else if bool_decide (type = "close") then
    let? code := required "code" m (as_uint u16_max) in
    let? reason := present_option "reason" m as_str in
    Ok (FClose {| close_code := code; close_reason := reason |})
  else Err ("unknown variant `" +:+ type +:+ "`").

Definition frame_of_json (v : Value) : decoded Frame :=
  let? m := as_members v in
  let? type := required "type" m as_str in
  read_members type m.

(** ** The instance of the codec interface *)

Definition syntax_error : SerdeError := {| classify := CatSyntax; error_text := "expected value" |}.

Definition json_value_from_slice (b : bytes) : result Value SerdeError :=
  match parse_json b with
  | Some (v, rest) => if bool_decide (skip_space rest = []) then Ok (normalize v) else Err syntax_error
  | None => Err syntax_error
  end.

(** Text that is no JSON is a syntax error; a JSON value that is no frame is a data error,
    reported before anything that trails the value. *)
Definition json_from_slice (b : bytes) : result Frame SerdeError :=
  match parse_json b with
  | Some (v, rest) =>
      let? frame := map_err (fun e => {| classify := CatData; error_text := e |}) (frame_of_json v) in
      if bool_decide (skip_space rest = []) then Ok frame else Err syntax_error
  | None => Err syntax_error
  end.

Global Instance json_serde : SerdeJson := {|
  to_vec f := Ok (print_value (frame_to_json f));
  from_slice := json_from_slice;
  value_from_slice := json_value_from_slice
|}.

(** A text instance for evaluation: the debug form of a string without characters to escape,
    and the identity on bytes that are already UTF-8. *)
Global Instance plain_text : RustText := {| fmt_debug := quoted; from_utf8_lossy := of_bytes |}.

(** ** The laws *)

Lemma normalize_ok v : value_ok v = true -> normalize v = v.
Proof.
  induction v as [|b|n|s|l Hl|m Hm] using value_nested_ind; intros Hok; simpl in *; try done.
  - f_equal. apply forallb_Forall in Hok. induction Hl; inversion Hok; simpl; f_equal; auto.
  - bools. apply forallb_Forall in H0.
    assert (map (fun kv => (kv.1, normalize kv.2)) m = m) as ->.
    { clear H. induction Hm as [|[k x] m Hx _ IH]; [done|]. apply Forall_cons in H0 as [Hk H0].
      simpl in *. bools. by rewrite Hx, IH. }
    by rewrite insert_all_sorted.
Qed.

Lemma value_text_ok v : value_ok v = true -> float_free v = true -> text_ok v = true.
Proof.
  induction v as [|b|n|s|l Hl|m Hm] using value_nested_ind; intros Hok Hff; simpl in *; try done.
  - by destruct n.
  - apply forallb_Forall in Hok, Hff. apply forallb_Forall.
    induction Hl; inversion Hok; inversion Hff; constructor; auto.
  - bools. apply forallb_Forall in H0, Hff. apply forallb_Forall. clear H.
    induction Hm; inversion H0; inversion Hff; constructor; bools; auto.
    apply andb_true_iff; auto.
Qed.

Ltac run_reader := cbv -[normalize Z.leb u64_max u32_max u16_max].

(** The reader inverts the writer on the JSON value of any well-typed frame. *)
Lemma frame_of_to_json f : frame_typed f = true -> frame_of_json (frame_to_json f) = Ok f.
Proof.
  intros H.
  destruct f as [[[ma mi] [] caps [[[?|] [?|]]|]]|[]|[]|[? [? ? [?|]]]|[? ? [?|] ? [[]|]]|[]| | |[? [?|]]];
    cbn in H; unfold limits_typed, is_u16, is_u32 in H; cbn in H; unfold is_u64 in H; bools;
    run_reader; rewrite ?(proj2 (Z.leb_le _ _)) by lia;
    rewrite ?normalize_ok; try done; cbn; rewrite ?andb_true_iff; try done.
Qed.

Lemma u32_u64 z : is_u32 z = true -> is_u64 z = true.
Proof. unfold is_u32, is_u64, u32_max, u64_max. rewrite !andb_true_iff, !Z.leb_le. lia. Qed.

Lemma u16_u64 z : is_u16 z = true -> is_u64 z = true.
Proof. unfold is_u16, is_u64, u16_max, u64_max. rewrite !andb_true_iff, !Z.leb_le. lia. Qed.

Lemma text_ok_cons k v m :
  str_ok k = true -> text_ok v = true -> text_ok (VObject m) = true ->
  text_ok (VObject ((k, v) :: m)) = true.
Proof. intros Hk Hv Hm. simpl in *. by rewrite Hk, Hv, Hm. Qed.

Lemma frame_to_json_ok f :
  frame_stable f = true -> text_ok (frame_to_json f) = true /\ depth (frame_to_json f) <= MAX_DEPTH.
Proof.
  unfold frame_stable, MAX_DEPTH. intros [Ht Hv]%andb_true_iff.
  apply forallb_Forall in Hv.
  assert (Forall (fun v => value_ok v = true -> text_ok v = true) (frame_values f)) as Htext.
  { eapply Forall_impl; [exact Hv|]. intros v ?. simpl in *. bools. intros. by apply value_text_ok. }
  assert (Forall (fun v => depth v <= 125) (frame_values f)) as Hd.
  { eapply Forall_impl; [exact Hv|]. intros v ?. simpl in *. bools. done. }
  clear Hv.
  destruct f as [[[ma mi] [] caps [[[?|] [?|]]|]]|[]|[]|[? [? ? [?|]]]|[? ? [?|] ? [[]|]]|[]| | |[? [?|]]];
    cbn -[text_ok depth value_ok is_u64 is_u32 is_u16 str_ok] in Ht, Htext, Hd; unfold limits_typed in Ht;
    cbn -[text_ok depth value_ok is_u64 is_u32 is_u16 str_ok] in Ht;
    repeat match goal with H : Forall _ (_ :: _) |- _ => apply Forall_cons in H as [? ?] end;
    bools;
    repeat match goal with H : value_ok ?v = true -> _, Hok : value_ok ?v = true |- _ => specialize (H Hok) end.
  all: split; [|cbn -[Z.max Z.add]; cbn [depth] in *; lia].
  all: unfold frame_to_json, version_to_json, peer_to_json, limits_to_json, payload_to_json,
    end_to_json, from_u64, from_str; cbn -[text_ok].
  all: repeat (apply text_ok_cons; [reflexivity| |]); try done.
  all: simpl; auto using u16_u64, u32_u64.
Qed.

(** The laws of [Serde.v] hold of this codec. *)
Global Instance json_serde_laws : SerdeJsonLaws.
Proof.
  split.
  - intros f. by eexists.
  - intros f b [= <-]. simpl. by eexists.
  - intros f b Hst [= <-]. destruct (frame_to_json_ok f Hst) as [Hok _].
    exact (print_value_one_line (frame_to_json f) Hok).
  - intros f b Hst Hb. destruct (frame_to_json_ok f Hst) as [Hok Hd].
    assert (b = print_value (frame_to_json f)) as -> by (unfold to_vec, json_serde in Hb; congruence).
    unfold from_slice, json_serde, json_from_slice. rewrite parse_json_print by done.
    unfold frame_stable in Hst. apply andb_true_iff in Hst as [Ht _].
    by rewrite frame_of_to_json.
Qed.
