(* ===== verification/Ndjson.v ===== *)
(** * NDJSON framing

    [codec/ndjson.rs]: one frame per line.  [encode_frame_bytes], [encode_line] and
    [decode_line] with their refusals, and the incremental [LineDecoder] whose [push] carves
    records out of arbitrary pieces of the byte stream. *)

From S2P Require Import Prelude Json Wire Frame Validate Limits Serde.
Local Open Scope Z_scope.

Definition DEFAULT_MAX_FRAME_BYTES : Z := 16 * 1024 * 1024.
Definition PREVIEW_CHARS : Z := 120.

Definition newline : u8 := "010"%char.
Definition carriage_return : u8 := "013"%char.

Definition too_large (length max_frame_bytes : Z) : CodecError :=
  codec_error TooLarge ("received a line of " +:+ show_Z length +:+ " bytes, expected at most " +:+
    show_Z max_frame_bytes).

(** Drops one carriage return immediately before the line terminator. *)
Definition strip_carriage_return (line : bytes) : bytes :=
  match last line with
  | Some c => if bool_decide (c = carriage_return) then removelast line else line
  | None => line
  end.

Definition is_blank (line : bytes) : bool := forallb is_ascii_whitespace line.

Section codec.
Context {RT : RustText} {SJ : SerdeJson}.

Definition preview (b : bytes) : string :=
  let text := from_utf8_lossy b in
  let count := chars_count text in
  if count <=? PREVIEW_CHARS then fmt_debug text
  else fmt_debug (take_chars 120 text) +:+ "… (" +:+ show_Z (len b) +:+ " bytes)".

Definition frame_type_of (line : bytes) : option string :=
  match value_from_slice line with
  | Ok (VObject m) =>
      match map_get "type" m with Some (VString t) => Some t | _ => None end
  | _ => None
  end.

Definition encode_frame_bytes (frame : Frame) (max : Z) : result bytes CodecError :=
  let? max := map_err (codec_error Schema)
                (checked_at_least "max_frame_bytes" max MIN_MAX_FRAME_BYTES) in
  let? _ := map_err (fun e => codec_error Schema (show_validation_error e)) (validate frame) in
  let? b := map_err (fun e => codec_error Schema
              ("received a " +:+ type_name frame +:+ " frame that would not serialise: " +:+
               error_text e)) (to_vec frame) in
  if max <? len b then Err (too_large (len b) max) else Ok b.

Definition encode_line (frame : Frame) (max : Z) : result bytes CodecError :=
  let? line := encode_frame_bytes frame max in
  Ok (line ++ [newline]).

(** The refusal of a line [from_slice] could not read. *)
Definition parse_refusal (line : bytes) (error : SerdeError) : CodecError :=
  let kind := match classify error with
              | CatSyntax | CatEof | CatIo => InvalidJson
              | CatData => Schema
              end in
  let refusal := codec_error kind
    ("received " +:+ preview line +:+ ", expected one Mango Protocol frame: " +:+
     error_text error) in
  match frame_type_of line with
  | Some t => if bool_decide (kind = Schema) then with_frame_type refusal t else refusal
  | None => refusal
  end.

Definition decode_line (b : bytes) (max : Z) : result Frame CodecError :=
  let? max := map_err (codec_error Schema)
                (checked_at_least "max_frame_bytes" max MIN_MAX_FRAME_BYTES) in
  let line := strip_carriage_return b in
  if max <? len line then Err (too_large (len line) max)
  else if is_blank line then
    Err (codec_error Schema ("received a blank line of " +:+ show_Z (len line) +:+
      " bytes, expected one JSON object with a type member"))
  else
    let? frame := map_err (parse_refusal line) (from_slice line) in
    let? _ := map_err (fun e => with_frame_type
                (codec_error Schema (show_validation_error e)) (type_name frame))
                (validate frame) in
    Ok frame.

(** ** The incremental decoder *)

Record PushOutcome : Type := { po_frames : list Frame; po_error : option CodecError }.

Definition push_is_ok (o : PushOutcome) : bool :=
  match po_error o with None => true | Some _ => false end.

Record LineDecoder : Type :=
  { ld_max : Z; ld_buffer : bytes; ld_failure : option CodecError }.

Definition line_decoder_new (max : Z) : panics LineDecoder :=
  let? max := check_at_least "max_frame_bytes" max MIN_MAX_FRAME_BYTES in
  Ok {| ld_max := max; ld_buffer := []; ld_failure := None |}.

(** [iter().position(|byte| *byte == b'\n')] *)
Fixpoint newline_position (b : bytes) : option nat :=
  match b with
  | [] => None
  | c :: rest => if Ascii.eqb c newline then Some O else S <$> newline_position rest
  end.

(** The [while let] loop of [push]: [consumed] is the offset of the first unread byte.  One
    iteration consumes at least one byte, so [S (length buffer)] iterations are enough. *)
Fixpoint push_loop (fuel : nat) (max : Z) (buffer : bytes) (consumed : nat)
    (frames : list Frame) : nat * list Frame * option CodecError :=
  match fuel with
  | O => (consumed, frames, None)
  | S fuel =>
      match newline_position (drop consumed buffer) with
      | None => (consumed, frames, None)
      | Some offset =>
          let end_ := (consumed + offset)%nat in
          let line := take offset (drop consumed buffer) in
          let consumed := S end_ in
          let content := strip_carriage_return line in
          if max <? len content then (consumed, frames, Some (too_large (len content) max))
          else if is_blank content then push_loop fuel max buffer consumed frames
          else match decode_line line max with
          | Ok frame => push_loop fuel max buffer consumed (frames ++ [frame])
          | Err error => (consumed, frames, Some error)
          end
      end
  end.

Definition push (d : LineDecoder) (b : bytes) : LineDecoder * PushOutcome :=
  match ld_failure d with
  | Some failure => (d, {| po_frames := []; po_error := Some failure |})
  | None =>
      let buffer := ld_buffer d ++ b in
      let '(consumed, frames, failure) := push_loop (S (length buffer)) (ld_max d) buffer 0 [] in
      let buffer := drop consumed buffer in
      let failure := match failure with
        | Some e => Some e
        | None =>
            let partial := len (strip_carriage_return buffer) in
            if ld_max d <? partial then Some (too_large partial (ld_max d)) else None
        end in
      let d' := match failure with
        | Some error => {| ld_max := ld_max d; ld_buffer := []; ld_failure := Some error |}
        | None => {| ld_max := ld_max d; ld_buffer := buffer; ld_failure := None |}
        end in
      (d', {| po_frames := frames; po_error := failure |})
  end.

Definition finish (d : LineDecoder) : LineDecoder * result (list Frame) CodecError :=
  match ld_failure d with
  | Some failure => (d, Err failure)
  | None =>
      let line := ld_buffer d in
      let d := {| ld_max := ld_max d; ld_buffer := []; ld_failure := None |} in
      if is_blank (strip_carriage_return line) then (d, Ok [])
      else match decode_line line (ld_max d) with
      | Ok frame => (d, Ok [frame])
      | Err error =>
          ({| ld_max := ld_max d; ld_buffer := []; ld_failure := Some error |}, Err error)
      end
  end.
End codec.
