(* ===== verification/NdjsonProps.v ===== *)
(** * NDJSON framing: theorems

    The incremental decoder is compared with a reference that splits the whole stream on line
    feeds; from there follow its independence of how the transport cuts the bytes, its memory
    bound, and the round trip of whole frame sequences. *)

From S2P Require Import Prelude Json Wire Frame Validate Limits Serde FrameJson Ndjson.
Local Open Scope Z_scope.

(** ** Lines *)

(** The complete lines of a buffer and the partial one after its last line feed. *)
Definition complete (b : bytes) : list bytes := removelast (split_bytes newline b).
Definition partial (b : bytes) : bytes := List.last (split_bytes newline b) [].

Definition no_newline (b : bytes) : Prop := Forall (fun c => c <> newline) b.

Lemma complete_partial_nil b : no_newline b -> complete b = [] /\ partial b = b.
Proof. intros H. unfold complete, partial. by rewrite split_bytes_none. Qed.

Lemma removelast_cons_ne {A} (x : A) l : l <> [] -> removelast (x :: l) = x :: removelast l.
Proof. by destruct l. Qed.

Lemma last_cons_ne {A} (x d : A) l : l <> [] -> List.last (x :: l) d = List.last l d.
Proof. by destruct l. Qed.

Lemma complete_app_line s t :
  no_newline s ->
  complete (s ++ newline :: t) = s :: complete t /\ partial (s ++ newline :: t) = partial t.
Proof.
  intros Hs. unfold complete, partial. rewrite split_bytes_app by done.
  pose proof (split_bytes_nonempty newline t).
  by rewrite removelast_cons_ne, last_cons_ne.
Qed.

(** Strong induction along the lines of a buffer. *)
Lemma lines_ind (P : bytes -> Prop) :
  (forall b, no_newline b -> P b) ->
  (forall s t, no_newline s -> P t -> P (s ++ newline :: t)) -> forall b, P b.
Proof.
  intros Hnil Hline b. remember (length b) as n eqn:Hn. revert b Hn.
  induction (lt_wf n) as [n _ IH]. intros b Hn.
  destruct (split_bytes_inv newline b) as [Hb|(s & t & -> & Hs)]; [by apply Hnil|].
  apply Hline; [done|]. eapply IH; [|done]. rewrite Hn, length_app. simpl. lia.
Qed.

Lemma partial_no_newline b : no_newline (partial b).
Proof.
  induction b as [b Hb|s t Hs IH] using lines_ind.
  - by rewrite (proj2 (complete_partial_nil b Hb)).
  - by rewrite (proj2 (complete_app_line s t Hs)).
Qed.

(** The lines of a concatenation: the partial line of the first part is completed by the first
    line of the second. *)
Lemma complete_app x y :
  complete (x ++ y) =
    complete x ++ match complete y with [] => [] | l :: ls => (partial x ++ l) :: ls end /\
  partial (x ++ y) = match complete y with [] => partial x ++ y | _ => partial y end.
Proof.
  induction x as [x Hx|s t Hs [IHc IHp]] using lines_ind.
  - destruct (complete_partial_nil x Hx) as [-> ->]. simpl.
    destruct (split_bytes_inv newline y) as [Hy|(s & t & -> & Hs)].
    + destruct (complete_partial_nil y Hy) as [-> _].
      apply complete_partial_nil, Forall_app. done.
    + destruct (complete_app_line s t Hs) as [-> ->]. rewrite app_assoc.
      apply complete_app_line, Forall_app. done.
  - rewrite <- app_assoc, <- app_comm_cons.
    destruct (complete_app_line s (t ++ y) Hs) as [-> ->].
    destruct (complete_app_line s t Hs) as [-> ->]. by rewrite IHc, IHp.
Qed.

Lemma newline_position_split b :
  match newline_position b with
  | None => no_newline b
  | Some k => no_newline (take k b) /\ b = take k b ++ newline :: drop (S k) b
  end.
Proof.
  induction b as [|c b IH]; simpl; [constructor|].
  destruct (Ascii.eqb_spec c newline) as [->|Hc]; [split; [constructor|done]|].
  destruct (newline_position b); simpl.
  - destruct IH as [? Hb]. split; [by constructor|]. by f_equal.
  - by constructor.
Qed.

(** ** Carriage returns *)

Lemma strip_length line :
  len (strip_carriage_return line) <= len line <= len (strip_carriage_return line) + 1.
Proof.
  unfold strip_carriage_return. destruct (last line) as [c|] eqn:E; [|lia].
  destruct (bool_decide _); [|lia].
  apply last_Some in E as [l ->]. rewrite removelast_last. rewrite len_app, len_cons, len_nil. lia.
Qed.

(** Whatever follows, a line that is already too long stays too long. *)
Lemma strip_length_app p q :
  len (strip_carriage_return p) <= len (strip_carriage_return (p ++ q)).
Proof.
  destruct q as [|c q _] using rev_ind; [rewrite app_nil_r; lia|].
  pose proof (strip_length p). pose proof (strip_length (p ++ q ++ [c])) as Hpq.
  rewrite !len_app, len_cons, len_nil in Hpq. pose proof (len_nonneg q). lia.
Qed.

Lemma strip_carriage_return_id b :
  last b <> Some carriage_return -> strip_carriage_return b = b.
Proof.
  unfold strip_carriage_return. destruct (last b) as [c|]; [|done]. intros H.
  by rewrite bool_decide_false by congruence.
Qed.

(** ** Refusals up to the measured length *)

(** Two refusals of one stream may differ in the length a [TooLarge] message quotes: a partial
    line is measured before it is complete. *)
Definition err_sim (e e' : CodecError) : Prop :=
  kind e = kind e' /\ frame_type e = frame_type e' /\ (kind e = TooLarge \/ e = e').

Global Instance err_sim_equiv : Equivalence err_sim.
Proof.
  split.
  - intros e. unfold err_sim. naive_solver.
  - intros e e' (? & ? & [?| ->]); unfold err_sim; naive_solver congruence.
  - intros e e' e'' (? & ? & [?| ->]) (? & ? & [?| ->]); unfold err_sim; naive_solver congruence.
Qed.

Lemma too_large_sim a b m : err_sim (too_large a m) (too_large b m).
Proof. unfold err_sim. naive_solver. Qed.

Record ld_sim (d d' : LineDecoder) : Prop := {
  ld_sim_max : ld_max d = ld_max d';
  ld_sim_buffer : ld_buffer d = ld_buffer d';
  ld_sim_failure : option_Forall2 err_sim (ld_failure d) (ld_failure d')
}.

Global Instance ld_sim_equiv : Equivalence ld_sim.
Proof.
  split.
  - intros d. by split.
  - intros d d' [? ? ?]. split; by symmetry.
  - intros d d' d'' [? ? ?] [? ? ?]. split; by etrans.
Qed.

Record outcome_sim (o o' : PushOutcome) : Prop := {
  os_frames : po_frames o = po_frames o';
  os_error : option_Forall2 err_sim (po_error o) (po_error o')
}.

Section decoder.
Context {RT : RustText} {SJ : SerdeJson}.

(** ** The reference decoder *)

Fixpoint decode_lines (max : Z) (lines : list bytes) : list Frame * option CodecError :=
  match lines with
  | [] => ([], None)
  | line :: rest =>
      let content := strip_carriage_return line in
      if max <? len content then ([], Some (too_large (len content) max))
      else if is_blank content then decode_lines max rest
      else match decode_line line max with
      | Ok f => let '(fs, e) := decode_lines max rest in (f :: fs, e)
      | Err e => ([], Some e)
      end
  end.

(** What decoding a whole buffer yields: its complete lines in order, then the length check
    on the partial one. *)
Definition decode_buffer (max : Z) (b : bytes) : list Frame * option CodecError :=
  match decode_lines max (complete b) with
  | (fs, Some e) => (fs, Some e)
  | (fs, None) =>
      let n := len (strip_carriage_return (partial b)) in
      (fs, if max <? n then Some (too_large n max) else None)
  end.

Definition decoder_after (max : Z) (b : bytes) (e : option CodecError) : LineDecoder :=
  match e with
  | Some e => {| ld_max := max; ld_buffer := []; ld_failure := Some e |}
  | None => {| ld_max := max; ld_buffer := partial b; ld_failure := None |}
  end.

Lemma decode_lines_app max l k :
  decode_lines max (l ++ k) =
  match decode_lines max l with
  | (fs, Some e) => (fs, Some e)
  | (fs, None) => let '(gs, e) := decode_lines max k in (fs ++ gs, e)
  end.
Proof.
  induction l as [|x l IH]; simpl; [by destruct (decode_lines max k)|].
  destruct (max <? _); [done|]. destruct (is_blank _); [done|].
  destruct (decode_line x max); [|done]. rewrite IH.
  destruct (decode_lines max l) as [fs [e|]]; [done|]. by destruct (decode_lines max k).
Qed.

(** The loop of [push] against the reference, with the fuel it is given. *)
Lemma push_loop_ref max fuel : forall buffer consumed frames,
  (length (drop consumed buffer) < fuel)%nat ->
  exists consumed',
    push_loop fuel max buffer consumed frames =
      (let '(fs, e) := decode_lines max (complete (drop consumed buffer)) in
       (consumed', frames ++ fs, e)) /\
    ((decode_lines max (complete (drop consumed buffer))).2 = None ->
       drop consumed' buffer = partial (drop consumed buffer)).
Proof.
  induction fuel as [|fuel IH]; intros buffer consumed frames Hfuel; [lia|]. simpl.
  pose proof (newline_position_split (drop consumed buffer)) as Hpos.
  destruct (newline_position (drop consumed buffer)) as [k|]; last first.
  { destruct (complete_partial_nil _ Hpos) as [-> ->]. exists consumed. simpl.
    by rewrite app_nil_r. }
  destruct Hpos as [Hno Hb].
  destruct (complete_app_line (take k (drop consumed buffer)) (drop (S k) (drop consumed buffer)) Hno)
    as [Hc Hp].
  rewrite <- Hb in Hc, Hp. rewrite Hc, Hp. simpl.
  assert (drop (S (consumed + k)) buffer = drop (S k) (drop consumed buffer)) as Hdrop.
  { rewrite drop_drop. f_equal. lia. }
  assert (length (drop (S (consumed + k)) buffer) < fuel)%nat as Hlt.
  { rewrite Hdrop. apply (f_equal length) in Hb. rewrite length_app in Hb. simpl in Hb. lia. }
  destruct (max <? _); [by eexists; rewrite app_nil_r|].
  destruct (is_blank _).
  - destruct (IH buffer (S (consumed + k)) frames Hlt) as (c' & Heq & Hd).
    rewrite Hdrop in Heq, Hd. by exists c'.
  - destruct (decode_line _ max) as [f|e]; [|by eexists; rewrite app_nil_r].
    destruct (IH buffer (S (consumed + k)) (frames ++ [f]) Hlt) as (c' & Heq & Hd).
    rewrite Hdrop in Heq, Hd. exists c'. rewrite Heq.
    destruct (decode_lines max _) as [fs e]. simpl in *. by rewrite <- app_assoc.
Qed.

(** [push] is the reference decoding of everything buffered so far. *)
Lemma push_ref d b :
  ld_failure d = None ->
  push d b =
    let '(fs, e) := decode_buffer (ld_max d) (ld_buffer d ++ b) in
    (decoder_after (ld_max d) (ld_buffer d ++ b) e, {| po_frames := fs; po_error := e |}).
Proof.
  intros Hd. unfold push. rewrite Hd. cbv zeta. unfold decode_buffer.
  destruct (push_loop_ref (ld_max d) (S (length (ld_buffer d ++ b))) (ld_buffer d ++ b) 0 [])
    as (c & -> & Hc); [rewrite drop_0; lia|].
  rewrite drop_0 in *. destruct (decode_lines _ _) as [fs [e|]]; simpl in *; [done|].
  rewrite Hc by done. by destruct (_ <? _).
Qed.

(** ** The decoder invariant *)

Record ld_ok (d : LineDecoder) : Prop := {
  ld_ok_max : MIN_MAX_FRAME_BYTES <= ld_max d;
  ld_ok_buffer : no_newline (ld_buffer d);
  ld_ok_bound : len (strip_carriage_return (ld_buffer d)) <= ld_max d
}.

Lemma line_decoder_new_ok max d : line_decoder_new max = Ok d -> ld_ok d /\ ld_failure d = None.
Proof.
  unfold line_decoder_new. intros (m & [-> Hm]%check_at_least_Ok & [= <-])%result_bind_Ok.
  split; [|done]. split; simpl; [done|constructor|].
  change (len (strip_carriage_return [])) with 0. unfold MIN_MAX_FRAME_BYTES,
    MIN_ANNOUNCED_FRAME_BYTES in *. lia.
Qed.

Lemma push_ok d b : ld_ok d -> ld_ok (push d b).1.
Proof.
  intros [Hmax Hbuf Hbound]. destruct (ld_failure d) as [e|] eqn:Hd.
  { unfold push. by rewrite Hd. }
  assert (len (strip_carriage_return []) <= ld_max d) as Hnil.
  { change (len (strip_carriage_return [])) with 0.
    pose proof (len_nonneg (strip_carriage_return (ld_buffer d))). lia. }
  rewrite push_ref by done. unfold decode_buffer, decoder_after.
  destruct (decode_lines _ _) as [fs [e|]]; simpl; [by split; [|constructor|]|].
  destruct (Z.ltb_spec (ld_max d) (len (strip_carriage_return (partial (ld_buffer d ++ b)))));
    simpl; [by split; [|constructor|]|]. split; [done|apply partial_no_newline|done].
Qed.

(** ** Cutting the stream *)

Lemma decode_buffer_app max x y :
  let '(fs, e) := decode_buffer max x in
  let '(gs, e') := decode_buffer max (partial x ++ y) in
  match e with
  | Some e => exists e'', decode_buffer max (x ++ y) = (fs, Some e'') /\ err_sim e e''
  | None => decode_buffer max (x ++ y) = (fs ++ gs, e')
  end.
Proof.
  unfold decode_buffer.
  destruct (complete_app x y) as [-> ->].
  destruct (complete_app (partial x) y) as [-> ->].
  destruct (complete_partial_nil _ (partial_no_newline x)) as [-> ->]. simpl.
  rewrite decode_lines_app.
  destruct (decode_lines max (complete x)) as [fs [e|]].
  { destruct (decode_lines max _) as [gs [e'|]]; eexists; split; done. }
  destruct (Z.ltb_spec max (len (strip_carriage_return (partial x)))) as [Hlt|Hle].
  - (* the partial line is already too long *)
    destruct (complete y) as [|l ls]; simpl.
    + pose proof (strip_length_app (partial x) y).
      destruct (Z.ltb_spec max (len (strip_carriage_return (partial x ++ y)))); [|lia].
      rewrite app_nil_r. eexists. split; [done|]. apply too_large_sim.
    + pose proof (strip_length_app (partial x) l).
      destruct (Z.ltb_spec max (len (strip_carriage_return (partial x ++ l)))); [|lia].
      rewrite app_nil_r. eexists. split; [done|]. apply too_large_sim.
  - destruct (decode_lines max _) as [gs [e'|]]; done.
Qed.

Lemma partial_app x y : partial (partial x ++ y) = partial (x ++ y).
Proof.
  rewrite (proj2 (complete_app x y)), (proj2 (complete_app (partial x) y)).
  by rewrite (proj2 (complete_partial_nil _ (partial_no_newline x))).
Qed.

(** Two pushes against one. *)
Lemma push_push d a b :
  ld_failure d = None ->
  let '(d1, o1) := push d a in
  let '(d2, o2) := push d1 b in
  let '(d3, o3) := push d (a ++ b) in
  ld_sim d2 d3 /\ po_frames o3 = po_frames o1 ++ po_frames o2 /\
  option_Forall2 err_sim (po_error o2) (po_error o3).
Proof.
  intros Hd. rewrite !(push_ref d) by done. rewrite app_assoc.
  pose proof (decode_buffer_app (ld_max d) (ld_buffer d ++ a) b) as Happ.
  destruct (decode_buffer (ld_max d) (ld_buffer d ++ a)) as [fs [e|]].
  - destruct (decode_buffer (ld_max d) (partial (ld_buffer d ++ a) ++ b)) as [gs e'].
    destruct Happ as (e'' & -> & Hsim). simpl. rewrite app_nil_r.
    repeat split; try done; by constructor.
  - simpl. rewrite push_ref by done. simpl.
    destruct (decode_buffer (ld_max d) (partial (ld_buffer d ++ a) ++ b)) as [gs e'].
    rewrite Happ. simpl. split; [|split; [done|by destruct e'; constructor]].
    destruct e'; simpl; split; try done. apply partial_app.
Qed.

(** [push] respects the equivalence of decoders. *)
Lemma push_sim d d' b :
  ld_sim d d' -> ld_sim (push d b).1 (push d' b).1 /\ outcome_sim (push d b).2 (push d' b).2.
Proof.
  intros [Hm Hb Hf]. inversion Hf as [e e' He Hd Hd'|Hd Hd'].
  - unfold push. rewrite <- Hd, <- Hd'. simpl. split; split; simpl; try done. by constructor.
  - rewrite !push_ref by done. rewrite Hm, Hb.
    destruct (decode_buffer _ _) as [fs [e|]]; simpl; repeat split; try done; by constructor.
Qed.

(** Feeding the pieces one after the other: the frames of all pushes, the last outcome. *)
Fixpoint push_all (d : LineDecoder) (pieces : list bytes)
    : LineDecoder * list Frame * option CodecError :=
  match pieces with
  | [] => (d, [], ld_failure d)
  | p :: rest =>
      let '(d1, o) := push d p in
      let '(d2, fs, e) := push_all d1 rest in
      (d2, po_frames o ++ fs, e)
  end.

Lemma push_all_failed d pieces e :
  ld_failure d = Some e -> push_all d pieces = (d, [], Some e).
Proof.
  intros Hd. induction pieces as [|p pieces IH]; simpl; [by rewrite Hd|].
  unfold push. rewrite Hd. by rewrite IH.
Qed.

Lemma push_error_failure d b : ld_failure d = None -> ld_failure (push d b).1 = po_error (push d b).2.
Proof. intros Hd. rewrite push_ref by done. destruct (decode_buffer _ _) as [fs [e|]]; done. Qed.

Lemma push_nil d : ld_ok d -> ld_failure d = None -> push d [] = (d, {| po_frames := []; po_error := None |}).
Proof.
  intros [Hmax Hbuf Hbound] Hd. rewrite push_ref by done. rewrite app_nil_r.
  unfold decode_buffer. destruct (complete_partial_nil _ Hbuf) as [-> Hp]. simpl. rewrite Hp.
  destruct (Z.ltb_spec (ld_max d) (len (strip_carriage_return (ld_buffer d)))); [lia|].
  simpl. rewrite Hp. destruct d; simpl in *. by subst.
Qed.

Lemma push_all_concat pieces : forall d,
  ld_ok d -> ld_failure d = None ->
  let '(d1, fs, e) := push_all d pieces in
  let '(d2, o) := push d (concat pieces) in
  fs = po_frames o /\ option_Forall2 err_sim e (po_error o) /\ ld_sim d1 d2.
Proof.
  induction pieces as [|p pieces IH]; intros d Hok Hd; simpl.
  { rewrite push_nil by done. rewrite Hd. split; [done|]. split; [constructor|done]. }
  pose proof (push_push d p (concat pieces) Hd) as Hpp.
  pose proof (push_ok d p Hok) as Hok1. pose proof (push_error_failure d p Hd) as Hfail.
  destruct (push d p) as [d1 o1]. simpl in *.
  destruct (ld_failure d1) as [e|] eqn:Hd1.
  - rewrite (push_all_failed d1 pieces e) by done.
    unfold push in Hpp at 1. rewrite Hd1 in Hpp.
    destruct (push d (p ++ concat pieces)) as [d3 o3]. simpl in *. naive_solver.
  - specialize (IH d1 Hok1 Hd1). destruct (push_all d1 pieces) as [[d2 fs] e].
    destruct (push d1 (concat pieces)) as [d2' o2].
    destruct (push d (p ++ concat pieces)) as [d3 o3].
    destruct IH as (-> & ? & ?), Hpp as (? & -> & ?). split; [done|]. split; by etrans.
Qed.

Lemma push_all_ok pieces d d' fs e : ld_ok d -> push_all d pieces = (d', fs, e) -> ld_ok d'.
Proof.
  revert d fs. induction pieces as [|p pieces IH]; simpl; intros d fs Hok H; [by simplify_eq|].
  pose proof (push_ok d p Hok) as Hok1. destruct (push d p) as [d1 o1].
  destruct (push_all d1 pieces) as [[d2 gs] e'] eqn:E. simplify_eq. by eapply IH.
Qed.

Lemma push_max d b : ld_max (push d b).1 = ld_max d.
Proof.
  destruct (ld_failure d) eqn:Hd; [by unfold push; rewrite Hd|].
  rewrite push_ref by done. by destruct (decode_buffer _ _) as [fs [e|]].
Qed.

Lemma push_all_max pieces d d' fs e : push_all d pieces = (d', fs, e) -> ld_max d' = ld_max d.
Proof.
  revert d fs. induction pieces as [|p pieces IH]; simpl; intros d fs H; [by simplify_eq|].
  pose proof (push_max d p) as Hm. destruct (push d p) as [d1 o1].
  destruct (push_all d1 pieces) as [[d2 gs] e'] eqn:E. simplify_eq. rewrite <- Hm. by eapply IH.
Qed.

Lemma push_all_error pieces d d' fs e : push_all d pieces = (d', fs, e) -> ld_failure d' = e.
Proof.
  revert d fs. induction pieces as [|p pieces IH]; simpl; intros d fs H; [by simplify_eq|].
  destruct (push d p) as [d1 o1].
  destruct (push_all d1 pieces) as [[d2 gs] e'] eqn:E. simplify_eq. by eapply IH.
Qed.

(** ** One frame *)

Lemma encode_frame_bytes_Ok f max b :
  encode_frame_bytes f max = Ok b <->
  MIN_MAX_FRAME_BYTES <= max /\ validate f = Ok tt /\ to_vec f = Ok b /\ len b <= max.
Proof.
  unfold encode_frame_bytes. split.
  - intros (m & Hm & H)%result_bind_Ok. apply map_err_Ok, checked_at_least_Ok in Hm as [-> Hm].
    apply result_bind_Ok in H as ([] & Hv%map_err_Ok & H).
    apply result_bind_Ok in H as (b' & Hb%map_err_Ok & H).
    destruct (Z.ltb_spec max (len b')); naive_solver.
  - intros (Hm & Hv & Hb & Hl).
    rewrite (proj2 (checked_at_least_Ok "max_frame_bytes" max _ max) (conj eq_refl Hm)). simpl.
    rewrite Hv. simpl. rewrite Hb. simpl. destruct (Z.ltb_spec max (len b)); [lia|done].
Qed.

Context {SJL : SerdeJsonLaws}.

Lemma to_vec_shape f b :
  frame_stable f = true -> to_vec f = Ok b -> no_newline b /\ strip_carriage_return b = b /\ is_blank b = false.
Proof.
  intros Hst Hb. split; [by eapply to_vec_one_line|].
  destruct (to_vec_object f b Hb) as [middle ->]. split; [|done].
  apply strip_carriage_return_id. rewrite app_comm_cons, last_snoc. done.
Qed.

Lemma decode_encode f max b :
  frame_stable f = true -> encode_frame_bytes f max = Ok b -> decode_line b max = Ok f.
Proof.
  intros Hst (Hm & Hv & Hb & Hl)%encode_frame_bytes_Ok.
  destruct (to_vec_shape f b Hst Hb) as (_ & Hstrip & Hblank). unfold decode_line.
  rewrite (proj2 (checked_at_least_Ok "max_frame_bytes" max _ max) (conj eq_refl Hm)). simpl.
  rewrite Hstrip, Hblank. destruct (Z.ltb_spec max (len b)); [lia|].
  rewrite (from_slice_to_vec f b Hst Hb). simpl. by rewrite Hv.
Qed.

(** A sequence of encoded lines is read back line by line. *)
Lemma decode_buffer_lines max fs ls :
  Forall2 (fun f l => encode_line f max = Ok l /\ frame_stable f = true) fs ls ->
  MIN_MAX_FRAME_BYTES <= max ->
  decode_buffer max (concat ls) = (fs, None) /\ partial (concat ls) = [].
Proof.
  intros Hls Hmax. induction Hls as [|f l fs ls [Hl Hst] _ [IH IHp]]; simpl.
  { split; [|done]. unfold decode_buffer. cbn.
    unfold MIN_MAX_FRAME_BYTES, MIN_ANNOUNCED_FRAME_BYTES in Hmax.
    rewrite len_nil. destruct (Z.ltb_spec max 0); [lia|done]. }
  unfold encode_line in Hl. apply result_bind_Ok in Hl as (b & Hb & [= <-]).
  pose proof (decode_encode f max b Hst Hb) as Hdec.
  apply encode_frame_bytes_Ok in Hb as (_ & _ & Hb & Hlen).
  destruct (to_vec_shape f b Hst Hb) as (Hno & Hstrip & Hblank).
  rewrite <- app_assoc. simpl.
  destruct (complete_app_line b (concat ls) Hno) as [Hc Hp].
  unfold decode_buffer in *. rewrite Hc, Hp. simpl. rewrite Hstrip, Hblank, Hdec.
  destruct (Z.ltb_spec max (len b)); [lia|].
  destruct (decode_lines max (complete (concat ls))) as [gs [e|]]; [discriminate IH|].
  injection IH as -> Hpart. split; [|done]. by rewrite Hpart.
Qed.
End decoder.

(** ** Properties *)

Section properties.
Context {RT : RustText} {SJ : SerdeJson}.

(** C22 (framing, [LineDecoder::push]).  How the transport cuts the byte stream does not
    matter: feeding any pieces one after the other delivers exactly the frames, in order, that
    one push of their concatenation delivers, ends in the same decoder, and refuses exactly when
    it does, with the same kind and frame type (only the length a too-large message quotes
    may differ). *)
Theorem push_cut_independent (max : Z) (d : LineDecoder) (pieces : list bytes) :
  line_decoder_new max = Ok d ->
  let '(d1, frames, error) := push_all d pieces in
  let '(d2, whole) := push d (concat pieces) in
  frames = po_frames whole /\ option_Forall2 err_sim error (po_error whole) /\ ld_sim d1 d2.
Proof.
  intros [Hok Hd]%line_decoder_new_ok. by apply push_all_concat.
Qed.

(** C35 (memory, spec section 11.1).  Whatever bytes arrive, the decoder never retains more than one
    frame limit plus the carriage return it may still drop, and never a complete line; after a
    refusal it retains nothing, decodes nothing and repeats the refusal. *)
Theorem decoder_memory_bound (max : Z) (d d' : LineDecoder) (pieces : list bytes)
    (frames : list Frame) (error : option CodecError) :
  line_decoder_new max = Ok d ->
  push_all d pieces = (d', frames, error) ->
  len (ld_buffer d') <= max + 1 /\ no_newline (ld_buffer d') /\
  (forall e b, ld_failure d' = Some e ->
     error = Some e /\ push d' b = (d', {| po_frames := []; po_error := Some e |})).
Proof.
  intros Hnew Hpush. destruct (line_decoder_new_ok max d Hnew) as [Hok Hd].
  pose proof (push_all_ok pieces d d' frames error Hok Hpush) as [Hmax Hno Hbound].
  pose proof (push_all_max pieces d d' frames error Hpush) as Hm.
  unfold line_decoder_new in Hnew.
  apply result_bind_Ok in Hnew as (m & [-> _]%check_at_least_Ok & [= <-]). simpl in Hm.
  pose proof (strip_length (ld_buffer d')). split; [lia|]. split; [done|].
  intros e b He. split; [by rewrite <- (push_all_error pieces _ _ _ _ Hpush)|].
  unfold push. by rewrite He.
Qed.

(** [LineDecoder::finish].  Ending the stream is the same as receiving the missing line
    feed: the final record is delivered or refused exactly as [push] would. *)
Theorem finish_is_final_newline (d : LineDecoder) :
  ld_ok d ->
  match (finish d).2 with
  | Ok frames =>
      push d [newline] = ((finish d).1, {| po_frames := frames; po_error := None |})
  | Err e => po_error (push d [newline]).2 = Some e /\ po_frames (push d [newline]).2 = [] /\
             (push d [newline]).1 = (finish d).1
  end.
Proof.
  intros [Hmax Hno Hbound]. unfold finish. destruct (ld_failure d) as [e|] eqn:Hd.
  { unfold push. rewrite Hd. done. }
  rewrite push_ref by done. unfold decode_buffer.
  destruct (complete_app_line (ld_buffer d) [] Hno) as [-> Hp]. rewrite Hp. simpl.
  destruct (Z.ltb_spec (ld_max d) (len (strip_carriage_return (ld_buffer d)))); [lia|].
  assert ((ld_max d <? len (strip_carriage_return (partial []))) = false) as Hnil.
  { apply Z.ltb_ge. cbn. rewrite len_nil. unfold MIN_MAX_FRAME_BYTES,
      MIN_ANNOUNCED_FRAME_BYTES in Hmax. lia. }
  destruct (is_blank _); simpl; rewrite ?Hnil; simpl; rewrite ?Hp; [done|].
  destruct (decode_line _ _); simpl; rewrite ?Hnil; simpl; by rewrite ?Hp.
Qed.

(** Encoder.  [encode_frame_bytes] succeeds exactly on valid frames that fit; what it
    returns is within the limit, so a peer never sends a frame that violates the schema or the
    size it agreed to. *)
Theorem encode_succeeds_iff (f : Frame) (max : Z) (b : bytes) :
  encode_frame_bytes f max = Ok b <->
  4096 <= max /\ schema_valid f /\ to_vec f = Ok b /\ len b <= max.
Proof. rewrite encode_frame_bytes_Ok, validate_iff_schema. done. Qed.

(** [decode_line].  Every refusal of a line has the kind its cause asks for, tried in the
    order of the code: too long, blank, not a frame, not a valid frame; and a line is accepted
    exactly when it fits, is not blank, parses and validates. *)
Theorem decode_line_cases (b : bytes) (max : Z) :
  4096 <= max ->
  let line := strip_carriage_return b in
  match decode_line b max with
  | Ok f => len line <= max /\ is_blank line = false /\ from_slice line = Ok f /\ schema_valid f
  | Err e =>
      (kind e = TooLarge /\ max < len line) \/
      (len line <= max /\ is_blank line = true /\ kind e = Schema /\ frame_type e = None) \/
      (exists error, len line <= max /\ is_blank line = false /\ from_slice line = Err error /\
         kind e = (match classify error with CatData => Schema | _ => InvalidJson end) /\
         frame_type e = (match classify error with CatData => frame_type_of line | _ => None end)) \/
      (exists f, len line <= max /\ is_blank line = false /\ from_slice line = Ok f /\
         ~ schema_valid f /\ kind e = Schema /\ frame_type e = Some (type_name f))
  end.
Proof.
  intros Hmax line. unfold decode_line. fold line.
  rewrite (proj2 (checked_at_least_Ok "max_frame_bytes" max MIN_MAX_FRAME_BYTES max) (conj eq_refl Hmax)). simpl.
  destruct (Z.ltb_spec max (len line)); [by left|].
  destruct (is_blank line) eqn:Hblank; [by right; left|].
  destruct (from_slice line) as [f|error] eqn:Hparse; simpl.
  - destruct (validate f) as [[]|v] eqn:Hv; simpl.
    + by rewrite <- validate_iff_schema.
    + right. right. right. exists f. rewrite <- validate_iff_schema, Hv. done.
  - right. right. left. exists error. unfold parse_refusal.
    destruct (classify error), (frame_type_of line); done.
Qed.

Context {SJL : SerdeJsonLaws}.

(** The frames of concatenated lines, however these are cut. *)
Lemma push_all_lines (max : Z) (d : LineDecoder) (fs : list Frame) (ls pieces : list bytes) :
  line_decoder_new max = Ok d ->
  Forall2 (fun f l => encode_line f max = Ok l /\ frame_stable f = true) fs ls ->
  concat pieces = concat ls ->
  push_all d pieces = (d, fs, None).
Proof.
  intros Hnew Hls Hp. destruct (line_decoder_new_ok max d Hnew) as [Hok Hd].
  unfold line_decoder_new in Hnew.
  apply result_bind_Ok in Hnew as (m & [-> Hmax]%check_at_least_Ok & [= Hdef]).
  destruct (decode_buffer_lines max fs ls Hls Hmax) as [Hdec Hpart].
  pose proof (push_all_concat pieces d Hok Hd) as H. rewrite Hp, push_ref in H by done.
  subst d. cbn [ld_max ld_buffer app] in H. rewrite Hdec in H.
  destruct (push_all _ pieces) as [[d' gs] e] eqn:E. cbv iota in H. unfold decoder_after in H.
  rewrite Hpart in H. destruct H as (-> & He & Hsim).
  pose proof (push_all_max pieces _ d' _ _ E) as Hm'.
  pose proof (push_all_error pieces _ d' _ _ E) as Hf'.
  inversion He; subst e. destruct d' as [m' b' f']. destruct Hsim as [Hm Hb _].
  simpl in *. by subst.
Qed.

(** C3 (round trip).  Stable frames ([frame_stable]: they fit their Rust types, their values hold no
    floating-point number and nest at most 125 deep) encoded one per line come out of the decoder
    exactly as they went in, in order, whatever pieces the concatenated lines arrive in, and nothing is
    left in its buffer.  The parser refuses deeper values, which the encoder does not. *)
Theorem stream_roundtrip (max : Z) (d : LineDecoder) (fs : list Frame) (ls pieces : list bytes) :
  line_decoder_new max = Ok d ->
  Forall2 (fun f l => encode_line f max = Ok l /\ frame_stable f = true) fs ls ->
  concat pieces = concat ls ->
  push_all d pieces = (d, fs, None).
Proof. apply push_all_lines. Qed.
End properties.

(** ** Witnesses *)

Definition small_decoder : LineDecoder := {| ld_max := 4096; ld_buffer := []; ld_failure := None |}.

Definition sample_frames : list Frame :=
  [FPing; FReq {| req_id := "r-1"; req_method := "tools.list"; req_params := VArray [from_u64 7; Null] |}].

Definition sample_lines : list bytes := Eval vm_compute in
  match encode_line FPing 4096, encode_line (List.nth 1 sample_frames FPing) 4096 with
  | Ok a, Ok b => [a; b]
  | _, _ => []
  end.

(** The same bytes cut in the middle of both lines. *)
Definition sample_pieces : list bytes :=
  [take 5 (concat sample_lines); take 20 (drop 5 (concat sample_lines)); drop 25 (concat sample_lines)].

Lemma push_cut_independent_witness :
  let '(d1, frames, error) := push_all small_decoder sample_pieces in
  let '(d2, whole) := push small_decoder (concat sample_pieces) in
  frames = po_frames whole /\ option_Forall2 err_sim error (po_error whole) /\ ld_sim d1 d2.
Proof. apply (push_cut_independent 4096). reflexivity. Defined.

Lemma decoder_memory_bound_witness : len (ld_buffer small_decoder) <= 4096 + 1.
Proof.
  refine (proj1 (decoder_memory_bound 4096 small_decoder small_decoder sample_pieces sample_frames None _ _)).
  - reflexivity.
  - vm_compute. reflexivity.
Defined.

Lemma finish_is_final_newline_witness :
  push {| ld_max := 4096; ld_buffer := to_bytes " "; ld_failure := None |} [newline] =
  (small_decoder, {| po_frames := []; po_error := None |}).
Proof.
  refine (finish_is_final_newline {| ld_max := 4096; ld_buffer := to_bytes " "; ld_failure := None |} _).
  split; simpl; [done| |done]. by repeat constructor.
Defined.

Lemma decode_line_cases_witness :
  len (to_bytes "") <= 4096 /\ is_blank (to_bytes "") = true.
Proof.
  destruct (decode_line_cases (to_bytes "") 4096 ltac:(lia)) as [[_ ?]|[(?&?&?)|[(?&?&?&?)|(?&?&?&?)]]];
    try done.
Defined.

Lemma stream_roundtrip_witness : push_all small_decoder sample_pieces = (small_decoder, sample_frames, None).
Proof.
  apply (stream_roundtrip 4096 small_decoder sample_frames sample_lines).
  - reflexivity.
  - unfold sample_frames, sample_lines.
    constructor; [split; vm_compute; reflexivity|].
    constructor; [split; vm_compute; reflexivity|constructor].
  - vm_compute. reflexivity.
Defined.
