(* ===== verification/Chunk.v ===== *)
(** * Chunk framing

    [codec/chunk.rs]: one frame split across binary WebSocket messages.  [encode_chunks] cuts
    the NDJSON line (without its terminator) into messages with a nine-byte header, and
    [ChunkReassembler] rebuilds it, refusing every sequence the transport specification
    forbids. *)

From S2P Require Import Prelude Json Wire Frame Validate Limits Serde FrameJson Ndjson NdjsonProps.
Local Open Scope Z_scope.

Definition CHUNK_HEADER_BYTES : Z := 9.
Definition CHUNK_FORMAT_VERSION : Z := 1.
Definition DEFAULT_MAX_MESSAGE_BYTES : Z := 16 * 1024.
Definition MIN_MAX_MESSAGE_BYTES : Z := 2048.
Definition MIN_NONFINAL_PAYLOAD_BYTES : Z := 1024.

Definition max_chunks_for (max_frame_bytes : Z) : Z :=
  u32_saturate (div_ceil max_frame_bytes MIN_NONFINAL_PAYLOAD_BYTES).

(** [&bytes[start..end]] *)
Definition slice (b : bytes) (start end_ : Z) : bytes :=
  take (Z.to_nat (end_ - start)) (drop (Z.to_nat start) b).

(** One message: version, index and count, then the payload. *)
Definition chunk_message (index count : Z) (payload : bytes) : bytes :=
  byte_of_Z CHUNK_FORMAT_VERSION :: to_be_bytes index ++ to_be_bytes count ++ payload.

(** The body of the [for index in 0..count] loop. *)
Definition chunk_at (b : bytes) (capacity count index : Z) : bytes :=
  let start := index * capacity in
  let end_ := Z.min (start + capacity) (len b) in
  chunk_message index count (slice b start end_).

Record ChunkReassembler : Type :=
  { cr_max_message_bytes : Z;
    cr_max_frame_bytes : Z;
    cr_count : option Z;
    cr_next_index : Z;
    cr_buffer : bytes }.

Definition reassembler_new (max_message_bytes max_frame_bytes : Z) : panics ChunkReassembler :=
  let? mm := check_at_least "max_message_bytes" max_message_bytes MIN_MAX_MESSAGE_BYTES in
  let? mf := check_max_frame_bytes max_frame_bytes in
  Ok {| cr_max_message_bytes := mm; cr_max_frame_bytes := mf; cr_count := None;
        cr_next_index := 0; cr_buffer := [] |}.

Definition reset (r : ChunkReassembler) : ChunkReassembler :=
  {| cr_max_message_bytes := cr_max_message_bytes r;
     cr_max_frame_bytes := cr_max_frame_bytes r;
     cr_count := None; cr_next_index := 0; cr_buffer := [] |}.

Definition is_reassembling (r : ChunkReassembler) : bool :=
  match cr_count r with Some _ => true | None => false end.

(** How much the first chunk of a frame asks the allocator for. *)
Definition reserve_estimate (r : ChunkReassembler) (count : Z) : Z :=
  Z.min (saturating_mul count (saturating_sub (cr_max_message_bytes r) CHUNK_HEADER_BYTES))
    (cr_max_frame_bytes r).

(** The nine header bytes and what follows them. *)
Definition split_header (message : bytes) : option (Z * Z * bytes) :=
  match message with
  | _ :: i1 :: i2 :: i3 :: i4 :: c1 :: c2 :: c3 :: c4 :: payload =>
      Some (from_be_bytes i1 i2 i3 i4, from_be_bytes c1 c2 c3 c4, payload)
  | _ => None
  end.

Definition unsupported_version (message : bytes) : option Z :=
  match message with
  | version :: _ =>
      if Z_of_byte version =? CHUNK_FORMAT_VERSION then None else Some (Z_of_byte version)
  | [] => None
  end.

Section codec.
Context {RT : RustText} {SJ : SerdeJson}.

Definition encode_chunks (frame : Frame) (max_message_bytes max_frame_bytes : Z) :
    result (list bytes) CodecError :=
  if max_message_bytes <? MIN_MAX_MESSAGE_BYTES then
    Err (codec_error ChunkHeader ("received a message ceiling of " +:+ show_Z max_message_bytes +:+
      " bytes, expected at least " +:+ show_Z MIN_MAX_MESSAGE_BYTES))
  else
    let? b := encode_frame_bytes frame max_frame_bytes in
    let capacity := max_message_bytes - CHUNK_HEADER_BYTES in
    let count := Z.max (div_ceil (len b) capacity) 1 in
    let bound := max_chunks_for max_frame_bytes in
    let count := u32_saturate count in
    if bound <? count then
      Err (codec_error ChunkCount ("received a frame needing " +:+ show_Z count +:+
        " chunks, expected at most " +:+ show_Z bound))
    else Ok (map (fun i => chunk_at b capacity count (Z.of_nat i)) (seq 0 (Z.to_nat count))).

(** [ChunkReassembler::decode]: the rules in the order the code tries them.  The state it
    leaves after a refusal is irrelevant, [push_chunk] resets it. *)
Definition decode (r : ChunkReassembler) (message : bytes) :
    ChunkReassembler * result (option Frame) CodecError :=
  let refuse kind text := (r, Err (codec_error kind text)) in
  match unsupported_version message with
  | Some version =>
      refuse ChunkVersion ("received chunk format version " +:+ show_Z version +:+ ", expected " +:+
        show_Z CHUNK_FORMAT_VERSION)
  | None =>
  match split_header message with
  | None =>
      refuse ChunkHeader ("received a chunk message of " +:+ show_Z (len message) +:+
        " bytes, expected at least " +:+ show_Z CHUNK_HEADER_BYTES)
  | Some (index, count, payload) =>
  let bound := max_chunks_for (cr_max_frame_bytes r) in
  if (count =? 0) || (bound <? count) then
    refuse ChunkCount ("received chunk count " +:+ show_Z count +:+ ", expected 1 to " +:+ show_Z bound)
  else if match cr_count r with Some started => negb (count =? started) | None => false end then
    refuse ChunkCount ("received chunk count " +:+ show_Z count +:+ ", expected " +:+
      show_Z (default 0 (cr_count r)) +:+ " for this frame")
  else if negb (index =? cr_next_index r) then
    refuse ChunkIndex ("received chunk index " +:+ show_Z index +:+ ", expected " +:+
      show_Z (cr_next_index r) +:+ " of a " +:+ show_Z count +:+ "-chunk frame")
  else if len payload =? 0 then
    refuse ChunkDribble ("received chunk " +:+ show_Z index +:+
      " with no payload, expected at least 1 byte")
  else
    let is_final := index + 1 =? count in
    if negb is_final && (len payload <? MIN_NONFINAL_PAYLOAD_BYTES) then
      refuse ChunkDribble ("received " +:+ show_Z (len payload) +:+
        " payload bytes in non-final chunk " +:+ show_Z index +:+ ", expected at least " +:+
        show_Z MIN_NONFINAL_PAYLOAD_BYTES)
    else
      let accumulated := len (cr_buffer r) + len payload in
      if cr_max_frame_bytes r <? accumulated then
        refuse TooLarge ("received " +:+ show_Z accumulated +:+
          " reassembled bytes, expected at most " +:+ show_Z (cr_max_frame_bytes r))
      else
        let started := match cr_count r with Some c => c | None => count end in
        let buffer := cr_buffer r ++ payload in
        if negb is_final then
          ({| cr_max_message_bytes := cr_max_message_bytes r;
              cr_max_frame_bytes := cr_max_frame_bytes r;
              cr_count := Some started;
              cr_next_index := index + 1;
              cr_buffer := buffer |}, Ok None)
        else
          (reset r, let? f := decode_line buffer (cr_max_frame_bytes r) in Ok (Some f))
  end
  end.

Definition push_chunk (r : ChunkReassembler) (message : bytes) :
    ChunkReassembler * result (option Frame) CodecError :=
  match decode r message with
  | (r', Ok outcome) => (r', Ok outcome)
  | (r', Err error) => (reset r', Err error)
  end.
End codec.
