(* ===== verification/ChunkProps.v ===== *)
(** * Properties of chunk framing

    What a reassembler accepts, what it retains, and that it inverts [encode_chunks]. *)

From S2P Require Import Prelude Json Wire Frame Validate Limits Serde FrameJson Ndjson NdjsonProps Chunk.
Local Open Scope Z_scope.

(** ** Arithmetic of the chunk count *)

Lemma div_ceil_bounds a b : 0 < b -> a <= div_ceil a b * b < a + b.
Proof.
  intros Hb. unfold div_ceil. pose proof (Z.div_mod a b ltac:(lia)).
  pose proof (Z.mod_pos_bound a b Hb). destruct (Z.ltb_spec 0 (a mod b)); nia.
Qed.

Lemma div_ceil_le a b n : 0 < b -> a <= n * b -> div_ceil a b <= n.
Proof. intros Hb Ha. pose proof (div_ceil_bounds a b Hb). nia. Qed.

Lemma div_ceil_lt a b n : 0 < b -> n < div_ceil a b -> n * b < a.
Proof. intros Hb Hn. pose proof (div_ceil_bounds a b Hb). nia. Qed.

Lemma u32_saturate_id z : z <= u32_max -> u32_saturate z = z.
Proof. unfold u32_saturate. destruct (Z.leb_spec z u32_max); lia. Qed.

Lemma u32_saturate_le z : u32_saturate z <= z /\ u32_saturate z <= u32_max.
Proof. unfold u32_saturate. destruct (Z.leb_spec z u32_max); lia. Qed.

Lemma u32_saturate_mono a b : a <= b -> u32_saturate a <= u32_saturate b.
Proof. unfold u32_saturate. destruct (Z.leb_spec a u32_max), (Z.leb_spec b u32_max); lia. Qed.

(** A frame of at most [mf] bytes cut into pieces of at least the minimum payload needs no more
    chunks than a receiver of that frame limit allows. *)
Lemma chunks_within_bound n mf cap :
  MIN_NONFINAL_PAYLOAD_BYTES <= cap -> 0 <= n <= mf -> 4096 <= mf ->
  u32_saturate (Z.max (div_ceil n cap) 1) <= max_chunks_for mf.
Proof.
  unfold MIN_NONFINAL_PAYLOAD_BYTES, max_chunks_for. intros Hcap Hn Hmf. apply u32_saturate_mono.
  pose proof (div_ceil_bounds mf MIN_NONFINAL_PAYLOAD_BYTES ltac:(done)) as Hb.
  unfold MIN_NONFINAL_PAYLOAD_BYTES in *.
  pose proof (div_ceil_le n cap (div_ceil mf 1024) ltac:(lia) ltac:(nia)). lia.
Qed.

(** ** Messages *)

Lemma len_zero {A} (l : list A) : len l = 0 <-> l = [].
Proof. unfold len. destruct l; simpl; split; intros; (done || lia). Qed.

Lemma split_header_message index count payload :
  0 <= index <= u32_max -> 0 <= count <= u32_max ->
  split_header (chunk_message index count payload) = Some (index, count, payload) /\
  unsupported_version (chunk_message index count payload) = None.
Proof.
  intros Hi Hc. split; [|done]. unfold chunk_message, split_header.
  destruct (to_be_bytes index) as [|a [|b [|c [|d [|]]]]] eqn:Ei; try discriminate.
  destruct (to_be_bytes count) as [|a' [|b' [|c' [|d' [|]]]]] eqn:Ec; try discriminate.
  cbn [app]. by rewrite (from_to_be_bytes index a b c d), (from_to_be_bytes count a' b' c' d').
Qed.

Lemma from_be_bytes_nonneg a b c d : 0 <= from_be_bytes a b c d.
Proof.
  unfold from_be_bytes. pose proof (Z_of_byte_range a). pose proof (Z_of_byte_range b).
  pose proof (Z_of_byte_range c). pose proof (Z_of_byte_range d).
  rewrite !Z.lor_nonneg, !Z.shiftl_nonneg. lia.
Qed.

Lemma split_header_nonneg m index count payload :
  split_header m = Some (index, count, payload) -> 0 <= index /\ 0 <= count.
Proof.
  unfold split_header. intros H.
  do 9 (destruct m as [|? m]; [discriminate|]). injection H as <- <- <-.
  split; apply from_be_bytes_nonneg.
Qed.

Lemma chunk_message_len index count payload :
  len (chunk_message index count payload) = CHUNK_HEADER_BYTES + len payload.
Proof. unfold chunk_message, CHUNK_HEADER_BYTES, to_be_bytes. cbn [app]. rewrite !len_cons. lia. Qed.

Section reassembler.
Context {RT : RustText} {SJ : SerdeJson}.

(** ** What is accepted *)

(** The conditions a message must meet in a given state. *)
Record accepts (r : ChunkReassembler) (index count : Z) (payload : bytes) : Prop := {
  acc_count : 1 <= count <= max_chunks_for (cr_max_frame_bytes r);
  acc_started : cr_count r = None \/ cr_count r = Some count;
  acc_index : index = cr_next_index r;
  acc_payload : payload <> [];
  acc_dribble : index + 1 <> count -> MIN_NONFINAL_PAYLOAD_BYTES <= len payload;
  acc_fits : len (cr_buffer r) + len payload <= cr_max_frame_bytes r
}.

(** The state after an accepted chunk that is not the last. *)
Definition after_chunk (r : ChunkReassembler) (index count : Z) (payload : bytes) :=
  {| cr_max_message_bytes := cr_max_message_bytes r;
     cr_max_frame_bytes := cr_max_frame_bytes r;
     cr_count := Some count;
     cr_next_index := index + 1;
     cr_buffer := cr_buffer r ++ payload |}.

Lemma decode_accepted r m index count payload :
  unsupported_version m = None -> split_header m = Some (index, count, payload) ->
  accepts r index count payload ->
  decode r m =
    if index + 1 =? count
    then (reset r, let? f := decode_line (cr_buffer r ++ payload) (cr_max_frame_bytes r) in Ok (Some f))
    else (after_chunk r index count payload, Ok None).
Proof.
  intros Hv Hh [Hc Hs Hi Hp Hd Hf]. unfold decode. rewrite Hv, Hh.
  assert ((count =? 0) = false) as -> by (apply Z.eqb_neq; lia).
  rewrite (proj2 (Z.ltb_ge _ _)) by lia. simpl.
  assert ((match cr_count r with Some s => negb (count =? s) | None => false end) = false) as ->.
  { destruct Hs as [-> | ->]; [done|]. by rewrite Z.eqb_refl. }
  rewrite <- Hi, Z.eqb_refl. simpl.
  assert ((len payload =? 0) = false) as -> by (apply Z.eqb_neq; by rewrite len_zero).
  rewrite (proj2 (Z.ltb_ge (cr_max_frame_bytes r) _)) by lia.
  destruct (Z.eqb_spec (index + 1) count); simpl; [done|].
  rewrite (proj2 (Z.ltb_ge (len payload) _)) by auto. simpl. unfold after_chunk.
  by destruct Hs as [-> | ->].
Qed.

Lemma decode_Ok r m r' o :
  decode r m = (r', Ok o) ->
  exists index count payload,
    unsupported_version m = None /\ split_header m = Some (index, count, payload) /\
    accepts r index count payload.
Proof.
  unfold decode. intros H. destruct (unsupported_version m) eqn:Hv; [done|].
  destruct (split_header m) as [[[index count] payload]|] eqn:Hh; [|done].
  destruct (split_header_nonneg m index count payload Hh) as [Hi0 Hc0].
  exists index, count, payload. split; [done|]. split; [done|].
  destruct ((count =? 0) || _) eqn:Hc; [done|].
  destruct (match cr_count r with Some s => negb (count =? s) | None => false end) eqn:Hs; [done|].
  destruct (negb (index =? cr_next_index r)) eqn:Hi; [done|].
  destruct (len payload =? 0) eqn:Hp; [done|].
  destruct (negb (index + 1 =? count) && _) eqn:Hd; [done|].
  destruct (cr_max_frame_bytes r <? _) eqn:Hf; [done|].
  bools. split; [lia| |done| | |lia].
  - destruct (cr_count r); [right|by left]. bools. by subst.
  - by rewrite <- len_zero.
  - intros Hne. apply andb_false_iff in Hd as [Hd|Hd]; bools; [done|lia].
Qed.

(** ** The invariant *)

(** Between two messages: either nothing is held, or at least one and not all of the announced
    chunks are, each of which carried the minimum payload. *)
Record reassembler_ok (r : ChunkReassembler) : Prop := {
  ok_message : MIN_MAX_MESSAGE_BYTES <= cr_max_message_bytes r;
  ok_frame : MIN_MAX_FRAME_BYTES <= cr_max_frame_bytes r;
  ok_progress :
    match cr_count r with
    | None => cr_next_index r = 0 /\ cr_buffer r = []
    | Some c =>
        1 <= cr_next_index r < c /\ c <= max_chunks_for (cr_max_frame_bytes r) /\
        MIN_NONFINAL_PAYLOAD_BYTES * cr_next_index r <= len (cr_buffer r) <= cr_max_frame_bytes r
    end
}.

Lemma reassembler_new_ok mm mf r :
  reassembler_new mm mf = Ok r ->
  reassembler_ok r /\ r = reset r /\ cr_max_message_bytes r = mm /\ cr_max_frame_bytes r = mf.
Proof.
  unfold reassembler_new, check_max_frame_bytes. intros H.
  apply result_bind_Ok in H as (a & [-> Hm]%check_at_least_Ok & H).
  apply result_bind_Ok in H as (b & [-> Hf]%check_at_least_Ok & [= <-]). by repeat split.
Qed.

Lemma reset_ok r : reassembler_ok r -> reassembler_ok (reset r).
Proof. intros [? ? ?]. by split. Qed.

Lemma push_chunk_refused r m r' e : push_chunk r m = (r', Err e) -> r' = reset r'.
Proof.
  unfold push_chunk. destruct (decode r m) as [r1 [o|e']]; intros H; simplify_eq. done.
Qed.

Lemma push_chunk_accepted r m index count payload :
  unsupported_version m = None -> split_header m = Some (index, count, payload) ->
  accepts r index count payload -> index + 1 <> count ->
  push_chunk r m = (after_chunk r index count payload, Ok None).
Proof.
  intros Hv Hh Ha Hne. unfold push_chunk. rewrite (decode_accepted r m index count payload Hv Hh Ha).
  by rewrite (proj2 (Z.eqb_neq _ _) Hne).
Qed.

Lemma decode_fields r m : cr_max_message_bytes (decode r m).1 = cr_max_message_bytes r /\
  cr_max_frame_bytes (decode r m).1 = cr_max_frame_bytes r.
Proof.
  unfold decode. repeat case_match; by simplify_eq/=.
Qed.

(** Every push, accepted or refused, keeps the invariant. *)
Lemma push_chunk_ok r m : reassembler_ok r -> reassembler_ok (push_chunk r m).1.
Proof.
  intros Hok. destruct (decode r m) as [r' [o|e]] eqn:Hdec.
  - destruct (decode_Ok r m r' o Hdec) as (index & count & payload & Hv & Hh & Ha).
    unfold push_chunk. rewrite (decode_accepted r m index count payload Hv Hh Ha) in *.
    destruct (Z.eqb_spec (index + 1) count).
    + destruct (decode_line _ _); simpl; by repeat apply reset_ok.
    + simpl. destruct Hok as [Hm Hf Hp], Ha as [Hc Hs Hi Hpl Hd Hfit].
      specialize (Hd ltac:(done)). split; [done|done|]. cbn [after_chunk cr_count cr_next_index
        cr_buffer cr_max_frame_bytes]. rewrite len_app.
      destruct (split_header_nonneg m index count payload Hh) as [Hi0 _].
      destruct Hs as [E|E]; rewrite E in Hp.
      * destruct Hp as [Hn Hb]. rewrite Hb in *. rewrite len_nil in *.
        unfold MIN_NONFINAL_PAYLOAD_BYTES in *. lia.
      * unfold MIN_NONFINAL_PAYLOAD_BYTES in *. lia.
  - unfold push_chunk. rewrite Hdec. simpl. pose proof (decode_fields r m) as [Hm Hf].
    rewrite Hdec in Hm, Hf. simpl in Hm, Hf. destruct Hok as [Hm' Hf' _].
    split; simpl; [by rewrite Hm|by rewrite Hf|done].
Qed.

(** A run of messages and the outcome of each. *)
Fixpoint push_chunks (r : ChunkReassembler) (ms : list bytes) :
    ChunkReassembler * list (result (option Frame) CodecError) :=
  match ms with
  | [] => (r, [])
  | m :: ms =>
      let '(r1, o) := push_chunk r m in
      let '(r2, os) := push_chunks r1 ms in
      (r2, o :: os)
  end.

Lemma push_chunks_cons r m ms :
  push_chunks r (m :: ms) =
    let '(r1, o) := push_chunk r m in let '(r2, os) := push_chunks r1 ms in (r2, o :: os).
Proof. done. Qed.

Lemma push_chunks_app ms1 ms2 : forall r,
  push_chunks r (ms1 ++ ms2) =
    let '(r1, os1) := push_chunks r ms1 in let '(r2, os2) := push_chunks r1 ms2 in (r2, os1 ++ os2).
Proof.
  induction ms1 as [|m ms1 IH]; intros r; simpl; [by destruct (push_chunks r ms2)|].
  destruct (push_chunk r m) as [r1 o]. rewrite IH. destruct (push_chunks r1 ms1) as [r2 os1].
  by destruct (push_chunks r2 ms2).
Qed.

Lemma push_chunks_length ms : forall r, length (push_chunks r ms).2 = length ms.
Proof.
  induction ms as [|m ms IH]; intros r; simpl; [done|]. destruct (push_chunk r m) as [r1 o].
  specialize (IH r1). destruct (push_chunks r1 ms). simpl in *. by rewrite IH.
Qed.

Lemma push_chunks_ok ms r : reassembler_ok r -> reassembler_ok (push_chunks r ms).1.
Proof.
  revert r. induction ms as [|m ms IH]; intros r Hok; simpl; [done|].
  pose proof (push_chunk_ok r m Hok) as H1. destruct (push_chunk r m) as [r1 o].
  specialize (IH r1 H1). by destruct (push_chunks r1 ms).
Qed.

(** ** Reassembling what [encode_chunks] cut *)

Section cut.
Variables (b : bytes) (cap n mf mm : Z).
Hypothesis Hcap : MIN_NONFINAL_PAYLOAD_BYTES <= cap.
Hypothesis Hn : 1 <= n <= u32_max.
Hypothesis Hbound : n <= max_chunks_for mf.
Hypothesis Hlen : (n - 1) * cap < len b <= n * cap.
Hypothesis Hfits : len b <= mf.

(** The reassembler after the first [i] chunks. *)
Definition held (i : Z) : ChunkReassembler :=
  {| cr_max_message_bytes := mm; cr_max_frame_bytes := mf;
     cr_count := if i =? 0 then None else Some n;
     cr_next_index := i;
     cr_buffer := take (Z.to_nat (i * cap)) b |}.

Lemma chunk_payload i :
  0 <= i < n ->
  let payload := slice b (i * cap) (Z.min (i * cap + cap) (len b)) in
  len payload = Z.min cap (len b - i * cap) /\
  take (Z.to_nat (i * cap)) b ++ payload = take (Z.to_nat ((i + 1) * cap)) b.
Proof.
  unfold MIN_NONFINAL_PAYLOAD_BYTES in Hcap. intros Hi payload.
  assert (0 <= i * cap <= (n - 1) * cap) as Hic by nia. unfold len in *.
  assert (Hsl : payload = take (Z.to_nat cap) (drop (Z.to_nat (i * cap)) b)).
  { unfold payload, slice. destruct (Z.le_ge_cases (i * cap + cap) (Z.of_nat (length b))).
    - rewrite Z.min_l by lia. do 2 f_equal. lia.
    - rewrite Z.min_r by lia. rewrite !take_ge; rewrite ?length_drop; [done|lia|lia]. }
  rewrite Hsl. split.
  - rewrite length_take, length_drop. lia.
  - rewrite take_take_drop. f_equal. nia.
Qed.

Lemma held_accepts i :
  0 <= i < n ->
  accepts (held i) i n (slice b (i * cap) (Z.min (i * cap + cap) (len b))).
Proof.
  unfold MIN_NONFINAL_PAYLOAD_BYTES in Hcap.
  intros Hi. destruct (chunk_payload i Hi) as [Hpl Hpa]. apply (f_equal len) in Hpa as Hla.
  rewrite len_app in Hla. split; simpl; auto.
  - lia.
  - destruct (i =? 0); auto.
  - intros E. rewrite E, len_nil in Hpl. nia.
  - intros Hne. rewrite Hpl. unfold MIN_NONFINAL_PAYLOAD_BYTES. nia.
  - rewrite Hla. unfold len in *. rewrite length_take. lia.
Qed.

Lemma push_held_step i :
  0 <= i -> i + 1 < n -> push_chunk (held i) (chunk_at b cap n i) = (held (i + 1), Ok None).
Proof.
  intros Hi Hlt. unfold chunk_at.
  destruct (split_header_message i n (slice b (i * cap) (Z.min (i * cap + cap) (len b))))
    as [Hh Hv]; [lia|lia|].
  rewrite (push_chunk_accepted _ _ _ _ _ Hv Hh); [|apply held_accepts; lia|lia].
  destruct (chunk_payload i ltac:(lia)) as [_ Hpa].
  unfold after_chunk, held. simpl. rewrite Hpa.
  assert (((i + 1) =? 0) = false) as -> by (apply Z.eqb_neq; lia). done.
Qed.

Lemma push_held_last :
  decode (held (n - 1)) (chunk_at b cap n (n - 1)) =
  (reset (held 0), let? f := decode_line b mf in Ok (Some f)).
Proof.
  unfold chunk_at.
  destruct (split_header_message (n - 1) n
    (slice b ((n - 1) * cap) (Z.min ((n - 1) * cap + cap) (len b)))) as [Hh Hv]; [lia|lia|].
  rewrite (decode_accepted _ _ _ _ _ Hv Hh (held_accepts (n - 1) ltac:(lia))).
  assert ((n - 1 + 1 =? n) = true) as -> by (apply Z.eqb_eq; lia).
  destruct (chunk_payload (n - 1) ltac:(lia)) as [_ Hpa]. cbn [held cr_buffer cr_max_frame_bytes].
  rewrite Hpa, take_ge; [done|]. unfold len in *. unfold MIN_NONFINAL_PAYLOAD_BYTES in Hcap. lia.
Qed.

Lemma push_chunks_held f k i :
  decode_line b mf = Ok f -> Z.of_nat (i + S k) = n ->
  push_chunks (held (Z.of_nat i)) (map (fun j => chunk_at b cap n (Z.of_nat j)) (seq i (S k))) =
  (reset (held 0), replicate k (Ok None) ++ [Ok (Some f)]).
Proof.
  intros Hf. revert i. induction k as [|k IH]; intros i Hi.
  - cbn [seq map push_chunks replicate app].
    replace (Z.of_nat i) with (n - 1) by lia. unfold push_chunk.
    rewrite push_held_last, Hf. done.
  - change (seq i (S (S k))) with (i :: seq (S i) (S k)). rewrite map_cons, push_chunks_cons.
    rewrite push_held_step by lia. replace (Z.of_nat i + 1) with (Z.of_nat (S i)) by lia.
    rewrite IH by lia. done.
Qed.
End cut.

Lemma encode_chunks_Ok f mm mf ms :
  encode_chunks f mm mf = Ok ms ->
  exists b, MIN_MAX_MESSAGE_BYTES <= mm /\ encode_frame_bytes f mf = Ok b /\
    let cap := mm - CHUNK_HEADER_BYTES in
    let n := u32_saturate (Z.max (div_ceil (len b) cap) 1) in
    ms = map (fun i => chunk_at b cap n (Z.of_nat i)) (seq 0 (Z.to_nat n)).
Proof.
  unfold encode_chunks. destruct (Z.ltb_spec mm MIN_MAX_MESSAGE_BYTES) as [|Hmm]; [done|].
  intros (b & Hb & H)%result_bind_Ok. exists b. split; [lia|]. split; [done|].
  cbv zeta in *. destruct (max_chunks_for mf <? _); [done|]. by injection H.
Qed.

(** The count never exceeds the receiver's bound, so the [ChunkCount] refusal of the encoder
    is unreachable. *)
Lemma encode_chunks_total f mm mf b :
  MIN_MAX_MESSAGE_BYTES <= mm -> encode_frame_bytes f mf = Ok b -> is_ok (encode_chunks f mm mf) = true.
Proof.
  intros Hmm Hb. unfold encode_chunks. unfold MIN_MAX_MESSAGE_BYTES in *.
  destruct (Z.ltb_spec mm 2048); [lia|]. rewrite Hb. simpl.
  apply encode_frame_bytes_Ok in Hb as (Hmf & _ & _ & Hlen).
  unfold CHUNK_HEADER_BYTES, MIN_MAX_FRAME_BYTES, MIN_ANNOUNCED_FRAME_BYTES in *.
  rewrite (proj2 (Z.ltb_ge _ _)); [done|].
  apply chunks_within_bound; unfold MIN_NONFINAL_PAYLOAD_BYTES; pose proof (len_nonneg b); lia.
Qed.

Lemma push_chunk_Ok r m r' o :
  push_chunk r m = (r', Ok o) ->
  exists index count payload,
    unsupported_version m = None /\ split_header m = Some (index, count, payload) /\
    accepts r index count payload /\
    match o with
    | None => index + 1 <> count /\ r' = after_chunk r index count payload
    | Some f => index + 1 = count /\ r' = reset r /\
                decode_line (cr_buffer r ++ payload) (cr_max_frame_bytes r) = Ok f
    end.
Proof.
  unfold push_chunk. destruct (decode r m) as [r1 [o1|e]] eqn:Hdec; intros H; simplify_eq.
  destruct (decode_Ok r m r' o Hdec) as (index & count & payload & Hv & Hh & Ha).
  exists index, count, payload. split; [done|]. split; [done|]. split; [done|].
  rewrite (decode_accepted r m index count payload Hv Hh Ha) in Hdec.
  destruct (Z.eqb_spec (index + 1) count); [|by simplify_eq].
  destruct (decode_line _ _); simplify_eq/=; done.
Qed.

(** A 32-bit number as the specification writes it, most significant byte first. *)
Definition big_endian (b : bytes) : Z := foldl (fun n c => 256 * n + Z_of_byte c) 0 b.

Lemma shiftl_lor x k y : 0 <= k -> 0 <= y < 2 ^ k -> Z.lor (Z.shiftl x k) y = x * 2 ^ k + y.
Proof.
  intros Hk Hy. assert (Hd : Z.land (Z.shiftl x k) y = 0).
  { apply Z.bits_inj'. intros n Hn. rewrite Z.land_spec, Z.shiftl_spec, Z.bits_0 by lia.
    destruct (decide (n < k)); [by rewrite Z.testbit_neg_r by lia|]. rewrite andb_comm.
    destruct (decide (y = 0)) as [->|]; [by rewrite Z.bits_0|].
    rewrite Z.bits_above_log2; [done|lia|]. apply Z.log2_lt_pow2; [lia|].
    eapply Z.lt_le_trans; [apply Hy|]. apply Z.pow_le_mono_r; lia. }
  rewrite <- (Z.lxor_lor _ _ Hd), <- (Z.add_nocarry_lxor _ _ Hd). by rewrite Z.shiftl_mul_pow2.
Qed.

Lemma from_be_big a b c d : from_be_bytes a b c d = big_endian [a; b; c; d].
Proof.
  unfold from_be_bytes, big_endian. cbn [foldl].
  pose proof (Z_of_byte_range a). pose proof (Z_of_byte_range b). pose proof (Z_of_byte_range c). pose proof (Z_of_byte_range d).
  rewrite (shiftl_lor (Z_of_byte c) 8) by lia. rewrite (shiftl_lor (Z_of_byte b) 16) by lia. rewrite (shiftl_lor (Z_of_byte a) 24) by lia. lia.
Qed.

(** The message of format version 1 that the specification describes: chunk [index] of [count], with
    [payload]. *)
Definition chunk_of (index count : Z) (payload m : bytes) : Prop :=
  exists version i c, m = version :: i ++ c ++ payload /\ Z_of_byte version = 1 /\
    length i = 4%nat /\ big_endian i = index /\ length c = 4%nat /\ big_endian c = count.

Lemma header_chunk_of m index count payload :
  unsupported_version m = None -> split_header m = Some (index, count, payload) -> chunk_of index count payload m.
Proof.
  unfold unsupported_version, split_header. intros Hv Hh. destruct m as [|v m]; [done|].
  destruct (Z.eqb_spec (Z_of_byte v) CHUNK_FORMAT_VERSION); [|done].
  destruct m as [|i1 [|i2 [|i3 [|i4 [|c1 [|c2 [|c3 [|c4 p]]]]]]]]; try done. injection Hh as <- <- <-. rewrite !from_be_big.
  by exists v, [i1; i2; i3; i4], [c1; c2; c3; c4].
Qed.

(** The [j]-th message of a run that ends in a frame of [n] chunks. *)
Definition carries (n : Z) (first : Z) (ms payloads : list bytes) : Prop :=
  forall j m, ms !! j = Some m ->
    exists p, payloads !! j = Some p /\ chunk_of (first + Z.of_nat j) n p m /\ p <> [] /\
      (first + Z.of_nat j + 1 <> n -> 1024 <= len p).

Lemma reassembled_from ms : forall r r' k f,
  push_chunks r ms = (r', replicate k (Ok None) ++ [Ok (Some f)]) ->
  exists n payloads,
    length payloads = length ms /\ cr_next_index r + len ms = n /\
    (cr_count r = None \/ cr_count r = Some n) /\ carries n (cr_next_index r) ms payloads /\
    decode_line (cr_buffer r ++ concat payloads) (cr_max_frame_bytes r) = Ok f.
Proof.
  induction ms as [|m ms IH]; intros r r' k f H; [by destruct k|]. rewrite push_chunks_cons in H.
  destruct (push_chunk r m) as [r1 o1] eqn:Hp. destruct (push_chunks r1 ms) as [r2 os] eqn:Hps.
  injection H as <- Hos.
  destruct o1 as [o|e]; [|by destruct k].
  destruct (push_chunk_Ok r m r1 o Hp) as (index & n & p & Hv & Hh & [? Hs Hi Hpl Hd ?] & Ho).
  pose proof (header_chunk_of _ _ _ _ Hv Hh) as Hchunk.
  subst index. destruct k as [|k]; simpl in Hos.
  - destruct ms; [|by simpl in Hps; repeat case_match; simplify_eq].
    injection Hos as -> ->. destruct Ho as (Hn & -> & Hf).
    exists n, [p]. simpl. rewrite app_nil_r. split; [done|]. split; [unfold len; simpl; lia|].
    split; [done|]. split; [|done].
    intros [|j] x Hx; simpl in Hx; [|done]. simplify_eq. exists p. simpl. rewrite Z.add_0_r. done.
  - injection Hos as -> ->. destruct Ho as [Hne ->].
    destruct (IH _ _ _ _ Hps) as (n' & payloads & Hl & Hn' & Hs' & Hc & Hf). simpl in *.
    assert (n' = n) as -> by (destruct Hs'; congruence).
    exists n, (p :: payloads). simpl. rewrite app_assoc, len_cons. split; [by rewrite Hl|].
    split; [lia|]. split; [done|]. split; [|done].
    intros [|j] x Hx; simpl in Hx.
    + simplify_eq. exists p. simpl. rewrite Z.add_0_r. done.
    + destruct (Hc j x Hx) as (q & ? & Hq & ? & Hdq). exists q. split; [done|].
      replace (cr_next_index r + Z.of_nat (S j)) with (cr_next_index r + 1 + Z.of_nat j) by lia. done.
Qed.
End reassembler.

(** ** Properties *)

Section properties.
Context {RT : RustText} {SJ : SerdeJson}.

(** A whole frame leaves the reassembler as it found it. *)
Lemma push_chunks_encoded {SJL : SerdeJsonLaws} (f : Frame) (mm mf mm' : Z) (ms : list bytes)
    (r : ChunkReassembler) :
  frame_stable f = true ->
  encode_chunks f mm mf = Ok ms ->
  reassembler_new mm' mf = Ok r ->
  mf <= 2 ^ 42 ->
  push_chunks r ms = (r, replicate (pred (length ms)) (Ok None) ++ [Ok (Some f)]).
Proof.
  intros Hst (b & Hmm & Hb & ->)%encode_chunks_Ok (_ & Hr & Hm' & Hf')%reassembler_new_ok Hmf.
  pose proof (decode_encode f mf b Hst Hb) as Hdec.
  apply encode_frame_bytes_Ok in Hb as (Hmin & _ & Hb & Hlen).
  destruct (to_vec_object f b Hb) as [middle Hobj].
  unfold MIN_MAX_FRAME_BYTES, MIN_ANNOUNCED_FRAME_BYTES, MIN_MAX_MESSAGE_BYTES,
    CHUNK_HEADER_BYTES in *.
  assert (0 < len b) as Hpos by (rewrite Hobj, len_cons; pose proof (len_nonneg (middle ++ ["}"%char])); lia).
  set (cap := mm - 9) in *. cbv zeta.
  pose proof (div_ceil_bounds (len b) cap ltac:(lia)) as Hceil.
  assert (1 <= div_ceil (len b) cap <= u32_max) as Hn by (unfold u32_max; nia).
  pose proof (chunks_within_bound (len b) mf cap) as Hbound.
  rewrite Z.max_l in * by lia. rewrite u32_saturate_id in * by lia.
  rewrite length_map, length_seq.
  destruct (Z.to_nat (div_ceil (len b) cap)) as [|k] eqn:Hk; [lia|].
  pose proof (push_chunks_held b cap (div_ceil (len b) cap) mf mm') as Hrun.
  assert (held b cap (div_ceil (len b) cap) mf mm' 0 = r) as Hheld.
  { rewrite Hr. unfold held, reset. simpl. by rewrite Hm', Hf'. }
  specialize (Hrun ltac:(unfold MIN_NONFINAL_PAYLOAD_BYTES; lia) ltac:(lia)
    ltac:(apply Hbound; unfold MIN_NONFINAL_PAYLOAD_BYTES; lia) ltac:(nia) ltac:(lia) f k 0%nat Hdec ltac:(lia)).
  change (Z.of_nat 0) with 0 in Hrun. rewrite Hheld in Hrun. rewrite Hrun, <- Hr. done.
Qed.

(** C7 (round trip).  The messages [encode_chunks] cuts of a stable frame ([frame_stable]: it fits its
    Rust types, its values hold no floating-point number and nest at most 125 deep) for any message
    ceiling, fed in order to a fresh reassembler with the same frame limit, yield nothing until the last one, which yields
    exactly the frame, and leave the reassembler fresh for the next frame.  The bound on the
    frame limit (4 TiB) keeps the chunk count inside its 32-bit header field. *)
Theorem chunk_roundtrip {SJL : SerdeJsonLaws} (f : Frame) (mm mf mm' : Z) (ms : list bytes)
    (r : ChunkReassembler) :
  frame_stable f = true ->
  encode_chunks f mm mf = Ok ms ->
  reassembler_new mm' mf = Ok r ->
  mf <= 2 ^ 42 ->
  push_chunks r ms = (r, replicate (pred (length ms)) (Ok None) ++ [Ok (Some f)]).
Proof. apply push_chunks_encoded. Qed.

(** Encoder outcome.  [encode_chunks] refuses only a ceiling below 2048 or a frame
    [encode_frame_bytes] refuses, never for its chunk count; otherwise it emits at least one
    message, none above the ceiling and every one but the last filled to it. *)
Theorem encode_chunks_outcome (f : Frame) (mm mf : Z) :
  match encode_chunks f mm mf with
  | Ok ms =>
      ms <> [] /\ Forall (fun m => len m <= mm) ms /\
      (forall i m, ms !! i = Some m -> S i <> length ms -> len m = mm)
  | Err e =>
      (mm < 2048 /\ kind e = ChunkHeader) \/ (2048 <= mm /\ encode_frame_bytes f mf = Err e)
  end.
Proof.
  destruct (encode_chunks f mm mf) as [ms|e] eqn:E.
  - destruct (encode_chunks_Ok f mm mf ms E) as (b & Hmm & Hb & ->). cbv zeta. clear E.
    unfold MIN_MAX_MESSAGE_BYTES, CHUNK_HEADER_BYTES in *. set (cap := mm - 9).
    pose proof (div_ceil_bounds (len b) cap ltac:(lia)) as Hceil. pose proof (len_nonneg b).
    set (n := u32_saturate (Z.max (div_ceil (len b) cap) 1)).
    assert (1 <= n <= Z.max (div_ceil (len b) cap) 1) as Hn.
    { split; [|apply u32_saturate_le]. unfold n, u32_saturate, u32_max. case_match; lia. }
    assert (Hsz : forall i, 0 <= i < n -> len (chunk_at b cap n i) <= mm /\
      (i + 1 <> n -> len (chunk_at b cap n i) = mm)).
    { intros i Hi. unfold chunk_at. rewrite chunk_message_len. unfold slice, CHUNK_HEADER_BYTES, len in *.
      rewrite length_take, length_drop. split; [lia|]. intros Hne. nia. }
    split; [|split].
    + destruct (Z.to_nat n) eqn:Hz; [lia|done].
    + apply Forall_lookup. intros i m Hm. apply list_lookup_fmap_Some in Hm as (j & -> & Hj).
      apply lookup_seq in Hj. apply Hsz. lia.
    + intros i m Hm Hi. rewrite length_map, length_seq in Hi.
      apply list_lookup_fmap_Some in Hm as (j & -> & Hj). apply lookup_seq in Hj. apply Hsz; lia.
  - destruct (Z.lt_ge_cases mm 2048) as [Hlt|Hge].
    + left. split; [done|]. unfold encode_chunks, MIN_MAX_MESSAGE_BYTES in E.
      rewrite (proj2 (Z.ltb_lt _ _)) in E by lia. by injection E as <-.
    + right. split; [lia|]. destruct (encode_frame_bytes f mf) as [b|e'] eqn:Hb.
      * pose proof (encode_chunks_total f mm mf b Hge Hb) as Ht. by rewrite E in Ht.
      * unfold encode_chunks, MIN_MAX_MESSAGE_BYTES in E.
        rewrite (proj2 (Z.ltb_ge _ _)), Hb in E by lia. by injection E as <-.
Qed.

(** C37 (memory, spec section 11.1).  Whatever messages arrive, a reassembler is between frames or
    holds at least one and not all of the announced chunks; it never retains more than the frame
    limit nor asks the allocator for more, every chunk it counts carried the minimum payload, and
    the index arithmetic stays inside 32 bits. *)
Theorem reassembler_invariant (mm mf : Z) (r : ChunkReassembler) (ms : list bytes) :
  reassembler_new mm mf = Ok r ->
  let r' := (push_chunks r ms).1 in
  reassembler_ok r' /\ len (cr_buffer r') <= cr_max_frame_bytes r' /\
  1024 * cr_next_index r' <= len (cr_buffer r') /\ 0 <= cr_next_index r' + 1 <= u32_max /\
  (forall count, reserve_estimate r' count <= cr_max_frame_bytes r').
Proof.
  intros (Hok & _)%reassembler_new_ok r'. pose proof (push_chunks_ok ms r Hok) as Hok'. fold r' in Hok'.
  split; [done|]. destruct Hok' as [Hm Hf Hp].
  unfold MIN_MAX_FRAME_BYTES, MIN_ANNOUNCED_FRAME_BYTES, MIN_NONFINAL_PAYLOAD_BYTES in *.
  assert (max_chunks_for (cr_max_frame_bytes r') <= u32_max) by apply u32_saturate_le.
  repeat split; try (intros count; unfold reserve_estimate; lia);
    destruct (cr_count r'); destruct Hp as [? Hb]; rewrite ?Hb, ?len_nil; unfold u32_max in *; lia.
Qed.

(** C25 (soundness).  A fresh reassembler yields a frame only for the one sequence the transport
    specification allows: messages of format version 1, chunks 0, 1, ..., n-1 of an n-chunk frame, in
    order and uninterleaved, none empty and none but the last below 1024 bytes, whose payloads joined are a line that
    decodes to that frame. *)
Theorem reassembly_sound (mm mf : Z) (r r' : ChunkReassembler) (ms : list bytes) (k : nat) (f : Frame) :
  reassembler_new mm mf = Ok r ->
  push_chunks r ms = (r', replicate k (Ok None) ++ [Ok (Some f)]) ->
  exists payloads,
    length payloads = length ms /\ carries (len ms) 0 ms payloads /\
    decode_line (concat payloads) mf = Ok f.
Proof.
  intros (_ & Hr & _ & Hf)%reassembler_new_ok Hrun.
  destruct (reassembled_from ms r r' k f Hrun) as (n & payloads & Hl & Hn & _ & Hc & Hdec).
  rewrite Hr in Hn, Hc, Hdec. simpl in *. subst n. exists payloads. by rewrite <- Hf.
Qed.

(** Refusals.  A refused message leaves the reassembler as new, whatever it held. *)
Lemma chunk_refusal_resets (mm mf : Z) (r0 r r' : ChunkReassembler) (ms : list bytes) (m : bytes)
    (e : CodecError) :
  reassembler_new mm mf = Ok r0 ->
  r = (push_chunks r0 ms).1 ->
  push_chunk r m = (r', Err e) ->
  r' = r0.
Proof.
  intros (_ & Hr & Hm & Hf)%reassembler_new_ok -> Hp.
  assert (Hfields : forall ms r, cr_max_message_bytes (push_chunks r ms).1 = cr_max_message_bytes r /\
    cr_max_frame_bytes (push_chunks r ms).1 = cr_max_frame_bytes r).
  { clear. induction ms as [|m ms IH]; intros r; [done|]. rewrite push_chunks_cons.
    pose proof (decode_fields r m) as [? ?]. unfold push_chunk.
    destruct (decode r m) as [r1 [o|e]]; simpl in *;
      [specialize (IH r1)|specialize (IH (reset r1))]; simpl in IH;
      destruct (push_chunks _ ms); simpl in *; destruct IH; split; congruence. }
  destruct (Hfields ms r0) as [Hm1 Hf1].
  pose proof (decode_fields (push_chunks r0 ms).1 m) as [Hm2 Hf2].
  unfold push_chunk in Hp. destruct (decode _ m) as [r1 [o|e1]]; [done|]. simpl in *.
  injection Hp as <- _. rewrite Hr. unfold reset. congruence.
Qed.
End properties.

(** ** Witnesses *)

(** A request whose line needs two messages at the lowest ceiling. *)
Definition bulk : Frame :=
  FReq {| req_id := "bulk"; req_method := "test.bulk";
          req_params := VString (of_bytes (replicate 2500 "x"%char)) |}.

Definition bulk_messages : list bytes :=
  match encode_chunks bulk 2048 4096 with Ok ms => ms | Err _ => [] end.

Definition fresh : ChunkReassembler :=
  {| cr_max_message_bytes := 2048; cr_max_frame_bytes := 4096; cr_count := None;
     cr_next_index := 0; cr_buffer := [] |}.

Lemma chunk_roundtrip_witness : push_chunks fresh bulk_messages = (fresh, [Ok None; Ok (Some bulk)]).
Proof.
  refine (chunk_roundtrip bulk 2048 4096 2048 bulk_messages fresh _ _ _ _).
  - vm_compute. reflexivity.
  - vm_compute. reflexivity.
  - reflexivity.
  - lia.
Defined.

Lemma reassembler_invariant_witness : reassembler_ok (push_chunks fresh (take 1 bulk_messages)).1.
Proof. exact (proj1 (reassembler_invariant 2048 4096 fresh (take 1 bulk_messages) eq_refl)). Defined.

Lemma reassembly_sound_witness :
  exists payloads, length payloads = length bulk_messages /\
    carries (len bulk_messages) 0 bulk_messages payloads /\ decode_line (concat payloads) 4096 = Ok bulk.
Proof.
  apply (reassembly_sound 2048 4096 fresh fresh bulk_messages 1 bulk).
  - reflexivity.
  - vm_compute. reflexivity.
Defined.
