(* ===== verification/Port.v ===== *)
(** * Ports

    [port.rs] and [port/pair.rs]: the seam between a session and a transport.  The traits
    [PortTx] and [PortRx] are classes whose methods thread the state of the half they are
    called on; an asynchronous receive answers [Pending] when nothing is there yet.  The
    in-process pair is an instance, over a model of tokio's unbounded channel. *)

From S2P Require Import Prelude Json Wire Frame Validate Limits Serde FrameJson Ndjson NdjsonProps.
Local Open Scope Z_scope.

(** ** [port.rs] *)

Inductive PortClosure : Type :=
| PClosed (code : option Z) (reason : option string)
| PProtocolError (error : CodecError) (code : Z).

Inductive Inbound : Type :=
| IFrame (f : Frame)
| IClosed (c : PortClosure).

Inductive SendOutcome : Type :=
| Sent
| SendClosed
| Refused (error : CodecError).

Global Instance PortClosure_eq_dec : EqDecision PortClosure.
Proof. solve_decision. Defined.
Global Instance Inbound_eq_dec : EqDecision Inbound.
Proof. solve_decision. Defined.
Global Instance SendOutcome_eq_dec : EqDecision SendOutcome.
Proof. solve_decision. Defined.

(** What polling a receive answers. *)
Inductive poll (A : Type) : Type := Pending | Polled (a : A).
Arguments Pending {A}.
Arguments Polled {A} a.

Class PortTx (T : Type) : Type := {
  port_send : T -> Frame -> T * SendOutcome;
  port_close : T -> Z -> option string -> T
}.

Class PortRx (T : Type) : Type := {
  port_recv : T -> T * poll (option Inbound)
}.

(** What [PortRx::recv] documents: [Closed] is always the last item, and [None] after it. *)
Class PortRxLaws (T : Type) `{PortRx T} : Prop := {
  recv_terminal (t t' : T) c : port_recv t = (t', Polled (Some (IClosed c))) ->
    port_recv t' = (t', Polled None);
  recv_ended (t t' : T) : port_recv t = (t', Polled None) -> t' = t
}.

(** ** [tokio::sync::mpsc::unbounded_channel] *)

Record channel (A : Type) : Type :=
  { ch_queue : list A; ch_receiver : bool; ch_senders : bool }.
Arguments ch_queue {A} c.
Arguments ch_receiver {A} c.
Arguments ch_senders {A} c.

Definition unbounded_channel {A} : channel A :=
  {| ch_queue := []; ch_receiver := true; ch_senders := true |}.

(** [UnboundedSender::send] fails only when the receiver is gone. *)
Definition ch_send {A} (c : channel A) (a : A) : channel A * bool :=
  if ch_receiver c
  then ({| ch_queue := ch_queue c ++ [a]; ch_receiver := true; ch_senders := ch_senders c |}, true)
  else (c, false).

(** [UnboundedReceiver::recv]: queued messages first, then the end once every sender is gone. *)
Definition ch_recv {A} (c : channel A) : channel A * poll (option A) :=
  match ch_queue c with
  | a :: rest =>
      ({| ch_queue := rest; ch_receiver := ch_receiver c; ch_senders := ch_senders c |}, Polled (Some a))
  | [] => (c, if ch_senders c then Pending else Polled None)
  end.

(** Dropping the last sender, dropping the receiver. *)
Definition drop_senders {A} (c : channel A) : channel A :=
  {| ch_queue := ch_queue c; ch_receiver := ch_receiver c; ch_senders := false |}.
Definition drop_receiver {A} (c : channel A) : channel A :=
  {| ch_queue := []; ch_receiver := false; ch_senders := ch_senders c |}.

(** ** [port/pair.rs] *)

Record MemoryPortOptions : Type :=
  { mo_max_frame_bytes : option Z; mo_validate_frames : bool }.

Definition memory_port_options_default : MemoryPortOptions :=
  {| mo_max_frame_bytes := None; mo_validate_frames := false |}.

Inductive WireMessage : Type :=
| WFrame (f : Frame)
| WClose (code : Z) (reason : option string).

(** The send half: its configuration and the channel it feeds. *)
Record MemoryPortTx : Type :=
  { mt_max_frame_bytes : option Z; mt_validate_frames : bool; mt_sender : channel WireMessage }.

Record MemoryPortRx : Type := { mr_receiver : channel WireMessage; mr_terminal : bool }.

(** One direction of the pair: [a]'s send half and [b]'s receive half share a channel.  The
    ceiling is checked when the pair is built. *)
Definition port_pair_with (options : MemoryPortOptions) : panics (MemoryPortTx * MemoryPortRx) :=
  let? _ := match mo_max_frame_bytes options with
            | Some max => let? m := check_max_frame_bytes max in Ok (Some m)
            | None => Ok None
            end in
  Ok ({| mt_max_frame_bytes := mo_max_frame_bytes options;
         mt_validate_frames := mo_validate_frames options;
         mt_sender := unbounded_channel |},
      {| mr_receiver := unbounded_channel; mr_terminal := false |}).

Section memory.
Context {RT : RustText} {SJ : SerdeJson}.

(** [MemoryPortTx::forward]. *)
Definition forward (t : MemoryPortTx) (m : WireMessage) : MemoryPortTx * SendOutcome :=
  let '(c, ok) := ch_send (mt_sender t) m in
  ({| mt_max_frame_bytes := mt_max_frame_bytes t; mt_validate_frames := mt_validate_frames t;
      mt_sender := c |}, if ok then Sent else SendClosed).

Definition memory_send (t : MemoryPortTx) (frame : Frame) : MemoryPortTx * SendOutcome :=
  if mt_validate_frames t then
    let max := default DEFAULT_MAX_FRAME_BYTES (mt_max_frame_bytes t) in
    match (let? b := encode_frame_bytes frame max in decode_line b max) with
    | Ok roundtripped => forward t (WFrame roundtripped)
    | Err error => (t, Refused error)
    end
  else forward t (WFrame frame).

(** [close] consumes the half: its sender is dropped after the farewell. *)
Definition memory_close (t : MemoryPortTx) (code : Z) (reason : option string) : MemoryPortTx :=
  let '(c, _) := ch_send (mt_sender t) (WClose code reason) in
  {| mt_max_frame_bytes := mt_max_frame_bytes t; mt_validate_frames := mt_validate_frames t;
     mt_sender := drop_senders c |}.

Definition memory_recv (r : MemoryPortRx) : MemoryPortRx * poll (option Inbound) :=
  if mr_terminal r then (r, Polled None)
  else
    let '(c, item) := ch_recv (mr_receiver r) in
    match item with
    | Pending => (r, Pending)
    | Polled (Some (WFrame f)) =>
        ({| mr_receiver := c; mr_terminal := false |}, Polled (Some (IFrame f)))
    | Polled (Some (WClose code reason)) =>
        ({| mr_receiver := c; mr_terminal := true |}, Polled (Some (IClosed (PClosed (Some code) reason))))
    | Polled None =>
        ({| mr_receiver := c; mr_terminal := true |}, Polled (Some (IClosed (PClosed None None))))
    end.

Global Instance memory_tx : PortTx MemoryPortTx :=
  {| port_send := memory_send; port_close := memory_close |}.
Global Instance memory_rx : PortRx MemoryPortRx := {| port_recv := memory_recv |}.

Global Instance memory_rx_laws : PortRxLaws MemoryPortRx.
Proof.
  split; simpl; unfold memory_recv; intros [c b] [c' b'].
  - intros cl H. simpl in *. destruct b; [done|]. destruct (ch_recv c) as [c1 [|[[f|code r]|]]];
      by simplify_eq.
  - intros H. simpl in *. destruct b; [by simplify_eq|].
    destruct (ch_recv c) as [c1 [|[[f|code r]|]]]; by simplify_eq.
Qed.

(** ** Delivery *)

Fixpoint send_all (t : MemoryPortTx) (fs : list Frame) : MemoryPortTx * list SendOutcome :=
  match fs with
  | [] => (t, [])
  | f :: fs =>
      let '(t1, o) := memory_send t f in
      let '(t2, os) := send_all t1 fs in
      (t2, o :: os)
  end.

(** Receives [n] times. *)
Fixpoint recv_n (n : nat) (r : MemoryPortRx) : MemoryPortRx * list (poll (option Inbound)) :=
  match n with
  | O => (r, [])
  | S n => let '(r1, i) := memory_recv r in let '(r2, rest) := recv_n n r1 in (r2, i :: rest)
  end.

Definition live (t : MemoryPortTx) : Prop := ch_receiver (mt_sender t) = true.

(** Frames that validate mode lets through unchanged: they encode within the ceiling. *)
Definition passes (t : MemoryPortTx) (f : Frame) : Prop :=
  mt_validate_frames t = false \/
  (frame_stable f = true /\
   is_ok (encode_frame_bytes f (default DEFAULT_MAX_FRAME_BYTES (mt_max_frame_bytes t))) = true).

Context {SJL : SerdeJsonLaws}.

Lemma memory_send_passes t f :
  live t -> passes t f ->
  memory_send t f =
    ({| mt_max_frame_bytes := mt_max_frame_bytes t; mt_validate_frames := mt_validate_frames t;
        mt_sender := {| ch_queue := ch_queue (mt_sender t) ++ [WFrame f]; ch_receiver := true;
                        ch_senders := ch_senders (mt_sender t) |} |}, Sent).
Proof.
  unfold live. intros Hl Hp. unfold memory_send, forward, ch_send. rewrite Hl.
  destruct Hp as [-> | [Hst Hok]]; [done|]. destruct (mt_validate_frames t); [|done].
  destruct (encode_frame_bytes f _) as [b|e] eqn:Hb; [|done]. simpl.
  by rewrite (decode_encode f _ b Hst Hb).
Qed.

Lemma send_all_passes fs : forall t,
  live t -> Forall (passes t) fs ->
  send_all t fs =
    ({| mt_max_frame_bytes := mt_max_frame_bytes t; mt_validate_frames := mt_validate_frames t;
        mt_sender := {| ch_queue := ch_queue (mt_sender t) ++ map WFrame fs; ch_receiver := true;
                        ch_senders := ch_senders (mt_sender t) |} |},
     map (fun _ => Sent) fs).
Proof.
  induction fs as [|f fs IH]; intros t Hl Hp; simpl.
  - destruct t as [m v [q r s]]. unfold live in Hl. simpl in *. by rewrite app_nil_r, Hl.
  - apply Forall_cons in Hp as [Hf Hp]. rewrite (memory_send_passes t f Hl Hf), IH; [|done|done].
    simpl. by rewrite <- app_assoc.
Qed.

Lemma recv_frames fs : forall q s r,
  recv_n (length fs) {| mr_receiver := {| ch_queue := map WFrame fs ++ q; ch_receiver := r;
    ch_senders := s |}; mr_terminal := false |} =
  ({| mr_receiver := {| ch_queue := q; ch_receiver := r; ch_senders := s |}; mr_terminal := false |},
   map (fun f => Polled (Some (IFrame f))) fs).
Proof. induction fs as [|f fs IH]; intros q s r; simpl; [done|]. by rewrite IH. Qed.

(** Memory pair.  What one half sends, the other receives: every frame, unchanged and in
    order, each send answering [Sent]; then the farewell exactly once, with its code and reason;
    then the end of the stream, for ever.  In validate mode this holds of every frame that
    encodes within the ceiling. *)
Theorem memory_pair_delivers (options : MemoryPortOptions) (t t' : MemoryPortTx) (r : MemoryPortRx)
    (fs : list Frame) (os : list SendOutcome) (code : Z) (reason : option string) (n : nat) :
  port_pair_with options = Ok (t, r) ->
  Forall (passes t) fs ->
  send_all t fs = (t', os) ->
  Forall (fun o => o = Sent) os /\
  (recv_n (length fs + S n)
     {| mr_receiver := mt_sender (memory_close t' code reason); mr_terminal := mr_terminal r |}).2 =
  map (fun f => Polled (Some (IFrame f))) fs ++
  Polled (Some (IClosed (PClosed (Some code) reason))) :: replicate n (Polled None).
Proof.
  unfold port_pair_with. intros H Hp Hs.
  destruct (match mo_max_frame_bytes options with Some max => _ | None => _ end); [|done].
  injection H as <- <-. rewrite send_all_passes in Hs; [|done|done]. simpl in Hs.
  injection Hs as <- <-. split; [by apply List.Forall_map, Forall_true|].
  assert (Hsplit : forall a b r, recv_n (a + b) r =
    let '(r1, x) := recv_n a r in let '(r2, y) := recv_n b r1 in (r2, x ++ y)).
  { clear. induction a as [|a IH]; intros b r; simpl; [by destruct (recv_n b r)|].
    destruct (memory_recv r) as [r1 i]. rewrite IH. destruct (recv_n a r1) as [r2 x].
    by destruct (recv_n b r2). }
  unfold memory_close, ch_send, drop_senders. simpl. rewrite Hsplit, recv_frames. simpl.
  assert (Hend : forall n c, (recv_n n {| mr_receiver := c; mr_terminal := true |}).2 =
    replicate n (Polled None)).
  { clear. intros n c. induction n as [|n IH]; simpl; [done|].
    destruct (recv_n n _). simpl in *. by rewrite IH. }
  specialize (Hend n {| ch_queue := []; ch_receiver := true; ch_senders := false |}).
  destruct (recv_n n _) as [r2 y]. simpl in *. by rewrite Hend.
Qed.
End memory.

Lemma memory_pair_delivers_witness :
  let t := {| mt_max_frame_bytes := Some 4096; mt_validate_frames := true; mt_sender := unbounded_channel |} in
  Forall (fun o => o = Sent) (send_all t sample_frames).2.
Proof.
  refine (proj1 (memory_pair_delivers {| mo_max_frame_bytes := Some 4096; mo_validate_frames := true |}
    _ (send_all _ sample_frames).1 {| mr_receiver := unbounded_channel; mr_terminal := false |}
    sample_frames _ 4000 None 2 _ _ _)).
  - reflexivity.
  - unfold sample_frames. repeat (apply Forall_cons; split); try apply Forall_nil; try done;
      right; split; vm_compute; reflexivity.
  - apply surjective_pairing.
Defined.
