(* ===== verification/NdjsonPort.v ===== *)
(** * The NDJSON port

    [transports/ndjson.rs]: the port every byte-oriented transport reuses.  The operating system's
    streams are parameters: a writable handle is the class [AsyncWrite], and the reads a port will
    see are a list of outcomes, so every theorem holds for any way the bytes are cut and any
    failure.

    The two halves of a port share the writable half behind a mutex, and a listener may hold a
    [PortCloser] on it; the port is therefore one record, and each operation is one critical
    section on it.  A write that stalls on a peer that stopped reading ends only when the port is
    ended or the two seconds of [CLOSE_FLUSH_GRACE] have passed; [IoStalled] is that outcome. *)

From S2P Require Import Prelude Json Wire Frame Validate Limits Serde JsonText FrameJson Ndjson NdjsonProps Port.
Local Open Scope Z_scope.

(** ** Streams *)

Inductive io_outcome : Type := IoDone | IoFailed | IoStalled.

(** [write_all] and [flush] of one record; [shutdown] and drop of the handle. *)
Class AsyncWrite (W : Type) : Type := {
  aw_write : W -> bytes -> W * io_outcome;
  aw_end : W -> W
}.

(** What a read gives: no byte at all is the end of the file. *)
Inductive ReadOutcome : Type :=
| ReadOk (b : bytes)
| ReadErr (text : string).

(** ** The shared writer *)

(** [WriterShared]; [ws_open] is [writer.is_some()]. *)
Record WriterShared (W : Type) : Type := mkWriterShared
  { ws_writer : W; ws_open : bool; ws_writable : bool; ws_ending : bool }.
Arguments mkWriterShared {W}.
Arguments ws_writer {W} w.
Arguments ws_open {W} w.
Arguments ws_writable {W} w.
Arguments ws_ending {W} w.

Definition clamp_reason (reason : string) : string :=
  if chars_count reason <=? MAX_REASON_CHARS then reason
  else take_chars (Z.to_nat MAX_REASON_CHARS) reason.

Section writer.
Context {RT : RustText} {SJ : SerdeJson} {W : Type} {AW : AsyncWrite W}.

Definition shared_writer_new (w : W) : WriterShared W := mkWriterShared w true true false.

Definition write_frame (ws : WriterShared W) (frame : Frame) (max_frame_bytes : Z) : WriterShared W * SendOutcome :=
  match encode_line frame max_frame_bytes with
  | Err error => (ws, Refused error)
  | Ok line =>
      if ws_ending ws then (ws, SendClosed)
      else if negb (ws_writable ws) then (ws, SendClosed)
      else if negb (ws_open ws) then (ws, SendClosed)
      else
        let '(w, io) := aw_write (ws_writer ws) line in
        match io with
        | IoDone => (mkWriterShared w (ws_open ws) (ws_writable ws) (ws_ending ws), Sent)
        | IoFailed | IoStalled => (mkWriterShared w (ws_open ws) false (ws_ending ws), SendClosed)
        end
  end.

(** The line of the farewell: without the reason when the whole does not fit. *)
Definition farewell_line (code : Z) (reason : option string) (max_frame_bytes : Z) : result bytes CodecError :=
  match encode_line (FClose {| close_code := code; close_reason := clamp_reason <$> reason |}) max_frame_bytes with
  | Ok line => Ok line
  | Err _ => encode_line (FClose {| close_code := code; close_reason := None |}) max_frame_bytes
  end.

Definition write_close (ws : WriterShared W) (code : Z) (reason : option string) (max_frame_bytes : Z) : WriterShared W :=
  match farewell_line code reason max_frame_bytes with
  | Err _ => ws
  | Ok line =>
      if negb (ws_writable ws) then ws
      else if negb (ws_open ws) then ws
      else
        let '(w, io) := aw_write (ws_writer ws) line in
        mkWriterShared w (ws_open ws) (match io with IoFailed => false | _ => ws_writable ws end) (ws_ending ws)
  end.

(** Ends the writable half once. *)
Definition writer_shut_down (ws : WriterShared W) : WriterShared W :=
  mkWriterShared (if ws_open ws then aw_end (ws_writer ws) else ws_writer ws) false false true.

Definition writer_end (ws : WriterShared W) (code : Z) (reason : option string) (max_frame_bytes : Z) : WriterShared W :=
  writer_shut_down (write_close ws code reason max_frame_bytes).

(** ** The port *)

Record NdjsonPort : Type := mkNdjsonPort
  { np_writer : WriterShared W;
    np_max : Z;
    np_reader : list ReadOutcome;
    np_decoder : LineDecoder;
    np_pending : list Frame;
    np_closure : option PortClosure;
    np_terminal : bool }.

(** [NdjsonPort::new], [with_max_frame_bytes] and [split]. *)
Definition ndjson_port_new (reader : list ReadOutcome) (w : W) (max_frame_bytes : Z) : panics NdjsonPort :=
  let? max := check_max_frame_bytes max_frame_bytes in
  let? decoder := line_decoder_new max in
  Ok (mkNdjsonPort (shared_writer_new w) max reader decoder [] None false).

Definition set_np_writer (p : NdjsonPort) (ws : WriterShared W) : NdjsonPort :=
  mkNdjsonPort ws (np_max p) (np_reader p) (np_decoder p) (np_pending p) (np_closure p) (np_terminal p).

(** [NdjsonTx::send] and [NdjsonTx::close]. *)
Definition ndjson_send (p : NdjsonPort) (frame : Frame) : NdjsonPort * SendOutcome :=
  let '(ws, outcome) := write_frame (np_writer p) frame (np_max p) in (set_np_writer p ws, outcome).

Definition ndjson_close (p : NdjsonPort) (code : Z) (reason : option string) : NdjsonPort :=
  set_np_writer p (writer_end (np_writer p) code reason (np_max p)).

(** [PortCloser::close] on a port that is still there runs the same sequence. *)
Definition closer_close (p : NdjsonPort) (code : Z) (reason : option string) : NdjsonPort := ndjson_close p code reason.

Definition refuse (p : NdjsonPort) (error : CodecError) : NdjsonPort :=
  let code := close_code_for_codec_error error in
  let reason := show_codec_error error in
  mkNdjsonPort (writer_end (np_writer p) code (Some reason) (np_max p)) (np_max p) (np_reader p) (np_decoder p)
    (np_pending p) (Some (PProtocolError error code)) (np_terminal p).

Definition decode_chunk (p : NdjsonPort) (b : bytes) : NdjsonPort :=
  let '(decoder, outcome) := push (np_decoder p) b in
  let p := mkNdjsonPort (np_writer p) (np_max p) (np_reader p) decoder (np_pending p ++ po_frames outcome)
             (np_closure p) (np_terminal p) in
  match po_error outcome with
  | Some error => refuse p error
  | None => p
  end.

Definition stream_ended (p : NdjsonPort) (reason : option string) : NdjsonPort :=
  mkNdjsonPort (writer_shut_down (np_writer p)) (np_max p) (np_reader p) (np_decoder p) (np_pending p)
    (Some (PClosed None reason)) (np_terminal p).

Definition on_eof (p : NdjsonPort) : NdjsonPort := stream_ended p None.
Definition on_failure (p : NdjsonPort) (text : string) : NdjsonPort := stream_ended p (Some text).

Definition on_read (p : NdjsonPort) (r : ReadOutcome) : NdjsonPort :=
  match r with
  | ReadOk [] => on_eof p
  | ReadOk b => decode_chunk p b
  | ReadErr text => on_failure p text
  end.

Definition set_np_reader (p : NdjsonPort) (reader : list ReadOutcome) : NdjsonPort :=
  mkNdjsonPort (np_writer p) (np_max p) reader (np_decoder p) (np_pending p) (np_closure p) (np_terminal p).

(** The loop of [recv]: one turn per read, and no read while something is still to be handed out. *)
Fixpoint recv_loop (reader : list ReadOutcome) (p : NdjsonPort) : NdjsonPort * poll (option Inbound) :=
  let p := set_np_reader p reader in
  match np_pending p with
  | frame :: rest =>
      (mkNdjsonPort (np_writer p) (np_max p) (np_reader p) (np_decoder p) rest (np_closure p) (np_terminal p),
       Polled (Some (IFrame frame)))
  | [] =>
      match np_closure p with
      | Some closure =>
          (mkNdjsonPort (np_writer p) (np_max p) (np_reader p) (np_decoder p) [] None true,
           Polled (Some (IClosed closure)))
      | None =>
          if np_terminal p then (p, Polled None)
          else match reader with
          | [] => (p, Pending)
          | r :: rest => recv_loop rest (on_read p r)
          end
      end
  end.

Definition ndjson_recv (p : NdjsonPort) : NdjsonPort * poll (option Inbound) := recv_loop (np_reader p) p.

Global Instance ndjson_tx : PortTx NdjsonPort := {| port_send := ndjson_send; port_close := ndjson_close |}.
Global Instance ndjson_rx : PortRx NdjsonPort := {| port_recv := ndjson_recv |}.
End writer.
Arguments NdjsonPort W : clear implicits.
