(* ===== verification/NdjsonPortProps.v ===== *)
(** * What the NDJSON port promises

    What a port hands out for every sequence of reads, and what a peer reads of what it sends. *)

From S2P Require Import Prelude Json Wire Frame Validate Limits Serde JsonText FrameJson Ndjson NdjsonProps Port NdjsonPort.
Local Open Scope Z_scope.

(** [n] receives in a row. *)
Fixpoint receives {T} `{PortRx T} (n : nat) (t : T) : T * list (poll (option Inbound)) :=
  match n with
  | O => (t, [])
  | S n => let '(t1, i) := port_recv t in let '(t2, is_) := receives n t1 in (t2, i :: is_)
  end.

Lemma receives_S {T} `{PortRx T} n (t : T) :
  receives (S n) t = let '(t1, i) := port_recv t in let '(t2, is_) := receives n t1 in (t2, i :: is_).
Proof. done. Qed.

Lemma receives_same {T} `{PortRx T} n (t u : T) : port_recv t = port_recv u -> receives (S n) t = receives (S n) u.
Proof. intros E. by rewrite !receives_S, E. Qed.

(** Once the stream has ended it stays so. *)
Lemma receives_ended {T} `{PortRxLaws T} (t : T) n :
  port_recv t = (t, Polled None) -> receives n t = (t, replicate n (Polled None)).
Proof. intros Ht. induction n as [|n IH]; [done|]. rewrite receives_S, Ht, IH. done. Qed.

Abbreviation handed_out fs := (map (fun f => Polled (Some (IFrame f))) fs).

Section receive.
Context {RT : RustText} {SJ : SerdeJson} {W : Type} {AW : AsyncWrite W}.

(** A limit that is not below the floor gives a port. *)
Lemma ndjson_port_new_ok reader (w : W) max : MIN_MAX_FRAME_BYTES <= max -> exists port, ndjson_port_new reader w max = Ok port.
Proof.
  intros Hm. unfold ndjson_port_new, line_decoder_new, check_max_frame_bytes, check_at_least.
  apply Z.leb_le in Hm as E. rewrite E. cbn [result_bind]. rewrite E. cbn [result_bind]. eauto.
Qed.

Lemma recv_idle (p : NdjsonPort W) r rest :
  np_pending p = [] -> np_closure p = None -> np_terminal p = false -> np_reader p = r :: rest ->
  ndjson_recv p = ndjson_recv (set_np_reader (on_read p r) rest).
Proof.
  destruct p as [ws max rd d pe cl te]. simpl. intros -> -> -> ->. unfold ndjson_recv. simpl.
  destruct rest; simpl; destruct (np_pending _), (np_closure _); done.
Qed.

(** A port ends with a closure, and only with that: the interface's law. *)
Global Instance ndjson_rx_laws : PortRxLaws (NdjsonPort W).
Proof.
  assert (Hloop : forall rd (p p' : NdjsonPort W) i, recv_loop rd p = (p', i) ->
    (forall c, i = Polled (Some (IClosed c)) -> np_pending p' = [] /\ np_closure p' = None /\ np_terminal p' = true) /\
    (i = Polled None -> p' = set_np_reader p rd /\ np_terminal p = true)).
  { induction rd as [|r rd IH]; intros p p' i; simpl;
      (destruct (np_pending p); [|by intros [= <- <-]]); (destruct (np_closure p); [by intros [= <- <-]|]);
      destruct (np_terminal p) eqn:Ht; try (by intros [= <- <-]).
    intros H. destruct (IH _ _ _ H) as [H1 H2]. split; [done|]. intros Hi. destruct (H2 Hi) as [_ H3].
    exfalso. clear -Ht H3. destruct r as [[|b bs]|t]; simpl in H3; try congruence.
    unfold decode_chunk in H3. simpl in H3. destruct (push _ _) as [d o]. destruct (po_error o); simpl in H3; congruence. }
  split.
  - intros p p' c H. destruct (Hloop _ _ _ _ H) as [H1 _]. destruct (H1 c eq_refl) as (Hp & Hc & Ht).
    destruct p' as [ws max rd d pe cl te]. simpl in *. subst. unfold ndjson_recv. simpl. by destruct rd.
  - intros p p' H. destruct (Hloop _ _ _ _ H) as [_ H2]. destruct (H2 eq_refl) as [-> _]. by destruct p.
Qed.

Lemma receives_pending fs : forall (p : NdjsonPort W) n more,
  np_pending p = fs ++ more ->
  receives (length fs + n) p =
  let p' := mkNdjsonPort (np_writer p) (np_max p) (np_reader p) (np_decoder p) more (np_closure p) (np_terminal p) in
  let '(p'', is_) := receives n p' in (p'', handed_out fs ++ is_).
Proof.
  induction fs as [|f fs IH]; intros p n more Hp; simpl in *.
  { destruct p. simpl in *. subst. by destruct (receives n _). }
  destruct p as [ws max rd d pe cl te]. simpl in Hp. subst pe.
  change (port_recv ?p) with (ndjson_recv p). unfold ndjson_recv.
  assert (Hr : recv_loop rd (mkNdjsonPort ws max rd d (f :: fs ++ more) cl te) =
    (mkNdjsonPort ws max rd d (fs ++ more) cl te, Polled (Some (IFrame f)))) by (by destruct rd).
  cbn [np_reader]. rewrite Hr, (IH (mkNdjsonPort ws max rd d (fs ++ more) cl te) n more eq_refl).
  simpl. by destruct (receives n _).
Qed.

Lemma receives_closing (p : NdjsonPort W) c n :
  np_pending p = [] -> np_closure p = Some c ->
  exists p', receives (S n) p = (p', Polled (Some (IClosed c)) :: replicate n (Polled None)) /\ np_writer p' = np_writer p.
Proof.
  destruct p as [ws max rd d pe cl te]. simpl. intros -> ->.
  change (port_recv ?p) with (ndjson_recv p). unfold ndjson_recv.
  assert (Hr : recv_loop rd (mkNdjsonPort ws max rd d [] (Some c) te) =
    (mkNdjsonPort ws max rd d [] None true, Polled (Some (IClosed c)))) by (by destruct rd).
  cbn [np_reader]. rewrite Hr, receives_ended by (simpl; unfold ndjson_recv; by destruct rd).
  eexists. split; [done|]. done.
Qed.

(** What ends a port that saw [e], and the read that ended it. *)
Definition port_end (e : option CodecError) (last : ReadOutcome) : PortClosure :=
  match e, last with
  | Some error, _ => PProtocolError error (close_code_for_codec_error error)
  | None, ReadErr text => PClosed None (Some text)
  | None, ReadOk _ => PClosed None None
  end.

Definition writer_after (ws : WriterShared W) (max : Z) (e : option CodecError) : WriterShared W :=
  match e with
  | Some error => writer_end ws (close_code_for_codec_error error) (Some (show_codec_error error)) max
  | None => writer_shut_down ws
  end.

Definition ends_stream (r : ReadOutcome) : bool := match r with ReadOk b => bool_decide (b = []) | ReadErr _ => true end.

Lemma receives_all pieces : forall ws max d last rest n d' fs e,
  Forall (fun b : bytes => b <> []) pieces -> ends_stream last = true -> ld_failure d = None ->
  push_all d pieces = (d', fs, e) ->
  exists p', receives (length fs + S n)
      (mkNdjsonPort ws max (map ReadOk pieces ++ last :: rest) d [] None false) =
    (p', handed_out fs ++ Polled (Some (IClosed (port_end e last))) :: replicate n (Polled None)) /\
    np_writer p' = writer_after ws max e.
Proof.
  induction pieces as [|b pieces IH]; intros ws max d last rest n d' fs e Hne Hlast Hd E; simpl in E.
  - injection E as <- <- <-. rewrite Hd. cbn [length Nat.add map app].
    erewrite receives_same by (apply (recv_idle _ last rest); done).
    destruct last as [[|c b]|t]; [|done|]; by apply receives_closing.
  - apply Forall_cons in Hne as [Hb Hne]. destruct (push d b) as [d1 o] eqn:Hp.
    destruct (push_all d1 pieces) as [[d2 fs2] e2] eqn:E2. injection E as <- <- <-.
    pose proof (push_error_failure d b Hd) as Hf. rewrite Hp in Hf. simpl in Hf.
    rewrite length_app, <- Nat.add_assoc.
    set (p0 := mkNdjsonPort ws max (map ReadOk (b :: pieces) ++ last :: rest) d [] None false).
    assert (Hstart : forall k, receives (S k) p0 = receives (S k)
      (set_np_reader (decode_chunk p0 b) (map ReadOk pieces ++ last :: rest))).
    { intros k. apply receives_same. destruct b as [|c b]; [done|].
      exact (recv_idle p0 (ReadOk (c :: b)) _ eq_refl eq_refl eq_refl eq_refl). }
    replace (length (po_frames o) + (length fs2 + S n))%nat with (S (length (po_frames o) + (length fs2 + n)))%nat by lia.
    rewrite Hstart. unfold decode_chunk, p0. simpl np_decoder. rewrite Hp.
    replace (S (length (po_frames o) + (length fs2 + n)))%nat with (length (po_frames o) + (length fs2 + S n))%nat by lia.
    destruct (po_error o) as [error|] eqn:Ho.
    + rewrite (push_all_failed d1 pieces error Hf) in E2. injection E2 as <- <- <-.
      rewrite (receives_pending (po_frames o) _ _ []) by (simpl; by rewrite app_nil_r). cbv zeta. cbn [length Nat.add].
      edestruct (receives_closing (mkNdjsonPort (writer_after ws max (Some error)) max (map ReadOk pieces ++ last :: rest) d1 []
        (Some (PProtocolError error (close_code_for_codec_error error))) false)) as (p' & Hr & Hw); [done|done|].
      exists p'. split; [|exact Hw]. cbn. cbn in Hr. rewrite Hr. by rewrite app_nil_r.
    + rewrite (receives_pending (po_frames o) _ _ []) by (simpl; by rewrite app_nil_r). cbv zeta. cbn.
      destruct (IH ws max d1 last rest n d2 fs2 e2 Hne Hlast Hf E2) as (p' & Hr & Hw). exists p'. split; [|done].
      rewrite Hr. by rewrite map_app, <- app_assoc.
Qed.
End receive.

(** ** Sending *)

(** A pipe that takes every byte. *)
Record Pipe : Type := { pipe_bytes : bytes; pipe_ended : bool }.

Global Instance pipe_write : AsyncWrite Pipe := {|
  aw_write p b := ({| pipe_bytes := pipe_bytes p ++ b; pipe_ended := pipe_ended p |}, IoDone);
  aw_end p := {| pipe_bytes := pipe_bytes p; pipe_ended := true |}
|}.

Definition send_frames {T} `{PortTx T} (t : T) (fs : list Frame) : T := foldl (fun t f => (port_send t f).1) t fs.

Lemma send_lines {RT : RustText} {SJ : SerdeJson} max fs ls rd d pe cl te b :
  Forall2 (fun f l => encode_line f max = Ok l /\ frame_stable f = true) fs ls ->
  send_frames (mkNdjsonPort (mkWriterShared {| pipe_bytes := b; pipe_ended := false |} true true false) max rd d pe cl te) fs =
  mkNdjsonPort (mkWriterShared {| pipe_bytes := b ++ concat ls; pipe_ended := false |} true true false) max rd d pe cl te.
Proof.
  intros Hls. revert b. induction Hls as [|f l fs ls [Hl _] _ IH]; intros b; [by rewrite app_nil_r|].
  change (send_frames ?p (f :: fs)) with (send_frames (ndjson_send p f).1 fs).
  assert (Hs : (ndjson_send (mkNdjsonPort (mkWriterShared {| pipe_bytes := b; pipe_ended := false |} true true false)
      max rd d pe cl te) f).1 =
    mkNdjsonPort (mkWriterShared {| pipe_bytes := b ++ l; pipe_ended := false |} true true false) max rd d pe cl te).
  { unfold ndjson_send, write_frame. cbn [np_writer np_max]. by rewrite Hl. }
  rewrite Hs, IH. simpl. by rewrite <- app_assoc.
Qed.

Lemma clamp_reason_chars r : chars_count (clamp_reason r) <= MAX_REASON_CHARS.
Proof.
  unfold clamp_reason. destruct (Z.leb_spec (chars_count r) MAX_REASON_CHARS); [done|]. apply chars_count_take.
Qed.

Lemma clamp_reason_ok r : str_ok r = true -> str_ok (clamp_reason r) = true.
Proof. intros H. unfold clamp_reason. destruct (_ <=? _); [done|]. by apply take_chars_ok. Qed.

(** A [close] frame without a reason always fits: the thousand codes are checked one by one. *)
Lemma bare_close_fits code max : 4000 <= code <= 4999 -> 4096 <= max ->
  exists line, encode_line (FClose {| close_code := code; close_reason := None |}) max = Ok line.
Proof.
  intros Hc Hmax.
  set (print := fun c => print_value (frame_to_json (FClose {| close_code := c; close_reason := None |}))).
  assert (Hall : forallb (fun n => len (print (4000 + Z.of_nat n)) <=? 4096) (seq 0 1000) = true) by (vm_compute; reflexivity).
  rewrite forallb_Forall, Forall_forall in Hall. specialize (Hall (Z.to_nat (code - 4000))).
  rewrite elem_of_seq in Hall. specialize (Hall ltac:(lia)).
  replace (4000 + Z.of_nat (Z.to_nat (code - 4000))) with code in Hall by lia. apply Z.leb_le in Hall.
  assert (encode_frame_bytes (FClose {| close_code := code; close_reason := None |}) max = Ok (print code)) as He.
  { apply encode_frame_bytes_Ok. split; [done|]. split; [apply validate_iff_schema; split; [done|done]|]. split; [done|]. lia. }
  eexists. unfold encode_line. rewrite He. reflexivity.
Qed.

(** The farewell always goes out, with its code and with its reason or without one. *)
Lemma farewell_goes_out code reason max : 4000 <= code <= 4999 -> 4096 <= max ->
  (forall r, reason = Some r -> str_ok r = true) ->
  exists farewell line, farewell_line code reason max = Ok line /\
    encode_line (FClose {| close_code := code; close_reason := farewell |}) max = Ok line /\
    frame_stable (FClose {| close_code := code; close_reason := farewell |}) = true /\
    (farewell = clamp_reason <$> reason \/ farewell = None).
Proof.
  intros Hc Hmax Hr. unfold farewell_line.
  assert (is_u16 code = true) as Hu. { unfold is_u16, u16_max. apply andb_true_iff. rewrite !Z.leb_le. lia. }
  destruct (encode_line (FClose {| close_code := code; close_reason := clamp_reason <$> reason |}) max) as [line|e] eqn:E.
  - exists (clamp_reason <$> reason), line. split; [done|]. split; [done|]. split; [|by left].
    unfold frame_stable. simpl. rewrite Hu. destruct reason as [r|]; [|done]. simpl.
    by rewrite (clamp_reason_ok r (Hr r eq_refl)).
  - destruct (bare_close_fits code max Hc Hmax) as [line Hl]. exists None, line. split; [done|]. split; [done|].
    split; [|by right]. unfold frame_stable. simpl. by rewrite Hu.
Qed.

(** ** Properties *)

(** What a port hands out.  However the bytes arrive and whatever ends them, a port hands out
    the frames its decoder finds, in order, then exactly one closure, then nothing for ever.  The
    closure is the refusal with its close code when a record was refused, and then the peer has
    been told that code; otherwise the release or failure of the stream.  The writable half is ended
    in every case, so no later frame is reported as sent. *)
Theorem ndjson_receives {RT : RustText} {SJ : SerdeJson} {W : Type} {AW : AsyncWrite W} (max : Z) (w : W)
    (pieces : list bytes) (last : ReadOutcome) (rest : list ReadOutcome) (p : NdjsonPort W) (n : nat) (f : Frame) :
  ndjson_port_new (map ReadOk pieces ++ last :: rest) w max = Ok p ->
  Forall (fun b : bytes => b <> []) pieces -> ends_stream last = true ->
  let '(_, fs, e) := push_all (np_decoder p) pieces in
  let '(p', items) := receives (length fs + S n) p in
  items = handed_out fs ++ Polled (Some (IClosed (port_end e last))) :: replicate n (Polled None) /\
  np_writer p' = writer_after (np_writer p) max e /\
  (port_send p' f).2 <> Sent.
Proof.
  intros Hnew Hne Hlast. unfold ndjson_port_new in Hnew.
  apply result_bind_Ok in Hnew as (m & Hm & Hnew). apply result_bind_Ok in Hnew as (d & Hd & [= <-]).
  apply check_at_least_Ok in Hm as [-> _]. cbn [np_decoder np_writer].
  destruct (push_all d pieces) as [[d' fs] e] eqn:E.
  destruct (receives_all pieces (shared_writer_new w) max d last rest n d' fs e Hne Hlast) as (p' & Hr & Hw);
    [apply (line_decoder_new_ok _ _ Hd)|done|].
  rewrite Hr. split; [done|]. split; [done|]. simpl. unfold ndjson_send, write_frame. rewrite Hw.
  destruct (encode_line f (np_max p')); [|done]. by destruct e.
Qed.


(** ** A link *)

Definition empty_pipe : Pipe := {| pipe_bytes := []; pipe_ended := false |}.

Definition pipe_port (rd : list ReadOutcome) : NdjsonPort Pipe :=
  mkNdjsonPort (shared_writer_new empty_pipe) 4096 rd small_decoder [] None false.

Definition broken_pipe : ReadOutcome := ReadErr "broken pipe".

Lemma ndjson_receives_witness :
  (receives 4 (pipe_port (map ReadOk sample_pieces ++ [broken_pipe]))).2 =
  handed_out sample_frames ++ Polled (Some (IClosed (PClosed None (Some "broken pipe")))) :: [Polled None].
Proof.
  pose proof (ndjson_receives 4096 empty_pipe sample_pieces broken_pipe []
    (pipe_port (map ReadOk sample_pieces ++ [broken_pipe])) 1 FPing) as H.
  assert (push_all (np_decoder (pipe_port (map ReadOk sample_pieces ++ [broken_pipe]))) sample_pieces =
    (small_decoder, sample_frames, None)) as E by (vm_compute; reflexivity).
  rewrite E in H. cbv iota beta in H. change (length sample_frames + 2)%nat with 4%nat in H.
  destruct (receives 4 _) as [p' items]. apply H.
  - vm_compute. reflexivity.
  - unfold sample_pieces. vm_compute. repeat constructor; discriminate.
  - reflexivity.
Defined.

Definition link_bytes : bytes := Eval vm_compute in
  pipe_bytes (ws_writer (np_writer (ndjson_close (send_frames (pipe_port []) sample_frames) 4000 (Some "done")))).

Definition link_pieces : list bytes := Eval vm_compute in [take 30 link_bytes; drop 30 link_bytes].

