(* ===== verification/SharedWriter.v ===== *)
(** * The writable half of an NDJSON port, under concurrency

    [SharedWriter] of [transports/ndjson.rs]: a handle behind a fair mutex, and a flag that takes it
    away from whoever is stuck in a write.  [NdjsonPort.v] runs each call on it to its end; here the
    calls of any number of tasks advance one suspension point at a time, the stream takes as few
    bytes as it likes, or none for ever, and a call that ends the port may be dropped half-way, as
    [recv] is by the driver's [select!].

    A [send] is not dropped: the task that awaits it only ends with its runtime. *)

From S2P Require Import Prelude Json Wire Frame Validate Limits Serde JsonText FrameJson Ndjson NdjsonProps Port NdjsonPort.
Local Open Scope Z_scope.

(** Where a call is.  [S]: [write_frame]; [E]: [end], of which [shut_down] is the second half. *)
Inductive Pc : Type :=
| SStart (frame : Frame)
| SAsk (frame : Frame) (line : bytes)            (* the port was not ending *)
| SLock (frame : Frame) (line : bytes)           (* in line for the mutex, perhaps first *)
| SWrite (frame : Frame) (line rest : bytes)     (* [write_all], [rest] to go *)
| SFlush (frame : Frame)
| SSent (frame : Frame)
| SClosed
| SRefused (error : CodecError)
| EStart (code : Z) (reason : option string)
| ELock (line : bytes)
| EWrite (line rest : bytes)
| EFlush
| EEnd                                           (* [shut_down] begins *)
| EAsk                                           (* the flag is up *)
| ETake
| EShutdown                                      (* the handle is out of the state *)
| EDone
| EDropped.

(** What the stream answers when it is asked. *)
Inductive SinkPoll : Type := Takes (n : nat) | Fails | Blocks.

(** [sh_lock] is the mutex: the first holds the guard, the others wait in order.  [sh_wire] are the
    bytes the stream has taken, [sh_records] the records among them, each with its call. *)
Record Shared : Type := mkShared
  { sh_wire : bytes;
    sh_open : bool;
    sh_writable : bool;
    sh_ending : bool;
    sh_lock : list nat;
    sh_tasks : gmap nat Pc;
    sh_records : list (nat * bytes) }.

Definition shared_new : Shared := mkShared [] true true false [] ∅ [].

Definition set_pc (s : Shared) (t : nat) (pc : Pc) : Shared :=
  mkShared (sh_wire s) (sh_open s) (sh_writable s) (sh_ending s) (sh_lock s) (<[t := pc]> (sh_tasks s)) (sh_records s).
Definition ask (s : Shared) (t : nat) : Shared :=
  mkShared (sh_wire s) (sh_open s) (sh_writable s) (sh_ending s) (sh_lock s ++ [t]) (sh_tasks s) (sh_records s).
(** Dropping the guard, or the place in line. *)
Definition leave (s : Shared) (t : nat) : Shared :=
  mkShared (sh_wire s) (sh_open s) (sh_writable s) (sh_ending s) (filter (fun u => u <> t) (sh_lock s)) (sh_tasks s) (sh_records s).
Definition set_unwritable (s : Shared) : Shared :=
  mkShared (sh_wire s) (sh_open s) false (sh_ending s) (sh_lock s) (sh_tasks s) (sh_records s).
Definition set_ending (s : Shared) : Shared :=
  mkShared (sh_wire s) (sh_open s) (sh_writable s) true (sh_lock s) (sh_tasks s) (sh_records s).
Definition take_writer (s : Shared) : Shared :=
  mkShared (sh_wire s) false false (sh_ending s) (sh_lock s) (sh_tasks s) (sh_records s).
Definition put (s : Shared) (b : bytes) : Shared :=
  mkShared (sh_wire s ++ b) (sh_open s) (sh_writable s) (sh_ending s) (sh_lock s) (sh_tasks s) (sh_records s).
Definition record (s : Shared) (t : nat) (line : bytes) : Shared :=
  mkShared (sh_wire s) (sh_open s) (sh_writable s) (sh_ending s) (sh_lock s) (sh_tasks s) (sh_records s ++ [(t, line)]).

Definition holds (s : Shared) (t : nat) : bool := bool_decide (head (sh_lock s) = Some t).
Definition usable (s : Shared) : bool := sh_writable s && sh_open s.

Section writer.
Context {RT : RustText} {SJ : SerdeJson} (max_frame_bytes : Z).

(** One poll of [write_all]: a stream that takes no byte has failed. *)
Definition write_record (s : Shared) (t : nat) (line rest : bytes) (a : SinkPoll) : Shared * option (option bytes) :=
  match a with
  | Blocks => (s, Some (Some rest))
  | Takes (S n) =>
      let s := put s (take (S n) rest) in
      match drop (S n) rest with
      | [] => (record s t line, Some None)
      | rest => (s, Some (Some rest))
      end
  | Takes O | Fails => (leave (set_unwritable s) t, None)
  end.

(** [write_frame], from one suspension point or statement on a shared cell to the next. *)
Definition send_step (s : Shared) (t : nat) (pc : Pc) (a : SinkPoll) : Shared * Pc :=
  match pc with
  | SStart f =>
      match encode_line f max_frame_bytes with
      | Err error => (s, SRefused error)
      | Ok line => (s, if sh_ending s then SClosed else SAsk f line)
      end
  | SAsk f line => (ask s t, SLock f line)
  | SLock f line =>
      if negb (holds s t) then (s, pc)
      else if usable s then (s, SWrite f line line) else (leave s t, SClosed)
  | SWrite f line rest =>
      match write_record s t line rest a with
      | (s, Some (Some rest)) => (s, SWrite f line rest)
      | (s, Some None) => (s, SFlush f)
      | (s, None) => (s, SClosed)
      end
  | SFlush f =>
      match a with
      | Blocks => (s, pc)
      | Takes _ => (leave s t, SSent f)
      | Fails => (leave (set_unwritable s) t, SClosed)
      end
  | _ => (s, pc)
  end.

(** [end]: [write_close], then [shut_down]. *)
Definition end_step (s : Shared) (t : nat) (pc : Pc) (a : SinkPoll) : Shared * Pc :=
  match pc with
  | EStart code reason =>
      match farewell_line code reason max_frame_bytes with
      | Err _ => (s, EEnd)
      | Ok line => (ask s t, ELock line)
      end
  | ELock line =>
      if negb (holds s t) then (s, pc)
      else if usable s then (s, EWrite line line) else (leave s t, EEnd)
  | EWrite line rest =>
      match write_record s t line rest a with
      | (s, Some (Some rest)) => (s, EWrite line rest)
      | (s, Some None) => (s, EFlush)
      | (s, None) => (s, EEnd)
      end
  | EFlush =>
      match a with
      | Blocks => (s, pc)
      | Takes _ => (leave s t, EEnd)
      | Fails => (leave (set_unwritable s) t, EEnd)
      end
  | EEnd => (set_ending s, EAsk)
  | EAsk => (ask s t, ETake)
  | ETake =>
      if negb (holds s t) then (s, pc)
      else (leave (take_writer s) t, if sh_open s then EShutdown else EDone)
  | EShutdown => (s, match a with Blocks => pc | _ => EDone end)
  | _ => (s, pc)
  end.

Definition is_send (pc : Pc) : bool :=
  match pc with
  | SStart _ | SAsk _ _ | SLock _ _ | SWrite _ _ _ | SFlush _ | SSent _ | SClosed | SRefused _ => true
  | _ => false
  end.

Definition run (s : Shared) (t : nat) (pc : Pc) (a : SinkPoll) : Shared * Pc :=
  if is_send pc then send_step s t pc a else end_step s t pc a.

(** The other branch of [write_frame]'s [select!]. *)
Definition evict (s : Shared) (t : nat) (pc : Pc) : Shared * Pc :=
  match pc with
  | SWrite _ _ _ | SFlush _ => if sh_ending s then (leave (set_unwritable s) t, SClosed) else (s, pc)
  | _ => (s, pc)
  end.

(** [CLOSE_FLUSH_GRACE] has passed. *)
Definition elapse (s : Shared) (t : nat) (pc : Pc) : Shared * Pc :=
  match pc with
  | ELock _ | EWrite _ _ | EFlush => (leave s t, EEnd)
  | EShutdown => (s, EDone)
  | _ => (s, pc)
  end.

(** The future is dropped where it waits. *)
Definition drop_call (s : Shared) (t : nat) (pc : Pc) : Shared * Pc :=
  match pc with
  | ELock _ | EWrite _ _ | EFlush | ETake => (leave s t, EDropped)
  | EShutdown => (s, EDropped)
  | _ => (s, pc)
  end.

Inductive Turn : Type :=
| Call (t : nat) (pc : Pc)
| Run (t : nat) (a : SinkPoll)
| Evict (t : nat)
| Elapse (t : nat)
| DropCall (t : nat).

(** The calls there are: [send], [end] and [shut_down]. *)
Definition is_start (pc : Pc) : bool := match pc with SStart _ | EStart _ _ | EEnd => true | _ => false end.

Definition on_task (s : Shared) (t : nat) (f : Shared -> nat -> Pc -> Shared * Pc) : Shared :=
  match sh_tasks s !! t with
  | Some pc => let '(s, pc) := f s t pc in set_pc s t pc
  | None => s
  end.

Definition act (s : Shared) (turn : Turn) : Shared :=
  match turn with
  | Call t pc => if is_start pc && bool_decide (sh_tasks s !! t = None) then set_pc s t pc else s
  | Run t a => on_task s t (fun s t pc => run s t pc a)
  | Evict t => on_task s t evict
  | Elapse t => on_task s t elapse
  | DropCall t => on_task s t drop_call
  end.

Definition acts (s : Shared) (turns : list Turn) : Shared := foldl act s turns.

(** A farewell given up after its first byte and before its last. *)
Definition breaks_off (s : Shared) (turn : Turn) : bool :=
  match turn with
  | Elapse t | DropCall t =>
      match sh_tasks s !! t with Some (EWrite line rest) => negb (bool_decide (rest = line)) | _ => false end
  | _ => false
  end.

Fixpoint tidy (s : Shared) (turns : list Turn) : bool :=
  match turns with
  | [] => true
  | turn :: rest => negb (breaks_off s turn) && tidy (act s turn) rest
  end.

(** ** The invariant *)

(** In line for the mutex, or holding it; writing under it. *)
Definition locked (pc : Pc) : bool :=
  match pc with SLock _ _ | SWrite _ _ _ | SFlush _ | ELock _ | EWrite _ _ | EFlush | ETake => true | _ => false end.
Definition writing (pc : Pc) : bool :=
  match pc with SWrite _ _ _ | SFlush _ | EWrite _ _ | EFlush => true | _ => false end.
(** Before the whole record is on the wire. *)
Definition unwritten (pc : Pc) : bool :=
  match pc with
  | SStart _ | SAsk _ _ | SLock _ _ | SWrite _ _ _ | EStart _ _ | ELock _ | EWrite _ _ => true
  | _ => false
  end.

Definition is_line (line : bytes) : Prop := exists f, encode_line f max_frame_bytes = Ok line.
Definition remains (line rest : bytes) : Prop := rest <> [] /\ exists gone, line = gone ++ rest.

(** What a call at [pc] knows. *)
Definition pc_ok (s : Shared) (t : nat) (pc : Pc) : Prop :=
  match pc with
  | SAsk f line | SLock f line => encode_line f max_frame_bytes = Ok line
  | SWrite f line rest => encode_line f max_frame_bytes = Ok line /\ remains line rest
  | SFlush f | SSent f => exists line, encode_line f max_frame_bytes = Ok line /\ (t, line) ∈ sh_records s
  | ELock line => is_line line
  | EWrite line rest => is_line line /\ remains line rest
  | EAsk | ETake => sh_ending s = true
  | EShutdown | EDone => sh_ending s = true /\ sh_open s = false
  | _ => True
  end.

Record ok (s : Shared) : Prop := {
  ok_lock : NoDup (sh_lock s);
  ok_locked : forall t, t ∈ sh_lock s <-> exists pc, sh_tasks s !! t = Some pc /\ locked pc = true;
  ok_writing : forall t pc, sh_tasks s !! t = Some pc -> writing pc = true -> head (sh_lock s) = Some t /\ usable s = true;
  ok_pc : forall t pc, sh_tasks s !! t = Some pc -> pc_ok s t pc;
  ok_once : NoDup (sh_records s).*1;
  ok_written : forall t, t ∈ (sh_records s).*1 -> exists pc, sh_tasks s !! t = Some pc /\ unwritten pc = false;
  ok_lines : Forall (fun r => is_line r.2) (sh_records s);
  ok_open : sh_open s = false -> sh_writable s = false /\ sh_ending s = true
}.

End writer.
