(* ===== verification/SharedWriterProps.v ===== *)
(** * What the shared writer guarantees, whoever is stuck

    In every interleaving of [SharedWriter.v] the mutex is held by at most one call; what is on the
    wire are whole records, in the order their calls held it, and at most one broken one at the very
    end; a port that has ended writes nothing any more; and ending it never waits for the peer. *)

From S2P Require Import Prelude Json Wire Frame Validate Limits Serde JsonText FrameJson Ndjson NdjsonProps Port NdjsonPort NdjsonPortProps SharedWriter.
Local Open Scope Z_scope.

(** ** The queue *)

Lemma head_filter_other (t u : nat) (l : list nat) : u <> t -> head l = Some u -> head (filter (fun v => v <> t) l) = Some u.
Proof. destruct l as [|v l]; [done|]. intros Hne [= ->]. by rewrite filter_cons_True. Qed.

Lemma head_snoc_other {A} (l : list A) x y : head l = Some x -> head (l ++ [y]) = Some x.
Proof. by destruct l. Qed.

Lemma elem_of_head {A} (l : list A) x : head l = Some x -> x ∈ l.
Proof. destruct l; [done|]. intros [= ->]. by left. Qed.

(** The queue after a step of [t], whose place in it changes from [was] to [is]. *)
Inductive queue_step (t : nat) (was now : bool) (l l' : list nat) : Prop :=
| queue_same : l' = l -> now = was -> queue_step t was now l l'
| queue_ask : l' = l ++ [t] -> was = false -> now = true -> queue_step t was now l l'
| queue_leave : l' = filter (fun u => u <> t) l -> now = false -> queue_step t was now l l'.

Lemma queue_step_nodup t was now l l' : queue_step t was now l l' -> (was = false -> t ∉ l) -> NoDup l -> NoDup l'.
Proof.
  intros [-> _| -> Hwas _| -> _] Hnot Hl; [done| |by apply NoDup_filter].
  apply NoDup_app. split; [done|]. split; [|apply NoDup_singleton]. intros u Hu ->%list_elem_of_singleton. by apply Hnot.
Qed.

Lemma queue_step_other t was now l l' u : queue_step t was now l l' -> u <> t -> u ∈ l' <-> u ∈ l.
Proof.
  intros [-> _| -> _ _| -> _] Hne; [done| |rewrite list_elem_of_filter; naive_solver].
  rewrite elem_of_app, list_elem_of_singleton. naive_solver.
Qed.

Lemma queue_step_self t was now l l' : queue_step t was now l l' -> (t ∈ l <-> was = true) -> t ∈ l' <-> now = true.
Proof.
  intros [-> ->| -> _ ->| -> ->] Hl; [done| |rewrite list_elem_of_filter; naive_solver].
  rewrite elem_of_app, list_elem_of_singleton. naive_solver.
Qed.

Lemma queue_step_head t was now l l' u : queue_step t was now l l' -> u <> t -> head l = Some u -> head l' = Some u.
Proof. intros [-> _| -> _ _| -> _] Hne Hh; [done|by apply head_snoc_other|by apply head_filter_other]. Qed.

Section writer.
Context {RT : RustText} {SJ : SerdeJson} (max : Z).
Implicit Types (s : Shared) (t u : nat) (pc : Pc).

(** ** One call moves *)

(** What a step may change under another call's feet: nothing it relies on. *)
Record steps s t pc s' pc' : Prop := {
  st_tasks : sh_tasks s' = sh_tasks s;
  st_queue : queue_step t (locked pc) (locked pc') (sh_lock s) (sh_lock s');
  st_flags : usable s' = usable s \/ head (sh_lock s) = Some t /\ usable s' = false;
  st_mono : writing pc = true -> locked pc' = true -> writing pc' = true;
  st_writing : writing pc' = true -> head (sh_lock s') = Some t /\ usable s' = true;
  st_ending : sh_ending s = true -> sh_ending s' = true;
  st_closed : sh_open s = false -> sh_open s' = false;
  st_open : sh_open s' = false -> sh_writable s' = false /\ sh_ending s' = true;
  st_records : sh_records s' = sh_records s /\ (unwritten pc = false -> unwritten pc' = false) \/
    unwritten pc = true /\ unwritten pc' = false /\ exists line, is_line max line /\ sh_records s' = sh_records s ++ [(t, line)]
}.

Lemma steps_ok s t pc s' pc' :
  ok max s -> sh_tasks s !! t = Some pc -> steps s t pc s' pc' -> pc_ok max s' t pc' -> ok max (set_pc s' t pc').
Proof.
  intros [Hnd Hlk Hwr Hpc Honce Hwd Hln Hop] Ht [Etk Hq Hfl _ Hwr' Hen Hcl Hop' Hrec] Hpc'.
  assert (Hself : t ∈ sh_lock s <-> locked pc = true) by (rewrite Hlk; split; [intros (pc0 & H0 & ?); congruence|eauto]).
  split; cbn [set_pc sh_lock sh_tasks sh_records sh_open sh_writable sh_ending]; rewrite ?Etk.
  - eapply queue_step_nodup; [done| |done]. intros Hf Hin%Hself. congruence.
  - intros u. destruct (decide (u = t)) as [->|Hne].
    + rewrite lookup_insert_eq, (queue_step_self _ _ _ _ _ Hq Hself). naive_solver.
    + rewrite lookup_insert_ne by done. by rewrite (queue_step_other _ _ _ _ _ _ Hq Hne).
  - intros u pcu Hu Hw. destruct (decide (u = t)) as [->|Hne].
    + rewrite lookup_insert_eq in Hu. injection Hu as <-. destruct (Hwr' Hw). done.
    + rewrite lookup_insert_ne in Hu by done. destruct (Hwr u pcu Hu Hw) as [Hh Hus].
      split; [by eapply queue_step_head|]. destruct Hfl as [Hfl|[Hfl _]]; [|congruence]. unfold usable in *. cbn. by rewrite Hfl.
  - intros u pcu Hu. destruct (decide (u = t)) as [->|Hne].
    + rewrite lookup_insert_eq in Hu. injection Hu as <-. done.
    + rewrite lookup_insert_ne in Hu by done. pose proof (Hpc u pcu Hu) as H.
      assert (Hin : forall x, x ∈ sh_records s -> x ∈ sh_records s').
      { destruct Hrec as [[-> _]|(_ & _ & line & _ & ->)]; [done|]. intros x Hx. apply elem_of_app. by left. }
      destruct pcu; cbn in H |- *; naive_solver.
  - destruct Hrec as [[-> _]|(Hun & _ & line & _ & ->)]; [done|]. rewrite fmap_app. apply NoDup_app. split; [done|].
    split; [|apply NoDup_singleton]. intros u Hu ->%list_elem_of_singleton. destruct (Hwd _ Hu) as (pc0 & Hp0 & Hu0). cbn in Hp0. congruence.
  - intros u. destruct (decide (u = t)) as [->|Hne].
    + rewrite lookup_insert_eq. destruct Hrec as [[-> Hun]|(_ & Hun & line & _ & ->)]; [|naive_solver].
      intros Hin. destruct (Hwd _ Hin) as (pc0 & Hp0 & Hu0). exists pc'. split; [done|]. apply Hun. congruence.
    + rewrite lookup_insert_ne by done. destruct Hrec as [[-> _]|(_ & _ & line & _ & ->)]; [apply Hwd|].
      rewrite fmap_app, elem_of_app. intros [Hin|Hin%list_elem_of_singleton]; [by apply Hwd|done].
  - destruct Hrec as [[-> _]|(_ & _ & line & Hline & ->)]; [done|]. apply Forall_app. split; [done|]. by constructor.
  - done.
Qed.

(** A call that stays where it is. *)
Lemma set_pc_same s t pc : sh_tasks s !! t = Some pc -> set_pc s t pc = s.
Proof. intros H. unfold set_pc. rewrite insert_id by done. by destruct s. Qed.

Lemma writing_locked pc : writing pc = true -> locked pc = true.
Proof. by destruct pc. Qed.

(** The cells a step leaves alone. *)
Definition cells s := (sh_tasks s, sh_records s, sh_open s, sh_writable s, sh_ending s).

Lemma steps_still s t pc s' pc' :
  ok max s -> cells s' = cells s -> sh_lock s' = sh_lock s -> locked pc' = locked pc ->
  (unwritten pc = false -> unwritten pc' = false) -> (writing pc' = true -> head (sh_lock s) = Some t /\ usable s = true) ->
  (writing pc = true -> locked pc' = true -> writing pc' = true) -> steps s t pc s' pc'.
Proof.
  intros Hok [= Ht Hr Ho Hw He] Hl Hlk Hun Hwr Hmono. pose proof (ok_open _ _ Hok). unfold usable in *.
  split; unfold usable; rewrite ?Ho, ?Hw, ?He, ?Hl; auto using queue_same.
Qed.

Lemma steps_ask s t pc pc' :
  ok max s -> locked pc = false -> locked pc' = true -> writing pc' = false -> (unwritten pc = false -> unwritten pc' = false) ->
  steps s t pc (ask s t) pc'.
Proof.
  intros Hok Hl Hl' Hw Hun. pose proof (ok_open _ _ Hok).
  split; cbn [ask sh_lock sh_tasks sh_records sh_open sh_writable sh_ending]; rewrite ?Hw; auto using queue_ask; [|done].
  intros Hw0%writing_locked. congruence.
Qed.

(** Giving up the guard or the place in line; with the guard, the cells behind it may change. *)
Lemma steps_leave s t pc s' pc' :
  ok max s -> sh_tasks s' = sh_tasks s -> sh_records s' = sh_records s -> sh_lock s' = sh_lock s -> sh_ending s' = sh_ending s ->
  cells s' = cells s \/ head (sh_lock s) = Some t /\ sh_writable s' = false /\
    (sh_open s' = sh_open s \/ sh_open s' = false /\ sh_ending s = true) ->
  locked pc' = false -> (unwritten pc = false -> unwritten pc' = false) -> steps s t pc (leave s' t) pc'.
Proof.
  intros Hok Ht Hr Hl He Hcells Hl' Hun. pose proof (ok_open _ _ Hok) as Hop.
  split; cbn [leave sh_lock sh_tasks sh_records sh_open sh_writable sh_ending]; rewrite ?Hl, ?He; auto.
  - by apply queue_leave.
  - unfold usable. cbn. destruct Hcells as [[= _ _ Ho Hw _]|(Hh & Hw & _)]; [left|right]; by rewrite ?Ho, ?Hw.
  - congruence.
  - intros Hw%writing_locked. congruence.
  - destruct Hcells as [[= _ _ Ho _ _]|(_ & _ & [Ho|[Ho _]])]; by rewrite Ho.
  - destruct Hcells as [[= _ _ Ho Hw _]|(_ & Hw & [Ho|[Ho He']])]; rewrite ?Ho, ?Hw; [done|intros Hf; destruct (Hop Hf); done|done].
Qed.

(** A poll of [write_all]. *)
Lemma write_record_steps s t line rest a pc :
  ok max s -> sh_tasks s !! t = Some pc -> writing pc = true -> unwritten pc = true ->
  is_line max line -> remains line rest ->
  let '(s', r) := write_record s t line rest a in
  match r with
  | Some (Some rest') => remains line rest' /\ forall pc', writing pc' = true -> unwritten pc' = true -> steps s t pc s' pc'
  | Some None => (t, line) ∈ sh_records s' /\ forall pc', writing pc' = true -> unwritten pc' = false -> steps s t pc s' pc'
  | None => forall pc', locked pc' = false -> unwritten pc' = false -> steps s t pc s' pc'
  end.
Proof.
  intros Hok Ht Hw Hun Hline Hrem. destruct (ok_writing _ _ Hok t pc Ht Hw) as [Hh Hus]. pose proof (ok_open _ _ Hok) as Hop.
  pose proof (writing_locked pc Hw) as Hlk.
  assert (Hbreak : forall pc', locked pc' = false -> unwritten pc' = false -> steps s t pc (leave (set_unwritable s) t) pc').
  { intros pc' Hl' Hu'. apply steps_leave; try done. right. split; [done|]. split; [done|]. by left. }
  destruct a as [[|n]| |]; cbn [write_record]; try done.
  - destruct (drop (S n) rest) as [|c rest'] eqn:Ed.
    + split; [apply elem_of_app; right; by left|]. intros pc' Hw' Hu'. pose proof (writing_locked pc' Hw') as Hl'.
      split; cbn [record put sh_lock sh_tasks sh_records sh_open sh_writable sh_ending]; auto.
      * apply queue_same; [done|by rewrite Hlk].
      * right. split; [done|]. split; [done|]. by exists line.
    + split.
      * split; [done|]. destruct Hrem as [_ [gone ->]]. exists (gone ++ take (S n) rest). by rewrite <- app_assoc, <- Ed, take_drop.
      * intros pc' Hw' Hu'. pose proof (writing_locked pc' Hw'). apply steps_still; try done; congruence.
  - split; [done|]. intros pc' Hw' Hu'. pose proof (writing_locked pc' Hw'). apply steps_still; try done; congruence.
Qed.

Lemma send_steps s t pc a :
  ok max s -> sh_tasks s !! t = Some pc -> is_send pc = true ->
  let '(s', pc') := send_step max s t pc a in steps s t pc s' pc' /\ pc_ok max s' t pc'.
Proof.
  intros Hok Ht Hs. pose proof (ok_pc _ _ Hok t pc Ht) as Hpc. pose proof (ok_writing _ _ Hok t pc Ht) as Hwr.
  destruct pc as [f|f line|f line|f line rest|f|f| |e|? ?|?|? ?| | | | | | |]; try done; cbn [send_step pc_ok] in *.
  - destruct (encode_line f max) as [line|e] eqn:El; [destruct (sh_ending s)|]; (split; [by apply steps_still|done]).
  - split; [by apply steps_ask|done].
  - unfold holds. case_bool_decide as Hh; cbn [negb]; [|split; [by apply steps_still|done]].
    destruct (usable s) eqn:Hus.
    + split; [by apply steps_still|]. split; [done|]. split; [|by exists []]. unfold encode_line in Hpc.
      apply result_bind_Ok in Hpc as (b & _ & [= <-]). by destruct b.
    + split; [|done]. apply steps_leave; auto.
  - destruct Hpc as [Henc Hrem]. assert (Hline : is_line max line) by by exists f.
    pose proof (write_record_steps s t line rest a _ Hok Ht eq_refl eq_refl Hline Hrem) as H.
    destruct (write_record s t line rest a) as [s' [[rest'|]|]].
    + destruct H as [Hrem' H]. split; [by apply H|done].
    + destruct H as [Hin H]. split; [by apply H|]. by exists line.
    + split; [by apply H|done].
  - destruct (Hwr eq_refl) as [Hh Hus]. destruct a as [n| |].
    + split; [apply steps_leave; auto|done].
    + split; [|done]. apply steps_leave; auto 6.
    + split; [by apply steps_still|done].
  - split; [by apply steps_still|done].
  - split; [by apply steps_still|done].
  - split; [by apply steps_still|done].
Qed.

Lemma end_steps s t pc a :
  ok max s -> sh_tasks s !! t = Some pc -> is_send pc = false ->
  let '(s', pc') := end_step max s t pc a in steps s t pc s' pc' /\ pc_ok max s' t pc'.
Proof.
  intros Hok Ht Hs. pose proof (ok_pc _ _ Hok t pc Ht) as Hpc. pose proof (ok_writing _ _ Hok t pc Ht) as Hwr.
  destruct pc as [?|? ?|? ?|? ? ?|?|?| |?|code reason|line|line rest| | | | | | |]; try done; cbn [end_step pc_ok] in *.
  - unfold farewell_line. set (f1 := FClose _). destruct (encode_line f1 max) as [line|] eqn:E1.
    + split; [by apply steps_ask|by exists f1].
    + set (f2 := FClose _). destruct (encode_line f2 max) as [line|] eqn:E2; [split; [by apply steps_ask|by exists f2]|].
      split; [by apply steps_still|done].
  - unfold holds. case_bool_decide as Hh; cbn [negb]; [|split; [by apply steps_still|done]].
    destruct (usable s) eqn:Hus.
    + split; [by apply steps_still|]. split; [done|]. split; [|by exists []]. destruct Hpc as [f Hf]. unfold encode_line in Hf.
      apply result_bind_Ok in Hf as (b & _ & [= <-]). by destruct b.
    + split; [|done]. apply steps_leave; auto.
  - destruct Hpc as [Hline Hrem].
    pose proof (write_record_steps s t line rest a _ Hok Ht eq_refl eq_refl Hline Hrem) as H.
    destruct (write_record s t line rest a) as [s' [[rest'|]|]].
    + destruct H as [Hrem' H]. split; [by apply H|done].
    + destruct H as [Hin H]. split; [by apply H|done].
    + split; [by apply H|done].
  - destruct (Hwr eq_refl) as [Hh Hus]. destruct a as [n| |].
    + split; [apply steps_leave; auto|done].
    + split; [|done]. apply steps_leave; auto 6.
    + split; [by apply steps_still|done].
  - pose proof (ok_open _ _ Hok) as Hop. split; [|done].
    split; cbn [set_ending sh_lock sh_tasks sh_records sh_open sh_writable sh_ending]; auto using queue_same.
    intros Ho. split; [by apply Hop|done].
  - split; [by apply steps_ask|done].
  - unfold holds. case_bool_decide as Hh; cbn [negb]; [|split; [by apply steps_still|done]].
    split; [|by destruct (sh_open s)]. apply steps_leave; try done; [right; auto|by destruct (sh_open s)..].
  - destruct a; (split; [by apply steps_still|done]).
  - split; [by apply steps_still|done].
  - split; [by apply steps_still|done].
Qed.

(** ** The invariant holds *)

(** A turn does nothing, starts a call, or moves one. *)
Inductive turned s t : Shared -> Prop :=
| turned_idle : turned s t s
| turned_call pc : is_start pc = true -> sh_tasks s !! t = None -> turned s t (set_pc s t pc)
| turned_step pc s' pc' :
    sh_tasks s !! t = Some pc -> steps s t pc s' pc' -> pc_ok max s' t pc' -> turned s t (set_pc s' t pc').

Definition whose (turn : Turn) : nat :=
  match turn with Call t _ | Run t _ | Evict t | Elapse t | DropCall t => t end.

Lemma on_task_turned s t (f : Shared -> nat -> Pc -> Shared * Pc) :
  (forall pc, sh_tasks s !! t = Some pc -> let '(s', pc') := f s t pc in steps s t pc s' pc' /\ pc_ok max s' t pc') ->
  turned s t (on_task s t f).
Proof.
  intros H. unfold on_task. destruct (sh_tasks s !! t) as [pc|] eqn:Ht; [|constructor]. specialize (H pc eq_refl).
  destruct (f s t pc) as [s' pc']. destruct H. by eapply turned_step.
Qed.

Lemma act_turned s turn : ok max s -> turned s (whose turn) (act max s turn).
Proof.
  intros Hok.
  assert (Hstay : forall t pc, sh_tasks s !! t = Some pc -> steps s t pc s pc /\ pc_ok max s t pc).
  { intros t pc Ht. split; [|by apply (ok_pc _ _ Hok)]. apply steps_still; try done. by apply (ok_writing _ _ Hok). }
  destruct turn as [t pc|t a|t|t|t]; cbn [act whose].
  - destruct (is_start pc && _) eqn:E; [|constructor]. apply andb_true_iff in E as [Hst Hno%bool_decide_eq_true]. by constructor.
  - apply on_task_turned. intros pc Ht. unfold run. destruct (is_send pc) eqn:Es; [by apply send_steps|by apply end_steps].
  - apply on_task_turned. intros pc Ht. specialize (Hstay t pc Ht). pose proof (ok_writing _ _ Hok t pc Ht) as Hwr.
    destruct pc; try exact Hstay; cbn [evict]; destruct (sh_ending s); try exact Hstay;
      (split; [|done]); destruct (Hwr eq_refl); (apply steps_leave; auto; right; auto).
  - apply on_task_turned. intros pc Ht. specialize (Hstay t pc Ht). pose proof (ok_pc _ _ Hok t pc Ht) as Hpc.
    destruct pc; try exact Hstay; cbn [elapse]; (split; [first [by apply steps_still|apply steps_leave; auto]|done]).
  - apply on_task_turned. intros pc Ht. specialize (Hstay t pc Ht).
    destruct pc; try exact Hstay; cbn [drop_call]; (split; [first [by apply steps_still|apply steps_leave; auto]|done]).
Qed.

Lemma call_ok s t pc : ok max s -> is_start pc = true -> sh_tasks s !! t = None -> ok max (set_pc s t pc).
Proof.
  intros [Hnd Hlk Hwr Hpc Honce Hwd Hln Hop] Hst Hno.
  assert (Hfr : forall u pcu, <[t:=pc]> (sh_tasks s) !! u = Some pcu -> u = t /\ pcu = pc \/ sh_tasks s !! u = Some pcu)
    by (intros u pcu [[-> ->]|[_ ?]]%lookup_insert_Some; auto).
  assert (Hidle : locked pc = false /\ writing pc = false /\ pc_ok max (set_pc s t pc) t pc) by by destruct pc.
  destruct Hidle as (Hl & Hw & Hp). split; cbn [set_pc sh_lock sh_tasks sh_records sh_open sh_writable sh_ending]; try done.
  - intros u. rewrite Hlk. destruct (decide (u = t)) as [->|Hne]; [rewrite lookup_insert_eq; naive_solver congruence|by rewrite lookup_insert_ne].
  - intros u pcu Hu Hwu. destruct (Hfr u pcu Hu) as [[-> ->]|Ho]; [congruence|]. by apply (Hwr u pcu).
  - intros u pcu Hu. destruct (Hfr u pcu Hu) as [[-> ->]|Ho]; [done|]. by apply (Hpc u pcu).
  - intros u Hu. destruct (Hwd u Hu) as (pcu & Hpu & ?). exists pcu. split; [|done]. rewrite lookup_insert_ne; [done|]. intros <-. congruence.
Qed.

Lemma act_ok s turn : ok max s -> ok max (act max s turn).
Proof. intros Hok. destruct (act_turned s turn Hok); [done|by apply call_ok|by eapply steps_ok]. Qed.

Lemma new_ok : ok max shared_new.
Proof.
  split; cbn; try done; try constructor.
  - by intros ?%not_elem_of_nil.
  - by intros (pc & ? & _).
  - by intros t ?%not_elem_of_nil.
Qed.

Lemma acts_ok turns : forall s, ok max s -> ok max (acts max s turns).
Proof. induction turns as [|turn turns IH]; intros s Hok; [done|]. by apply IH, act_ok. Qed.

(** ** What is on the wire *)

(** The part of its record a call has put on the wire. *)
Definition gone pc : bytes :=
  match pc with
  | SWrite _ line rest | EWrite line rest => take (length line - length rest) line
  | _ => []
  end.

Lemma gone_writing pc : gone pc <> [] -> writing pc = true.
Proof. by destruct pc. Qed.

Lemma gone_split (g rest line : bytes) : line = g ++ rest -> take (length line - length rest) line = g.
Proof. intros ->. rewrite length_app, Nat.add_sub. apply take_app_length. Qed.

(** Whole records and then [tail]: as long as the handle is usable, what its holder has written. *)
Definition whole s (tail : bytes) : Prop :=
  sh_wire s = concat (sh_records s).*2 ++ tail /\
  (usable s = true ->
    tail = [] /\ (forall t pc, sh_tasks s !! t = Some pc -> gone pc = []) \/
    exists t pc, sh_tasks s !! t = Some pc /\ writing pc = true /\ tail = gone pc) /\
  (tail = [] \/ exists line rest, is_line max line /\ rest <> [] /\ line = tail ++ rest).

(** There is one writer. *)
Lemma only_writer s t pc u pcu :
  ok max s -> sh_tasks s !! t = Some pc -> writing pc = true -> sh_tasks s !! u = Some pcu -> u <> t -> writing pcu = false.
Proof.
  intros Hok Ht Hw Hu Hne. destruct (writing pcu) eqn:E; [|done]. destruct (ok_writing _ _ Hok t pc Ht Hw) as [H1 _].
  destruct (ok_writing _ _ Hok u pcu Hu E) as [H2 _]. congruence.
Qed.

Lemma others_idle s t pc u pcu :
  ok max s -> sh_tasks s !! t = Some pc -> writing pc = true -> sh_tasks s !! u = Some pcu -> u <> t -> gone pcu = [].
Proof.
  intros Hok Ht Hw Hu Hne. pose proof (only_writer s t pc u pcu Hok Ht Hw Hu Hne) as Hw'.
  destruct (gone pcu) eqn:E; [done|]. rewrite gone_writing in Hw' by (by rewrite E). done.
Qed.

Lemma whole_holder s tail t pc :
  ok max s -> whole s tail -> sh_tasks s !! t = Some pc -> writing pc = true -> tail = gone pc.
Proof.
  intros Hok (_ & Hus & _) Ht Hw. destruct (ok_writing _ _ Hok t pc Ht Hw) as [_ Hu].
  destruct (Hus Hu) as [[-> Hall]|(u & pcu & Hu' & Hwu & ->)]; [by rewrite (Hall t pc)|].
  destruct (decide (u = t)) as [->|Hne]; [congruence|]. pose proof (only_writer s t pc u pcu Hok Ht Hw Hu' Hne). congruence.
Qed.

(** A step that puts nothing on the wire. *)
Lemma whole_keep s t pc s' pc' tail :
  ok max s -> whole s tail -> sh_tasks s !! t = Some pc ->
  sh_tasks s' = sh_tasks s -> sh_wire s' = sh_wire s -> sh_records s' = sh_records s ->
  (usable s' = true -> usable s = true /\ (gone pc' = gone pc /\ (writing pc = true -> writing pc' = true) \/ gone pc = [] /\ gone pc' = [])) ->
  whole (set_pc s' t pc') tail.
Proof.
  intros Hok (Hw & Hus & Hcut) Ht Etk Ew Er Hg. unfold whole. cbn [set_pc sh_wire sh_records sh_tasks]. rewrite Ew, Er, Etk.
  split; [done|]. split; [|done]. change (usable (set_pc s' t pc')) with (usable s'). intros Hu. destruct (Hg Hu) as [Hu0 Hcase].
  assert (Hins : forall u pcu, u <> t -> sh_tasks s !! u = Some pcu -> <[t:=pc']> (sh_tasks s) !! u = Some pcu) by (intros; by rewrite lookup_insert_ne).
  destruct (Hus Hu0) as [[-> Hall]|(u & pcu & Hu' & Hwu & ->)].
  - left. split; [done|]. intros u pcu [[<- <-]|[_ H]]%lookup_insert_Some; [|by apply (Hall u)].
    pose proof (Hall t pc Ht). destruct Hcase as [[-> _]|[_ ->]]; done.
  - destruct (decide (u = t)) as [->|Hne]; [|right; exists u, pcu; auto]. rewrite Ht in Hu'. injection Hu' as ->.
    destruct Hcase as [[Hg' Hw']|[Hg0 Hg1]]; [right; exists t, pc'; rewrite lookup_insert_eq; auto|left].
    split; [done|]. intros u pcu' [[<- <-]|[Hne H]]%lookup_insert_Some; [done|]. by eapply (others_idle s t).
Qed.

(** A poll of [write_all]. *)
Lemma whole_write s t pc line rest a tail :
  ok max s -> whole s tail -> sh_tasks s !! t = Some pc -> writing pc = true ->
  gone pc = take (length line - length rest) line -> is_line max line -> remains line rest ->
  let '(s', r) := write_record s t line rest a in
  exists tail', forall pc',
    match r with
    | Some (Some rest') => writing pc' = true -> gone pc' = take (length line - length rest') line -> whole (set_pc s' t pc') tail'
    | _ => gone pc' = [] -> whole (set_pc s' t pc') tail'
    end.
Proof.
  intros Hok Hwh Ht Hw Hg Hline [Hne [g Hl]]. pose proof (whole_holder s tail t pc Hok Hwh Ht Hw) as Htail.
  rewrite (gone_split g rest line Hl) in Hg. destruct Hwh as (Hwire & Hus & Hcut).
  assert (Hstay : forall s' pc', sh_tasks s' = sh_tasks s -> sh_wire s' = sh_wire s -> sh_records s' = sh_records s ->
    usable s' = false -> whole (set_pc s' t pc') tail).
  { intros s' pc' E1 E2 E3 E4. apply (whole_keep s t pc); try done. congruence. }
  destruct a as [[|n]| |]; cbn [write_record].
  - exists tail. intros pc' _. by apply Hstay.
  - set (took := take (S n) rest). destruct (drop (S n) rest) as [|c rest'] eqn:Ed.
    + exists []. intros pc' Hg'. assert (Hall : took = rest) by (rewrite <- (take_drop (S n) rest), Ed; by rewrite app_nil_r).
      split; [|split; [|by left]].
      * cbn. rewrite Hall, Hwire, Htail, Hg, fmap_app, concat_app. cbn. by rewrite !app_nil_r, <- app_assoc, <- Hl.
      * intros _. left. split; [done|]. cbn. intros u pcu [[<- <-]|[Hneq H]]%lookup_insert_Some; [done|]. by eapply (others_idle s t).
    + exists (g ++ took). intros pc' Hw' Hg'. assert (Hl' : line = (g ++ took) ++ c :: rest') by (unfold took; by rewrite <- app_assoc, <- Ed, take_drop).
      rewrite (gone_split _ _ _ Hl') in Hg'. split; [|split; [|right; by exists line, (c :: rest')]].
      * cbn. by rewrite Hwire, Htail, Hg, app_assoc.
      * intros _. right. exists t, pc'. cbn. by rewrite lookup_insert_eq.
  - exists tail. intros pc' _. by apply Hstay.
  - exists tail. intros pc' Hw' Hg'. apply (whole_keep s t pc); try done.
    intros Hu. split; [done|]. left. split; [by rewrite Hg', (gone_split g rest line Hl), Hg|done].
Qed.

Lemma on_task_whole s t tail (f : Shared -> nat -> Pc -> Shared * Pc) :
  whole s tail ->
  (forall pc, sh_tasks s !! t = Some pc -> let '(s', pc') := f s t pc in exists tail', whole (set_pc s' t pc') tail') ->
  exists tail', whole (on_task s t f) tail'.
Proof.
  intros Hwh H. unfold on_task. destruct (sh_tasks s !! t) as [pc|] eqn:Ht; [|by exists tail]. specialize (H pc eq_refl). by destruct (f s t pc).
Qed.

Ltac kept H := apply H; [done|done|done|first [exact (fun h => h) | done | discriminate]|done|done].

Lemma run_whole s t pc a tail :
  ok max s -> whole s tail -> sh_tasks s !! t = Some pc ->
  let '(s', pc') := run max s t pc a in exists tail', whole (set_pc s' t pc') tail'.
Proof.
  intros Hok Hwh Ht. pose proof (ok_pc _ _ Hok t pc Ht) as Hpc.
  assert (Hkeep : forall s' pc', sh_tasks s' = sh_tasks s -> sh_wire s' = sh_wire s -> sh_records s' = sh_records s ->
    (usable s' = true -> usable s = true) -> gone pc = [] -> gone pc' = [] -> exists tail', whole (set_pc s' t pc') tail').
  { intros s' pc' E1 E2 E3 E4 E5 E6. exists tail. apply (whole_keep s t pc); auto. }
  assert (Hfirst : forall line : bytes, take (length line - length line) line = []) by (intros line; by rewrite Nat.sub_diag).
  unfold run. destruct pc as [f|f line|f line|f line rest|f|f| |e|code reason|line|line rest| | | | | | |];
    cbn [is_send send_step end_step pc_ok] in *; try (solve [kept Hkeep]).
  - destruct (encode_line f max) as [line|e]; [destruct (sh_ending s)|]; kept Hkeep.
  - destruct (negb _); [kept Hkeep|]. case (usable s); [apply Hkeep; try done; apply Hfirst|kept Hkeep].
  - destruct Hpc as [Henc Hrem].
    pose proof (whole_write s t _ line rest a tail Hok Hwh Ht eq_refl eq_refl (ex_intro _ f Henc) Hrem) as H.
    destruct (write_record s t line rest a) as [s' [[rest'|]|]]; destruct H as [tail' H]; exists tail'; by apply H.
  - destruct a; kept Hkeep.
  - unfold farewell_line. destruct (encode_line _ max); [kept Hkeep|]. destruct (encode_line _ max); kept Hkeep.
  - destruct (negb _); [kept Hkeep|]. case (usable s); [apply Hkeep; try done; apply Hfirst|kept Hkeep].
  - destruct Hpc as [Hline Hrem].
    pose proof (whole_write s t _ line rest a tail Hok Hwh Ht eq_refl eq_refl Hline Hrem) as H.
    destruct (write_record s t line rest a) as [s' [[rest'|]|]]; destruct H as [tail' H]; exists tail'; by apply H.
  - destruct a; kept Hkeep.
  - destruct (negb _); [kept Hkeep|]. destruct (sh_open s); kept Hkeep.
  - destruct a; kept Hkeep.
Qed.

(** A farewell that is given up has not begun, or is complete. *)
Ltac broken_off Hb :=
  first [by left | right; split; [|done]; cbn in *; try done;
    apply negb_false_iff, bool_decide_eq_true in Hb as ->; by rewrite Nat.sub_diag].

Lemma act_whole s turn tail : ok max s -> whole s tail -> breaks_off s turn = false -> exists tail', whole (act max s turn) tail'.
Proof.
  intros Hok Hwh Hb. destruct turn as [t pc|t a|t|t|t]; cbn [act].
  - exists tail. destruct (is_start pc && _) eqn:E; [|done]. apply andb_true_iff in E as [Hst Hno%bool_decide_eq_true].
    destruct Hwh as (Hw & Hus & Hcut). split; [done|]. split; [|done]. intros Hu.
    destruct (Hus Hu) as [[-> Hall]|(u & pcu & Hu' & Hwu & ->)].
    + left. split; [done|]. cbn [set_pc sh_tasks]. intros u pcu [[<- <-]|[_ H]]%lookup_insert_Some; [by destruct pc|by apply (Hall u)].
    + right. exists u, pcu. split; [|done]. cbn. rewrite lookup_insert_ne; [done|]. intros <-. congruence.
  - eapply on_task_whole; [done|]. intros pc Ht. by eapply run_whole.
  - eapply on_task_whole; [done|]. intros pc Ht. destruct (evict s t pc) as [s' pc'] eqn:Ee. exists tail.
    destruct pc; cbn [evict] in Ee; try destruct (sh_ending s); injection Ee as <- <-;
      (eapply whole_keep; [done|done|exact Ht|done|done|done|]); first [discriminate | intros Hu; split; [exact Hu|by left]].
  - eapply on_task_whole; [done|]. intros pc Ht. cbn [breaks_off] in Hb. rewrite Ht in Hb. destruct (elapse s t pc) as [s' pc'] eqn:Ee. exists tail.
    assert (Hg : pc' = pc \/ gone pc = [] /\ gone pc' = []) by (destruct pc; injection Ee as <- <-; broken_off Hb).
    assert (Hs : s' = s \/ s' = leave s t) by (destruct pc; injection Ee as <- <-; auto).
    eapply whole_keep; [done|done|exact Ht|by destruct Hs as [-> | ->]..|]. intros Hu. split; [by destruct Hs as [-> | ->]|].
    destruct Hg as [->|Hg]; [by left|by right].
  - eapply on_task_whole; [done|]. intros pc Ht. cbn [breaks_off] in Hb. rewrite Ht in Hb. destruct (drop_call s t pc) as [s' pc'] eqn:Ee. exists tail.
    assert (Hg : pc' = pc \/ gone pc = [] /\ gone pc' = []) by (destruct pc; injection Ee as <- <-; broken_off Hb).
    assert (Hs : s' = s \/ s' = leave s t) by (destruct pc; injection Ee as <- <-; auto).
    eapply whole_keep; [done|done|exact Ht|by destruct Hs as [-> | ->]..|]. intros Hu. split; [by destruct Hs as [-> | ->]|].
    destruct Hg as [->|Hg]; [by left|by right].
Qed.

(** ** After the end *)

(** A handle nobody may use: nothing reaches the wire any more. *)
Lemma write_needs_usable s t pc a :
  ok max s -> sh_tasks s !! t = Some pc -> writing pc = false ->
  sh_wire (run max s t pc a).1 = sh_wire s /\ sh_records (run max s t pc a).1 = sh_records s.
Proof.
  intros Hok Ht Hw. unfold run. destruct pc; try discriminate Hw; cbn [is_send send_step end_step]; try done.
  - by destruct (encode_line frame max).
  - destruct (negb _); [done|]. by destruct (usable s).
  - by destruct (farewell_line code reason max).
  - destruct (negb _); [done|]. by destruct (usable s).
  - by destruct (negb _).
Qed.

Lemma act_silent s turn :
  ok max s -> usable s = false ->
  sh_wire (act max s turn) = sh_wire s /\ sh_records (act max s turn) = sh_records s /\ usable (act max s turn) = false.
Proof.
  intros Hok Hus.
  assert (Hidle : forall t pc, sh_tasks s !! t = Some pc -> writing pc = false).
  { intros t pc Ht. destruct (writing pc) eqn:E; [|done]. destruct (ok_writing _ _ Hok t pc Ht E). congruence. }
  assert (Hu : usable (act max s turn) = false).
  { destruct (act_turned s turn Hok) as [|pc|pc s' pc' Ht Hst _]; [done|done|]. change (usable s' = false).
    destruct (st_flags _ _ _ _ _ Hst) as [->|[_ ?]]; done. }
  rewrite Hu. clear Hu. destruct turn as [t pc|t a|t|t|t]; cbn [act]; [by destruct (_ && _)|..]; unfold on_task;
    (destruct (sh_tasks s !! t) as [pc|] eqn:Ht; [|done]); pose proof (Hidle t pc Ht) as Hw.
  - destruct (write_needs_usable s t pc a Hok Ht Hw) as [H1 H2]. by destruct (run max s t pc a).
  - by destruct pc.
  - by destruct pc.
  - by destruct pc.
Qed.

Lemma acts_silent turns : forall s,
  ok max s -> usable s = false -> sh_wire (acts max s turns) = sh_wire s /\ sh_records (acts max s turns) = sh_records s.
Proof.
  induction turns as [|turn turns IH]; intros s Hok Hus; [done|]. destruct (act_silent s turn Hok Hus) as (Hw & Hr & Hus').
  destruct (IH (act max s turn) (act_ok s turn Hok) Hus') as [Hw' Hr']. cbn [acts foldl]. unfold acts in Hw', Hr'. by rewrite Hw', Hr', Hw, Hr.
Qed.

(** ** Ending does not wait for the peer *)

(** Turns the call at [pc] needs before it lets the mutex go, if it is first in line. *)
Definition weight (o : option Pc) : nat :=
  match o with Some pc => if writing pc then 1 else if locked pc then 2 else 0 | None => 0 end.

(** The same for everybody ahead of [t]. *)
Fixpoint ahead (w : nat -> nat) (t : nat) (l : list nat) : nat :=
  match l with [] => 0 | u :: l => if decide (u = t) then 0 else w u + ahead w t l end.

Lemma ahead_le w w' t l l' u was now :
  queue_step u was now l l' -> u <> t -> t ∈ l -> (forall v, v <> u -> w' v = w v) -> (was = false -> u ∉ l) ->
  (was = true -> now = true -> w' u <= w u)%nat -> (ahead w' t l' <= ahead w t l)%nat.
Proof.
  intros Hq Hne Hin Hw Hnot Hu. destruct Hq as [-> ->| -> Hwas Hnow| -> Hnow].
  - destruct was; [specialize (Hu eq_refl eq_refl)|specialize (Hnot eq_refl)]; clear Hin.
    + induction l as [|v l IH]; cbn; [done|]. destruct (decide (v = t)); [done|]. destruct (decide (v = u)) as [->|Hv]; [lia|]. rewrite Hw by done. lia.
    + induction l as [|v l IH]; cbn; [done|]. destruct (decide (v = t)); [done|]. apply not_elem_of_cons in Hnot as [Hv Hnot]. rewrite Hw by done.
      specialize (IH Hnot). lia.
  - specialize (Hnot Hwas). induction l as [|v l IH]; [by apply not_elem_of_nil in Hin|]. cbn. destruct (decide (v = t)) as [->|Hv]; [done|].
    apply elem_of_cons in Hin as [->|Hin]; [done|]. apply not_elem_of_cons in Hnot as [Hvu Hnot]. rewrite Hw by done. specialize (IH Hin Hnot). lia.
  - clear Hin Hnot. induction l as [|v l IH]; [done|]. rewrite filter_cons. destruct (decide (v <> u)) as [Hv|Hv]; cbn.
    + destruct (decide (v = t)); [done|]. rewrite Hw by done. lia.
    + destruct (decide (v = t)) as [->|]; [|lia]. apply dec_stable in Hv. congruence.
Qed.

Lemma ahead_bound w t l : (forall u, w u <= 2)%nat -> (ahead w t l <= 2 * length l)%nat.
Proof. intros Hw. induction l as [|u l IH]; cbn; [lia|]. specialize (Hw u). destruct (decide (u = t)); lia. Qed.

Lemma ahead_snoc w t l : t ∉ l -> (ahead w t (l ++ [t]) = ahead w t l)%nat.
Proof.
  induction l as [|u l IH]; cbn; [by rewrite decide_True|]. intros [Hne Hnot]%not_elem_of_cons.
  destruct (decide (u = t)); [done|]. by rewrite IH.
Qed.

Lemma weight_two o : (weight o <= 2)%nat.
Proof. destruct o as [pc|]; cbn; [|lia]. destruct (writing pc), (locked pc); lia. Qed.

(** The turns a call of [end] still needs when only the guard's holder and it itself are ever polled,
    and the stream never answers. *)
Definition work s t : nat :=
  let n := length (sh_lock s) in
  match sh_tasks s !! t with
  | Some (EStart _ _) => 2 * n + 8
  | Some (ELock _ | EWrite _ _ | EFlush) => 2 * n + 5
  | Some EEnd => 2 * n + 4
  | Some EAsk => 2 * n + 3
  | Some ETake => ahead (fun u => weight (sh_tasks s !! u)) t (sh_lock s) + 2
  | Some EShutdown => 1
  | _ => 0
  end.

(** The turn that gets it on: its own, or, once it stands in line, that of the one in front. *)
Definition holder_turn s (u : nat) : Turn :=
  match sh_tasks s !! u with
  | Some (SWrite _ _ _ | SFlush _) => Evict u
  | Some (EWrite _ _ | EFlush) => Elapse u
  | _ => Run u Blocks
  end.

Definition pressing s t : Turn :=
  match sh_tasks s !! t with
  | Some (ELock _ | EWrite _ _ | EFlush | EShutdown) => Elapse t
  | Some ETake => match head (sh_lock s) with Some u => holder_turn s u | None => Run t Blocks end
  | _ => Run t Blocks
  end.

Lemma length_leave s t : (length (sh_lock (leave s t)) <= length (sh_lock s))%nat.
Proof. apply length_filter. Qed.

(** A call's own turn never sets it back. *)
Lemma run_work s t pc a :
  ok max s -> sh_tasks s !! t = Some pc ->
  let '(s', pc') := run max s t pc a in (work (set_pc s' t pc') t <= work s t)%nat.
Proof.
  intros Hok Ht. unfold work at 2. rewrite Ht.
  assert (Hget : forall s' pc', sh_tasks (set_pc s' t pc') !! t = Some pc') by (intros; apply lookup_insert_eq).
  assert (Hout : locked pc = false -> t ∉ sh_lock s).
  { intros Hl Hin. apply (ok_locked _ _ Hok) in Hin as (pc0 & H0 & Hl0). congruence. }
  unfold run. destruct pc as [f|f line|f line|f line rest|f|f| |e|code reason|line|line rest| | | | | | |]; cbn [is_send send_step end_step].
  - destruct (encode_line f max); [destruct (sh_ending s)|]; unfold work; by rewrite Hget.
  - unfold work; by rewrite Hget.
  - destruct (negb _); [|destruct (usable s)]; unfold work; by rewrite Hget.
  - destruct (write_record s t line rest a) as [s' [[rest'|]|]]; unfold work; by rewrite Hget.
  - destruct a; unfold work; by rewrite Hget.
  - unfold work; by rewrite Hget.
  - unfold work; by rewrite Hget.
  - unfold work; by rewrite Hget.
  - destruct (farewell_line code reason max); unfold work; rewrite Hget; cbn [set_pc ask sh_lock]; rewrite ?length_app; cbn [length]; lia.
  - destruct (negb _); [|destruct (usable s)]; unfold work; rewrite Hget; [cbn; lia..|]. pose proof (length_leave s t). cbn in *. lia.
  - destruct (write_record s t line rest a) as [s' [[rest'|]|]] eqn:Ew; unfold work; rewrite Hget;
      assert (Hl : (length (sh_lock s') <= length (sh_lock s))%nat); try (cbn in *; lia);
      (destruct a as [[|n]| |]; cbn [write_record] in Ew; try destruct (drop (S n) rest); simplify_eq; cbn; first [done|apply length_filter]).
  - destruct a; unfold work; rewrite Hget; [pose proof (length_leave s t)|pose proof (length_leave (set_unwritable s) t)|]; cbn in *; lia.
  - unfold work; rewrite Hget. cbn. lia.
  - unfold work; rewrite Hget. cbn [set_pc ask sh_lock sh_tasks]. rewrite ahead_snoc by by apply Hout.
    pose proof (ahead_bound (fun u => weight (<[t:=ETake]> (sh_tasks s) !! u)) t (sh_lock s) (fun u => weight_two _)). lia.
  - destruct (negb _); [unfold work; rewrite Hget; cbn [set_pc sh_lock sh_tasks]; rewrite insert_id by done; lia|].
    destruct (sh_open s); unfold work; rewrite Hget; lia.
  - destruct a; unfold work; rewrite Hget; lia.
  - unfold work; by rewrite Hget.
  - unfold work; by rewrite Hget.
Qed.

(** Nobody else's turn sets it back by more than a place in line, and none once it stands there. *)
Lemma other_work s u pc s' pc' t :
  ok max s -> sh_tasks s !! u = Some pc -> steps s u pc s' pc' -> u <> t ->
  (work (set_pc s' u pc') t <= work s t + 2)%nat.
Proof.
  intros Hok Hu Hst Hne. pose proof (st_queue _ _ _ _ _ Hst) as Hq.
  assert (Hlen : (length (sh_lock s') <= length (sh_lock s) + 1)%nat).
  { destruct Hq as [-> _| -> _ _| -> _]; [lia|rewrite length_app; cbn; lia|]. pose proof (length_leave s u). cbn in *. lia. }
  unfold work. cbn [set_pc sh_tasks sh_lock]. rewrite (st_tasks _ _ _ _ _ Hst), lookup_insert_ne by done.
  destruct (sh_tasks s !! t) as [pct|] eqn:Ht; [|lia]. destruct pct; try lia.
  enough (Hah : (ahead (fun v => weight (<[u:=pc']> (sh_tasks s) !! v)) t (sh_lock s') <=
    ahead (fun v => weight (sh_tasks s !! v)) t (sh_lock s))%nat) by lia.
  eapply ahead_le; [exact Hq|done| | | |].
  - apply (ok_locked _ _ Hok). by exists ETake.
  - intros v Hv. by rewrite lookup_insert_ne.
  - intros Hl Hin. apply (ok_locked _ _ Hok) in Hin as (pc0 & H0 & Hl0). congruence.
  - intros Hl Hl'. rewrite lookup_insert_eq, Hu. cbn. rewrite Hl, Hl'. pose proof (st_mono _ _ _ _ _ Hst) as Hm.
    destruct (writing pc); [by rewrite (Hm eq_refl Hl')|]. destruct (writing pc'); lia.
Qed.

(** Giving up a place in line, or the guard, sets nobody back either. *)
Lemma leave_work s t pc' :
  (match pc' with EEnd => 2 * length (sh_lock s) + 4 | _ => 0 end <= work s t)%nat ->
  match pc' with EEnd | EDone | EDropped | SClosed => True | _ => False end ->
  (work (set_pc (leave s t) t pc') t <= work s t)%nat /\ (work (set_pc s t pc') t <= work s t)%nat.
Proof.
  intros Hle Hpc. pose proof (length_leave s t) as Hl. unfold work at 1 3. cbn [set_pc sh_tasks sh_lock leave] in *. rewrite !lookup_insert_eq.
  destruct pc'; try done; lia.
Qed.

Lemma own_work s turn t : ok max s -> is_Some (sh_tasks s !! t) -> whose turn = t -> (work (act max s turn) t <= work s t)%nat.
Proof.
  intros Hok [pct Ht] Hw. destruct turn as [u pc|u a|u|u|u]; cbn [whose] in Hw; subst u; cbn [act].
  - rewrite Ht. by destruct (is_start pc).
  - unfold on_task. rewrite Ht. pose proof (run_work s t pct a Hok Ht). by destruct (run max s t pct a).
  - unfold on_task. rewrite Ht. destruct pct; cbn [evict]; try destruct (sh_ending s); rewrite ?set_pc_same by done; try done;
      apply (leave_work (set_unwritable s) t SClosed); cbn; auto; lia.
  - unfold on_task. rewrite Ht. destruct pct; cbn [elapse]; rewrite ?set_pc_same by done; try done;
      apply leave_work; auto; unfold work; rewrite Ht; lia.
  - unfold on_task. rewrite Ht. destruct pct; cbn [drop_call]; rewrite ?set_pc_same by done; try done; apply leave_work; auto; lia.
Qed.

Lemma other_pc s turn t : ok max s -> whose turn <> t -> sh_tasks (act max s turn) !! t = sh_tasks s !! t.
Proof.
  intros Hok Hw. destruct (act_turned s turn Hok) as [|pc0|pc0 s' pc' _ Hst _]; [done|cbn; by rewrite lookup_insert_ne|].
  cbn. rewrite lookup_insert_ne by done. by rewrite (st_tasks _ _ _ _ _ Hst).
Qed.

Lemma act_work s turn t : ok max s -> is_Some (sh_tasks s !! t) -> (work (act max s turn) t <= work s t + 2)%nat.
Proof.
  intros Hok Hsome. destruct (decide (whose turn = t)) as [Hw|Hw]; [pose proof (own_work s turn t Hok Hsome Hw); lia|].
  destruct Hsome as [pct Ht]. destruct (act_turned s turn Hok) as [|pc Hst Hno|pc s' pc' Hu Hst _]; [lia| |by eapply other_work].
  unfold work. cbn [set_pc sh_tasks sh_lock]. rewrite lookup_insert_ne, Ht by done. destruct pct; try lia.
  enough (Hah : (ahead (fun v => weight (<[whose turn:=pc]> (sh_tasks s) !! v)) t (sh_lock s) <=
    ahead (fun v => weight (sh_tasks s !! v)) t (sh_lock s))%nat) by lia.
  assert (Hin : t ∈ sh_lock s) by (apply (ok_locked _ _ Hok); by exists ETake).
  apply (ahead_le _ _ t _ _ (whose turn) false false); try done; [by apply queue_same|intros v Hv; by rewrite lookup_insert_ne|].
  intros _ Hin'. apply (ok_locked _ _ Hok) in Hin' as (pc0 & H0 & _). congruence.
Qed.

(** What is over stays over. *)
Lemma idle_work s turn t : ok max s -> is_Some (sh_tasks s !! t) -> work s t = 0%nat -> work (act max s turn) t = 0%nat.
Proof.
  intros Hok Hsome H0. destruct (decide (whose turn = t)) as [Hw|Hw]; [pose proof (own_work s turn t Hok Hsome Hw); lia|].
  unfold work in *. rewrite (other_pc s turn t Hok Hw). destruct (sh_tasks s !! t) as [[]|]; lia.
Qed.

Lemma ahead_ext w w' t l : (forall v, v ∈ l -> w' v = w v) -> ahead w' t l = ahead w t l.
Proof.
  induction l as [|v l IH]; cbn; [done|]. intros H. destruct (decide (v = t)); [done|]. rewrite IH, (H v); [done|by left|].
  intros x Hx. apply H. by right.
Qed.

(** The one in front gets on, or goes. *)
Lemma ahead_lt w w' t l l' u :
  head l = Some u -> u <> t -> NoDup l -> (forall v, v <> u -> w' v = w v) ->
  (l' = l /\ w' u < w u \/ l' = filter (fun v => v <> u) l /\ 0 < w u)%nat -> (ahead w' t l' < ahead w t l)%nat.
Proof.
  destruct l as [|v l]; [done|]. intros [= ->] Hne [Hnot _]%NoDup_cons Hw H.
  assert (Hl : ahead w' t l = ahead w t l).
  { apply ahead_ext. intros v Hv. apply Hw. intros ->. done. }
  destruct H as [[-> Hu]|[-> Hu]]; [cbn; destruct (decide (u = t)); [done|lia]|].
  rewrite filter_cons_False by (intros H; by apply H). 
  assert (Hall : filter (fun v => v <> u) l = l).
  { clear Hl. induction l as [|v l IH]; [done|]. apply not_elem_of_cons in Hnot as [Hv Hnot]. rewrite filter_cons_True by done. by rewrite IH. }
  rewrite Hall. cbn. destruct (decide (u = t)); [done|lia].
Qed.

(** The holder's turn, while somebody who ends the port waits behind it. *)
Lemma holder_work s t u :
  ok max s -> sh_tasks s !! t = Some ETake -> head (sh_lock s) = Some u -> u <> t ->
  (work (act max s (holder_turn s u)) t < work s t)%nat.
Proof.
  intros Hok Ht Hh Hne. pose proof (ok_pc _ _ Hok t _ Ht) as Hend. cbn in Hend.
  apply elem_of_head in Hh as Hin. apply (ok_locked _ _ Hok) in Hin as (pc & Hu & Hl).
  assert (Hgo : forall s' pc', sh_tasks s' = sh_tasks s ->
    (sh_lock s' = sh_lock s /\ weight (Some pc') < weight (Some pc) \/ sh_lock s' = sh_lock (leave s u) /\ 0 < weight (Some pc))%nat ->
    (work (set_pc s' u pc') t < work s t)%nat).
  { intros s' pc' Etk Hcase. unfold work. cbn [set_pc sh_tasks sh_lock]. rewrite Etk, lookup_insert_ne, Ht by done. rewrite <- Nat.add_lt_mono_r.
    apply (ahead_lt _ _ t _ _ u); [done|done|apply (ok_lock _ _ Hok)|intros v Hv; by rewrite lookup_insert_ne|]. by rewrite lookup_insert_eq, Hu. }
  assert (Hholds : holds s u = true) by by apply bool_decide_eq_true.
  unfold holder_turn. rewrite Hu.
  destruct pc as [f|f line|f line|f line rest|f|f| |e|code reason|line|line rest| | | | | | |]; try discriminate Hl;
    cbn [act]; unfold on_task; rewrite Hu; unfold run; cbn [is_send send_step end_step evict elapse]; rewrite ?Hholds, ?Hend; cbn [negb].
  - destruct (usable s); apply Hgo; try done; [left|right]; (split; [done|cbn; lia]).
  - apply Hgo; [done|]. right. split; [done|cbn; lia].
  - apply Hgo; [done|]. right. split; [done|cbn; lia].
  - destruct (usable s); apply Hgo; try done; [left|right]; (split; [done|cbn; lia]).
  - apply Hgo; [done|]. right. split; [done|cbn; lia].
  - apply Hgo; [done|]. right. split; [done|cbn; lia].
  - apply Hgo; [done|]. right. split; [done|cbn; lia].
Qed.

Lemma press_work s t : ok max s -> (0 < work s t)%nat -> (work (act max s (pressing s t)) t < work s t)%nat.
Proof.
  intros Hok Hbusy. unfold pressing. destruct (sh_tasks s !! t) as [pc|] eqn:Ht; [|by unfold work in Hbusy; rewrite Ht in Hbusy; lia].
  assert (Hget : forall s' pc', sh_tasks (set_pc s' t pc') !! t = Some pc') by (intros; apply lookup_insert_eq).
  assert (Hself : forall s' pc', (match pc' with
      | ELock _ => 2 * length (sh_lock s') + 5 | EEnd => 2 * length (sh_lock s') + 4 | EAsk => 2 * length (sh_lock s') + 3
      | ETake => ahead (fun u => weight (<[t := pc']> (sh_tasks s') !! u)) t (sh_lock s') + 2
      | EShutdown => 1 | EDone => 0 | _ => work s t end < work s t)%nat -> (work (set_pc s' t pc') t < work s t)%nat).
  { intros s' pc' H. unfold work at 1. rewrite Hget. cbn [set_pc sh_lock sh_tasks] in *. destruct pc'; try lia. }
  assert (Hwork : (work s t = match pc with
    | EStart _ _ => 2 * length (sh_lock s) + 8 | ELock _ | EWrite _ _ | EFlush => 2 * length (sh_lock s) + 5
    | EEnd => 2 * length (sh_lock s) + 4 | EAsk => 2 * length (sh_lock s) + 3
    | ETake => ahead (fun u => weight (sh_tasks s !! u)) t (sh_lock s) + 2 | EShutdown => 1 | _ => 0 end)%nat) by (unfold work; by rewrite Ht).
  pose proof (length_leave s t) as Hlv.
  destruct pc as [f|f line|f line|f line rest|f|f| |e|code reason|line|line rest| | | | | | |]; try (rewrite Hwork in Hbusy; lia);
    try (cbn [act]; unfold on_task; rewrite Ht; unfold run; cbn [is_send end_step elapse]).
  - destruct (farewell_line code reason max); apply Hself; rewrite Hwork; cbn [ask sh_lock]; rewrite ?length_app; cbn; lia.
  - apply Hself. rewrite Hwork. lia.
  - apply Hself. rewrite Hwork. lia.
  - apply Hself. rewrite Hwork. lia.
  - apply Hself. rewrite Hwork. cbn. lia.
  - apply Hself. rewrite Hwork. cbn [ask sh_lock sh_tasks].
    rewrite ahead_snoc; [pose proof (ahead_bound (fun u => weight (<[t:=ETake]> (sh_tasks s) !! u)) t (sh_lock s) (fun u => weight_two _)); lia|].
    intros Hin. apply (ok_locked _ _ Hok) in Hin as (pc0 & H0 & Hl0). rewrite Ht in H0. by injection H0 as <-.
  - assert (Hin : t ∈ sh_lock s) by (apply (ok_locked _ _ Hok); by exists ETake).
    destruct (head (sh_lock s)) as [u|] eqn:Hh; [|destruct (sh_lock s); [by apply not_elem_of_nil in Hin|done]].
    destruct (decide (u = t)) as [->|Hne]; [|by apply holder_work]. unfold holder_turn. rewrite Ht.
    cbn [act]. unfold on_task. rewrite Ht. unfold run. cbn [is_send end_step]. unfold holds. rewrite bool_decide_true by done. cbn [negb].
    apply Hself. rewrite Hwork. destruct (sh_open s); lia.
  - apply Hself. rewrite Hwork. lia.
Qed.

(** ** Schedules *)

(** The turns that get [t] on, with anything anybody else does in between. *)
Definition scheduled t (schedule : list (option Turn)) s : Shared :=
  foldl (fun s turn => act max s (match turn with Some turn => turn | None => pressing s t end)) s schedule.
Definition presses (schedule : list (option Turn)) : nat := length (filter (fun turn => turn = None) schedule).
Definition others (schedule : list (option Turn)) : nat := length (filter (fun turn => turn <> None) schedule).

(** A call stays a call, and of its kind. *)
Lemma step_kind s t pc a :
  is_send (run max s t pc a).2 = is_send pc /\ is_send (evict s t pc).2 = is_send pc /\
  is_send (elapse s t pc).2 = is_send pc /\ is_send (drop_call s t pc).2 = is_send pc.
Proof.
  split; [|by destruct pc; cbn; try destruct (sh_ending s)]. unfold run.
  destruct pc as [f|f line|f line|f line rest|f|f| |e|code reason|line|line rest| | | | | | |]; cbn [is_send send_step end_step]; try done;
    first [ by destruct (encode_line f max); [destruct (sh_ending s)|] | by destruct (farewell_line code reason max)
          | by destruct (negb _); [|destruct (usable s)] | by destruct (write_record s t line rest a) as [s' [[rest'|]|]]
          | by destruct (negb _); [|destruct (sh_open s)] | by destruct a ].
Qed.

Lemma act_kind s turn t pc :
  ok max s -> sh_tasks s !! t = Some pc -> exists pc', sh_tasks (act max s turn) !! t = Some pc' /\ is_send pc' = is_send pc.
Proof.
  intros Hok Ht. destruct (decide (whose turn = t)) as [Hw|Hw].
  - pose proof (step_kind s t pc) as Hk.
    destruct turn as [u pc0|u a|u|u|u]; cbn [whose] in Hw; subst u; cbn [act]; unfold on_task; rewrite ?Ht.
    + rewrite bool_decide_false, andb_false_r by done. by exists pc.
    + destruct (Hk a) as (H & _). destruct (run max s t pc a) as [s' pc']. exists pc'. cbn. by rewrite lookup_insert_eq.
    + destruct (Hk Blocks) as (_ & H & _). destruct (evict s t pc) as [s' pc']. exists pc'. cbn. by rewrite lookup_insert_eq.
    + destruct (Hk Blocks) as (_ & _ & H & _). destruct (elapse s t pc) as [s' pc']. exists pc'. cbn. by rewrite lookup_insert_eq.
    + destruct (Hk Blocks) as (_ & _ & _ & H). destruct (drop_call s t pc) as [s' pc']. exists pc'. cbn. by rewrite lookup_insert_eq.
  - exists pc. split; [|done]. by rewrite other_pc.
Qed.

Lemma scheduled_work t schedule : forall s pc,
  ok max s -> sh_tasks s !! t = Some pc -> (work s t = 0 \/ work s t + 2 * others schedule <= presses schedule)%nat ->
  ok max (scheduled t schedule s) /\ work (scheduled t schedule s) t = 0%nat /\
  exists pc', sh_tasks (scheduled t schedule s) !! t = Some pc' /\ is_send pc' = is_send pc.
Proof.
  induction schedule as [|turn schedule IH]; intros s pc Hok Ht Hn.
  - cbn in *. split; [done|]. split; [lia|]. by exists pc.
  - cbn [scheduled foldl]. set (turn' := match turn with Some turn => turn | None => pressing s t end).
    destruct (act_kind s turn' t pc Hok Ht) as (pc' & Ht' & Hk). pose proof (ex_intro _ pc Ht : is_Some (sh_tasks s !! t)) as Hsome.
    assert (Hstep : (work (act max s turn') t = 0 \/ work (act max s turn') t + 2 * others schedule <= presses schedule)%nat).
    { destruct (decide (work s t = 0%nat)) as [H0|H0]; [left; by apply idle_work|right]. destruct Hn as [?|Hn]; [done|].
      unfold others, presses in *. rewrite !filter_cons in Hn. subst turn'. destruct turn as [turn|].
      - rewrite decide_True, decide_False in Hn by done. cbn [length] in Hn. pose proof (act_work s turn t Hok Hsome). lia.
      - rewrite decide_False, decide_True in Hn by (try done; by intros H; apply H). cbn [length] in Hn.
        pose proof (press_work s t Hok ltac:(lia)). lia. }
    destruct (IH (act max s turn') pc' (act_ok s turn' Hok) Ht' Hstep) as (H1 & H2 & pc'' & H3 & H4). split; [done|]. split; [done|].
    exists pc''. by rewrite H4.
Qed.

Lemma tidy_whole turns : forall s tail,
  ok max s -> whole s tail -> tidy max s turns = true -> exists tail', whole (acts max s turns) tail'.
Proof.
  induction turns as [|turn turns IH]; intros s tail Hok Hwh Ht; [by exists tail|]. cbn [tidy] in Ht.
  apply andb_true_iff in Ht as [Hb%negb_true_iff Ht]. destruct (act_whole s turn tail Hok Hwh Hb) as [tail' Hwh'].
  apply (IH _ tail'); [by apply act_ok|done|done].
Qed.

(** ** Properties *)

(** C5 (whole records).  However many calls share the writable half of a port and however little the
    stream takes at a time, provided no farewell is broken off in the middle ([tidy];
    [broken_farewell_spoils] shows what happens otherwise), the peer is sent whole records, one per
    call, in the order the calls held the mutex, and every send that returned [Sent] is among them; at
    most one record at the very end is cut short, and once no call is writing nothing follows it; and
    nothing at all is written after the port has ended. *)
Theorem records_whole (turns : list Turn) :
  tidy max shared_new turns = true ->
  let s := acts max shared_new turns in
  exists tail,
    sh_wire s = concat (sh_records s).*2 ++ tail /\
    (tail = [] \/ exists line rest, is_line max line /\ rest <> [] /\ line = tail ++ rest) /\
    Forall (fun r => is_line max r.2) (sh_records s) /\ NoDup (sh_records s).*1 /\
    (forall t f, sh_tasks s !! t = Some (SSent f) -> exists line, encode_line f max = Ok line /\ (t, line) ∈ sh_records s) /\
    (tail <> [] -> (forall t pc, sh_tasks s !! t = Some pc -> writing pc = false) ->
      forall more, sh_wire (acts max s more) = sh_wire s) /\
    (sh_open s = false -> forall more, sh_wire (acts max s more) = sh_wire s).
Proof.
  intros Ht s. pose proof (acts_ok turns shared_new new_ok) as Hok. fold s in Hok.
  destruct (tidy_whole turns shared_new [] new_ok) as [tail (Hw & Hus & Hcut)]; [|done|]; [split; [done|]; split; [|by left]; intros _; by left|].
  fold s in Hw, Hus, Hcut. exists tail. split; [done|]. split; [done|]. split; [apply (ok_lines _ _ Hok)|]. split; [apply (ok_once _ _ Hok)|].
  split; [intros t f Hf; exact (ok_pc _ _ Hok t _ Hf)|]. split.
  - intros Hne Hidle more. apply (acts_silent more s Hok). destruct (usable s) eqn:Hu; [|done].
    destruct (Hus eq_refl) as [[-> _]|(t & pc & Hpc & Hwr & _)]; [done|]. rewrite (Hidle t pc Hpc) in Hwr. done.
  - intros Hop more. apply (acts_silent more s Hok). unfold usable. by rewrite (proj1 (ok_open _ _ Hok Hop)).
Qed.

(** C6 (ending a port does not wait for its peer).  A call that ends the port is through after a number
    of turns that depends only on who is in line for the mutex: whatever the stream does, a write
    stuck on a peer that stopped reading is evicted and a farewell runs out of time. *)
Theorem ending_evicts (turns : list Turn) (t : nat) (pc : Pc) (schedule : list (option Turn)) :
  let s := acts max shared_new turns in
  sh_tasks s !! t = Some pc -> is_send pc = false ->
  (2 * length (sh_lock s) + 8 + 2 * others schedule <= presses schedule)%nat ->
  let s' := scheduled t schedule s in
  sh_tasks s' !! t = Some EDropped \/
  sh_tasks s' !! t = Some EDone /\ sh_open s' = false /\ sh_writable s' = false /\
    forall more, sh_wire (acts max s' more) = sh_wire s'.
Proof.
  intros s Ht Hk Hn s'. pose proof (acts_ok turns shared_new new_ok) as Hok. fold s in Hok.
  assert (Hw : (work s t <= 2 * length (sh_lock s) + 8)%nat).
  { unfold work. rewrite Ht. pose proof (ahead_bound (fun u => weight (sh_tasks s !! u)) t (sh_lock s) (fun u => weight_two _)). destruct pc; lia. }
  destruct (scheduled_work t schedule s pc Hok Ht) as (Hok' & H0 & pc' & Ht' & Hk'); [right; lia|]. fold s' in Hok', H0, Ht'.
  unfold work in H0. rewrite Ht' in H0. rewrite Hk in Hk'. destruct pc'; try discriminate Hk'; try lia; [right|by left].
  pose proof (ok_pc _ _ Hok' t _ Ht') as [_ Hop]. destruct (ok_open _ _ Hok' Hop) as [Hwr _]. split; [done|]. split; [done|]. split; [done|].
  intros more. apply (acts_silent more s' Hok'). unfold usable. by rewrite Hwr.
Qed.
End writer.

(** ** One call at a time *)

Section solo.
Context {RT : RustText} {SJ : SerdeJson} (max : Z).

(** The cells as [NdjsonPort.v] has them, over a pipe that takes every byte. *)
Definition view (s : Shared) : WriterShared Pipe :=
  mkWriterShared {| pipe_bytes := sh_wire s; pipe_ended := negb (sh_open s) |} (sh_open s) (sh_writable s) (sh_ending s).

Definition outcome_of (f : Frame) (o : SendOutcome) : Pc :=
  match o with Sent => SSent f | SendClosed => SClosed | Refused error => SRefused error end.

Lemma act_starts s t pc : is_start pc = true -> sh_tasks s !! t = None -> act max s (Call t pc) = set_pc s t pc.
Proof. intros Hst Ht. cbn [act]. rewrite Ht, Hst. by rewrite bool_decide_true. Qed.

(** A call does not look at the others' places in the code. *)
Lemma run_set_pc s u q t pc a : run max (set_pc s u q) t pc a = (set_pc (run max s t pc a).1 u q, (run max s t pc a).2).
Proof.
  unfold run. change (holds (set_pc s u q)) with (holds s). change (usable (set_pc s u q)) with (usable s).
  destruct pc as [f|f line|f line|f line rest|f|f| |e|code reason|line|line rest| | | | | | |]; cbn [is_send send_step end_step]; try done.
  - by destruct (encode_line f max).
  - change (holds (set_pc s u q)) with (holds s). change (usable (set_pc s u q)) with (usable s). destruct (negb _); [done|]. by destruct (usable s).
  - destruct a as [[|n]| |]; cbn [write_record]; try done. by destruct (drop (S n) rest).
  - by destruct a.
  - by destruct (farewell_line code reason max).
  - change (holds (set_pc s u q)) with (holds s). change (usable (set_pc s u q)) with (usable s). destruct (negb _); [done|]. by destruct (usable s).
  - destruct a as [[|n]| |]; cbn [write_record]; try done. by destruct (drop (S n) rest).
  - by destruct a.
  - change (holds (set_pc s u q)) with (holds s). by destruct (negb _).
Qed.

Fixpoint solo (k : nat) (s : Shared) (t : nat) (pc : Pc) (a : SinkPoll) : Shared * Pc :=
  match k with O => (s, pc) | S k => let '(s, pc) := run max s t pc a in solo k s t pc a end.

Lemma acts_solo k : forall s t pc a, acts max (set_pc s t pc) (repeat (Run t a) k) = set_pc (solo k s t pc a).1 t (solo k s t pc a).2.
Proof.
  induction k as [|k IH]; intros s t pc a; [done|]. unfold acts in *. cbn [repeat foldl solo]. cbn [act]. unfold on_task.
  cbn [set_pc sh_tasks]. rewrite lookup_insert_eq. change (mkShared _ _ _ _ _ _ _) with (set_pc s t pc). rewrite run_set_pc.
  destruct (run max s t pc a) as [s' pc']. cbn [fst snd]. rewrite <- IH. f_equal. unfold set_pc. cbn. by rewrite insert_insert_eq.
Qed.

Lemma solo_S k s t pc a s' pc' : run max s t pc a = (s', pc') -> solo (S k) s t pc a = solo k s' t pc' a.
Proof. intros H. cbn [solo]. by rewrite H. Qed.

Lemma solo_over k s t pc a : (forall s, run max s t pc a = (s, pc)) -> solo k s t pc a = (s, pc).
Proof. intros H. induction k as [|k IH]; [done|]. by rewrite (solo_S _ _ _ _ _ _ _ (H s)). Qed.

Lemma leaves_empty (t : nat) : filter (fun u => u <> t) [t] = [].
Proof. by rewrite filter_cons_False by (intros H; by apply H). Qed.

(** First in an empty line. *)
Lemma holds_alone w o wr en t tk rs : holds (mkShared w o wr en [t] tk rs) t = true.
Proof. by apply bool_decide_eq_true. Qed.

Lemma solo_write_frame s t f n :
  sh_lock s = [] -> (forall line, encode_line f max = Ok line -> length line <= S n)%nat ->
  let '(s', pc') := solo 5 s t (SStart f) (Takes (S n)) in
  view s' = (write_frame (view s) f max).1 /\ pc' = outcome_of f (write_frame (view s) f max).2 /\ sh_lock s' = [].
Proof.
  intros Hl Hn. destruct s as [w o wr en lk tk rs]. cbn in Hl. subst lk. unfold view, write_frame. cbn [sh_wire sh_open sh_writable sh_ending ws_ending ws_writable ws_open ws_writer].
  destruct (encode_line f max) as [line|e] eqn:El.
  2: { rewrite (solo_S _ _ _ _ _ (mkShared w o wr en [] tk rs) (SRefused e)) by (unfold run; cbn [is_send send_step]; by rewrite El). by rewrite solo_over. }
  specialize (Hn line eq_refl). destruct en.
  { rewrite (solo_S _ _ _ _ _ (mkShared w o wr true [] tk rs) SClosed) by (unfold run; cbn [is_send send_step]; by rewrite El). by rewrite solo_over. }
  rewrite (solo_S _ _ _ _ _ (mkShared w o wr false [] tk rs) (SAsk f line)) by (unfold run; cbn [is_send send_step]; by rewrite El).
  rewrite (solo_S _ _ _ _ _ (mkShared w o wr false [t] tk rs) (SLock f line)) by done.
  destruct (wr && o) eqn:Hu.
  - apply andb_true_iff in Hu as [-> ->].
    rewrite (solo_S _ _ _ _ _ (mkShared w true true false [t] tk rs) (SWrite f line line)) by (unfold run; cbn [is_send send_step]; by rewrite holds_alone).
    rewrite (solo_S _ _ _ _ _ (mkShared (w ++ line) true true false [t] tk (rs ++ [(t, line)])) (SFlush f))
      by (unfold run; cbn [is_send send_step write_record]; by rewrite (drop_ge line), (take_ge line)).
    rewrite (solo_S _ _ _ _ _ (mkShared (w ++ line) true true false [] tk (rs ++ [(t, line)])) (SSent f))
      by (unfold run; cbn [is_send send_step]; unfold leave; cbn [sh_lock]; by rewrite leaves_empty). done.
  - rewrite (solo_S _ _ _ _ _ (mkShared w o wr false [] tk rs) SClosed)
      by (unfold run; cbn [is_send send_step]; rewrite holds_alone; unfold usable, leave; cbn [negb sh_writable sh_open sh_lock]; by rewrite Hu, leaves_empty).
    rewrite solo_over by done. destruct wr, o; done.
Qed.

Lemma solo_shut_down k w o wr en tk rs t n :
  solo (S (S (S (S k)))) (mkShared w o wr en [] tk rs) t EEnd (Takes n) = (mkShared w false false true [] tk rs, EDone).
Proof.
  rewrite (solo_S _ _ _ _ _ (mkShared w o wr true [] tk rs) EAsk) by done.
  rewrite (solo_S _ _ _ _ _ (mkShared w o wr true [t] tk rs) ETake) by done.
  rewrite (solo_S _ _ _ _ _ (mkShared w false false true [] tk rs) (if o then EShutdown else EDone))
    by (unfold run; cbn [is_send end_step]; rewrite holds_alone; unfold leave; cbn [negb take_writer sh_lock]; by rewrite leaves_empty).
  rewrite (solo_S _ _ _ _ _ (mkShared w false false true [] tk rs) EDone) by by destruct o. by rewrite solo_over.
Qed.

Lemma solo_writer_end s t code reason n :
  sh_lock s = [] -> (forall line, farewell_line code reason max = Ok line -> length line <= S n)%nat ->
  let '(s', pc') := solo 8 s t (EStart code reason) (Takes (S n)) in
  view s' = writer_end (view s) code reason max /\ pc' = EDone /\ sh_lock s' = [].
Proof.
  intros Hl Hn. destruct s as [w o wr en lk tk rs]. cbn in Hl. subst lk. unfold view, writer_end, write_close, writer_shut_down.
  destruct (farewell_line code reason max) as [line|e] eqn:El.
  2: { rewrite (solo_S _ _ _ _ _ (mkShared w o wr en [] tk rs) EEnd) by (unfold run; cbn [is_send end_step]; by rewrite El).
    rewrite (solo_shut_down 3). by destruct o. }
  specialize (Hn line eq_refl).
  rewrite (solo_S _ _ _ _ _ (mkShared w o wr en [t] tk rs) (ELock line)) by (unfold run; cbn [is_send end_step]; by rewrite El).
  destruct (wr && o) eqn:Hu.
  - apply andb_true_iff in Hu as [-> ->].
    rewrite (solo_S _ _ _ _ _ (mkShared w true true en [t] tk rs) (EWrite line line)) by (unfold run; cbn [is_send end_step]; by rewrite holds_alone).
    rewrite (solo_S _ _ _ _ _ (mkShared (w ++ line) true true en [t] tk (rs ++ [(t, line)])) EFlush)
      by (unfold run; cbn [is_send end_step write_record]; by rewrite (drop_ge line), (take_ge line)).
    rewrite (solo_S _ _ _ _ _ (mkShared (w ++ line) true true en [] tk (rs ++ [(t, line)])) EEnd)
      by (unfold run; cbn [is_send end_step]; unfold leave; cbn [sh_lock]; by rewrite leaves_empty).
    by rewrite (solo_shut_down 0).
  - rewrite (solo_S _ _ _ _ _ (mkShared w o wr en [] tk rs) EEnd)
      by (unfold run; cbn [is_send end_step]; rewrite holds_alone; unfold usable, leave; cbn [negb sh_writable sh_open sh_lock]; by rewrite Hu, leaves_empty).
    rewrite (solo_shut_down 2). destruct wr, o; done.
Qed.

(** C21 (one call at a time).  With nobody else in line and a stream that takes every byte, a send is
    the [write_frame], and an end the [writer_end], that the theorems about the port rest on. *)
Theorem solo_calls (s : Shared) (t : nat) (f : Frame) (code : Z) (reason : option string) (n : nat) :
  sh_lock s = [] -> sh_tasks s !! t = None ->
  (forall line, encode_line f max = Ok line \/ farewell_line code reason max = Ok line -> length line <= S n)%nat ->
  let sent := acts max s (Call t (SStart f) :: repeat (Run t (Takes (S n))) 5) in
  let closed := acts max s (Call t (EStart code reason) :: repeat (Run t (Takes (S n))) 8) in
  (view sent = (write_frame (view s) f max).1 /\
   sh_tasks sent !! t = Some (outcome_of f (write_frame (view s) f max).2) /\ sh_lock sent = []) /\
  (view closed = writer_end (view s) code reason max /\ sh_tasks closed !! t = Some EDone /\ sh_lock closed = []).
Proof.
  intros Hl Ht Hn. cbn zeta. change (acts max s (?c :: ?l)) with (acts max (act max s c) l). rewrite !act_starts, !acts_solo by done.
  pose proof (solo_write_frame s t f n Hl (fun line H => Hn line (or_introl H))) as Hs.
  pose proof (solo_writer_end s t code reason n Hl (fun line H => Hn line (or_intror H))) as He.
  destruct (solo 5 s t _ _) as [s1 pc1], (solo 8 s t _ _) as [s2 pc2]. destruct Hs as (Hv1 & -> & Hl1), He as (Hv2 & -> & Hl2).
  split; (split; [done|]; split; [apply lookup_insert_eq|done]).
Qed.
End solo.

(** ** A farewell broken off *)

(** [recv] refuses a record and is dropped when the stream has taken ten bytes of the farewell; the
    writer task, next in line, sends a ping. *)
Definition broken_off : list Turn :=
  [Call 1 (EStart 4400 (Some "bad record")); Run 1 Blocks; Run 1 Blocks; Run 1 (Takes 10);
   Call 2 (SStart FPing); Run 2 Blocks; Run 2 Blocks; DropCall 1; Run 2 Blocks; Run 2 (Takes 4096); Run 2 (Takes 1)].

(** The same when the grace runs out instead: the ping gets in before [shut_down] takes the handle. *)
Definition timed_out : list Turn :=
  [Call 1 (EStart 4400 (Some "bad record")); Run 1 Blocks; Run 1 Blocks; Run 1 (Takes 10);
   Call 2 (SStart FPing); Run 2 Blocks; Run 2 Blocks; Elapse 1; Run 2 Blocks; Run 1 Blocks; Run 2 (Takes 4096); Run 2 (Takes 1)].

(** A broken farewell spoils the next record.  A farewell given up half-way leaves its first bytes on
    the wire and the handle writable; the send behind it returns [Sent], and its record reaches the
    peer as the end of a line that is no JSON. *)
Theorem broken_farewell_spoils :
  Forall (fun turns =>
    let s := acts 4096 shared_new turns in
    sh_tasks s !! 2%nat = Some (SSent FPing) /\
    exists d, line_decoder_new 4096 = Ok d /\
      po_frames (push d (sh_wire s)).2 = [] /\ kind <$> po_error (push d (sh_wire s)).2 = Some InvalidJson) [broken_off; timed_out].
Proof.
  rewrite !Forall_cons, Forall_nil. split; [|split; [|done]]; (split; [vm_compute; reflexivity|]); (eexists; split; [reflexivity|]); vm_compute; done.
Qed.

(** ** Witnesses *)

(** Two senders and a close: the second sender gives way to the close once the peer stops reading. *)
Definition crowded : list Turn :=
  [Call 1 (SStart FPing); Call 2 (SStart FPong); Run 1 Blocks; Run 1 Blocks; Run 2 Blocks; Run 2 Blocks; Run 1 Blocks; Run 1 (Takes 7);
   Run 1 (Takes 100); Run 1 (Takes 1); Run 2 Blocks; Run 2 (Takes 3); Call 3 (EStart 4000 (Some "bye")); Run 3 Blocks].

Definition stuck : Shared := Eval vm_compute in acts 4096 shared_new crowded.

Lemma records_whole_witness : exists tail,
  sh_wire stuck = concat (sh_records stuck).*2 ++ tail /\
  (exists line, encode_line FPing 4096 = Ok line /\ (1%nat, line) ∈ sh_records stuck) /\ length tail = 3%nat.
Proof.
  destruct (records_whole 4096 crowded) as (tail & Hw & Hcut & _ & _ & Hsent & _); [vm_compute; reflexivity|].
  change (acts 4096 shared_new crowded) with stuck in *. exists tail. split; [exact Hw|]. split; [by apply Hsent|].
  apply (f_equal length) in Hw. rewrite length_app in Hw.
  change (length (sh_wire stuck)) with 19%nat in Hw. change (length (concat (sh_records stuck).*2)) with 16%nat in Hw. lia.
Defined.

(** Nobody ever reads again. *)
Definition nobody_reads : list (option Turn) := repeat None 12 ++ [Some (Run 2 Blocks)] ++ repeat None 12.

Lemma ending_evicts_witness :
  sh_tasks (scheduled 4096 3 nobody_reads stuck) !! 3%nat = Some EDone /\ sh_open (scheduled 4096 3 nobody_reads stuck) = false.
Proof.
  destruct (ending_evicts 4096 crowded 3 (ELock (match farewell_line 4000 (Some "bye") 4096 with Ok line => line | Err _ => [] end)) nobody_reads) as [H|(H1 & H2 & _)].
  - vm_compute. reflexivity.
  - reflexivity.
  - vm_compute. lia.
  - vm_compute in H. discriminate H.
  - split; [exact H1|exact H2].
Defined.

Lemma solo_calls_witness :
  view (acts 4096 shared_new (Call 1 (SStart FPing) :: repeat (Run 1 (Takes 4097)) 5)) = (write_frame (view shared_new) FPing 4096).1 /\
  view (acts 4096 shared_new (Call 1 (EStart 4000 None) :: repeat (Run 1 (Takes 4097)) 8)) = writer_end (view shared_new) 4000 None 4096.
Proof.
  destruct (solo_calls 4096 shared_new 1 FPing 4000 None 4096) as [[H1 _] [H2 _]].
  - reflexivity.
  - reflexivity.
  - intros line [H|H]; vm_compute in H; injection H as <-; vm_compute; lia.
  - split; [exact H1|exact H2].
Defined.
