(* ===== verification/WebSocket.v ===== *)
(** * The WebSocket port

    [transports/websocket.rs]: frames as chunked binary messages over one upgraded socket.  The
    socket itself belongs to tungstenite; it is a parameter here: what its stream yields is a list
    of items, and how its sink answers a poll of a write is an argument of the writer task's step.

    The two halves share a [SocketWriter]: a command queue, a byte counter and three flags, all of
    them atomics or channels, read and written by the caller of either half and by the writer task
    with no lock around them.  A call is therefore a small machine ([Caller]) that does one access
    to the shared state per step, and the writer task ([drive_step]) does one command or one poll
    per step; [Conn] interleaves them in any order. *)

From S2P Require Import Prelude Json Wire Frame Validate Limits Serde JsonText FrameJson Ndjson NdjsonProps Chunk Port NdjsonPort.
Local Open Scope Z_scope.

Definition WEBSOCKET_SUBPROTOCOL : string := "mango.v1".
Definition MAX_CLOSE_REASON_BYTES : nat := 123.
Definition STALLED_QUEUE_REASON : string :=
  "the send queue outgrew one frame limit while the socket was not draining".

(** ** Options *)

Record WebSocketOptions : Type :=
  { wo_max_frame_bytes : Z; wo_max_message_bytes : Z; wo_send_close_frame : bool }.

Definition websocket_options_default : WebSocketOptions :=
  {| wo_max_frame_bytes := DEFAULT_MAX_FRAME_BYTES; wo_max_message_bytes := DEFAULT_MAX_MESSAGE_BYTES;
     wo_send_close_frame := true |}.

Definition wo_with_max_frame_bytes (o : WebSocketOptions) (max_frame_bytes : Z) : panics WebSocketOptions :=
  let? m := check_max_frame_bytes max_frame_bytes in
  Ok {| wo_max_frame_bytes := m; wo_max_message_bytes := wo_max_message_bytes o;
        wo_send_close_frame := wo_send_close_frame o |}.

Definition wo_with_max_message_bytes (o : WebSocketOptions) (max_message_bytes : Z) : panics WebSocketOptions :=
  let? m := check_at_least "max_message_bytes" max_message_bytes MIN_MAX_MESSAGE_BYTES in
  Ok {| wo_max_frame_bytes := wo_max_frame_bytes o; wo_max_message_bytes := m;
        wo_send_close_frame := wo_send_close_frame o |}.

Definition without_close_frame (o : WebSocketOptions) : WebSocketOptions :=
  {| wo_max_frame_bytes := wo_max_frame_bytes o; wo_max_message_bytes := wo_max_message_bytes o;
     wo_send_close_frame := false |}.

(** The members of tungstenite's configuration these options set. *)
Record WebSocketConfig : Type :=
  { wc_max_message_size : option Z; wc_max_frame_size : option Z; wc_write_buffer_size : Z }.

Definition saturating_add (a b : Z) : Z := Z.min usize_max (a + b).

Definition socket_config (o : WebSocketOptions) : WebSocketConfig :=
  let incoming := saturating_add (wo_max_frame_bytes o) CHUNK_HEADER_BYTES in
  {| wc_max_message_size := Some incoming; wc_max_frame_size := Some incoming; wc_write_buffer_size := 0 |}.

(** ** Messages *)

(** tungstenite's messages; a close frame is its code as a [u16] and its reason. *)
Inductive Message : Type :=
| MBinary (b : bytes)
| MText (text : string)
| MPing (b : bytes)
| MPong (b : bytes)
| MClose (frame : option (Z * string))
| MFrame (b : bytes).

Global Instance Message_eq_dec : EqDecision Message.
Proof. solve_decision. Defined.

(** The largest character boundary at or below [e]. *)
Fixpoint floor_boundary (b : bytes) (e : nat) : nat :=
  match e with
  | O => O
  | S e' =>
      match b !! e with
      | Some c => if is_continuation c then floor_boundary b e' else e
      | None => e
      end
  end.

Definition clamp_close_reason (reason : string) : string :=
  let b := to_bytes reason in
  if (length b <=? MAX_CLOSE_REASON_BYTES)%nat then reason
  else of_bytes (take (floor_boundary b MAX_CLOSE_REASON_BYTES) b).

Definition peer_closure (frame : option (Z * string)) : PortClosure :=
  match frame with
  | None => PClosed None None
  | Some (code, reason) =>
      if negb (in_range close_codes.RELEASED MAX_CLOSE_CODE code) then PClosed None None
      else PClosed (Some code) (if bool_decide (reason = "") then None else Some reason)
  end.

(** ** The shared writer *)

Inductive WriteCommand : Type :=
| Chunks (messages : list bytes) (size : Z)
| CloseCommand (code : Z) (reason : option string).

Record SocketWriter : Type := mkSocketWriter
  { sw_options : WebSocketOptions;
    sw_commands : channel WriteCommand;
    sw_queued_bytes : Z;
    sw_open : bool;
    sw_paused : bool;
    sw_gave_up : bool }.

(** [AtomicUsize::fetch_add] and [fetch_sub] wrap around. *)
Definition wrapping_add (a b : Z) : Z := (a + b) mod (usize_max + 1).
Definition wrapping_sub (a b : Z) : Z := (a - b) mod (usize_max + 1).

Definition set_commands (w : SocketWriter) (c : channel WriteCommand) : SocketWriter :=
  mkSocketWriter (sw_options w) c (sw_queued_bytes w) (sw_open w) (sw_paused w) (sw_gave_up w).
Definition set_queued (w : SocketWriter) (n : Z) : SocketWriter :=
  mkSocketWriter (sw_options w) (sw_commands w) n (sw_open w) (sw_paused w) (sw_gave_up w).
Definition set_open (w : SocketWriter) (b : bool) : SocketWriter :=
  mkSocketWriter (sw_options w) (sw_commands w) (sw_queued_bytes w) b (sw_paused w) (sw_gave_up w).
Definition set_paused (w : SocketWriter) (b : bool) : SocketWriter :=
  mkSocketWriter (sw_options w) (sw_commands w) (sw_queued_bytes w) (sw_open w) b (sw_gave_up w).
Definition set_gave_up (w : SocketWriter) (b : bool) : SocketWriter :=
  mkSocketWriter (sw_options w) (sw_commands w) (sw_queued_bytes w) (sw_open w) (sw_paused w) b.

(** [messages.iter().map(Vec::len).sum()] *)
Definition total_bytes (messages : list bytes) : Z := foldr (fun m n => len m + n) 0 messages.

Definition mark_closed (w : SocketWriter) : SocketWriter := set_open w false.

Definition socket_writer_new (o : WebSocketOptions) : SocketWriter :=
  mkSocketWriter o unbounded_channel 0 true false false.

Section socket.
Context {RT : RustText} {SJ : SerdeJson}.

(** The first of the candidates that encodes: with the clamped reason, then without one. *)
Definition farewell_messages (code : Z) (reason : option string) (o : WebSocketOptions) : option (list bytes) :=
  let candidate r := encode_chunks (FClose {| close_code := code; close_reason := r |})
                       (wo_max_message_bytes o) (wo_max_frame_bytes o) in
  match candidate (clamp_reason <$> reason) with
  | Ok messages => Some messages
  | Err _ => match candidate None with Ok messages => Some messages | Err _ => None end
  end.

(** ** Calls *)

(** Where a call of [send_frame] or [close] is: before the named access to the shared state.
    [answer] is what [send_frame] answers after the [close] it ran; [None] in a call of [close]
    itself. *)
Inductive Caller : Type :=
| CSend (f : Frame)
| CReserve (f : Frame) (messages : list bytes)
| CHandOver (f : Frame) (messages : list bytes) (waiting : Z)
| CJudge (waiting : Z)
| CClose (code : Z) (reason : option string) (send_close_frame : bool) (answer : option SendOutcome)
| CFarewell (messages : list bytes) (code : Z) (reason : option string) (answer : option SendOutcome)
| CFarewellSend (messages : list bytes) (code : Z) (reason : option string) (answer : option SendOutcome)
| CCommand (code : Z) (reason : option string) (answer : option SendOutcome)
| CWait (answer : option SendOutcome)
| CReturned (answer : option SendOutcome).

(** The next access of a call.  [CWait] is the bounded wait for the writer's confirmation, over when
    it arrives or the grace period has passed. *)
Definition caller_step (w : SocketWriter) (c : Caller) : SocketWriter * Caller :=
  match c with
  | CSend f =>
      if negb (sw_open w) then (w, CReturned (Some SendClosed))
      else match encode_chunks f (wo_max_message_bytes (sw_options w)) (wo_max_frame_bytes (sw_options w)) with
           | Err error => (w, CReturned (Some (Refused error)))
           | Ok messages => (w, CReserve f messages)
           end
  | CReserve f messages =>
      (set_queued w (wrapping_add (sw_queued_bytes w) (total_bytes messages)),
       CHandOver f messages (sw_queued_bytes w))
  | CHandOver f messages waiting =>
      let '(commands, delivered) := ch_send (sw_commands w) (Chunks messages (total_bytes messages)) in
      if delivered then (set_commands w commands, CJudge waiting)
      else (set_open (set_queued w (wrapping_sub (sw_queued_bytes w) (total_bytes messages))) false,
            CReturned (Some SendClosed))
  | CJudge waiting =>
      if (wo_max_frame_bytes (sw_options w) <? waiting) && sw_paused w
      then (w, CClose close_codes.PROTOCOL_ERROR (Some STALLED_QUEUE_REASON) true (Some SendClosed))
      else (w, CReturned (Some Sent))
  | CClose code reason send_close_frame answer =>
      if negb (sw_open w) then (w, CReturned answer)
      else
        (set_open w false,
         if send_close_frame then
           match farewell_messages code reason (sw_options w) with
           | Some messages => CFarewell messages code reason answer
           | None => CCommand code reason answer
           end
         else CCommand code reason answer)
  | CFarewell messages code reason answer =>
      (set_queued w (wrapping_add (sw_queued_bytes w) (total_bytes messages)),
       CFarewellSend messages code reason answer)
  | CFarewellSend messages code reason answer =>
      (set_commands w (ch_send (sw_commands w) (Chunks messages (total_bytes messages))).1,
       CCommand code reason answer)
  | CCommand code reason answer =>
      let '(commands, delivered) := ch_send (sw_commands w) (CloseCommand code reason) in
      (set_commands w commands, if delivered then CWait answer else CReturned answer)
  | CWait answer => (w, CReturned answer)
  | CReturned answer => (w, CReturned answer)
  end.

(** A call nothing interrupts: no path has more than nine accesses. *)
Fixpoint caller_run (n : nat) (w : SocketWriter) (c : Caller) : SocketWriter * Caller :=
  match n with O => (w, c) | S n => let '(w, c) := caller_step w c in caller_run n w c end.

Definition send_frame (w : SocketWriter) (f : Frame) : SocketWriter * SendOutcome :=
  match caller_run 9 w (CSend f) with
  | (w, CReturned (Some answer)) => (w, answer)
  | (w, _) => (w, SendClosed)
  end.

Definition socket_close (w : SocketWriter) (code : Z) (reason : option string) (send_close_frame : bool) : SocketWriter :=
  (caller_run 9 w (CClose code reason send_close_frame None)).1.

(** ** The writer task *)

(** How the socket answers one poll of a write: the messages it took, and whether it stalled,
    finished or failed. *)
Inductive SinkAnswer : Type :=
| SinkPending (taken : nat)
| SinkReady
| SinkFailed (taken : nat).

(** Where the task is: waiting for a command, inside [write_chunks], inside [close_stalled_peer],
    sending the close frame, past the loop, gone, or aborted with the last handle to it. *)
Inductive Phase : Type :=
| PRecv
| PWrite (rest : list bytes) (giving_up : bool)
| PStalled (rest : list bytes)
| PClose (code : Z) (reason : string)
| PLeave
| PEnded
| PAborted.

Global Instance Phase_eq_dec : EqDecision Phase.
Proof. solve_decision. Defined.

(** The task and the messages the socket has taken from it. *)
Record WriterTask : Type := mkWriterTask { wt_phase : Phase; wt_wire : list Message; wt_sink_closed : bool }.

Definition task_new : WriterTask := mkWriterTask PRecv [] false.

(** The messages a poll took, and those it left. *)
Definition taken_of (a : SinkAnswer) {A} (rest : list A) : list A * list A :=
  match a with
  | SinkReady => (rest, [])
  | SinkPending n | SinkFailed n => (take n rest, drop n rest)
  end.

(** Sending the native close frame that carries [code]. *)
Definition send_close (code : Z) (reason : option string) : Phase :=
  PClose code (clamp_close_reason (default "" reason)).

(** [close_stalled_peer], up to its first write. *)
Definition close_stalled_peer (o : WebSocketOptions) : Phase :=
  let close := send_close close_codes.PROTOCOL_ERROR (Some STALLED_QUEUE_REASON) in
  if wo_send_close_frame o then
    match farewell_messages close_codes.PROTOCOL_ERROR (Some STALLED_QUEUE_REASON) o with
    | Some messages => PStalled messages
    | None => close
    end
  else close.

(** One command taken from the queue: received, and its bytes no longer counted.  In the source these
    are two accesses, to the queue and to the counter.  One step stands for both because whatever a
    caller does in between is an access to one of the two: its [fetch_add] could as well have come
    before the receive, its [send] after the [fetch_sub]. *)
Definition take_command (w : SocketWriter) (command : WriteCommand) : SocketWriter * Phase :=
  match command with
  | Chunks messages size => (set_queued w (wrapping_sub (sw_queued_bytes w) size), PWrite messages false)
  | CloseCommand code reason => (w, send_close code reason)
  end.

(** One poll of the frame being written: [paused] follows the answer, and a stall behind which more
    than one frame limit waits gives the peer up. *)
Definition poll_write (w : SocketWriter) (rest : list bytes) (giving_up : bool) (a : SinkAnswer) : SocketWriter * Phase :=
  match a with
  | SinkPending n =>
      let w := set_paused w true in
      if wo_max_frame_bytes (sw_options w) <? sw_queued_bytes w
      then (set_gave_up (set_open w false) true, PWrite (drop n rest) true)
      else (w, PWrite (drop n rest) giving_up)
  | SinkReady => (set_paused w false, if giving_up then close_stalled_peer (sw_options w) else PRecv)
  | SinkFailed _ => (set_open (set_paused w false) false, PLeave)
  end.

(** The size of what is still queued. *)
Definition command_bytes (c : WriteCommand) : Z := match c with Chunks _ size => size | CloseCommand _ _ => 0 end.
Definition queued_total (q : list WriteCommand) : Z := foldr (fun c n => command_bytes c + n) 0 q.

Definition release_unwritten (w : SocketWriter) : SocketWriter :=
  set_commands (set_queued w (wrapping_sub (sw_queued_bytes w) (queued_total (ch_queue (sw_commands w)))))
    {| ch_queue := []; ch_receiver := false; ch_senders := ch_senders (sw_commands w) |}.

Definition drive_step (w : SocketWriter) (t : WriterTask) (a : SinkAnswer) : SocketWriter * WriterTask :=
  match wt_phase t with
  | PRecv =>
      let '(commands, item) := ch_recv (sw_commands w) in
      match item with
      | Pending => (w, t)
      | Polled None => (w, mkWriterTask PLeave (wt_wire t) (wt_sink_closed t))
      | Polled (Some command) =>
          let '(w, phase) := take_command (set_commands w commands) command in
          (w, mkWriterTask phase (wt_wire t) (wt_sink_closed t))
      end
  | PWrite rest giving_up =>
      let '(w, phase) := poll_write w rest giving_up a in
      (w, mkWriterTask phase (wt_wire t ++ map MBinary (taken_of a rest).1) (wt_sink_closed t))
  | PStalled rest =>
      let '(taken, later) := taken_of a rest in
      let phase := match a with
                   | SinkPending _ => PStalled later
                   | _ => send_close close_codes.PROTOCOL_ERROR (Some STALLED_QUEUE_REASON)
                   end in
      (w, mkWriterTask phase (wt_wire t ++ map MBinary taken) (wt_sink_closed t))
  | PClose code reason =>
      match a with
      | SinkPending _ => (w, t)
      | SinkReady => (w, mkWriterTask PLeave (wt_wire t ++ [MClose (Some (code, reason))]) (wt_sink_closed t))
      | SinkFailed _ => (w, mkWriterTask PLeave (wt_wire t) (wt_sink_closed t))
      end
  | PLeave => (release_unwritten w, mkWriterTask PEnded (wt_wire t) true)
  | PEnded | PAborted => (w, t)
  end.

(** ** The connection *)

(** The shared writer, its task, and the call under way on each half. *)
Record Conn : Type := mkConn
  { cn_writer : SocketWriter;
    cn_task : WriterTask;
    cn_tx : Caller;
    cn_tx_live : bool;
    cn_rx : Caller }.

Definition conn_new (o : WebSocketOptions) : Conn :=
  mkConn (socket_writer_new o) task_new (CReturned None) true (CReturned None).

Inductive ConnAction : Type :=
| ASend (f : Frame)
| AClose (code : Z) (reason : option string)
| ATx
| ARefuse (code : Z) (reason : string)
| AMarkClosed
| ARx
| ADrive (answer : SinkAnswer)
| ADrop.

(** A call starts only when the half has none under way; [close] consumes the send half.  Dropping
    both halves ([AbortOnDrop]) stops a task that still runs where it is. *)
Definition conn_act (c : Conn) (a : ConnAction) : Conn :=
  let w := cn_writer c in
  if bool_decide (wt_phase (cn_task c) = PAborted) then c
  else match a with
  | ASend f =>
      match cn_tx c with
      | CReturned _ => if cn_tx_live c then mkConn w (cn_task c) (CSend f) true (cn_rx c) else c
      | _ => c
      end
  | AClose code reason =>
      match cn_tx c with
      | CReturned _ =>
          if cn_tx_live c
          then mkConn w (cn_task c) (CClose code reason (wo_send_close_frame (sw_options w)) None) false (cn_rx c)
          else c
      | _ => c
      end
  | ATx => let '(w, tx) := caller_step w (cn_tx c) in mkConn w (cn_task c) tx (cn_tx_live c) (cn_rx c)
  | ARefuse code reason =>
      match cn_rx c with
      | CReturned _ => mkConn w (cn_task c) (cn_tx c) (cn_tx_live c) (CClose code (Some reason) true None)
      | _ => c
      end
  | AMarkClosed => mkConn (mark_closed w) (cn_task c) (cn_tx c) (cn_tx_live c) (cn_rx c)
  | ARx => let '(w, rx) := caller_step w (cn_rx c) in mkConn w (cn_task c) (cn_tx c) (cn_tx_live c) rx
  | ADrive answer =>
      let '(w, t) := drive_step w (cn_task c) answer in mkConn w t (cn_tx c) (cn_tx_live c) (cn_rx c)
  | ADrop =>
      match cn_tx c, cn_rx c with
      | CReturned _, CReturned _ =>
          let phase := if bool_decide (wt_phase (cn_task c) = PEnded) then PEnded else PAborted in
          mkConn w (mkWriterTask phase (wt_wire (cn_task c)) (wt_sink_closed (cn_task c))) (cn_tx c) false (cn_rx c)
      | _, _ => c
      end
  end.

Definition conn_run (c : Conn) (actions : list ConnAction) : Conn := foldl conn_act c actions.

(** ** Receiving *)

(** What wakes [recv]: an item of the socket's stream, or the writer task's signal that it gave the
    peer up. *)
Inductive StreamItem : Type :=
| StreamMessage (m : Message)
| StreamError (text : string)
| StreamEnd
| GaveUp.

(** A port: the shared writer and the receive half. *)
Record WebSocketPort : Type := mkWebSocketPort
  { wp_writer : SocketWriter;
    wp_stream : list StreamItem;
    wp_reassembler : ChunkReassembler;
    wp_closure : option PortClosure;
    wp_terminal : bool }.

(** [websocket_port] and [split]: the reassembler checks both ceilings. *)
Definition websocket_port (stream : list StreamItem) (o : WebSocketOptions) : panics WebSocketPort :=
  let? r := reassembler_new (wo_max_message_bytes o) (wo_max_frame_bytes o) in
  Ok (mkWebSocketPort (socket_writer_new o) stream r None false).

Definition port_max_frame_bytes (p : WebSocketPort) : option Z := Some (wo_max_frame_bytes (sw_options (wp_writer p))).

(** A refusal is recorded, then the peer is told. *)
Definition ws_refuse (p : WebSocketPort) (error : CodecError) : WebSocketPort :=
  let code := close_code_for_codec_error error in
  mkWebSocketPort (socket_close (wp_writer p) code (Some (show_codec_error error)) true) (wp_stream p)
    (wp_reassembler p) (Some (PProtocolError error code)) (wp_terminal p).

Definition text_refused (text : string) : CodecError :=
  codec_error Schema ("received a text message of " +:+ show_Z (len (to_bytes text)) +:+
    " bytes, expected a binary message, the only kind " +:+ WEBSOCKET_SUBPROTOCOL +:+ " carries").

(** The socket is gone: no send may be reported as carried, and the closure waits to be handed out. *)
Definition ws_ended (p : WebSocketPort) (closure : PortClosure) : WebSocketPort :=
  mkWebSocketPort (mark_closed (wp_writer p)) (wp_stream p) (wp_reassembler p) (Some closure) (wp_terminal p).

Definition on_message (p : WebSocketPort) (m : Message) : WebSocketPort * option Inbound :=
  match m with
  | MBinary b =>
      let '(r, outcome) := push_chunk (wp_reassembler p) b in
      let p := mkWebSocketPort (wp_writer p) (wp_stream p) r (wp_closure p) (wp_terminal p) in
      match outcome with
      | Ok (Some frame) => (p, Some (IFrame frame))
      | Ok None => (p, None)
      | Err error => (ws_refuse p error, None)
      end
  | MText text => (ws_refuse p (text_refused text), None)
  | MClose frame => (ws_ended p (peer_closure frame), None)
  | MPing _ | MPong _ | MFrame _ => (p, None)
  end.

Definition set_wp_stream (p : WebSocketPort) (stream : list StreamItem) : WebSocketPort :=
  mkWebSocketPort (wp_writer p) stream (wp_reassembler p) (wp_closure p) (wp_terminal p).

Definition set_wp_gave_up (p : WebSocketPort) : WebSocketPort :=
  mkWebSocketPort (set_gave_up (wp_writer p) true) (wp_stream p) (wp_reassembler p) (wp_closure p) (wp_terminal p).

Definition gave_up_closure : PortClosure :=
  PClosed (Some close_codes.PROTOCOL_ERROR) (Some STALLED_QUEUE_REASON).

(** The loop of [recv], one turn per item.  The head of a turn: a recorded closure is handed out, a
    port that ended answers [None], and a raised signal is a closure. *)
Fixpoint ws_recv_loop (stream : list StreamItem) (p : WebSocketPort) : WebSocketPort * poll (option Inbound) :=
  let p := set_wp_stream p stream in
  match wp_closure p with
  | Some closure =>
      (mkWebSocketPort (wp_writer p) stream (wp_reassembler p) None true, Polled (Some (IClosed closure)))
  | None =>
      if wp_terminal p then (p, Polled None)
      else if sw_gave_up (wp_writer p) then
        (mkWebSocketPort (mark_closed (wp_writer p)) stream (wp_reassembler p) None true,
         Polled (Some (IClosed gave_up_closure)))
      else match stream with
      | [] => (p, Pending)
      | StreamMessage m :: rest =>
          match on_message p m with
          | (p, Some item) => (set_wp_stream p rest, Polled (Some item))
          | (p, None) => ws_recv_loop rest p
          end
      | StreamError text :: rest => ws_recv_loop rest (ws_ended p (PClosed None (Some text)))
      | StreamEnd :: rest => ws_recv_loop rest (ws_ended p (PClosed None None))
      | GaveUp :: rest => ws_recv_loop rest (set_wp_gave_up p)
      end
  end.

Definition websocket_recv (p : WebSocketPort) : WebSocketPort * poll (option Inbound) := ws_recv_loop (wp_stream p) p.

Definition set_wp_writer (p : WebSocketPort) (w : SocketWriter) : WebSocketPort :=
  mkWebSocketPort w (wp_stream p) (wp_reassembler p) (wp_closure p) (wp_terminal p).

Definition websocket_send (p : WebSocketPort) (f : Frame) : WebSocketPort * SendOutcome :=
  let '(w, answer) := send_frame (wp_writer p) f in (set_wp_writer p w, answer).

Definition websocket_close (p : WebSocketPort) (code : Z) (reason : option string) : WebSocketPort :=
  set_wp_writer p (socket_close (wp_writer p) code reason (wo_send_close_frame (sw_options (wp_writer p)))).

Global Instance websocket_tx : PortTx WebSocketPort := {| port_send := websocket_send; port_close := websocket_close |}.
Global Instance websocket_rx : PortRx WebSocketPort := {| port_recv := websocket_recv |}.
End socket.
