(* ===== verification/WebSocketProps.v ===== *)
(** * What the WebSocket port promises

    Over every interleaving of the two halves' calls and the writer task, and every way the socket
    answers: the queue's counter is exact, a peer is given up only by the documented rule, and the
    port is a first-in first-out link.  For the receive half: what it hands out for every stream. *)

From S2P Require Import Prelude Json Wire Frame Validate Limits Serde JsonText FrameJson Ndjson NdjsonProps Chunk ChunkProps Port NdjsonPort NdjsonPortProps WebSocket.
Local Open Scope Z_scope.

(** ** Counting the queue *)

Abbreviation usize_modulus := (usize_max + 1).

Lemma wrapping_add_mod a b : wrapping_add (a mod usize_modulus) b = (a + b) mod usize_modulus.
Proof. unfold wrapping_add. apply Zplus_mod_idemp_l. Qed.

Lemma wrapping_sub_mod a b : wrapping_sub (a mod usize_modulus) b = (a - b) mod usize_modulus.
Proof. unfold wrapping_sub. apply Zminus_mod_idemp_l. Qed.

Lemma queued_total_app q k : queued_total (q ++ k) = queued_total q + queued_total k.
Proof. unfold queued_total. induction q as [|c q IH]; simpl; [done|]. lia. Qed.

Lemma queued_total_nil : queued_total [] = 0.
Proof. done. Qed.

Lemma queued_total_cons c q : queued_total (c :: q) = command_bytes c + queued_total q.
Proof. done. Qed.

Local Arguments queued_total : simpl never.
Local Arguments total_bytes : simpl never.

(** ** A call alone returns *)

(** The accesses a call may still make. *)
Definition accesses_left (c : Caller) : nat :=
  match c with
  | CSend _ => 9 | CReserve _ _ => 8 | CHandOver _ _ _ => 7 | CJudge _ => 6
  | CClose _ _ _ _ => 5 | CFarewell _ _ _ _ => 4 | CFarewellSend _ _ _ _ => 3
  | CCommand _ _ _ => 2 | CWait _ => 1 | CReturned _ => 0
  end.

(** Calls that owe the session an outcome: those that began with [send_frame]. *)
Definition owes_outcome (c : Caller) : Prop :=
  match c with
  | CSend _ | CReserve _ _ | CHandOver _ _ _ | CJudge _ => True
  | CClose _ _ _ answer | CFarewell _ _ _ answer | CFarewellSend _ _ _ answer
  | CCommand _ _ answer | CWait answer | CReturned answer => is_Some answer
  end.

Lemma caller_step_left {RT : RustText} {SJ : SerdeJson} w c n : (accesses_left c <= S n)%nat -> (accesses_left (caller_step w c).2 <= n)%nat.
Proof. destruct c; cbn; repeat case_match; cbn; lia. Qed.

Lemma caller_step_owes {RT : RustText} {SJ : SerdeJson} w c : owes_outcome c -> owes_outcome (caller_step w c).2.
Proof. destruct c; cbn; repeat case_match; cbn; done. Qed.

(** Nine accesses are enough for every call, and a call of [send_frame] returns an outcome. *)
Lemma caller_run_returns {RT : RustText} {SJ : SerdeJson} n : forall w c, (accesses_left c <= n)%nat ->
  exists w' answer, caller_run n w c = (w', CReturned answer) /\ (owes_outcome c -> is_Some answer).
Proof.
  induction n as [|n IH]; intros w c Hc.
  - destruct c; cbn in Hc; try lia. by eexists _, _.
  - cbn [caller_run]. pose proof (caller_step_left w c n Hc) as Hl. pose proof (caller_step_owes w c) as Ho.
    destruct (caller_step w c) as [w' c']. destruct (IH w' c' Hl) as (w'' & answer & -> & Ha).
    exists w'', answer. split; [done|]. intros H. by apply Ha, Ho.
Qed.

(** [send_frame] always reports what became of the frame. *)
Lemma send_frame_returns {RT : RustText} {SJ : SerdeJson} w f :
  exists w' answer, caller_run 9 w (CSend f) = (w', CReturned (Some answer)) /\ send_frame w f = (w', answer).
Proof.
  unfold send_frame. destruct (caller_run_returns 9 w (CSend f)) as (w' & answer & -> & Ha); [done|].
  destruct (Ha I) as [a ->]. eauto.
Qed.

(** What a call has counted and not yet queued. *)
Definition reserved (c : Caller) : Z :=
  match c with
  | CHandOver _ messages _ | CFarewellSend messages _ _ _ => total_bytes messages
  | _ => 0
  end.

Abbreviation queue_of w := (ch_queue (sw_commands w)).
Abbreviation phase_of c := (wt_phase (cn_task c)).

(** The task has not left its loop for good. *)
Definition running (p : Phase) : bool := match p with PEnded => false | _ => true end.

Section runs.
Context {RT : RustText} {SJ : SerdeJson}.

(** ** Steps of a call *)

(** A call leaves the options, the receiver and what the task alone writes; it never opens the port
    again. *)
Lemma caller_step_frame w c :
  let w' := (caller_step w c).1 in
  sw_options w' = sw_options w /\ ch_receiver (sw_commands w') = ch_receiver (sw_commands w) /\
  ch_senders (sw_commands w') = ch_senders (sw_commands w) /\
  sw_paused w' = sw_paused w /\ sw_gave_up w' = sw_gave_up w /\ (sw_open w' = true -> sw_open w = true).
Proof.
  destruct w as [o [q rc se] n op pa gu]. destruct c; cbn; unfold ch_send; cbn;
    repeat (case_match; cbn in *); simplify_eq; by repeat split.
Qed.

Lemma drive_step_frame w t a :
  let w' := (drive_step w t a).1 in
  sw_options w' = sw_options w /\ ch_senders (sw_commands w') = ch_senders (sw_commands w) /\
  (sw_open w' = true -> sw_open w = true) /\ (sw_gave_up w = true -> sw_gave_up w' = true).
Proof.
  destruct w as [o [q rc se] n op pa gu]. destruct t as [ph wire sc].
  destruct ph; cbn; unfold poll_write, ch_recv; cbn; try done.
  - destruct q as [|[] q]; cbn; [destruct se|..]; done.
  - destruct a; cbn; [destruct (_ <? _)|..]; done.
  - by destruct a.
  - by destruct a.
Qed.

Lemma caller_step_queue w c :
  exists added, queue_of (caller_step w c).1 = queue_of w ++ added /\
    (ch_receiver (sw_commands w) = false -> added = []).
Proof.
  destruct w as [o [q rc se] n op pa gu].
  destruct c; cbn; unfold ch_send; cbn; repeat (case_match; cbn in *); simplify_eq;
    try (exists []; rewrite app_nil_r; done); eexists; (split; [done|]); congruence.
Qed.

(** While the task runs, the counter keeps its meaning at every access. *)
Lemma caller_step_count w c x :
  ch_receiver (sw_commands w) = true ->
  sw_queued_bytes w = (queued_total (queue_of w) + reserved c + x) mod usize_modulus ->
  let '(w', c') := caller_step w c in
  sw_queued_bytes w' = (queued_total (queue_of w') + reserved c' + x) mod usize_modulus.
Proof.
  destruct w as [o [q rc se] n op pa gu]. cbn. intros -> ->.
  destruct c; cbn; unfold ch_send; cbn; repeat case_match; simplify_eq; cbn; try done;
    rewrite ?wrapping_add_mod, ?queued_total_app; cbn; f_equal; rewrite ?queued_total_cons, ?queued_total_nil; cbn; lia.
Qed.

(** ** The counter *)

Record accounted (c : Conn) : Prop := {
  ac_receiver : ch_receiver (sw_commands (cn_writer c)) = running (phase_of c);
  ac_drained : running (phase_of c) = false -> queue_of (cn_writer c) = [];
  ac_count : running (phase_of c) = true ->
    sw_queued_bytes (cn_writer c) =
    (queued_total (queue_of (cn_writer c)) + reserved (cn_tx c) + reserved (cn_rx c)) mod usize_modulus
}.

Lemma accounted_new o : accounted (conn_new o).
Proof. by split. Qed.

(** A step of either half's call, [x] being what the other half's call has reserved. *)
Lemma accounted_caller w t tx live rx :
  accounted (mkConn w t tx live rx) ->
  (let '(w', tx') := caller_step w tx in accounted (mkConn w' t tx' live rx)) /\
  (let '(w', rx') := caller_step w rx in accounted (mkConn w' t tx live rx')).
Proof.
  intros [Hr Hd Hc]. cbn in *.
  assert (Hone : forall c x, (running (wt_phase t) = true ->
      sw_queued_bytes w = (queued_total (queue_of w) + reserved c + x) mod usize_modulus) ->
    let '(w', c') := caller_step w c in
    ch_receiver (sw_commands w') = running (wt_phase t) /\
    (running (wt_phase t) = false -> queue_of w' = []) /\
    (running (wt_phase t) = true -> sw_queued_bytes w' = (queued_total (queue_of w') + reserved c' + x) mod usize_modulus)).
  { intros c x Hx. pose proof (caller_step_frame w c) as (_ & Hrc & _).
    pose proof (caller_step_queue w c) as (added & Hq & Hadd). pose proof (caller_step_count w c x) as Hcount.
    destruct (caller_step w c) as [w' c']. cbn in *. split; [congruence|]. split.
    - intros He. rewrite Hq, Hd by done. apply Hadd. congruence.
    - intros He. apply Hcount; [congruence|by apply Hx]. }
  split.
  - specialize (Hone tx (reserved rx)). destruct (caller_step w tx) as [w' tx'].
    destruct Hone as (H1 & H2 & H3); [intros; rewrite Hc by done; f_equal; lia|].
    split; cbn; [done|done|]. intros He. rewrite H3 by done. f_equal; lia.
  - specialize (Hone rx (reserved tx)). destruct (caller_step w rx) as [w' rx'].
    destruct Hone as (H1 & H2 & H3); [intros; rewrite Hc by done; f_equal; lia|].
    split; cbn; [done|done|]. intros He. rewrite H3 by done. f_equal; lia.
Qed.

Lemma accounted_drive w t tx live rx a :
  accounted (mkConn w t tx live rx) ->
  let '(w', t') := drive_step w t a in accounted (mkConn w' t' tx live rx).
Proof.
  intros [Hr Hd Hc]. destruct t as [ph wire sc]. destruct w as [o [q rc se] n op pa gu]. cbn in *.
  destruct ph; cbn; unfold ch_recv; cbn; try (by split).
  - destruct q as [|[ms size|code reason] q]; cbn.
    + destruct se; cbn; by split.
    + split; cbn; [done|done|]. intros _. rewrite Hc by done. rewrite wrapping_sub_mod, queued_total_cons. cbn. f_equal. lia.
    + split; cbn; [done|done|]. intros _. rewrite Hc by done. rewrite queued_total_cons. cbn. f_equal; lia.
  - unfold poll_write. destruct a; cbn.
    + destruct (_ <? _); cbn; by split.
    + unfold close_stalled_peer. destruct giving_up; cbn; [repeat case_match|]; by split.
    + by split.
  - destruct a; cbn; by split.
  - destruct a; cbn; by split.
Qed.

(** Every action keeps it. *)
Lemma accounted_act c a : accounted c -> accounted (conn_act c a).
Proof.
  destruct c as [w t tx live rx]. intros Hc. unfold conn_act. cbn [cn_writer cn_task cn_tx cn_tx_live cn_rx].
  case_bool_decide as Hab; [done|]. pose proof (accounted_caller w t tx live rx Hc) as [Htx Hrx].
  destruct a as [f|code reason| |code reason| | |answer|].
  - destruct tx; try done. destruct live; [|done]. by destruct Hc.
  - destruct tx; try done. destruct live; [|done]. by destruct Hc.
  - by destruct (caller_step w tx).
  - destruct rx; try done. by destruct Hc.
  - by destruct Hc.
  - by destruct (caller_step w rx).
  - pose proof (accounted_drive w t tx live rx answer Hc). by destruct (drive_step w t answer).
  - destruct tx; try done. destruct rx; try done. destruct Hc as [Hr Hd Hcount]. cbn in *.
    case_bool_decide as He; [rewrite He in *; by split|].
    assert (running (wt_phase t) = true) as Hrun by (by destruct (wt_phase t)).
    rewrite Hrun in *. split; cbn; auto.
Qed.

Lemma accounted_run acts : forall c, accounted c -> accounted (conn_run c acts).
Proof. induction acts as [|a acts IH]; intros c Hc; simpl; [done|]. by apply IH, accounted_act. Qed.

(** ** The flags *)

Record flagged (c : Conn) : Prop := {
  fl_paused : sw_paused (cn_writer c) = true -> exists rest giving_up, phase_of c = PWrite rest giving_up \/ phase_of c = PAborted;
  fl_gave_up : sw_gave_up (cn_writer c) = true -> sw_open (cn_writer c) = false;
  fl_give_up : forall rest, phase_of c = PWrite rest true -> sw_gave_up (cn_writer c) = true;
  fl_stalled : forall rest, phase_of c = PStalled rest -> sw_gave_up (cn_writer c) = true
}.

Lemma flagged_caller w t tx live rx c tx' live' rx' :
  flagged (mkConn w t tx live rx) -> flagged (mkConn (caller_step w c).1 t tx' live' rx').
Proof.
  intros [Hp Hg Hw Hs]. cbn in *. destruct (caller_step_frame w c) as (_ & _ & _ & Hpa & Hgu & Hop).
  split; cbn; try (by setoid_rewrite Hgu); [by rewrite Hpa|].
  rewrite Hgu. intros H. apply Hg in H. destruct (sw_open (caller_step w c).1); [|done]. by rewrite Hop in H.
Qed.

Lemma flagged_drive w t tx live rx a :
  flagged (mkConn w t tx live rx) ->
  let '(w', t') := drive_step w t a in flagged (mkConn w' t' tx live rx).
Proof.
  intros [Hp Hg Hw Hs]. destruct t as [ph wire sc]. destruct w as [o [q rc se] n op pa gu]. cbn in *.
  assert (Hpa : (forall rest g, ph <> PWrite rest g) -> ph <> PAborted -> pa = false).
  { intros H1 H2. destruct pa; [|done]. destruct (Hp eq_refl) as (rest & g & [E|E]); [by destruct (H1 rest g)|done]. }
  destruct ph; cbn; unfold ch_recv; cbn; try (by split).
  - rewrite Hpa by done. destruct q as [|[ms size|code reason] q]; cbn; [destruct se|..]; cbn; by split.
  - unfold poll_write. destruct a; cbn.
    + destruct (_ <? _); cbn; split; cbn; naive_solver.
    + unfold close_stalled_peer. destruct giving_up; cbn; [|by split].
      specialize (Hw _ eq_refl). repeat case_match; split; cbn; eauto; done.
    + split; cbn; by eauto.
  - rewrite Hpa by done. specialize (Hs _ eq_refl). destruct a; cbn; split; cbn; eauto; done.
  - rewrite Hpa by done. destruct a; cbn; by split.
  - rewrite Hpa by done. by split.
Qed.

Lemma flagged_act c a : flagged c -> flagged (conn_act c a).
Proof.
  destruct c as [w t tx live rx]. intros Hc. unfold conn_act. cbn [cn_writer cn_task cn_tx cn_tx_live cn_rx].
  case_bool_decide as Hab; [done|].
  destruct a as [f|code reason| |code reason| | |answer|].
  - destruct tx; try done. destruct live; [|done]. by destruct Hc.
  - destruct tx; try done. destruct live; [|done]. by destruct Hc.
  - pose proof (fun x l => flagged_caller w t tx live rx tx x l rx Hc). by destruct (caller_step w tx).
  - destruct rx; try done. by destruct Hc.
  - destruct Hc. split; cbn; eauto.
  - pose proof (fun x => flagged_caller w t tx live rx rx tx live x Hc). by destruct (caller_step w rx).
  - pose proof (flagged_drive w t tx live rx answer Hc). by destruct (drive_step w t answer).
  - destruct tx; try done. destruct rx; try done. destruct Hc as [Hp Hg Hw Hs]. cbn in *.
    case_bool_decide as He.
    + split; cbn; [|done|done|done]. intros H. destruct (Hp H) as (? & ? & [E|E]); congruence.
    + split; cbn; [|done|done|done]. intros _. exists [], false. by right.
Qed.

Lemma flagged_run acts : forall c, flagged c -> flagged (conn_run c acts).
Proof. induction acts as [|a acts IH]; intros c Hc; simpl; [done|]. by apply IH, flagged_act. Qed.

Lemma flagged_new o : flagged (conn_new o).
Proof. by split. Qed.

Lemma conn_act_options c a : sw_options (cn_writer (conn_act c a)) = sw_options (cn_writer c).
Proof.
  destruct c as [w t tx live rx]. unfold conn_act. cbn. case_bool_decide; [done|].
  destruct a; cbn; try (by repeat case_match).
  - pose proof (caller_step_frame w tx) as [H0 _]. by destruct (caller_step w tx).
  - pose proof (caller_step_frame w rx) as [H0 _]. by destruct (caller_step w rx).
  - pose proof (drive_step_frame w t answer) as [H0 _]. by destruct (drive_step w t answer).
Qed.

Lemma conn_run_options acts : forall c, sw_options (cn_writer (conn_run c acts)) = sw_options (cn_writer c).
Proof. induction acts as [|a acts IH]; intros c; simpl; [done|]. by rewrite IH, conn_act_options. Qed.

(** Only a poll of the frame being written raises the signal. *)
Lemma gave_up_raised c a :
  sw_gave_up (cn_writer c) = false -> sw_gave_up (cn_writer (conn_act c a)) = true ->
  exists n rest giving_up, a = ADrive (SinkPending n) /\ phase_of c = PWrite rest giving_up /\
    wo_max_frame_bytes (sw_options (cn_writer c)) < sw_queued_bytes (cn_writer c).
Proof.
  destruct c as [w t tx live rx]. unfold conn_act. cbn. intros H0. case_bool_decide; cbn; [congruence|].
  destruct a as [f|code reason| |code reason| | |answer|]; cbn; try (repeat case_match; cbn in *; congruence).
  - destruct (caller_step_frame w tx) as (_ & _ & _ & _ & Hg & _). destruct (caller_step w tx). cbn in *. congruence.
  - destruct (caller_step_frame w rx) as (_ & _ & _ & _ & Hg & _). destruct (caller_step w rx). cbn in *. congruence.
  - destruct t as [ph wire sc]. destruct w as [o [q rc se] n op pa gu]. destruct ph; cbn in *; try congruence;
      try (unfold ch_recv; cbn; repeat case_match; cbn in *; simplify_eq; congruence).
    + destruct q as [|[] q]; unfold ch_recv; cbn; [destruct se|..]; cbn; congruence.
    + destruct answer; cbn; [|congruence..]. unfold poll_write; cbn.
      destruct (Z.ltb_spec (wo_max_frame_bytes o) n); cbn; [|congruence]. intros _. by exists taken, rest, giving_up.
    + destruct answer; cbn; congruence.
    + destruct answer; cbn; congruence.
Qed.

(** ** Properties *)

(** C20 (the send queue is counted exactly).  In every interleaving of sends, closes, refusals and
    writer turns, while the writer task runs the counter is the bytes of the queued commands plus
    what the calls under way have counted and not queued yet (as a machine word), whatever was
    taken or abandoned in between; once the task has left, nothing is queued any more and every
    later command is refused. *)
Theorem queue_counted (o : WebSocketOptions) (acts : list ConnAction) :
  let c := conn_run (conn_new o) acts in
  let w := cn_writer c in
  (running (phase_of c) = true ->
     ch_receiver (sw_commands w) = true /\
     sw_queued_bytes w = (queued_total (queue_of w) + reserved (cn_tx c) + reserved (cn_rx c)) mod usize_modulus) /\
  (running (phase_of c) = false ->
     queue_of w = [] /\ forall command, (ch_send (sw_commands w) command).2 = false).
Proof.
  destruct (accounted_run acts _ (accounted_new o)) as [Hr Hd Hc]. cbv zeta. split; intros Hrun.
  - split; [congruence|auto].
  - split; [auto|]. intros command. unfold ch_send. by rewrite Hr, Hrun.
Qed.

(** A peer is given up by the documented rule only.  In every run: [paused] is up only while a
    write the socket has not finished is under way; the writer gives the peer up exactly when a poll
    of that write stalls with more than one frame limit queued behind it, which closes the port at
    once; a send gives it up exactly when what waited before its own frame passes one frame limit
    and such a write is stuck, and otherwise reports the frame as sent. *)
Theorem stall_rule (o : WebSocketOptions) (acts : list ConnAction) :
  let c := conn_run (conn_new o) acts in
  let w := cn_writer c in
  (sw_paused w = true -> exists rest giving_up, phase_of c = PWrite rest giving_up \/ phase_of c = PAborted) /\
  (sw_gave_up w = false -> forall a,
     sw_gave_up (cn_writer (conn_act c a)) = true <->
     exists n rest giving_up, a = ADrive (SinkPending n) /\ phase_of c = PWrite rest giving_up /\
       wo_max_frame_bytes o < sw_queued_bytes w) /\
  (sw_gave_up w = true -> sw_open w = false) /\
  (forall waiting, cn_tx c = CJudge waiting -> phase_of c <> PAborted ->
     cn_tx (conn_act c ATx) =
       if (wo_max_frame_bytes o <? waiting) && sw_paused w
       then CClose close_codes.PROTOCOL_ERROR (Some STALLED_QUEUE_REASON) true (Some SendClosed)
       else CReturned (Some Sent)).
Proof.
  cbv zeta. set (c := conn_run (conn_new o) acts).
  pose proof (flagged_run acts _ (flagged_new o)) as [Hp Hg _ _]. fold c in Hp, Hg.
  assert (sw_options (cn_writer c) = o) as Ho by apply (conn_run_options acts (conn_new o)).
  split; [done|]. split; [|split; [done|]].
  - intros H0 a. split.
    + intros H1. destruct (gave_up_raised c a H0 H1) as (n & rest & g & -> & Hph & Hq). rewrite Ho in Hq. by exists n, rest, g.
    + intros (n & rest & g & -> & Hph & Hq). unfold conn_act. rewrite bool_decide_false by congruence.
      unfold drive_step. rewrite Hph. unfold poll_write. cbn. rewrite Ho. apply Z.ltb_lt in Hq. by rewrite Hq.
  - intros waiting Htx Hab. unfold conn_act. rewrite bool_decide_false by done. rewrite Htx. cbn. rewrite Ho.
    by destruct (_ && _).
Qed.
End runs.
