(* ===== verification/WebSocketLink.v ===== *)
(** * The WebSocket port refines a first-in first-out link

    The abstract link holds the frames in transit and the frames delivered; it delivers in the order
    frames were put, and it may be severed, which loses what is in transit and may leave one last
    farewell.  Every run of the concurrent writer is a run of this link, with the frames the peer's
    reassembler makes of the messages on the wire as the frames delivered. *)

From S2P Require Import Prelude Json Wire Frame Validate Limits Serde JsonText FrameJson Ndjson NdjsonProps Chunk ChunkProps Port NdjsonPort NdjsonPortProps WebSocket WebSocketProps.
Local Open Scope Z_scope.

(** ** The abstract link *)

Record Link : Type := mkLink { transit : list Frame; delivered : list Frame; severed : bool }.

Definition link_new : Link := mkLink [] [] false.

(** Steps, labelled with the frames put. *)
Inductive link_step (farewell : Frame) : Link -> list Frame -> Link -> Prop :=
| link_put f ts ds sv : link_step farewell (mkLink ts ds sv) [f] (mkLink (if sv then ts else ts ++ [f]) ds sv)
| link_deliver f ts ds sv : link_step farewell (mkLink (f :: ts) ds sv) [] (mkLink ts (ds ++ [f]) sv)
| link_sever ts ds sv : link_step farewell (mkLink ts ds sv) [] (mkLink [] ds true)
| link_give_up ts ds : link_step farewell (mkLink ts ds false) [] (mkLink [farewell] ds true).

Inductive link_run (farewell : Frame) : Link -> list Frame -> Link -> Prop :=
| link_stop l : link_run farewell l [] l
| link_more l fs l' gs l'' :
    link_run farewell l fs l' -> link_step farewell l' gs l'' -> link_run farewell l (fs ++ gs) l''.

Lemma link_once farewell l fs l' : link_step farewell l fs l' -> link_run farewell l fs l'.
Proof. intros H. rewrite <- (app_nil_l fs). econstructor; [constructor|done]. Qed.

Lemma link_trans farewell l fs l' gs l'' :
  link_run farewell l fs l' -> link_run farewell l' gs l'' -> link_run farewell l (fs ++ gs) l''.
Proof.
  intros H1 H2. induction H2 as [|l1 gs1 l2 hs l3 _ IH Hs]; [by rewrite app_nil_r|].
  rewrite app_assoc. econstructor; [by apply IH|done].
Qed.

(** What a link that started empty has delivered. *)
Lemma link_run_prefix farewell fs l :
  link_run farewell link_new fs l ->
  if severed l
  then exists kept, kept `prefix_of` fs /\
    ((transit l = [] /\ (delivered l = kept \/ delivered l = kept ++ [farewell])) \/
     (transit l = [farewell] /\ delivered l = kept))
  else delivered l ++ transit l = fs.
Proof.
  remember link_new as l0 eqn:E0. induction 1 as [l|l0 fs l gs l' Hrun IH Hstep]; [by subst|].
  specialize (IH E0). destruct Hstep as [f ts ds sv|f ts ds sv|ts ds sv|ts ds]; cbn in *.
  - destruct sv.
    + destruct IH as (kept & Hk & Hd). exists kept. split; [by apply prefix_app_r|done].
    + by rewrite app_assoc, IH.
  - rewrite app_nil_r. destruct sv.
    + destruct IH as (kept & Hk & [[? _]|[[= -> ->] ->]]); [done|]. exists kept. naive_solver.
    + by rewrite <- app_assoc.
  - rewrite app_nil_r. destruct sv.
    + destruct IH as (kept & Hk & [[_ Hd]|[_ ->]]); exists kept; naive_solver.
    + exists ds. subst fs. split; [by eexists|]. naive_solver.
  - rewrite app_nil_r. exists ds. subst fs. split; [by eexists|]. naive_solver.
Qed.

(** ** Frames on the wire *)

Definition binaries (wire : list Message) : list bytes :=
  omap (fun m => match m with MBinary b => Some b | _ => None end) wire.

Lemma binaries_app ws ms : binaries (ws ++ map MBinary ms) = binaries ws ++ ms.
Proof.
  unfold binaries. rewrite omap_app. f_equal. induction ms as [|m ms IH]; [done|]. cbn. by rewrite IH.
Qed.

Definition yielded (os : list (result (option Frame) CodecError)) : list Frame :=
  omap (fun o => match o with Ok (Some f) => Some f | _ => None end) os.

Lemma yielded_app os ps : yielded (os ++ ps) = yielded os ++ yielded ps.
Proof. apply omap_app. Qed.

Lemma yielded_some f : yielded [Ok (Some f)] = [f].
Proof. done. Qed.

Lemma yielded_none n : yielded (replicate n (Ok None)) = [].
Proof. by induction n. Qed.

Local Arguments yielded : simpl never.
Local Arguments binaries : simpl never.

Section link.
Context {RT : RustText} {SJ : SerdeJson} {SJL : SerdeJsonLaws}.
Variables (o : WebSocketOptions) (r : ChunkReassembler) (mm' : Z).
Hypothesis Hr : reassembler_new mm' (wo_max_frame_bytes o) = Ok r.
Hypothesis Hmf : wo_max_frame_bytes o <= 2 ^ 42.

(** [messages] are the chunks of [f]. *)
Definition chunked (f : Frame) (messages : list bytes) : Prop :=
  encode_chunks f (wo_max_message_bytes o) (wo_max_frame_bytes o) = Ok messages /\ frame_stable f = true.

Lemma chunked_push f ms : chunked f ms ->
  ms <> [] /\ push_chunks r ms = (r, replicate (pred (length ms)) (Ok None) ++ [Ok (Some f)]).
Proof.
  intros [He Hst]. pose proof (push_chunks_encoded f _ _ mm' ms r Hst He Hr Hmf) as Hp. split; [|done].
  intros ->. by apply (f_equal (fun x => length x.2)) in Hp.
Qed.

(** A prefix of a frame's chunks yields nothing. *)
Lemma chunked_prefix f ms1 ms2 : chunked f (ms1 ++ ms2) -> ms2 <> [] -> yielded (push_chunks r ms1).2 = [].
Proof.
  intros Hc Hne. destruct (chunked_push _ _ Hc) as [_ Hp]. rewrite push_chunks_app in Hp.
  pose proof (push_chunks_length ms1 r) as Hl.
  destruct (push_chunks r ms1) as [r1 os1] eqn:E1. pose proof (push_chunks_length ms2 r1) as Hl2.
  destruct (push_chunks r1 ms2) as [r2 os2] eqn:E2. injection Hp as -> Hos. cbn in *.
  assert (os1 = take (length ms1) (replicate (pred (length (ms1 ++ ms2))) (Ok None) ++ [Ok (Some f)])) as ->.
  { rewrite <- Hos, <- Hl. by rewrite take_app_length. }
  rewrite length_app. destruct ms2 as [|m ms2]; [done|]. cbn.
  rewrite take_app_le by (rewrite length_replicate; lia). rewrite take_replicate. apply yielded_none.
Qed.

(** The frame under way: delivered once nothing of it is left. *)
Definition pending (f : Frame) (rest : list bytes) : list Frame := match rest with [] => [] | _ => [f] end.
Definition arrived (f : Frame) (rest : list bytes) : list Frame := match rest with [] => [f] | _ => [] end.

(** The binary messages so far are whole frames and the part of [f] before [rest]. *)
Definition partway (bs : list bytes) (f : Frame) (rest : list bytes) (ds : list Frame) : Prop :=
  exists pre cut os, bs = pre ++ cut /\ push_chunks r pre = (r, os) /\ chunked f (cut ++ rest) /\
    ds = yielded os ++ arrived f rest.

(** The binary messages so far are whole frames. *)
Definition settled (bs : list bytes) (ds : list Frame) : Prop :=
  exists os, push_chunks r bs = (r, os) /\ yielded os = ds.

Lemma partway_start bs f ms ds : settled bs ds -> chunked f ms -> partway bs f ms ds.
Proof.
  intros (os & Hp & Hy) Hc. exists bs, [], os. rewrite app_nil_r. split; [done|]. split; [done|]. split; [done|].
  destruct (chunked_push _ _ Hc) as [Hne _]. destruct ms; [done|]. cbn. by rewrite app_nil_r.
Qed.

Lemma partway_settled bs f ds : partway bs f [] ds -> settled bs ds.
Proof.
  intros (pre & cut & os & -> & Hp & Hc & ->). rewrite app_nil_r in Hc. destruct (chunked_push _ _ Hc) as [_ Hc'].
  eexists. rewrite push_chunks_app, Hp, Hc'. split; [done|]. by rewrite !yielded_app, yielded_none, yielded_some.
Qed.

Lemma partway_yielded bs f rest ds : partway bs f rest ds -> yielded (push_chunks r bs).2 = ds.
Proof.
  destruct rest as [|m rest]; intros H.
  - destruct (partway_settled _ _ _ H) as (os & Hp & Hy). by rewrite Hp.
  - destruct H as (pre & cut & os & -> & Hp & Hc & ->). pose proof (chunked_prefix _ _ _ Hc ltac:(done)) as Hn.
    rewrite push_chunks_app, Hp. destruct (push_chunks r cut). cbn in *. by rewrite yielded_app, Hn.
Qed.

(** Part of what is left is taken: a step of the link if it was the last. *)
Lemma partway_take bs f rest ds n farewell sv ts :
  partway bs f rest ds ->
  exists ds', partway (bs ++ take n rest) f (drop n rest) ds' /\
    link_run farewell (mkLink (pending f rest ++ ts) ds sv) [] (mkLink (pending f (drop n rest) ++ ts) ds' sv).
Proof.
  intros (pre & cut & os & -> & Hp & Hc & ->). exists (yielded os ++ arrived f (drop n rest)). split.
  - exists pre, (cut ++ take n rest), os. rewrite <- !app_assoc, take_drop. done.
  - destruct rest as [|m rest]; [rewrite drop_nil; constructor|].
    destruct (drop n (m :: rest)) as [|m' rest']; cbn; rewrite app_nil_r; [|constructor].
    apply link_once. constructor.
Qed.

(** ** The simulation *)

(** The frames the queued commands carry. *)
Inductive carried : list WriteCommand -> list Frame -> Prop :=
| carried_nil : carried [] []
| carried_chunks f ms size q fs : chunked f ms -> carried q fs -> carried (Chunks ms size :: q) (f :: fs)
| carried_close code reason q fs : carried q fs -> carried (CloseCommand code reason :: q) fs.

Lemma carried_app q fs q' fs' : carried q fs -> carried q' fs' -> carried (q ++ q') (fs ++ fs').
Proof. induction 1; cbn; [done|..]; intros; constructor; auto. Qed.

(** The farewell that goes out: with its reason, or without one if it does not fit. *)
Definition farewell_frame (code : Z) (reason : option string) : Frame :=
  let f := FClose {| close_code := code; close_reason := clamp_reason <$> reason |} in
  if is_ok (encode_chunks f (wo_max_message_bytes o) (wo_max_frame_bytes o)) then f
  else FClose {| close_code := code; close_reason := None |}.

Definition reason_ok (reason : option string) : Prop := forall s, reason = Some s -> str_ok s = true.

Lemma farewell_chunked code reason ms :
  is_u16 code = true -> reason_ok reason -> farewell_messages code reason o = Some ms ->
  chunked (farewell_frame code reason) ms.
Proof.
  intros Hu Hrs. unfold farewell_messages, farewell_frame, chunked.
  destruct (encode_chunks (FClose {| close_code := code; close_reason := clamp_reason <$> reason |}) _ _) as [ms'|e] eqn:E;
    cbn [is_ok].
  - intros [= ->]. split; [done|]. unfold frame_stable. simpl. rewrite Hu. destruct reason as [s|]; [|done]. simpl.
    by rewrite (clamp_reason_ok s (Hrs s eq_refl)).
  - destruct (encode_chunks (FClose {| close_code := code; close_reason := None |}) _ _) eqn:E'; [|done].
    intros [= ->]. split; [done|]. unfold frame_stable. simpl. by rewrite Hu.
Qed.

Definition stall_farewell : Frame := farewell_frame close_codes.PROTOCOL_ERROR (Some STALLED_QUEUE_REASON).

(** What a call under way carries. *)
Definition caller_ok (c : Caller) : Prop :=
  match c with
  | CSend f => frame_stable f = true
  | CReserve f ms | CHandOver f ms _ => chunked f ms
  | CClose code reason _ _ => is_u16 code = true /\ reason_ok reason
  | CFarewell ms code reason _ | CFarewellSend ms code reason _ => chunked (farewell_frame code reason) ms
  | _ => True
  end.

(** The frames one step of a call puts in the queue. *)
Definition put_of (w : SocketWriter) (c : Caller) : list Frame :=
  if ch_receiver (sw_commands w) then
    match c with
    | CHandOver f _ _ => [f]
    | CFarewellSend _ code reason _ => [farewell_frame code reason]
    | _ => []
    end
  else [].

Lemma caller_step_put w c fs :
  sw_options w = o -> caller_ok c -> carried (queue_of w) fs ->
  let '(w', c') := caller_step w c in caller_ok c' /\ carried (queue_of w') (fs ++ put_of w c).
Proof.
  destruct w as [o' [q rc se] n op pa gu]. cbn. intros -> Hc Hq.
  assert (Hput : forall f ms size, chunked f ms -> carried (q ++ [Chunks ms size]) (fs ++ [f])).
  { intros. apply carried_app; [done|]. repeat constructor; apply H. }
  unfold put_of. destruct c; cbn in *; unfold ch_send; cbn; try (destruct rc; cbn; rewrite app_nil_r; by split).
  - destruct op; cbn; [|by destruct rc; rewrite app_nil_r].
    destruct (encode_chunks f _ _) eqn:E; cbn; destruct rc; rewrite app_nil_r; by repeat split.
  - destruct rc; cbn; [|by rewrite app_nil_r]. split; [done|]. by apply Hput.
  - destruct (_ && _); cbn; destruct rc; rewrite app_nil_r; repeat split; try done; by intros s [= <-].
  - destruct op; cbn; [|by destruct rc; rewrite app_nil_r]. destruct Hc as [Hu Hrs].
    destruct send_close_frame; [destruct (farewell_messages code reason o) eqn:E|]; cbn; destruct rc; rewrite app_nil_r;
      split; try done; by apply farewell_chunked.
  - destruct rc; cbn; [|by rewrite app_nil_r]. split; [done|]. by apply Hput.
  - destruct rc; cbn; rewrite app_nil_r; [|done]. split; [done|]. rewrite <- (app_nil_r fs).
    apply carried_app; [done|]. repeat constructor.
Qed.

(** Where the link is when the task is in a phase, with [fs] in the queue. *)
Definition phase_link (ph : Phase) (bs : list bytes) (fs : list Frame) (l : Link) : Prop :=
  match ph with
  | PRecv => settled bs (delivered l) /\ transit l = fs /\ severed l = false
  | PWrite rest _ =>
      exists f, partway bs f rest (delivered l) /\ transit l = pending f rest ++ fs /\ severed l = false
  | PStalled rest =>
      partway bs stall_farewell rest (delivered l) /\ transit l = pending stall_farewell rest /\ severed l = true
  | _ => yielded (push_chunks r bs).2 = delivered l /\ severed l = true /\ transit l = []
  end.

Lemma phase_link_put ph bs fs l f :
  phase_link ph bs fs l ->
  exists l', link_run stall_farewell l [f] l' /\ phase_link ph bs (fs ++ [f]) l'.
Proof.
  destruct l as [ts ds sv]. intros H. eexists. split; [apply link_once, link_put|].
  destruct ph; cbn in *.
  - destruct H as (Hs & -> & ->). by repeat split.
  - destruct H as (f' & Hp & -> & ->). exists f'. rewrite app_assoc. by repeat split.
  - destruct H as (Hp & -> & ->). by repeat split.
  - destruct H as (Hy & -> & ->). by repeat split.
  - destruct H as (Hy & -> & ->). by repeat split.
  - destruct H as (Hy & -> & ->). by repeat split.
  - destruct H as (Hy & -> & ->). by repeat split.
Qed.

(** Severing the link in any phase. *)
Lemma phase_link_sever ph bs fs l ph' :
  phase_link ph bs fs l -> ph' = PLeave \/ ph' = PAborted \/ (exists code reason, ph' = PClose code reason) ->
  exists l', link_run stall_farewell l [] l' /\ phase_link ph' bs fs l'.
Proof.
  intros H Hph'. destruct l as [ts ds sv]. exists (mkLink [] ds true). split; [apply link_once, link_sever|].
  assert (yielded (push_chunks r bs).2 = ds) as Hy.
  { destruct ph; cbn in H.
    - destruct H as ((os & Hp & Hy) & _). by rewrite Hp.
    - destruct H as (f & Hp & _). by eapply partway_yielded.
    - destruct H as (Hp & _). by eapply partway_yielded.
    - tauto. - tauto. - tauto. - tauto. }
  destruct Hph' as [->|[->|(code & reason & ->)]]; by repeat split.
Qed.

(** Some of the frame under way is taken. *)
Lemma phase_link_take rest g bs fs l n :
  phase_link (PWrite rest g) bs fs l ->
  exists l', link_run stall_farewell l [] l' /\ phase_link (PWrite (drop n rest) g) (bs ++ take n rest) fs l'.
Proof.
  destruct l as [ts ds sv]. cbn. intros (f & Hp & -> & ->).
  destruct (partway_take bs f rest ds n stall_farewell false fs Hp) as (ds' & Hp' & Hl).
  eexists. split; [exact Hl|]. exists f. by repeat split.
Qed.

Lemma phase_link_take_stalled rest bs fs l n :
  phase_link (PStalled rest) bs fs l ->
  exists l', link_run stall_farewell l [] l' /\ phase_link (PStalled (drop n rest)) (bs ++ take n rest) fs l'.
Proof.
  destruct l as [ts ds sv]. cbn. intros (Hp & -> & ->).
  destruct (partway_take bs _ rest ds n stall_farewell true [] Hp) as (ds' & Hp' & Hl). rewrite !app_nil_r in Hl.
  eexists. split; [exact Hl|]. by repeat split.
Qed.

(** The frame is written: the next command, or the farewell of a peer given up. *)
Lemma phase_link_written g bs fs l :
  phase_link (PWrite [] g) bs fs l ->
  exists l', link_run stall_farewell l [] l' /\
    phase_link (if g then close_stalled_peer o else PRecv) bs fs l'.
Proof.
  intros (f & Hp & Ht & Hs). apply partway_settled in Hp.
  assert (phase_link PRecv bs fs l) as Hrecv by exact (conj Hp (conj Ht Hs)).
  destruct g; [|exists l; split; [constructor|done]].
  pose proof (fun ph => phase_link_sever PRecv bs fs l ph Hrecv) as Hsever. unfold close_stalled_peer, send_close.
  destruct (wo_send_close_frame o); [|apply Hsever; naive_solver].
  destruct (farewell_messages _ _ o) as [ms|] eqn:E; [|apply Hsever; naive_solver].
  destruct l as [ts ds sv]. cbn in *. subst.
  exists (mkLink [stall_farewell] ds true). split; [apply link_once, link_give_up|].
  assert (chunked stall_farewell ms) as Hc by (apply farewell_chunked; [done|by intros s [= <-]|done]).
  destruct (chunked_push _ _ Hc) as [Hne _]. split; [by apply partway_start|]. by destruct ms.
Qed.

Lemma drive_link w t a fs l :
  sw_options w = o -> carried (queue_of w) fs -> phase_link (wt_phase t) (binaries (wt_wire t)) fs l ->
  let '(w', t') := drive_step w t a in
  exists fs' l', carried (queue_of w') fs' /\ link_run stall_farewell l [] l' /\
    phase_link (wt_phase t') (binaries (wt_wire t')) fs' l'.
Proof.
  destruct w as [o' [q rc se] n op pa gu], t as [ph wire sc]. cbn. intros -> Hq Hl.
  destruct ph as [|rest g|rest|code reason| | |]; cbn [drive_step wt_phase].
  - unfold ch_recv. cbn. destruct q as [|[ms size|code reason] q]; cbn.
    + destruct se; cbn; [exists fs, l; split; [done|split; [apply link_stop|done]]|].
      destruct (phase_link_sever _ _ _ _ PLeave Hl) as (l' & Hr' & Hl'); [naive_solver|]. by exists fs, l'.
    + inversion Hq as [|f ? ? ? fs' Hc Hq'|]; subst. exists fs', l. split; [done|]. split; [constructor|].
      destruct l as [ts ds sv]. cbn in Hl. destruct Hl as (Hs & -> & ->). destruct (chunked_push _ _ Hc) as [Hne _].
      exists f. split; [by apply partway_start|]. by destruct ms.
    + inversion Hq as [| |? ? ? ? Hq']; subst.
      destruct (phase_link_sever _ _ _ _ (send_close code reason) Hl) as (l' & Hr' & Hl'); [unfold send_close; naive_solver|].
      by exists fs, l'.
  - unfold poll_write. destruct a as [k| |k]; cbn.
    + destruct (phase_link_take _ _ _ _ _ k Hl) as (l' & Hr' & Hl').
      destruct (_ <? _); cbn; rewrite binaries_app; exists fs, l'; (split; [done|split; [done|apply Hl']]).
    + rewrite binaries_app. destruct (phase_link_take _ _ _ _ _ (length rest) Hl) as (l1 & Hr1 & Hl1).
      rewrite firstn_all, drop_all in Hl1. destruct (phase_link_written _ _ _ _ Hl1) as (l2 & Hr2 & Hl2).
      exists fs, l2. split; [done|]. split; [by apply (link_trans _ _ [] _ [] _ Hr1 Hr2)|]. by destruct g.
    + rewrite binaries_app. destruct (phase_link_take _ _ _ _ _ k Hl) as (l1 & Hr1 & Hl1).
      destruct (phase_link_sever _ _ _ _ PLeave Hl1) as (l2 & Hr2 & Hl2); [naive_solver|].
      exists fs, l2. split; [done|]. split; [by apply (link_trans _ _ [] _ [] _ Hr1 Hr2)|done].
  - assert (Hgo : forall k, exists l', link_run stall_farewell l [] l' /\
      phase_link (send_close close_codes.PROTOCOL_ERROR (Some STALLED_QUEUE_REASON)) (binaries wire ++ take k rest) fs l').
    { intros k. destruct (phase_link_take_stalled _ _ _ _ k Hl) as (l1 & Hr1 & Hl1).
      destruct (phase_link_sever _ _ _ _ (send_close close_codes.PROTOCOL_ERROR (Some STALLED_QUEUE_REASON)) Hl1)
        as (l2 & Hr2 & Hl2); [unfold send_close; naive_solver|].
      exists l2. split; [by apply (link_trans _ _ [] _ [] _ Hr1 Hr2)|done]. }
    destruct a as [k| |k]; cbn; rewrite binaries_app; cbn.
    + destruct (phase_link_take_stalled _ _ _ _ k Hl) as (l1 & Hr1 & Hl1). by exists fs, l1.
    + destruct (Hgo (length rest)) as (l' & Hr' & Hl'). rewrite firstn_all in Hl'. by exists fs, l'.
    + destruct (Hgo k) as (l' & Hr' & Hl'). by exists fs, l'.
  - destruct a as [k| |k]; cbn; exists fs, l; (split; [done|]); (split; [constructor|]); [done| |done].
    unfold binaries. rewrite omap_app. cbn. by rewrite app_nil_r.
  - exists [], l. cbn. split; [constructor|]. split; [constructor|]. done.
  - exists fs, l. split; [done|]. by split; [constructor|].
  - exists fs, l. split; [done|]. by split; [constructor|].
Qed.

(** ** Runs *)

Definition conn_link (c : Conn) (l : Link) : Prop :=
  sw_options (cn_writer c) = o /\ caller_ok (cn_tx c) /\ caller_ok (cn_rx c) /\
  exists fs, carried (queue_of (cn_writer c)) fs /\ phase_link (phase_of c) (binaries (wt_wire (cn_task c))) fs l.

(** What the application may ask: frames that survive their JSON text, codes and reasons as Rust
    types them. *)
Definition action_ok (a : ConnAction) : Prop :=
  match a with
  | ASend f => frame_stable f = true
  | AClose code reason => is_u16 code = true /\ reason_ok reason
  | ARefuse code reason => is_u16 code = true /\ str_ok reason = true
  | _ => True
  end.

(** The frames an action puts in the queue. *)
Definition act_puts (c : Conn) (a : ConnAction) : list Frame :=
  if bool_decide (phase_of c = PAborted) then []
  else match a with
       | ATx => put_of (cn_writer c) (cn_tx c)
       | ARx => put_of (cn_writer c) (cn_rx c)
       | _ => []
       end.

Fixpoint run_puts (c : Conn) (acts : list ConnAction) : list Frame :=
  match acts with
  | [] => []
  | a :: acts => act_puts c a ++ run_puts (conn_act c a) acts
  end.

(** A step of a call is at most one put. *)
Lemma put_link w c ph bs fs l :
  phase_link ph bs fs l ->
  exists l', link_run stall_farewell l (put_of w c) l' /\ phase_link ph bs (fs ++ put_of w c) l'.
Proof.
  intros H. assert (Hput : put_of w c = [] \/ exists f, put_of w c = [f]).
  { unfold put_of. destruct (ch_receiver _); [|by left]. destruct c; eauto. }
  destruct Hput as [->|[f ->]]; [|by apply phase_link_put].
  rewrite app_nil_r. exists l. split; [apply link_stop|done].
Qed.

Lemma conn_act_link c a l :
  action_ok a -> conn_link c l ->
  exists l', link_run stall_farewell l (act_puts c a) l' /\ conn_link (conn_act c a) l'.
Proof.
  intros Ha Hc. unfold act_puts, conn_act. case_bool_decide as Hab; [exists l; split; [apply link_stop|done]|].
  destruct Hc as (Ho & Htx & Hrx & fs & Hq & Hl). destruct c as [w t tx live rx]. cbn in *.
  assert (Hstay : forall w' t' tx' live' rx',
    sw_options w' = sw_options w -> queue_of w' = queue_of w -> t' = t -> caller_ok tx' -> caller_ok rx' ->
    exists l', link_run stall_farewell l [] l' /\ conn_link (mkConn w' t' tx' live' rx') l').
  { intros w' t' tx' live' rx' Hw Hq' -> H1 H2. exists l. split; [apply link_stop|].
    split; [cbn; congruence|]. split; [done|]. split; [done|]. exists fs. cbn. by rewrite Hq'. }
  destruct a as [f|code reason| |code reason| | |answer|].
  - destruct tx; try by apply Hstay. destruct live; by apply Hstay.
  - destruct tx; try by apply Hstay. destruct live; by apply Hstay.
  - pose proof (caller_step_put w tx fs Ho Htx Hq) as Hs. pose proof (caller_step_frame w tx) as [Ho' _].
    destruct (put_link w tx _ _ _ _ Hl) as (l' & Hr' & Hl'). destruct (caller_step w tx) as [w' tx'].
    destruct Hs as [Htx' Hq']. exists l'. split; [done|]. split; [cbn in *; congruence|]. split; [done|]. split; [done|].
    by exists (fs ++ put_of w tx).
  - destruct rx; try by apply Hstay. apply Hstay; try done. split; [apply Ha|]. intros s [= <-]. apply Ha.
  - by apply Hstay.
  - pose proof (caller_step_put w rx fs Ho Hrx Hq) as Hs. pose proof (caller_step_frame w rx) as [Ho' _].
    destruct (put_link w rx _ _ _ _ Hl) as (l' & Hr' & Hl'). destruct (caller_step w rx) as [w' rx'].
    destruct Hs as [Hrx' Hq']. exists l'. split; [done|]. split; [cbn in *; congruence|]. split; [done|]. split; [done|].
    by exists (fs ++ put_of w rx).
  - pose proof (drive_link w t answer fs l Ho Hq Hl) as Hs. pose proof (drive_step_frame w t answer) as [Ho' _].
    destruct (drive_step w t answer) as [w' t']. destruct Hs as (fs' & l' & Hq' & Hr' & Hl').
    exists l'. split; [done|]. split; [cbn in *; congruence|]. split; [done|]. split; [done|]. by exists fs'.
  - destruct tx; try by apply Hstay. destruct rx; try by apply Hstay.
    case_bool_decide as He; [apply Hstay; try done; destruct t; cbn in *; congruence|].
    destruct (phase_link_sever _ _ _ _ PAborted Hl) as (l' & Hr' & Hl'); [naive_solver|].
    exists l'. split; [done|]. do 3 (split; [done|]). by exists fs.
Qed.

Lemma conn_run_link acts : forall c l,
  Forall action_ok acts -> conn_link c l ->
  exists l', link_run stall_farewell l (run_puts c acts) l' /\ conn_link (conn_run c acts) l'.
Proof.
  induction acts as [|a acts IH]; intros c l Hok Hc; cbn; [exists l; split; [apply link_stop|done]|].
  apply Forall_cons in Hok as [Ha Hok]. destruct (conn_act_link c a l Ha Hc) as (l1 & Hr1 & Hl1).
  destruct (IH _ _ Hok Hl1) as (l2 & Hr2 & Hl2). exists l2. split; [by eapply link_trans|done].
Qed.

Lemma conn_new_link : conn_link (conn_new o) link_new.
Proof.
  split; [done|]. split; [done|]. split; [done|]. exists []. split; [constructor|]. split; [|done]. by exists [].
Qed.

(** What the peer makes of the wire is what the link delivered. *)
Lemma conn_link_yielded c l : conn_link c l -> yielded (push_chunks r (binaries (wt_wire (cn_task c)))).2 = delivered l.
Proof.
  intros (_ & _ & _ & fs & _ & Hl). destruct (phase_of c); cbn in Hl.
  - destruct Hl as ((os & Hp & Hy) & _). by rewrite Hp.
  - destruct Hl as (f & Hp & _). by eapply partway_yielded.
  - destruct Hl as (Hp & _). by eapply partway_yielded.
  - tauto. - tauto. - tauto. - tauto.
Qed.
End link.

(** ** Draining *)

Section drain.
Context {RT : RustText} {SJ : SerdeJson}.

(** The task polled [n] times by a socket that takes everything. *)
Fixpoint drive_ready (n : nat) (w : SocketWriter) (t : WriterTask) : SocketWriter * WriterTask :=
  match n with O => (w, t) | S n => let '(w, t) := drive_step w t SinkReady in drive_ready n w t end.

Lemma drive_ready_app n m w t :
  drive_ready (n + m) w t = let '(w, t) := drive_ready n w t in drive_ready m w t.
Proof.
  revert w t. induction n as [|n IH]; intros w t; cbn; [done|]. destruct (drive_step w t SinkReady). apply IH.
Qed.

Abbreviation chunk_commands frames := (map (fun ms => Chunks ms (total_bytes ms)) frames).

(** Two turns per queued frame: one takes it, one writes it. *)
Lemma drive_ready_chunks frames : forall w wire sc q,
  queue_of w = chunk_commands frames ++ q ->
  exists w', drive_ready (2 * length frames) w (mkWriterTask PRecv wire sc) =
      (w', mkWriterTask PRecv (wire ++ map MBinary (concat frames)) sc) /\ queue_of w' = q.
Proof.
  induction frames as [|ms frames IH]; intros w wire sc q Hq.
  - exists w. cbn in *. by rewrite app_nil_r.
  - replace (2 * length (ms :: frames))%nat with (2 + 2 * length frames)%nat by (cbn; lia).
    rewrite drive_ready_app. destruct w as [o [q' rc se] n op pa gu]. cbn in Hq. subst q'.
    cbn [drive_ready drive_step wt_phase ch_recv sw_commands ch_queue take_command poll_write taken_of fst wt_wire wt_sink_closed].
    destruct (IH (set_paused (set_queued (set_commands (mkSocketWriter o
      {| ch_queue := Chunks ms (total_bytes ms) :: chunk_commands frames ++ q; ch_receiver := rc; ch_senders := se |} n op pa gu)
      {| ch_queue := chunk_commands frames ++ q; ch_receiver := rc; ch_senders := se |}) (wrapping_sub n (total_bytes ms))) false)
      (wire ++ map MBinary ms) sc q eq_refl) as (w' & Hw' & Hq'). exists w'. split; [|done].
    cbn in Hw' |- *. rewrite Hw'. by rewrite map_app, <- app_assoc.
Qed.
End drain.

(** ** Properties *)

(** C4 (a first-in first-out link).  Whatever the two halves call, one access to the shared cells at a
    time, however the writer task is interleaved with them, one command or one poll of the socket at a
    time, and however the socket answers, the port behaves as the abstract link: the frames a peer
    reassembles from the messages on the wire are a prefix of the frames in the order they were put in
    the queue, none altered, none twice, none skipped, with at most the farewell of a stalled queue
    after them.  Whenever the task is waiting for a command and its queue is empty, everything put has
    arrived.  The frames sent are stable ([frame_stable]: typed, no floating-point number, at most 125
    deep), codes and reasons are as Rust types them, and the frame limit is at most 2^42. *)
Theorem websocket_refines_link {RT : RustText} {SJ : SerdeJson} {SJL : SerdeJsonLaws} (o : WebSocketOptions) (mm' : Z)
    (r : ChunkReassembler) (acts : list ConnAction) :
  reassembler_new mm' (wo_max_frame_bytes o) = Ok r -> wo_max_frame_bytes o <= 2 ^ 42 ->
  Forall action_ok acts ->
  let c := conn_run (conn_new o) acts in
  let puts := run_puts o (conn_new o) acts in
  let got := yielded (push_chunks r (binaries (wt_wire (cn_task c)))).2 in
  exists l, link_run (stall_farewell o) link_new puts l /\ delivered l = got /\
    (exists kept, kept `prefix_of` puts /\ (got = kept \/ got = kept ++ [stall_farewell o])) /\
    (phase_of c = PRecv -> queue_of (cn_writer c) = [] -> got = puts).
Proof.
  intros Hr Hmf Hok. cbv zeta.
  destruct (conn_run_link o r mm' Hr Hmf acts (conn_new o) link_new Hok (conn_new_link o r)) as (l & Hrun & Hl).
  exists l. split; [done|]. rewrite (conn_link_yielded o r mm' Hr Hmf _ _ Hl). split; [done|].
  apply link_run_prefix in Hrun. split.
  - destruct (severed l); [|exists (delivered l); split; [by exists (transit l)|by left]].
    destruct Hrun as (kept & Hk & [[_ Hd]|[_ ->]]); exists kept; auto.
  - intros Hph Hq. destruct Hl as (_ & _ & _ & fs & Hcar & Hl). rewrite Hph in Hl. destruct Hl as (_ & Ht & Hs).
    rewrite Hq in Hcar. assert (fs = []) as -> by (by inversion Hcar). rewrite Hs, Ht in Hrun. by rewrite app_nil_r in Hrun.
Qed.


(** ** Witnesses *)

Definition small_socket : WebSocketOptions :=
  {| wo_max_frame_bytes := 4096; wo_max_message_bytes := 2048; wo_send_close_frame := true |}.

(** Two sends, a stalled poll in the middle of the first frame, a refusal of the receive half racing the
    second send, and the close reaching the socket. *)
Definition racing : list ConnAction :=
  [ASend bulk; ATx; ATx; ATx; ATx; ADrive SinkReady; ADrive (SinkPending 1); ASend FPing; ATx;
   ARefuse 4400 "bad record"; ARx; ATx; ARx; ATx; ARx; ATx; ADrive SinkReady; ADrive SinkReady; ADrive SinkReady;
   ARx; ADrive SinkReady].

Lemma websocket_refines_link_witness :
  yielded (push_chunks fresh (binaries (wt_wire (cn_task (conn_run (conn_new small_socket) racing))))).2 = [bulk; FPing] /\
  exists l, link_run (stall_farewell small_socket) link_new (run_puts small_socket (conn_new small_socket) racing) l /\
    delivered l = yielded (push_chunks fresh (binaries (wt_wire (cn_task (conn_run (conn_new small_socket) racing))))).2.
Proof.
  split; [vm_compute; reflexivity|].
  destruct (websocket_refines_link small_socket 2048 fresh racing) as (l & Hl & Hd & _).
  - reflexivity.
  - simpl. lia.
  - unfold racing. repeat (apply Forall_cons; split; [try exact I; try (split; reflexivity); vm_compute; reflexivity|]).
    apply Forall_nil. exact I.
  - exists l. split; [exact Hl|exact Hd].
Defined.


(** The counter may stay up after the end: a write fails between the moment a refusal closes the port and
    the moment it queues its farewell, whose bytes are counted, never queued and never released. *)
Lemma abandoned_farewell_counted :
  let c := conn_run (conn_new small_socket)
    [ASend FPing; ATx; ATx; ATx; ATx; ADrive SinkReady; ARefuse 4400 "bad record"; ARx; ADrive (SinkFailed 0);
     ADrive SinkReady; ARx; ARx; ARx] in
  phase_of c = PEnded /\ cn_tx c = CReturned (Some Sent) /\ cn_rx c = CReturned None /\
  queue_of (cn_writer c) = [] /\ 0 < sw_queued_bytes (cn_writer c).
Proof. vm_compute. repeat split. Qed.
