(* ===== verification/WebSocketRecv.v ===== *)
(** * The receive half of a WebSocket port

    What a port hands out for every stream of messages, failures and signals, and the close reason it
    puts in a native close frame. *)

From S2P Require Import Prelude Json Wire Frame Validate Limits Serde JsonText FrameJson Ndjson NdjsonProps Chunk ChunkProps Port NdjsonPort NdjsonPortProps WebSocket WebSocketProps.
Local Open Scope Z_scope.

(** ** The close reason *)

Lemma floor_boundary_le b e : (floor_boundary b e <= e)%nat.
Proof. induction e as [|e IH]; cbn; [lia|]. repeat case_match; lia. Qed.

Lemma floor_boundary_at b e c :
  is_utf8 b = true -> b !! floor_boundary b e = Some c -> is_continuation c = false.
Proof.
  intros Hb. induction e as [|e IH]; cbn.
  - destruct b as [|d b]; [done|]. intros [= <-]. by eapply is_utf8_first.
  - destruct (b !! S e) as [d|] eqn:E; [|rewrite E; done]. destruct (is_continuation d) eqn:Ed; [done|].
    rewrite E. by intros [= <-].
Qed.

Lemma floor_boundary_max b e k : (k <= e)%nat -> (floor_boundary b e < k)%nat ->
  exists c, b !! k = Some c /\ is_continuation c = true.
Proof.
  induction e as [|e IH]; cbn; [lia|]. intros Hk. destruct (b !! S e) as [d|] eqn:E; [|lia].
  destruct (is_continuation d) eqn:Ed; [|lia]. intros Hlt. destruct (decide (k = S e)) as [->|]; [by exists d|].
  apply IH; [lia|done].
Qed.

(** ** Calls that nothing interrupts *)

Section receive.
Context {RT : RustText} {SJ : SerdeJson}.

Lemma caller_run_open n : forall w c, sw_open w = false -> sw_open (caller_run n w c).1 = false.
Proof.
  induction n as [|n IH]; intros w c H; cbn; [done|]. destruct (caller_step_frame w c) as (_ & _ & _ & _ & _ & Ho).
  destruct (caller_step w c) as [w' c']. apply IH. cbn in Ho. destruct (sw_open w'); [|done]. by rewrite Ho in H.
Qed.

(** What [close] queues on a port that is open. *)
Definition told (w : SocketWriter) (code : Z) (reason : option string) (send_close_frame : bool) : list WriteCommand :=
  if sw_open w && ch_receiver (sw_commands w) then
    match (if send_close_frame then farewell_messages code reason (sw_options w) else None) with
    | Some messages => [Chunks messages (total_bytes messages)]
    | None => []
    end ++ [CloseCommand code reason]
  else [].

Lemma socket_close_spec w code reason scf :
  sw_open (socket_close w code reason scf) = false /\
  queue_of (socket_close w code reason scf) = queue_of w ++ told w code reason scf.
Proof.
  destruct w as [o [q rc se] n op pa gu]. unfold socket_close, told. cbn [sw_open sw_options sw_commands ch_queue ch_receiver].
  destruct op; [|cbn; by rewrite app_nil_r].
  destruct scf; cbn; [destruct (farewell_messages code reason o) as [ms|]|]; cbn; unfold ch_send; cbn;
    destruct rc; cbn; rewrite ?app_nil_r, <- ?app_assoc; done.
Qed.

Lemma send_frame_closed w f : sw_open w = false -> send_frame w f = (w, SendClosed).
Proof. intros H. unfold send_frame. cbn. by rewrite H. Qed.

(** ** The loop *)

(** How a stream item that is no chunk ends the link, as transports/websocket.md has it: a text message
    is refused with 4400, the peer's own close says why only with a code from the table, a failed or
    ended socket has no code, and a writer that gave the peer up is 4400. *)
Inductive ends_link : StreamItem -> PortClosure -> Prop :=
| ends_text text e :
    kind e = Schema -> frame_type e = None -> ends_link (StreamMessage (MText text)) (PProtocolError e 4400)
| ends_silent : ends_link (StreamMessage (MClose None)) (PClosed None None)
| ends_said code reason :
    4000 <= code <= 4999 -> reason <> "" ->
    ends_link (StreamMessage (MClose (Some (code, reason)))) (PClosed (Some code) (Some reason))
| ends_unsaid code : 4000 <= code <= 4999 -> ends_link (StreamMessage (MClose (Some (code, "")))) (PClosed (Some code) None)
| ends_foreign code reason :
    ~ 4000 <= code <= 4999 -> ends_link (StreamMessage (MClose (Some (code, reason)))) (PClosed None None)
| ends_broken text : ends_link (StreamError text) (PClosed None (Some text))
| ends_over : ends_link StreamEnd (PClosed None None)
| ends_given_up : ends_link GaveUp (PClosed (Some 4400) (Some STALLED_QUEUE_REASON)).

(** A stream as a session is to see it: the frames its chunks complete before the end, and the end.  A
    refused chunk is 4400, unless it was a [hello] of the wrong shape, which is 4426. *)
Inductive stream_meaning : ChunkReassembler -> list StreamItem -> list Frame -> option PortClosure -> Prop :=
| sm_waits r : stream_meaning r [] [] None
| sm_frame r r' b f rest fs c :
    push_chunk r b = (r', Ok (Some f)) -> stream_meaning r' rest fs c ->
    stream_meaning r (StreamMessage (MBinary b) :: rest) (f :: fs) c
| sm_part r r' b rest fs c :
    push_chunk r b = (r', Ok None) -> stream_meaning r' rest fs c -> stream_meaning r (StreamMessage (MBinary b) :: rest) fs c
| sm_refused r r' b e rest :
    push_chunk r b = (r', Err e) ->
    stream_meaning r (StreamMessage (MBinary b) :: rest) []
      (Some (PProtocolError e (if decide (kind e = Schema /\ frame_type e = Some "hello") then 4426 else 4400)))
| sm_ping r b rest fs c : stream_meaning r rest fs c -> stream_meaning r (StreamMessage (MPing b) :: rest) fs c
| sm_pong r b rest fs c : stream_meaning r rest fs c -> stream_meaning r (StreamMessage (MPong b) :: rest) fs c
| sm_raw r b rest fs c : stream_meaning r rest fs c -> stream_meaning r (StreamMessage (MFrame b) :: rest) fs c
| sm_ends r item rest closure : ends_link item closure -> stream_meaning r (item :: rest) [] (Some closure).

(** The same, as the port computes it. *)
Fixpoint read_stream (r : ChunkReassembler) (stream : list StreamItem) : list Frame * option PortClosure :=
  match stream with
  | [] => ([], None)
  | StreamMessage (MBinary b) :: rest =>
      match push_chunk r b with
      | (r', Ok (Some f)) => let '(fs, c) := read_stream r' rest in (f :: fs, c)
      | (r', Ok None) => read_stream r' rest
      | (_, Err e) => ([], Some (PProtocolError e (close_code_for_codec_error e)))
      end
  | StreamMessage (MText text) :: _ =>
      ([], Some (PProtocolError (text_refused text) (close_code_for_codec_error (text_refused text))))
  | StreamMessage (MClose frame) :: _ => ([], Some (peer_closure frame))
  | StreamMessage _ :: rest => read_stream r rest
  | StreamError text :: _ => ([], Some (PClosed None (Some text)))
  | StreamEnd :: _ => ([], Some (PClosed None None))
  | GaveUp :: _ => ([], Some gave_up_closure)
  end.

Lemma peer_closure_ends frame : ends_link (StreamMessage (MClose frame)) (peer_closure frame).
Proof.
  destruct frame as [[code reason]|]; [|constructor]. unfold peer_closure, in_range, close_codes.RELEASED, MAX_CLOSE_CODE.
  destruct (Z.leb_spec 4000 code), (Z.leb_spec code 4999); cbn; try (constructor; lia).
  case_bool_decide as Hr; [subst; by constructor|by constructor].
Qed.

Lemma refusal_code e :
  close_code_for_codec_error e = if decide (kind e = Schema /\ frame_type e = Some "hello") then 4426 else 4400.
Proof. unfold close_code_for_codec_error. repeat case_bool_decide; case_decide; naive_solver. Qed.

Lemma read_stream_meaning stream : forall r, stream_meaning r stream (read_stream r stream).1 (read_stream r stream).2.
Proof.
  induction stream as [|item rest IH]; intros r; [constructor|].
  destruct item as [[b|text|b|b|frame|b]|text| |]; cbn [read_stream]; try (constructor; by first [apply IH|constructor]).
  - destruct (push_chunk r b) as [r' [[f|]|e]] eqn:Ep.
    + specialize (IH r'). destruct (read_stream r' rest) as [fs c]. by econstructor.
    + by econstructor.
    + cbn [fst snd]. rewrite refusal_code. by econstructor.
  - constructor. apply peer_closure_ends.
Qed.

Lemma ws_recv_recorded stream p c :
  wp_closure p = Some c ->
  ws_recv_loop stream p =
    (mkWebSocketPort (wp_writer p) stream (wp_reassembler p) None true, Polled (Some (IClosed c))).
Proof. intros H. destruct stream; cbn; by rewrite H. Qed.

Global Instance websocket_rx_laws : PortRxLaws WebSocketPort.
Proof.
  assert (Hloop : forall st p p' i, ws_recv_loop st p = (p', i) ->
    (forall c, i = Polled (Some (IClosed c)) -> wp_closure p' = None /\ wp_terminal p' = true) /\
    (i = Polled None -> p' = set_wp_stream p st)).
  { assert (Hmsg : forall p m p' i, on_message p m = (p', Some i) -> exists f, i = IFrame f).
    { intros p m p' i. destruct m; cbn; try done. destruct (push_chunk _ b) as [r [[f|]|e]]; naive_solver. }
    assert (Hterm : forall p m p', on_message p m = (p', None) -> wp_terminal p' = wp_terminal p).
    { intros p m p'. destruct m; cbn; try naive_solver. destruct (push_chunk _ b) as [r [[f|]|e]]; naive_solver. }
    assert (Hnone : forall st p p', wp_terminal p = false -> ws_recv_loop st p <> (p', Polled None)).
    { induction st as [|item st IH]; intros p p' Ht; cbn; rewrite Ht; destruct (wp_closure p); try done;
        destruct (sw_gave_up _); try done.
      destruct item as [m| | |]; try (by apply IH).
      destruct (on_message _ m) as [p1 [i|]] eqn:E; [by destruct (Hmsg _ _ _ _ E) as [f ->]|].
      apply IH. by rewrite (Hterm _ _ _ E). }
    induction st as [|item st IH]; intros p p' i; cbn; destruct (wp_closure p) eqn:Hc;
      try (intros [= <- <-]; naive_solver); destruct (wp_terminal p) eqn:Ht; try (intros [= <- <-]; naive_solver);
      destruct (sw_gave_up _); try (intros [= <- <-]; naive_solver).
    intros H. split.
    - intros c ->. destruct item as [m| | |]; try (by eapply IH).
      destruct (on_message _ m) as [p1 [i|]] eqn:E; [destruct (Hmsg _ _ _ _ E) as [f ->]; naive_solver|by eapply IH].
    - intros ->. exfalso. destruct item as [m| | |]; try (by eapply Hnone, H).
      destruct (on_message _ m) as [p1 [i|]] eqn:E; [destruct (Hmsg _ _ _ _ E) as [f ->]; naive_solver|].
      eapply Hnone, H. by rewrite (Hterm _ _ _ E). }
  split.
  - intros p p' c H. destruct (Hloop _ _ _ _ H) as [H1 _]. destruct (H1 c eq_refl) as [Hc Ht].
    destruct p' as [w st r cl te]. cbn in *. subst. unfold websocket_recv. cbn. by destruct st.
  - intros p p' H. destruct (Hloop _ _ _ _ H) as [_ H2]. rewrite (H2 eq_refl). by destruct p.
Qed.

Lemma receives_recorded n p c :
  wp_closure p = Some c ->
  receives (S n) p =
    (mkWebSocketPort (wp_writer p) (wp_stream p) (wp_reassembler p) None true,
     Polled (Some (IClosed c)) :: replicate n (Polled None)).
Proof.
  intros H. rewrite receives_S. change (port_recv p) with (ws_recv_loop (wp_stream p) p).
  rewrite (ws_recv_recorded _ _ _ H), receives_ended; [done|].
  destruct p as [w st r cl te]. cbn. unfold websocket_recv. cbn. by destruct st.
Qed.

(** The items received and the writer afterwards. *)
Definition items (fs : list Frame) (c : option PortClosure) (n : nat) : list (poll (option Inbound)) :=
  handed_out fs ++
  match c with Some c => Polled (Some (IClosed c)) :: replicate n (Polled None) | None => replicate (S n) Pending end.

Definition writer_told (w w' : SocketWriter) (c : option PortClosure) : Prop :=
  match c with
  | None => w' = w
  | Some (PProtocolError e code) =>
      sw_open w' = false /\ queue_of w' = queue_of w ++ told w code (Some (show_codec_error e)) true
  | Some (PClosed _ _) => sw_open w' = false /\ queue_of w' = queue_of w
  end.

Lemma receives_pending_forever n p :
  websocket_recv p = (p, Pending) -> receives n p = (p, replicate n Pending).
Proof. intros H. induction n as [|n IH]; [done|]. rewrite receives_S. change (port_recv p) with (websocket_recv p). by rewrite H, IH. Qed.

Lemma ws_recv_loop_stream stream p : ws_recv_loop stream p = websocket_recv (set_wp_stream p stream).
Proof. by destruct stream. Qed.

(** One turn of an idle port. *)
Lemma ws_turn w r item stream :
  sw_gave_up w = false ->
  let p := mkWebSocketPort w (item :: stream) r None false in
  websocket_recv p =
    match item with
    | StreamMessage m =>
        match on_message p m with
        | (p, Some i) => (set_wp_stream p stream, Polled (Some i))
        | (p, None) => websocket_recv (set_wp_stream p stream)
        end
    | StreamError text => websocket_recv (set_wp_stream (ws_ended p (PClosed None (Some text))) stream)
    | StreamEnd => websocket_recv (set_wp_stream (ws_ended p (PClosed None None)) stream)
    | GaveUp => websocket_recv (set_wp_stream (set_wp_gave_up p) stream)
    end.
Proof.
  intros Hg. unfold websocket_recv at 1. cbn [wp_stream ws_recv_loop set_wp_stream wp_closure wp_terminal wp_writer].
  rewrite Hg. destruct item as [m| | |]; try apply ws_recv_loop_stream.
  change (set_wp_stream ?p (wp_stream ?p)) with p. destruct (on_message _ m) as [p [i|]]; [done|]. apply ws_recv_loop_stream.
Qed.

Lemma receives_turn n (p q : WebSocketPort) : websocket_recv p = websocket_recv q -> receives (S n) p = receives (S n) q.
Proof. exact (receives_same n p q). Qed.

(** A turn that records a closure. *)
Lemma receives_end n p q w c :
  websocket_recv p = websocket_recv q -> wp_closure q = Some c -> writer_told w (wp_writer q) (Some c) ->
  let '(p', is_) := receives (S n) p in is_ = items [] (Some c) n /\ writer_told w (wp_writer p') (Some c).
Proof. intros H Hc Hw. by rewrite (receives_turn n p q H), (receives_recorded _ _ c Hc). Qed.

Lemma peer_closure_told w frame : writer_told w (mark_closed w) (Some (peer_closure frame)).
Proof. unfold peer_closure. destruct frame as [[code reason]|]; [destruct (negb _)|]; done. Qed.

Lemma receives_stream stream : forall w r n,
  sw_gave_up w = false ->
  let '(fs, c) := read_stream r stream in
  let '(p', is_) := receives (length fs + S n) (mkWebSocketPort w stream r None false) in
  is_ = items fs c n /\ writer_told w (wp_writer p') c.
Proof.
  induction stream as [|item stream IH]; intros w r n Hg.
  { cbn [read_stream]. rewrite receives_pending_forever by (unfold websocket_recv; cbn; by rewrite Hg). done. }
  pose proof (ws_turn w r item stream Hg) as Hturn. cbv zeta in Hturn.
  (* a turn that hands nothing out *)
  assert (Hskip : forall r', websocket_recv (mkWebSocketPort w (item :: stream) r None false) =
      websocket_recv (mkWebSocketPort w stream r' None false) ->
    let '(fs, c) := read_stream r' stream in
    let '(p', is_) := receives (length fs + S n) (mkWebSocketPort w (item :: stream) r None false) in
    is_ = items fs c n /\ writer_told w (wp_writer p') c).
  { intros r' H. specialize (IH w r' n Hg). destruct (read_stream r' stream) as [fs c].
    rewrite Nat.add_succ_r in *. by rewrite (receives_turn _ _ _ H). }
  destruct item as [m|text| |]; cbn [read_stream]; try (by eapply receives_end).
  - destruct m as [b|text|b|b|frame|b]; cbn [on_message wp_reassembler wp_writer wp_stream wp_closure wp_terminal] in Hturn;
      try (by apply Hskip).
    + destruct (push_chunk r b) as [r' [[f|]|e]] eqn:Ep; [|by apply Hskip|].
      * specialize (IH w r' n Hg). destruct (read_stream r' stream) as [fs c].
        cbn [length Nat.add]. rewrite receives_S. change (port_recv ?p) with (websocket_recv p). rewrite Hturn.
        cbn [set_wp_stream wp_writer wp_reassembler wp_closure wp_terminal].
        destruct (receives (length fs + S n) _) as [p' is_]. destruct IH as [-> Hw]. by split.
      * eapply receives_end; [exact Hturn|done|]. apply socket_close_spec.
    + eapply receives_end; [exact Hturn|done|]. apply socket_close_spec.
    + eapply receives_end; [exact Hturn|done|]. apply peer_closure_told.
  - apply (receives_end n _ (mkWebSocketPort (mark_closed (set_gave_up w true)) stream r (Some gave_up_closure) false)); [|done|done].
    rewrite Hturn. unfold websocket_recv. cbn [wp_stream set_wp_stream set_wp_gave_up]. by destruct stream.
Qed.
End receive.

(** ** Properties *)

(** C30 (what a port hands out).  Whatever the socket's stream yields, and whenever the writer gives the
    peer up, the receive half hands out exactly the frames its reassembler completes, in order, then
    one closure with the code its cause asks for, then nothing for ever; a stream that has not ended
    leaves it waiting.  A peer's own close is reported with its code when that is in 4000..4999, with the
    reason it gave, and without any code otherwise.  After the closure no frame is reported as sent; a
    refused message has queued the farewell with its code and the close, any other end has queued
    nothing. *)
Theorem websocket_receives {RT : RustText} {SJ : SerdeJson} (o : WebSocketOptions) (stream : list StreamItem)
    (p : WebSocketPort) (n : nat) (f : Frame) :
  websocket_port stream o = Ok p ->
  exists fs c, stream_meaning (wp_reassembler p) stream fs c /\
  let '(p', received) := receives (length fs + S n) p in
  received = items fs c n /\ writer_told (wp_writer p) (wp_writer p') c /\
  (c <> None -> (port_send p' f).2 = SendClosed).
Proof.
  intros Hp. unfold websocket_port in Hp. apply result_bind_Ok in Hp as (r & Hr & [= <-]). cbn [wp_reassembler wp_writer].
  exists (read_stream r stream).1, (read_stream r stream).2. split; [apply read_stream_meaning|].
  pose proof (receives_stream stream (socket_writer_new o) r n eq_refl) as H.
  destruct (read_stream r stream) as [fs c]. cbn [fst snd]. destruct (receives _ _) as [p' is_]. destruct H as [Hi Hw].
  split; [done|]. split; [done|]. intros Hc. cbn. unfold websocket_send.
  rewrite send_frame_closed; [done|]. destruct c as [[]|]; [apply Hw|apply Hw|done].
Qed.

(** The close reason fits.  The reason of a native close frame is at most 123 bytes of well-formed
    UTF-8: the given one when it fits, and otherwise its longest well-formed prefix that does. *)
Theorem clamp_close_reason_fits (reason : string) :
  str_ok reason = true ->
  let b := to_bytes (clamp_close_reason reason) in
  (length b <= 123)%nat /\ is_utf8 b = true /\ b `prefix_of` to_bytes reason /\
  (forall p, p `prefix_of` to_bytes reason -> is_utf8 p = true -> (length p <= 123)%nat -> (length p <= length b)%nat).
Proof.
  unfold str_ok, clamp_close_reason, MAX_CLOSE_REASON_BYTES. intros Hok.
  destruct (Nat.leb_spec (length (to_bytes reason)) 123) as [Hle|Hgt].
  { cbv zeta. split; [done|]. split; [done|]. split; [done|]. intros p Hp _ _. by apply prefix_length. }
  cbv zeta. rewrite to_of_bytes. pose proof (floor_boundary_le (to_bytes reason) 123) as Hf.
  rewrite length_take. split; [lia|]. split.
  { apply take_boundary_utf8; [done|]. intros c. by apply floor_boundary_at. }
  split; [apply prefix_take|]. intros p [q Hq] Hp Hlen.
  destruct (Nat.le_gt_cases (length p) (floor_boundary (to_bytes reason) 123)) as [|Hlt]; [lia|].
  destruct (floor_boundary_max _ _ _ Hlen Hlt) as (c & Hc & Hcont). exfalso.
  rewrite Hq in Hok, Hc. rewrite is_utf8_app in Hok by done. rewrite lookup_app_r, Nat.sub_diag in Hc by lia.
  destruct q as [|d q]; [done|]. injection Hc as ->. by rewrite (is_utf8_first _ _ Hok) in Hcont.
Qed.

(** ** Witnesses *)

Definition small_options : WebSocketOptions :=
  {| wo_max_frame_bytes := 4096; wo_max_message_bytes := 2048; wo_send_close_frame := true |}.

(** A ping frame, the two chunks of a request, then the peer's own close. *)
Definition mixed_stream : list StreamItem :=
  StreamMessage (MPing []) :: map (fun b => StreamMessage (MBinary b)) bulk_messages ++
  [StreamMessage (MClose (Some (4401, "revoked"))); StreamEnd].

Definition mixed_port : WebSocketPort :=
  mkWebSocketPort (socket_writer_new small_options) mixed_stream fresh None false.

Lemma websocket_receives_witness : exists fs c, stream_meaning fresh mixed_stream fs c /\
  (receives (length fs + 2) mixed_port).2 = items fs c 1.
Proof.
  destruct (websocket_receives small_options mixed_stream mixed_port 1 FPing eq_refl) as (fs & c & Hm & H).
  exists fs, c. split; [exact Hm|]. destruct (receives _ mixed_port) as [p' received]. apply H.
Defined.

Lemma clamp_close_reason_fits_witness :
  (length (to_bytes (clamp_close_reason (of_bytes (replicate 200 "x"%char)))) <= 123)%nat.
Proof. refine (proj1 (clamp_close_reason_fits (of_bytes (replicate 200 "x"%char)) _)). vm_compute. reflexivity. Defined.
