(* ===== verification/Deadline.v ===== *)
(** * Connecting under a deadline

    [transports/deadline.rs]: the timeout and the cancellation token a dialling transport connects
    under, and the one error type dialling fails with.

    An attempt is any future: a state with a poll function.  The [select!] of [connect_within] is
    polled again each time something wakes it; a [Wake] is the instant of such a poll, with what the
    clock and the token say then.  Instants and durations are nanoseconds. *)

From S2P Require Import Prelude Port.
Local Open Scope Z_scope.

(** ** Errors of the operating system *)

(** The kinds of [std::io::Error] the crate tells apart. *)
Inductive ErrorKind : Type :=
| NotFound
| PermissionDenied
| ConnectionRefused
| AlreadyExists
| AddrInUse
| OtherKind (name : string).

Global Instance ErrorKind_eq_dec : EqDecision ErrorKind.
Proof. solve_decision. Defined.

Record IoError : Type := { io_kind : ErrorKind; io_text : string }.

(** ** Durations as text *)

(** [n] fractional digits of [frac] without trailing zeros, [div] being ten to the [n - 1]. *)
Fixpoint fraction_digits (n : nat) (frac div : Z) : string :=
  match n with
  | O => ""
  | S n => if frac =? 0 then "" else show_Z (frac / div) +:+ fraction_digits n (frac mod div) (div / 10)
  end.

Definition fmt_decimal (whole frac div : Z) (digits : nat) (suffix : string) : string :=
  show_Z whole +:+ (if frac =? 0 then "" else "." +:+ fraction_digits digits frac div) +:+ suffix.

(** [Duration]'s [Debug]: the largest unit that is not zero. *)
Definition fmt_duration (nanos : Z) : string :=
  if 1000000000 <=? nanos then fmt_decimal (nanos / 1000000000) (nanos mod 1000000000) 100000000 9 "s"
  else if 1000000 <=? nanos then fmt_decimal (nanos / 1000000) (nanos mod 1000000) 100000 6 "ms"
  else if 1000 <=? nanos then fmt_decimal (nanos / 1000) (nanos mod 1000) 100 3 "µs"
  else fmt_decimal nanos 0 1 0 "ns".

(** ** The deadline *)

(** The two bounds; the token is only known by what it says when it is asked. *)
Record ConnectDeadline : Type := { cd_timeout : option Z; cd_cancel : bool }.

Definition connect_deadline_default : ConnectDeadline := {| cd_timeout := None; cd_cancel := false |}.

Definition with_timeout (d : ConnectDeadline) (timeout : Z) : ConnectDeadline :=
  {| cd_timeout := Some timeout; cd_cancel := cd_cancel d |}.
Definition with_cancel (d : ConnectDeadline) : ConnectDeadline :=
  {| cd_timeout := cd_timeout d; cd_cancel := true |}.

Inductive ConnectError : Type :=
| CancelledConnect (target : string)
| TimedOut (target : string) (timeout : Z)
| IoConnect (error : IoError)
| RefusedConnect (target detail : string).

Definition show_connect_error (e : ConnectError) : string :=
  match e with
  | CancelledConnect target => "The connection to " +:+ target +:+ " was cancelled."
  | TimedOut target timeout =>
      "The connection to " +:+ target +:+ " timed out after " +:+ fmt_duration timeout +:+
      "; expected the peer to accept it."
  | IoConnect error => io_text error
  | RefusedConnect target detail => "The connection to " +:+ target +:+ " was refused: " +:+ detail
  end.

(** [Error::source] and [From<io::Error>]. *)
Definition connect_error_source (e : ConnectError) : option IoError :=
  match e with IoConnect error => Some error | _ => None end.
Definition connect_error_from (e : IoError) : ConnectError := IoConnect e.

(** ** The attempt *)

(** One poll of the [select!]: how long the attempt has been running, and whether the token has been
    cancelled. *)
Record Wake : Type := { wk_elapsed : Z; wk_cancelled : bool }.

(** The futures [cancelled] and [elapsed]: without a token or a timeout they never resolve. *)
Definition cancelled (d : ConnectDeadline) (k : Wake) : bool := cd_cancel d && wk_cancelled k.
Definition elapsed (d : ConnectDeadline) (k : Wake) : bool :=
  match cd_timeout d with Some timeout => timeout <=? wk_elapsed k | None => false end.

Section attempt.
Context {F T : Type} (poll_attempt : F -> F * poll (result T ConnectError)).

(** One poll of the biased [select!]: the attempt is polled only if nothing abandons it. *)
Definition connect_poll (target : string) (d : ConnectDeadline) (k : Wake) (f : F) :
    F * poll (result T ConnectError) :=
  if cancelled d k then (f, Polled (Err (CancelledConnect target)))
  else if elapsed d k then (f, Polled (Err (TimedOut target (default 0 (cd_timeout d)))))
  else poll_attempt f.

Fixpoint connect_within (target : string) (d : ConnectDeadline) (f : F) (wakes : list Wake) :
    F * poll (result T ConnectError) :=
  match wakes with
  | [] => (f, Pending)
  | k :: wakes =>
      match connect_poll target d k f with
      | (f, Pending) => connect_within target d f wakes
      | (f, Polled outcome) => (f, Polled outcome)
      end
  end.

(** The attempt polled [n] times. *)
Fixpoint polled (n : nat) (f : F) : F := match n with O => f | S n => polled n (poll_attempt f).1 end.

Definition abandons (d : ConnectDeadline) (k : Wake) : bool := cancelled d k || elapsed d k.

(** Nothing settled at the first [i] polls. *)
Definition quiet (d : ConnectDeadline) (f : F) (wakes : list Wake) (i : nat) : Prop :=
  forall j k, (j < i)%nat -> wakes !! j = Some k ->
    abandons d k = false /\ (poll_attempt (polled j f)).2 = Pending.

Lemma quiet_S d f k wakes i :
  abandons d k = false -> (poll_attempt f).2 = Pending -> quiet d (poll_attempt f).1 wakes i ->
  quiet d f (k :: wakes) (S i).
Proof. intros Ha Hp Hq [|j] k' Hj Hk; cbn in *; [by simplify_eq|]. apply (Hq j k'); [lia|done]. Qed.

(** Deadlines.  However a connection attempt is polled, it settles at the first poll at which its
    token is cancelled, its budget is spent or the attempt itself is ready, and at no earlier one:
    cancellation wins over the timeout and the timeout over the attempt, an abandoned attempt is not
    polled again (not even once when the caller had already given up), and its own outcome is passed
    on unchanged.  In particular a budget bounds every attempt, even one that is never ready. *)
Theorem connect_within_settles (target : string) (d : ConnectDeadline) (f : F) (wakes : list Wake) :
  match connect_within target d f wakes with
  | (f', Pending) => quiet d f wakes (length wakes) /\ f' = polled (length wakes) f
  | (f', Polled outcome) =>
      exists i k, wakes !! i = Some k /\ quiet d f wakes i /\
        if abandons d k
        then f' = polled i f /\
          outcome = Err (if cancelled d k then CancelledConnect target else TimedOut target (default 0 (cd_timeout d)))
        else poll_attempt (polled i f) = (f', Polled outcome)
  end.
Proof.
  revert f. induction wakes as [|k wakes IH]; intros f; cbn; [split; [intros [] k Hj; lia|done]|].
  unfold connect_poll.
  destruct (cancelled d k) eqn:Hc.
  { exists 0%nat, k. split; [done|]. split; [intros [] k' Hj; lia|]. unfold abandons. rewrite Hc. done. }
  destruct (elapsed d k) eqn:He.
  { exists 0%nat, k. split; [done|]. split; [intros [] k' Hj; lia|]. unfold abandons. rewrite Hc, He. done. }
  assert (abandons d k = false) as Ha by (unfold abandons; by rewrite Hc, He).
  destruct (poll_attempt f) as [f1 [|outcome]] eqn:Hp.
  - specialize (IH f1). assert ((poll_attempt f).2 = Pending) as Hpend by (by rewrite Hp).
    assert (f1 = (poll_attempt f).1) as Hf1 by (by rewrite Hp).
    destruct (connect_within target d f1 wakes) as [f' [|outcome]].
    + destruct IH as [Hq ->]. subst f1. split; [by apply quiet_S|done].
    + destruct IH as (i & k' & Hk & Hq & Hi). exists (S i), k'. subst f1. split; [done|]. split; [by apply quiet_S|done].
  - exists 0%nat, k. split; [done|]. split; [intros [] k' Hj; lia|]. by rewrite Ha.
Qed.
End attempt.
