(* ===== verification/Upgrade.v ===== *)
(** * The WebSocket upgrade

    [transports/websocket/server.rs] and [transports/websocket/client.rs]: what an acceptor decides
    at the upgrade (subprotocol, origin, credential) and what a dialler sends and requires.

    The HTTP types are the [http] crate's and the handshake is tungstenite's; both are parameters.
    [HeaderMap] is the map with the two laws its documentation gives for [insert], [HeaderText] the
    conversions between header values and strings: a value converts when it is visible ASCII, and a
    conversion never changes a byte. *)

From S2P Require Import Prelude Text Json Wire Frame Validate Limits Serde JsonText FrameJson Ndjson NdjsonProps Chunk Port NdjsonPort WebSocket Deadline.
Local Open Scope Z_scope.

(** ** Headers *)

Class HeaderMap (M : Type) : Type := {
  get_all : M -> string -> list bytes;
  header_insert : M -> string -> bytes -> M
}.

Class HeaderMapLaws (M : Type) `{HeaderMap M} : Prop := {
  get_all_insert (m : M) k v : get_all (header_insert m k v) k = [v];
  get_all_insert_ne (m : M) k k' v : k <> k' -> get_all (header_insert m k v) k' = get_all m k'
}.

(** [HeaderMap::get]: the first value. *)
Definition header_get {M} `{HeaderMap M} (m : M) (k : string) : option bytes := head (get_all m k).

Definition SEC_WEBSOCKET_PROTOCOL : string := "sec-websocket-protocol".
Definition AUTHORIZATION : string := "authorization".
Definition ORIGIN : string := "origin".

Definition visible (c : u8) : bool := in_range 32 126 (Z_of_byte c).
Definition visible_ascii (s : string) : bool := forallb visible (to_bytes s).

Class HeaderText : Type := {
  to_str : bytes -> option string;
  value_from_str : string -> option bytes;
  name_from_bytes : string -> option string
}.

Class HeaderTextLaws `{HeaderText} : Prop := {
  to_str_visible s : visible_ascii s = true -> to_str (to_bytes s) = Some s;
  to_str_exact b s : to_str b = Some s -> b = to_bytes s;
  value_visible s : visible_ascii s = true -> value_from_str s = Some (to_bytes s);
  value_exact s b : value_from_str s = Some b -> b = to_bytes s
}.

(** ** [server.rs] *)

Record AcceptOptions : Type := { ao_socket : WebSocketOptions; ao_allowed_origins : list string }.

Definition accept_options_from (socket : WebSocketOptions) : AcceptOptions :=
  {| ao_socket := socket; ao_allowed_origins := [] |}.
Definition with_allowed_origins (o : AcceptOptions) (origins : list string) : AcceptOptions :=
  {| ao_socket := ao_socket o; ao_allowed_origins := origins |}.

Definition is_origin_allowed (origin : option string) (allowed : list string) : bool :=
  match origin with
  | None => true
  | Some origin => existsb (fun entry => bool_decide (entry = origin)) allowed
  end.

Inductive AcceptError : Type :=
| AHandshake (detail : string)
| ASubprotocol
| AUnauthorized (code : Z)
| AOrigin (origin : string).

Definition show_accept_error {RT : RustText} (e : AcceptError) : string :=
  match e with
  | AHandshake detail => "the upgrade failed: " +:+ detail
  | ASubprotocol =>
      "the dialler did not offer the " +:+ fmt_debug WEBSOCKET_SUBPROTOCOL +:+
      " subprotocol; the socket was closed with " +:+ show_Z close_codes.PROTOCOL_ERROR
  | AUnauthorized code =>
      "the credential was refused; the socket was closed with " +:+ show_Z code +:+ " and no hello was sent"
  | AOrigin origin =>
      "the upgrade carried origin " +:+ fmt_debug origin +:+
      ", which this acceptor does not allow-list; the socket was closed with " +:+ show_Z close_codes.FORBIDDEN +:+
      " and no hello was sent"
  end.

Definition bearer_token (authorization : string) : option string :=
  match split_once " "%char authorization with
  | None => None
  | Some (scheme, token) =>
      if negb (eq_ignore_ascii_case scheme "Bearer") then None
      else let token := str_trim token in if bool_decide (token = "") then None else Some token
  end.

Record Upgrade : Type :=
  { up_offered_subprotocol : bool;
    up_bearer : option string;
    up_origin : option string;
    up_origin_undecodable : bool }.

Definition upgrade_default : Upgrade :=
  {| up_offered_subprotocol := false; up_bearer := None; up_origin := None; up_origin_undecodable := false |}.

Section http.
Context {RT : RustText} {M : Type} {HM : HeaderMap M} {HT : HeaderText}.

(** [Upgrade::read]. *)
Definition upgrade_read (headers : M) : Upgrade :=
  let offered := concat (map (str_split ","%char) (omap to_str (get_all headers SEC_WEBSOCKET_PROTOCOL))) in
  let origin_header := header_get headers ORIGIN in
  let origin := origin_header ≫= to_str in
  {| up_offered_subprotocol := existsb (fun s => bool_decide (str_trim s = WEBSOCKET_SUBPROTOCOL)) offered;
     up_bearer := (header_get headers AUTHORIZATION ≫= to_str) ≫= bearer_token;
     up_origin := origin;
     up_origin_undecodable := bool_decide (is_Some origin_header) && bool_decide (origin = None) |}.

(** What accepting did: the subprotocol it selected in its response, the upgrades it showed to
    [authorize], the close it sent, and its answer. *)
Record Accepted : Type :=
  { ac_selected : option string;
    ac_authorized : list Upgrade;
    ac_closed : option (Z * string);
    ac_answer : result WebSocketOptions AcceptError }.

(** [accept_websocket]; [handshake] is the request tungstenite read, or why it failed. *)
Definition accept_websocket (handshake : result M string) (o : AcceptOptions) (authorize : Upgrade -> result unit Z) :
    Accepted :=
  match handshake with
  | Err detail => {| ac_selected := None; ac_authorized := []; ac_closed := None; ac_answer := Err (AHandshake detail) |}
  | Ok request =>
      let upgrade := upgrade_read request in
      let selected := if up_offered_subprotocol upgrade then Some WEBSOCKET_SUBPROTOCOL else None in
      let refuse authorized code reason error :=
        {| ac_selected := selected; ac_authorized := authorized; ac_closed := Some (code, reason); ac_answer := Err error |} in
      if negb (up_offered_subprotocol upgrade)
      then refuse [] close_codes.PROTOCOL_ERROR "subprotocol not offered" ASubprotocol
      else if up_origin_undecodable upgrade || negb (is_origin_allowed (up_origin upgrade) (ao_allowed_origins o))
      then refuse [] close_codes.FORBIDDEN "origin not allowed"
             (AOrigin (if up_origin_undecodable upgrade then "<undecodable>" else default "" (up_origin upgrade)))
      else match authorize upgrade with
           | Err code => refuse [upgrade] code "credential refused" (AUnauthorized code)
           | Ok _ => {| ac_selected := selected; ac_authorized := [upgrade]; ac_closed := None; ac_answer := Ok (ao_socket o) |}
           end
  end.

(** ** [client.rs] *)

Record WebSocketConnectOptions : Type :=
  { co_bearer : option string; co_headers : list (string * string); co_websocket : WebSocketOptions }.

Definition connect_options_default : WebSocketConnectOptions :=
  {| co_bearer := None; co_headers := []; co_websocket := websocket_options_default |}.
Definition with_bearer (o : WebSocketConnectOptions) (token : string) : WebSocketConnectOptions :=
  {| co_bearer := Some token; co_headers := co_headers o; co_websocket := co_websocket o |}.
Definition with_header (o : WebSocketConnectOptions) (name value : string) : WebSocketConnectOptions :=
  {| co_bearer := co_bearer o; co_headers := co_headers o ++ [(name, value)]; co_websocket := co_websocket o |}.
Definition with_websocket (o : WebSocketConnectOptions) (websocket : WebSocketOptions) : WebSocketConnectOptions :=
  {| co_bearer := co_bearer o; co_headers := co_headers o; co_websocket := websocket |}.

(** A request: the scheme of its parsed URL and its headers.  [into_client_request] is tungstenite's. *)
Record Request : Type := { rq_scheme : string; rq_headers : M }.

Fixpoint add_headers (url : string) (headers : M) (more : list (string * string)) : result M ConnectError :=
  match more with
  | [] => Ok headers
  | (name, value) :: more =>
      match name_from_bytes name with
      | None => Err (RefusedConnect url (fmt_debug name +:+ " is not a header name"))
      | Some name =>
          match value_from_str value with
          | None => Err (RefusedConnect url ("the value of " +:+ fmt_debug name +:+ " is not a header value"))
          | Some value => add_headers url (header_insert headers name value) more
          end
      end
  end.

Definition build_request (into_client_request : string -> result Request string) (url : string)
    (o : WebSocketConnectOptions) : result Request ConnectError :=
  let? request := map_err (fun error => RefusedConnect url (error +:+ "; expected a ws:// or wss:// URL"))
                    (into_client_request url) in
  let headers := header_insert (rq_headers request) SEC_WEBSOCKET_PROTOCOL (to_bytes WEBSOCKET_SUBPROTOCOL) in
  let? headers :=
    match co_bearer o with
    | None => Ok headers
    | Some token =>
        match value_from_str ("Bearer " +:+ token) with
        | None => Err (RefusedConnect url "the bearer token is not a header value; expected visible ASCII")
        | Some value => Ok (header_insert headers AUTHORIZATION value)
        end
    end in
  let? headers := add_headers url headers (co_headers o) in
  Ok {| rq_scheme := rq_scheme request; rq_headers := headers |}.

(** tungstenite's errors, as far as the code tells them apart. *)
Inductive HandshakeFailure : Type :=
| HIo (error : IoError)
| HOther (text : string).

Definition handshake_error (url : string) (e : HandshakeFailure) : ConnectError :=
  match e with
  | HIo error => IoConnect {| io_kind := io_kind error; io_text := io_text error |}
  | HOther text => RefusedConnect url text
  end.

(** [tls_connector]; what rustls built once for the process is a parameter. *)
Definition tls_connector (built : result unit string) (target : string) : result unit ConnectError :=
  map_err (RefusedConnect target) built.

(** What a finished handshake leads to: the port's options, or the refusal after closing the socket. *)
Definition check_selected (url : string) (o : WebSocketConnectOptions) (response : M) :
    result WebSocketOptions ConnectError :=
  let selected := header_get response SEC_WEBSOCKET_PROTOCOL ≫= to_str in
  if negb (bool_decide (selected = Some WEBSOCKET_SUBPROTOCOL))
  then Err (RefusedConnect url ("the acceptor selected subprotocol " +:+
         match selected with Some s => "Some(" +:+ fmt_debug s +:+ ")" | None => "None" end +:+
         "; expected " +:+ fmt_debug WEBSOCKET_SUBPROTOCOL))
  else Ok (co_websocket o).

(** [connect_websocket].  [connect] is the handshake over a new connection as a future, [built] the
    TLS configuration, [wakes] the polls of the deadline. *)
Definition connect_websocket {F} (into_client_request : string -> result Request string) (built : result unit string)
    (connect : Request -> bool -> F) (poll_connect : F -> F * poll (result M HandshakeFailure))
    (url : string) (o : WebSocketConnectOptions) (d : ConnectDeadline) (wakes : list Wake) :
    poll (result WebSocketOptions ConnectError) :=
  match build_request into_client_request url o with
  | Err e => Polled (Err e)
  | Ok request =>
      let secure := bool_decide (rq_scheme request = "wss") in
      match (if secure then tls_connector built url else Ok tt) with
      | Err e => Polled (Err e)
      | Ok _ =>
          let attempt f :=
            let '(f, p) := poll_connect f in
            (f, match p with Pending => Pending | Polled r => Polled (map_err (handshake_error url) r) end) in
          match (connect_within attempt url d (connect request secure) wakes).2 with
          | Pending => Pending
          | Polled (Err e) => Polled (Err e)
          | Polled (Ok response) => Polled (check_selected url o response)
          end
      end
  end.
End http.
Arguments Request M : clear implicits.

(** ** Lemmas *)

Lemma visible_ascii_app s t : visible_ascii (s +:+ t) = visible_ascii s && visible_ascii t.
Proof. unfold visible_ascii. rewrite to_bytes_app. apply forallb_app. Qed.

Lemma bearer_token_reads token :
  str_trim token = token -> token <> "" -> bearer_token ("Bearer " +:+ token) = Some token.
Proof.
  intros Htrim Hne. unfold bearer_token, split_once.
  assert (to_bytes ("Bearer " +:+ token) = to_bytes "Bearer" ++ " "%char :: to_bytes token) as -> by done.
  rewrite split_once_at by (cbn; intros H; by repeat destruct H as [H|H]). cbn [option_map].
  rewrite !of_to_bytes. change (negb (eq_ignore_ascii_case "Bearer" "Bearer")) with false. cbv iota.
  rewrite Htrim. by rewrite bool_decide_false.
Qed.

Section upgrade.
Context {RT : RustText} {M : Type} {HM : HeaderMap M} {HML : HeaderMapLaws M} {HT : HeaderText} {HTL : HeaderTextLaws}.

(** Headers added under other names leave a header as it was. *)
Lemma add_headers_other url more : forall m,
  Forall (fun nv => exists n, name_from_bytes nv.1 = Some n /\ n <> SEC_WEBSOCKET_PROTOCOL /\ n <> AUTHORIZATION /\
    n <> ORIGIN /\ is_Some (value_from_str nv.2)) more ->
  exists m', add_headers url m more = Ok m' /\
    forall k, k = SEC_WEBSOCKET_PROTOCOL \/ k = AUTHORIZATION \/ k = ORIGIN -> get_all m' k = get_all m k.
Proof.
  induction more as [|[name value] more IH]; intros m H; cbn; [by exists m|].
  apply Forall_cons in H as [(n & Hn & H1 & H2 & H3 & [v Hv]) H]. cbn in Hn, Hv. rewrite Hn, Hv.
  destruct (IH (header_insert m n v) H) as (m' & Hm' & Hk). exists m'. split; [done|].
  intros k Hkk. rewrite (Hk k Hkk). apply get_all_insert_ne. naive_solver.
Qed.

(** The request offers the subprotocol in one of its headers, alone or in a list. *)
Definition offers (request : M) : Prop :=
  exists v s piece, In v (get_all request SEC_WEBSOCKET_PROTOCOL) /\ to_str v = Some s /\
    In piece (str_split ","%char s) /\ str_trim piece = WEBSOCKET_SUBPROTOCOL.

(** No origin at all, or the bytes of an entry of the list. *)
Definition origin_admitted (allowed : list string) (request : M) : Prop :=
  header_get request ORIGIN = None \/
  exists entry, In entry allowed /\ header_get request ORIGIN = Some (to_bytes entry) /\ to_str (to_bytes entry) = Some entry.

Lemma offered_iff request : up_offered_subprotocol (upgrade_read request) = true <-> offers request.
Proof.
  unfold offers. cbn [upgrade_read up_offered_subprotocol]. rewrite existsb_exists. split.
  - intros (piece & Hin & Hp). apply bool_decide_eq_true in Hp. apply in_concat in Hin as (pieces & Hps & Hin).
    apply in_map_iff in Hps as (s & <- & Hs). apply list_elem_of_In, list_elem_of_omap in Hs as (v & Hv & Hs).
    apply list_elem_of_In in Hv. by exists v, s, piece.
  - intros (v & s & piece & Hv & Hs & Hin & Hp). exists piece. split; [|by apply bool_decide_eq_true].
    apply in_concat. exists (str_split ","%char s). split; [|done]. apply in_map_iff. exists s. split; [done|].
    apply list_elem_of_In, list_elem_of_omap. exists v. split; [by apply list_elem_of_In|done].
Qed.

Lemma origin_iff allowed request :
  up_origin_undecodable (upgrade_read request) || negb (is_origin_allowed (up_origin (upgrade_read request)) allowed) = false <->
  origin_admitted allowed request.
Proof.
  unfold origin_admitted. cbn [upgrade_read up_origin up_origin_undecodable].
  destruct (header_get request ORIGIN) as [v|] eqn:Eh; cbn [mbind option_bind].
  - rewrite (bool_decide_true (is_Some _)) by eauto. rewrite andb_true_l.
    destruct (to_str v) as [s|] eqn:Es.
    + rewrite (bool_decide_false (Some s = None)) by done. cbn [orb is_origin_allowed]. rewrite negb_false_iff, existsb_exists. split.
      * intros (entry & Hin & He). apply bool_decide_eq_true in He. subst. right. exists s.
        pose proof (to_str_exact v s Es) as ->. by repeat split.
      * intros [?|(entry & Hin & [= ->] & Hs)]; [done|]. rewrite Es in Hs. injection Hs as ->.
        exists entry. split; [done|]. by apply bool_decide_eq_true.
    + rewrite bool_decide_true by done. cbn [orb]. split; [done|]. intros [?|(entry & _ & [= ->] & Hs)]; congruence.
  - rewrite (bool_decide_false (is_Some _)) by (by intros [? ?]). cbn. split; [by left|done].
Qed.
End upgrade.

(** ** Properties *)

(** C23 (admission).  An acceptor hands out a port exactly for an upgrade that offers [mango.v1], carries
    no [Origin] or byte for byte an allow-listed one, and whose credential is accepted; the
    subprotocol is selected exactly when it was offered.  The credential is looked at once, and only
    after the other two checks passed.  Every refusal of a completed upgrade says which check failed first
    and closes the socket with its code: 4400 when the subprotocol is not offered, 4403 when it is and
    the origin is not admitted, and the one the application chose when only the credential is refused. *)
Theorem accept_admits {M : Type} {HM : HeaderMap M} {HT : HeaderText} {HTL : HeaderTextLaws}
    (request : M) (o : AcceptOptions) (authorize : Upgrade -> result unit Z) :
  let a := accept_websocket (Ok request) o authorize in
  let upgrade := upgrade_read request in
  (forall s, ac_answer a = Ok s <->
     s = ao_socket o /\ offers request /\ origin_admitted (ao_allowed_origins o) request /\ authorize upgrade = Ok tt) /\
  (ac_selected a = Some WEBSOCKET_SUBPROTOCOL <-> offers request) /\
  (ac_authorized a = [] \/
   ac_authorized a = [upgrade] /\ offers request /\ origin_admitted (ao_allowed_origins o) request) /\
  match ac_answer a with
  | Ok _ => ac_closed a = None
  | Err ASubprotocol => ~ offers request /\ ac_closed a = Some (4400, "subprotocol not offered")
  | Err (AOrigin _) =>
      offers request /\ ~ origin_admitted (ao_allowed_origins o) request /\ ac_closed a = Some (4403, "origin not allowed")
  | Err (AUnauthorized code) =>
      offers request /\ origin_admitted (ao_allowed_origins o) request /\ authorize upgrade = Err code /\
      ac_closed a = Some (code, "credential refused")
  | Err (AHandshake _) => False
  end.
Proof.
  unfold accept_websocket. cbv zeta.
  pose proof (offered_iff request) as Hoff. pose proof (origin_iff (ao_allowed_origins o) request) as Hor.
  destruct (up_offered_subprotocol (upgrade_read request)); cbn [negb];
    [destruct (up_origin_undecodable _ || _); [|destruct (authorize (upgrade_read request)) as [[]|code] eqn:Ea]|];
    cbn [ac_answer ac_selected ac_authorized ac_closed];
    (split; [intros s; split; [intros [= <-]|intros (-> & ? & ? & ?)]; intuition congruence|]);
    (split; [intuition congruence|]); (split; [intuition auto|]); intuition congruence.
Qed.

(** A dial is read as it was meant.  A dialler's request, whatever other headers it adds, tells the
    acceptor exactly its subprotocol and its token; an acceptor that accepts that token admits it,
    selects the subprotocol, and the dialler takes the response as its port. *)
Theorem upgrade_roundtrip {RT : RustText} {M : Type} {HM : HeaderMap M} {HML : HeaderMapLaws M} {HT : HeaderText}
    {HTL : HeaderTextLaws} (into : string -> result (Request M) string) (url token : string) (fresh : Request M)
    (headers : list (string * string)) (ws : WebSocketOptions) (ao : AcceptOptions) (authorize : Upgrade -> result unit Z)
    (response : M) :
  into url = Ok fresh -> header_get (rq_headers fresh) ORIGIN = None ->
  visible_ascii token = true -> str_trim token = token -> token <> "" ->
  Forall (fun nv => exists n, name_from_bytes nv.1 = Some n /\ n <> SEC_WEBSOCKET_PROTOCOL /\ n <> AUTHORIZATION /\
    n <> ORIGIN /\ is_Some (value_from_str nv.2)) headers ->
  let o := {| co_bearer := Some token; co_headers := headers; co_websocket := ws |} in
  let seen := {| up_offered_subprotocol := true; up_bearer := Some token; up_origin := None; up_origin_undecodable := false |} in
  authorize seen = Ok tt ->
  exists request, build_request into url o = Ok request /\ rq_scheme request = rq_scheme fresh /\
    upgrade_read (rq_headers request) = seen /\
    accept_websocket (Ok (rq_headers request)) ao authorize =
      {| ac_selected := Some WEBSOCKET_SUBPROTOCOL; ac_authorized := [seen]; ac_closed := None; ac_answer := Ok (ao_socket ao) |} /\
    check_selected url o (header_insert response SEC_WEBSOCKET_PROTOCOL (to_bytes WEBSOCKET_SUBPROTOCOL)) = Ok ws.
Proof.
  intros Hinto Horigin Hvis Htrim Hne Hheaders o seen Hauth. unfold build_request. rewrite Hinto. cbn [map_err result_bind co_bearer co_headers o].
  assert (visible_ascii ("Bearer " +:+ token) = true) as Hb by (by rewrite visible_ascii_app, Hvis).
  rewrite (value_visible _ Hb). cbn [result_bind].
  destruct (add_headers_other url headers (header_insert (header_insert (rq_headers fresh) SEC_WEBSOCKET_PROTOCOL
    (to_bytes WEBSOCKET_SUBPROTOCOL)) AUTHORIZATION (to_bytes ("Bearer " +:+ token))) Hheaders) as (m & Hm & Hk).
  rewrite Hm. cbn [result_bind]. eexists. split; [done|]. split; [done|]. cbn [rq_headers].
  assert (Hproto : get_all m SEC_WEBSOCKET_PROTOCOL = [to_bytes WEBSOCKET_SUBPROTOCOL]).
  { rewrite Hk by auto. rewrite get_all_insert_ne by done. apply get_all_insert. }
  assert (Hread : upgrade_read m = seen).
  { unfold upgrade_read, header_get. rewrite Hproto, (Hk AUTHORIZATION) by auto. rewrite get_all_insert, (Hk ORIGIN) by auto.
    rewrite !get_all_insert_ne by done. unfold header_get in Horigin. rewrite Horigin. cbn [omap list_omap head].
    rewrite (to_str_visible WEBSOCKET_SUBPROTOCOL) by done. cbn [mbind option_bind]. rewrite (to_str_visible _ Hb).
    cbn [mbind option_bind]. rewrite (bearer_token_reads token Htrim Hne). done. }
  split; [done|]. split.
  - unfold accept_websocket. rewrite Hread. cbn. by rewrite Hauth.
  - unfold check_selected, header_get. rewrite get_all_insert. cbn [head mbind option_bind].
    rewrite (to_str_visible WEBSOCKET_SUBPROTOCOL) by done. done.
Qed.

(** ** Witnesses *)

(** A map with its laws: the values in order, and strings that are visible ASCII. *)
Global Instance list_headers : HeaderMap (list (string * bytes)) := {|
  get_all m k := map snd (filter (fun e => e.1 = k) m);
  header_insert m k v := filter (fun e => e.1 <> k) m ++ [(k, v)]
|}.

Global Instance list_headers_laws : HeaderMapLaws (list (string * bytes)).
Proof.
  split.
  - intros m k v. change (map snd (filter (fun e => e.1 = k) (filter (fun e => e.1 <> k) m ++ [(k, v)])) = [v]).
    induction m as [|[j w] m IH]; [by rewrite filter_nil, app_nil_l, filter_cons_True|]. destruct (decide (j = k)).
    + by rewrite (filter_cons_False (fun e => e.1 <> k)) by (cbn; tauto).
    + rewrite (filter_cons_True (fun e => e.1 <> k)) by done. cbn [app].
      by rewrite (filter_cons_False (fun e => e.1 = k)) by done.
  - intros m k k' v Hne.
    change (map snd (filter (fun e => e.1 = k') (filter (fun e => e.1 <> k) m ++ [(k, v)])) = map snd (filter (fun e => e.1 = k') m)).
    rewrite filter_app, (filter_cons_False _ (k, v)), filter_nil, app_nil_r by done. f_equal.
    induction m as [|[j w] m IH]; [done|]. destruct (decide (j = k)).
    + rewrite (filter_cons_False (fun e => e.1 <> k)) by (cbn; tauto).
      by rewrite IH, (filter_cons_False (fun e => e.1 = k')) by (cbn; congruence).
    + rewrite (filter_cons_True (fun e => e.1 <> k)) by done. destruct (decide (j = k')).
      * by rewrite !(filter_cons_True (fun e => e.1 = k')), IH by done.
      * by rewrite !(filter_cons_False (fun e => e.1 = k')), IH by done.
Qed.

Global Instance ascii_headers : HeaderText := {|
  to_str b := if forallb visible b then Some (of_bytes b) else None;
  value_from_str s := if visible_ascii s then Some (to_bytes s) else None;
  name_from_bytes s := if visible_ascii s then Some (ascii_lowercase s) else None
|}.

Global Instance ascii_headers_laws : HeaderTextLaws.
Proof.
  split; cbn; unfold visible_ascii; intros; repeat case_match; simplify_eq; rewrite ?of_to_bytes, ?to_of_bytes; congruence.
Qed.

(** A page of another site and a native dialler with a good token. *)
Definition hub : AcceptOptions :=
  {| ao_socket := websocket_options_default; ao_allowed_origins := ["https://app.example"] |}.

Definition check_token (u : Upgrade) : result unit Z :=
  if bool_decide (up_bearer u = Some "s3cret") then Ok tt else Err close_codes.UNAUTHORIZED.

Definition native_request : list (string * bytes) :=
  [(SEC_WEBSOCKET_PROTOCOL, to_bytes "chat, mango.v1"); (AUTHORIZATION, to_bytes "bearer s3cret")].

Lemma accept_admits_witness : ac_answer (accept_websocket (Ok native_request) hub check_token) = Ok websocket_options_default.
Proof.
  apply (accept_admits native_request hub check_token). split; [reflexivity|]. split; [|split; [left; reflexivity|reflexivity]].
  exists (to_bytes "chat, mango.v1"), "chat, mango.v1", " mango.v1". split; [left; reflexivity|].
  split; [reflexivity|]. split; [right; left; reflexivity|reflexivity].
Defined.

Definition fresh_request : Request (list (string * bytes)) := {| rq_scheme := "ws"; rq_headers := [("host", to_bytes "hub")] |}.

Lemma upgrade_roundtrip_witness : exists request,
  build_request (fun _ => Ok fresh_request) "ws://hub"
    {| co_bearer := Some "s3cret"; co_headers := [("X-Tenant", "acme")]; co_websocket := websocket_options_default |} = Ok request /\
  up_bearer (upgrade_read (rq_headers request)) = Some "s3cret".
Proof.
  destruct (upgrade_roundtrip (fun _ => Ok fresh_request) "ws://hub" "s3cret" fresh_request [("X-Tenant", "acme")]
    websocket_options_default hub check_token []) as (request & H1 & _ & H2 & _).
  - reflexivity.
  - reflexivity.
  - reflexivity.
  - reflexivity.
  - discriminate.
  - apply Forall_cons. split; [|apply Forall_nil; exact I].
    exists "x-tenant". split; [reflexivity|]. repeat split; try discriminate. eexists. reflexivity.
  - reflexivity.
  - exists request. split; [exact H1|]. rewrite H2. reflexivity.
Defined.
