(* ===== verification/Spawn.v ===== *)
(** * The launcher

    [transports/spawn.rs]: starting a child process, the environment it gets, the bounded tail of its
    stderr, the sequence that ends it, and the port over its pipes.

    The operating system is a parameter: spawning is a function of the command, and the child's
    behaviour is the actions of a run ([SpawnAction]).  The launcher's tasks are the reaper, which
    owns the child, and the escalation, which runs the termination sequence; [Launch] is what they
    and the handles share.  Time is a clock in nanoseconds that an action moves on. *)

From S2P Require Import Prelude Text Json Wire Frame Validate Limits Serde JsonText FrameJson Ndjson NdjsonProps Port NdjsonPort NdjsonPortProps Deadline.
Local Open Scope Z_scope.

Definition DEFAULT_STDERR_TAIL_BYTES : Z := 16 * 1024.
Definition seconds (n : Z) : Z := n * 1000000000.
Definition DEFAULT_TERMINATE_GRACE : Z := seconds 2.
Definition DEFAULT_KILL_GRACE : Z := seconds 2.
Definition DEFAULT_EXIT_GRACE : Z := seconds 2.
Definition DEFAULT_START_ERROR_GRACE : Z := 250 * 1000000.

Definition ENV_ALLOWLIST : list string :=
  ["PATH"; "HOME"; "USERPROFILE"; "SYSTEMROOT"; "TEMP"; "TMP"; "TMPDIR"; "LANG"; "TERM"; "SHELL"; "XDG_RUNTIME_DIR"].
Definition LOCALE_PREFIX : string := "LC_".
Definition SECRET_SUFFIXES : list string := ["_TOKEN"; "_SECRET"; "_KEY"].
Definition SECRET_SUBSTRING : string := "PASSWORD".

(** ** How a child ends *)

Record ExitStatus : Type := { es_code : option Z; es_signal : option Z }.

Global Instance ExitStatus_eq_dec : EqDecision ExitStatus.
Proof. solve_decision. Defined.

Definition exit_status_default : ExitStatus := {| es_code := None; es_signal := None |}.

Definition signal_name (signal : Z) : option string :=
  match signal with
  | 1 => Some "SIGHUP"
  | 2 => Some "SIGINT"
  | 3 => Some "SIGQUIT"
  | 6 => Some "SIGABRT"
  | 9 => Some "SIGKILL"
  | 13 => Some "SIGPIPE"
  | 15 => Some "SIGTERM"
  | _ => None
  end.

Definition show_exit_status (s : ExitStatus) : string :=
  match es_code s, es_signal s with
  | Some code, _ => "exit status " +:+ show_Z code
  | None, Some signal =>
      match signal_name signal with
      | Some name => "killed by " +:+ name
      | None => "killed by signal " +:+ show_Z signal
      end
  | None, None => "no exit status at all"
  end.

(** The status of [std::process], whose signal only POSIX has. *)
Definition exit_status (unix : bool) (code signal : option Z) : ExitStatus :=
  {| es_code := code; es_signal := if unix then signal else None |}.

Record SpawnStartError : Type :=
  { se_exit : option ExitStatus; se_spawn_error : option ErrorKind; se_stderr_line : string }.

Record SpawnArgvError : Type := { sa_argv : list string }.

Fixpoint join (sep : string) (ws : list string) : string :=
  match ws with [] => "" | [w] => w | w :: ws => w +:+ sep +:+ join sep ws end.

Definition show_argv_error {RT : RustText} (e : SpawnArgvError) : string :=
  "spawn argv is [" +:+ join ", " (map fmt_debug (sa_argv e)) +:+
  "]; expected [command, ...args] with a non-empty command".

(** [last_non_empty_line]. *)
Definition last_non_empty_line (text : string) : option string :=
  find (fun line => negb (bool_decide (line = ""))) (map str_trim (rev (str_lines text))).

(** ** Options *)

Record SpawnOptions : Type :=
  { so_argv : list string;
    so_cwd : option string;
    so_env : option (gmap string string);
    so_max_frame_bytes : option Z;
    so_stderr_tail_bytes : Z;
    so_terminate_grace : Z;
    so_kill_grace : Z;
    so_exit_grace : Z;
    so_on_stderr : bool;
    so_windows_hide : bool }.

Definition spawn_options_new (argv : list string) : SpawnOptions :=
  {| so_argv := argv; so_cwd := None; so_env := None; so_max_frame_bytes := None;
     so_stderr_tail_bytes := DEFAULT_STDERR_TAIL_BYTES; so_terminate_grace := DEFAULT_TERMINATE_GRACE;
     so_kill_grace := DEFAULT_KILL_GRACE; so_exit_grace := DEFAULT_EXIT_GRACE; so_on_stderr := false;
     so_windows_hide := true |}.

Definition with_cwd (o : SpawnOptions) (cwd : string) : SpawnOptions :=
  {| so_argv := so_argv o; so_cwd := Some cwd; so_env := so_env o; so_max_frame_bytes := so_max_frame_bytes o;
     so_stderr_tail_bytes := so_stderr_tail_bytes o; so_terminate_grace := so_terminate_grace o;
     so_kill_grace := so_kill_grace o; so_exit_grace := so_exit_grace o; so_on_stderr := so_on_stderr o;
     so_windows_hide := so_windows_hide o |}.

Definition with_env (o : SpawnOptions) (env : gmap string string) : SpawnOptions :=
  {| so_argv := so_argv o; so_cwd := so_cwd o; so_env := Some env; so_max_frame_bytes := so_max_frame_bytes o;
     so_stderr_tail_bytes := so_stderr_tail_bytes o; so_terminate_grace := so_terminate_grace o;
     so_kill_grace := so_kill_grace o; so_exit_grace := so_exit_grace o; so_on_stderr := so_on_stderr o;
     so_windows_hide := so_windows_hide o |}.

Definition so_with_max_frame_bytes (o : SpawnOptions) (max_frame_bytes : Z) : panics SpawnOptions :=
  let? m := check_max_frame_bytes max_frame_bytes in
  Ok {| so_argv := so_argv o; so_cwd := so_cwd o; so_env := so_env o; so_max_frame_bytes := Some m;
        so_stderr_tail_bytes := so_stderr_tail_bytes o; so_terminate_grace := so_terminate_grace o;
        so_kill_grace := so_kill_grace o; so_exit_grace := so_exit_grace o; so_on_stderr := so_on_stderr o;
        so_windows_hide := so_windows_hide o |}.

Definition with_exit_grace (o : SpawnOptions) (exit_grace : Z) : SpawnOptions :=
  {| so_argv := so_argv o; so_cwd := so_cwd o; so_env := so_env o; so_max_frame_bytes := so_max_frame_bytes o;
     so_stderr_tail_bytes := so_stderr_tail_bytes o; so_terminate_grace := so_terminate_grace o;
     so_kill_grace := so_kill_grace o; so_exit_grace := exit_grace; so_on_stderr := so_on_stderr o;
     so_windows_hide := so_windows_hide o |}.

Definition with_on_stderr (o : SpawnOptions) : SpawnOptions :=
  {| so_argv := so_argv o; so_cwd := so_cwd o; so_env := so_env o; so_max_frame_bytes := so_max_frame_bytes o;
     so_stderr_tail_bytes := so_stderr_tail_bytes o; so_terminate_grace := so_terminate_grace o;
     so_kill_grace := so_kill_grace o; so_exit_grace := so_exit_grace o; so_on_stderr := true;
     so_windows_hide := so_windows_hide o |}.

(** ** The environment *)

Definition is_secret_shaped (upper : string) : bool :=
  existsb (fun suffix => str_ends_with suffix upper) SECRET_SUFFIXES || str_contains SECRET_SUBSTRING upper.

(** The variables that can be spelled as UTF-8; an [OsString] is its bytes. *)
Definition utf8_vars (source : list (bytes * bytes)) : list (string * string) :=
  omap (fun '(name, value) => if is_utf8 name && is_utf8 value then Some (of_bytes name, of_bytes value) else None) source.

(** [BTreeMap::extend]: a later entry replaces an earlier one. *)
Definition extend (m : gmap string string) (entries : list (string * string)) : gmap string string :=
  foldl (fun m '(name, value) => <[name := value]> m) m entries.

Section environment.
Context {UC : UnicodeCase}.

Definition env_kept (name : string) : bool :=
  let upper := to_uppercase name in
  (existsb (fun allowed => bool_decide (allowed = upper)) ENV_ALLOWLIST || str_starts_with LOCALE_PREFIX upper) &&
  negb (is_secret_shaped upper).

(** The body of the loop: two reasons to [continue], and the insertion. *)
Definition keep_var (kept : gmap string string) (entry : string * string) : gmap string string :=
  let '(name, value) := entry in
  let upper := to_uppercase name in
  if negb (existsb (fun allowed => bool_decide (allowed = upper)) ENV_ALLOWLIST) && negb (str_starts_with LOCALE_PREFIX upper)
  then kept
  else if is_secret_shaped upper then kept
  else <[name := value]> kept.

Definition sanitized_env_from (source extra : list (string * string)) : gmap string string :=
  extend (foldl keep_var ∅ source) extra.

(** [vars_os] is the process's own environment. *)
Definition sanitized_env (vars_os : list (bytes * bytes)) (extra : list (string * string)) : gmap string string :=
  sanitized_env_from (utf8_vars vars_os) extra.

(** ** Starting *)

(** What [tokio::process::Command] is told. *)
Record SpawnCommand : Type :=
  { sc_program : string;
    sc_args : list string;
    sc_env : gmap string string;
    sc_cwd : option string;
    sc_no_window : bool }.

Definition start (windows : bool) (vars_os : list (bytes * bytes)) (command : string) (o : SpawnOptions) : SpawnCommand :=
  {| sc_program := command;
     sc_args := tail (so_argv o);
     sc_env := match so_env o with Some env => env | None => sanitized_env vars_os [] end;
     sc_cwd := so_cwd o;
     sc_no_window := windows && so_windows_hide o |}.
End environment.

(** ** The stderr tail *)

Record BoundedTail : Type := { bt_bytes : bytes; bt_limit : Z }.

Definition bounded_tail_new (limit : Z) : BoundedTail := {| bt_bytes := []; bt_limit := Z.max limit 1 |}.

Definition tail_append (t : BoundedTail) (chunk : bytes) : BoundedTail :=
  let b := bt_bytes t ++ chunk in
  if bt_limit t <? len b
  then {| bt_bytes := drop (Z.to_nat (len b - bt_limit t)) b; bt_limit := bt_limit t |}
  else {| bt_bytes := b; bt_limit := bt_limit t |}.

Definition tail_text {RT : RustText} (t : BoundedTail) : string := from_utf8_lossy (bt_bytes t).

Definition append_line (t : BoundedTail) (text : string) : BoundedTail :=
  tail_append t (line_feed :: to_bytes text ++ [line_feed]).

(** [drain_stderr]: reads until the end of the file or a failure; the tail, and the chunks handed to
    the caller's own reader. *)
Fixpoint drain_stderr (t : BoundedTail) (on_stderr : bool) (reads : list ReadOutcome) : BoundedTail * list bytes :=
  match reads with
  | [] => (t, [])
  | ReadErr _ :: _ => (t, [])
  | ReadOk [] :: _ => (t, [])
  | ReadOk b :: reads =>
      let '(t, seen) := drain_stderr (tail_append t b) on_stderr reads in
      (t, if on_stderr then b :: seen else seen)
  end.

(** ** Ending the child *)

Inductive KillRequest : Type := Terminate | Kill.

Global Instance KillRequest_eq_dec : EqDecision KillRequest.
Proof. solve_decision. Defined.

Inductive Signal : Type := SIGTERM | SIGKILL.

Global Instance Signal_eq_dec : EqDecision Signal.
Proof. solve_decision. Defined.

(** What a request delivers: POSIX asks first, if the process id is one [kill] can name; Windows only
    terminates. *)
Definition terminate_gently (unix : bool) (pid : Z) : option Signal :=
  if unix then (if pid <=? 2147483647 then Some SIGTERM else None) else Some SIGKILL.
Definition deliver (unix : bool) (pid : Z) (request : KillRequest) : option Signal :=
  match request with
  | Kill => Some SIGKILL
  | Terminate => terminate_gently unix pid
  end.

Inductive TerminationOutcome : Type :=
| TPending
| TExited (status : ExitStatus)
| TGaveUp.

(** Where the escalation is: not started, about to be polled first, or waiting for the exit until the
    instant its grace ends. *)
Inductive Escalation : Type :=
| EIdle
| EReady
| EStdin (until : Z)
| ETerm (until : Z)
| EKill (until : Z)
| EFinished.

(** What the launcher's tasks and handles share about one child. *)
Record Launch : Type := mkLaunch
  { la_unix : bool;
    la_pid : option Z;
    la_graces : Z * Z * Z;
    la_now : Z;
    la_child : option ExitStatus;        (* the operating system's view: how it ended, if it did *)
    la_signals : list Signal;            (* what was delivered to it *)
    la_kill : channel KillRequest;
    la_reaper : bool;                    (* the reaper task still owns the child *)
    la_exit : option ExitStatus;         (* the exit watch *)
    la_started : bool;
    la_escalation : Escalation;
    la_log : list (Z * KillRequest);     (* when the escalation asked for what *)
    la_outcome : TerminationOutcome }.

Definition launch_new (unix : bool) (pid : Z) (terminate_grace kill_grace exit_grace : Z) : Launch :=
  mkLaunch unix (Some pid) (terminate_grace, kill_grace, exit_grace) 0 None [] unbounded_channel true None false EIdle [] TPending.

(** [Terminator::unspawned] and the exit the launch path put on the watch. *)
Definition launch_unspawned (unix : bool) : Launch :=
  mkLaunch unix None (0, 0, 0) 0 None [] unbounded_channel false (Some exit_status_default) true EIdle []
    (TExited exit_status_default).

Definition set_kill (l : Launch) (c : channel KillRequest) : Launch :=
  mkLaunch (la_unix l) (la_pid l) (la_graces l) (la_now l) (la_child l) (la_signals l) c (la_reaper l) (la_exit l)
    (la_started l) (la_escalation l) (la_log l) (la_outcome l).
Definition set_escalation (l : Launch) (e : Escalation) (outcome : TerminationOutcome) : Launch :=
  mkLaunch (la_unix l) (la_pid l) (la_graces l) (la_now l) (la_child l) (la_signals l) (la_kill l) (la_reaper l) (la_exit l)
    (la_started l) e (la_log l) outcome.

(** [Terminator::start]: once, in the background. *)
Definition terminator_start (l : Launch) : Launch :=
  if la_started l then l
  else mkLaunch (la_unix l) (la_pid l) (la_graces l) (la_now l) (la_child l) (la_signals l) (la_kill l) (la_reaper l)
         (la_exit l) true EReady (la_log l) (la_outcome l).

(** [kill.send(request)] by the escalation. *)
Definition ask (l : Launch) (request : KillRequest) (e : Escalation) : Launch :=
  mkLaunch (la_unix l) (la_pid l) (la_graces l) (la_now l) (la_child l) (la_signals l)
    (ch_send (la_kill l) request).1 (la_reaper l) (la_exit l) (la_started l) e (la_log l ++ [(la_now l, request)]) (la_outcome l).

(** One poll of [escalate]: the exit is looked at before the grace, and a step that begins a wait looks
    at it once more. *)
Definition escalate_poll (l : Launch) : Launch :=
  let '(terminate_grace, kill_grace, exit_grace) := la_graces l in
  let wait until later :=
    match la_exit l with
    | Some status => set_escalation l EFinished (TExited status)
    | None => if until <=? la_now l then later else l
    end in
  match la_escalation l with
  | EIdle | EFinished => l
  | EReady =>
      match la_exit l with
      | Some status => set_escalation l EFinished (TExited status)
      | None => set_escalation l (EStdin (la_now l + terminate_grace)) (la_outcome l)
      end
  | EStdin until => wait until (ask l Terminate (ETerm (la_now l + kill_grace)))
  | ETerm until => wait until (ask l Kill (EKill (la_now l + exit_grace)))
  | EKill until => wait until (set_escalation l EFinished TGaveUp)
  end.

(** The reaper: the exit goes on the watch and ends it; a request is delivered.  The two branches of
    its [select!] are two functions, either may win. *)
Definition reap_exit (l : Launch) : Launch :=
  match la_reaper l, la_child l with
  | true, Some status =>
      mkLaunch (la_unix l) (la_pid l) (la_graces l) (la_now l) (la_child l) (la_signals l) (drop_receiver (la_kill l)) false
        (Some status) (la_started l) (la_escalation l) (la_log l) (la_outcome l)
  | _, _ => l
  end.

Definition reap_signal (l : Launch) : Launch :=
  if la_reaper l then
    match ch_recv (la_kill l) with
    | (kill, Polled (Some request)) =>
        let signal := deliver (la_unix l) (default 0 (la_pid l)) request in
        mkLaunch (la_unix l) (la_pid l) (la_graces l) (la_now l) (la_child l)
          (la_signals l ++ match signal with Some s => [s] | None => [] end) kill true (la_exit l)
          (la_started l) (la_escalation l) (la_log l) (la_outcome l)
    | _ => l
    end
  else l.

(** [LaunchedPeer::kill]. *)
Definition peer_kill (l : Launch) : Launch := set_kill l (ch_send (la_kill l) Kill).1.

(** [LaunchedPeer::terminate] starts the sequence and then answers once it has settled: its own status,
    or what the watch says now. *)
Definition terminate_poll (l : Launch) : poll (option ExitStatus) :=
  match la_outcome l with
  | TPending => Pending
  | TExited status => Polled (Some status)
  | TGaveUp => Polled (la_exit l)
  end.

(** [LaunchedPeer::exited] waits for the watch, without a deadline. *)
Definition exited_poll (l : Launch) : poll ExitStatus :=
  match la_exit l with Some status => Polled status | None => Pending end.

(** [LaunchedPeer::start_error], once the exit has landed or the grace has run out. *)
Definition start_error {RT : RustText} (l : Launch) (tail : BoundedTail) (spawn_error : option ErrorKind) : SpawnStartError :=
  {| se_exit := la_exit l; se_spawn_error := spawn_error;
     se_stderr_line := default "" (last_non_empty_line (tail_text tail)) |}.

Inductive SpawnAction : Type :=
| SExit (status : ExitStatus)       (* the child ends *)
| STime (d : Z)                     (* time passes *)
| SStart                            (* a port ends, or [terminate] is called *)
| SEscalate                         (* the escalation task is polled *)
| SReapExit
| SReapSignal
| SKill.                            (* [LaunchedPeer::kill] *)

Definition spawn_act (l : Launch) (a : SpawnAction) : Launch :=
  match a with
  | SExit status =>
      match la_child l, la_reaper l with
      | None, true =>
          mkLaunch (la_unix l) (la_pid l) (la_graces l) (la_now l) (Some status) (la_signals l) (la_kill l) true (la_exit l)
            (la_started l) (la_escalation l) (la_log l) (la_outcome l)
      | _, _ => l
      end
  | STime d =>
      mkLaunch (la_unix l) (la_pid l) (la_graces l) (la_now l + Z.max 0 d) (la_child l) (la_signals l) (la_kill l) (la_reaper l)
        (la_exit l) (la_started l) (la_escalation l) (la_log l) (la_outcome l)
  | SStart => terminator_start l
  | SEscalate => escalate_poll l
  | SReapExit => reap_exit l
  | SReapSignal => reap_signal l
  | SKill => peer_kill l
  end.

Definition spawn_run (l : Launch) (acts : list SpawnAction) : Launch := foldl spawn_act l acts.

(** ** The port *)

Record SpawnPort (W : Type) : Type := mkSpawnPort
  { sp_inner : option (NdjsonPort W); sp_closure : option string; sp_launch : Launch }.
Arguments mkSpawnPort {W}.
Arguments sp_inner {W} s.
Arguments sp_closure {W} s.
Arguments sp_launch {W} s.

Section port.
Context {RT : RustText} {SJ : SerdeJson} {UC : UnicodeCase} {W : Type} {AW : AsyncWrite W}.

Definition spawn_live (port : NdjsonPort W) (l : Launch) : SpawnPort W := mkSpawnPort (Some port) None l.
Definition spawn_unspawned (why : string) (l : Launch) : SpawnPort W :=
  mkSpawnPort None (Some (if bool_decide (why = "") then "the child process never started" else why)) l.

Definition spawn_max_frame_bytes (p : SpawnPort W) : option Z :=
  match sp_inner p with Some port => Some (np_max port) | None => None end.

Definition spawn_send (p : SpawnPort W) (f : Frame) : SpawnPort W * SendOutcome :=
  match sp_inner p with
  | Some inner => let '(inner, answer) := ndjson_send inner f in (mkSpawnPort (Some inner) (sp_closure p) (sp_launch p), answer)
  | None => (p, SendClosed)
  end.

(** The farewell and the end of the child's stdin, then the termination sequence. *)
Definition spawn_close (p : SpawnPort W) (code : Z) (reason : option string) : SpawnPort W :=
  mkSpawnPort (option_map (fun inner => ndjson_close inner code reason) (sp_inner p)) (sp_closure p)
    (terminator_start (sp_launch p)).

Definition spawn_recv (p : SpawnPort W) : SpawnPort W * poll (option Inbound) :=
  match sp_inner p with
  | None =>
      (mkSpawnPort None None (sp_launch p),
       Polled (option_map (fun why => IClosed (PClosed None (Some why))) (sp_closure p)))
  | Some inner =>
      let '(inner, item) := ndjson_recv inner in
      (mkSpawnPort (Some inner) (sp_closure p)
         (match item with Polled (Some (IClosed _)) => terminator_start (sp_launch p) | _ => sp_launch p end), item)
  end.

Global Instance spawn_tx : PortTx (SpawnPort W) := {| port_send := spawn_send; port_close := spawn_close |}.
Global Instance spawn_rx : PortRx (SpawnPort W) := {| port_recv := spawn_recv |}.

(** What [spawn_port] hands out, next to the port: the peer's process id, its stderr tail, and why the
    command never became a process. *)
Record Spawned : Type :=
  { sd_port : SpawnPort W; sd_pid : option Z; sd_tail : BoundedTail; sd_spawn_error : option ErrorKind;
    sd_command : option SpawnCommand }.

(** [spawn_port].  [os_spawn] is what the operating system does with the command, in the state [os] it
    is in: a process id with the child's pipes, or an error. *)
Definition spawn_port {OS : Type} (unix : bool) (vars_os : list (bytes * bytes))
    (os_spawn : OS -> SpawnCommand -> OS * result (Z * list ReadOutcome * W) IoError) (o : SpawnOptions) (os : OS) :
    OS * panics (result Spawned SpawnArgvError) :=
  match match so_max_frame_bytes o with Some limit => check_max_frame_bytes limit | None => Ok 0 end with
  | Err message => (os, Err message)
  | Ok _ =>
      let refused := (os, Ok (Err {| sa_argv := so_argv o |})) in
      match so_argv o with
      | [] => refused
      | command :: _ =>
          if bool_decide (command = "") then refused
          else
            let tail := bounded_tail_new (so_stderr_tail_bytes o) in
            let cmd := start (negb unix) vars_os command o in
            let '(os, launch) := os_spawn os cmd in
            match launch with
            | Err error =>
                let tail := append_line tail (io_text error) in
                (os, Ok (Ok {| sd_port := spawn_unspawned (str_trim (tail_text tail)) (launch_unspawned unix); sd_pid := None;
                               sd_tail := tail; sd_spawn_error := Some (io_kind error); sd_command := None |}))
            | Ok (pid, stdout, stdin) =>
                (os,
                 let? port := ndjson_port_new stdout stdin (default DEFAULT_MAX_FRAME_BYTES (so_max_frame_bytes o)) in
                 Ok (Ok {| sd_port := spawn_live port (launch_new unix pid (so_terminate_grace o) (so_kill_grace o) (so_exit_grace o));
                           sd_pid := Some pid; sd_tail := tail; sd_spawn_error := None; sd_command := Some cmd |}))
            end
      end
  end.
End port.
Arguments Spawned W : clear implicits.
