(* ===== verification/SpawnProps.v ===== *)
(** * What the launcher promises

    What a child may see of the environment, what is kept of its stderr, the sequence that ends it in
    every interleaving of the launcher's tasks, and the port over its pipes. *)

From S2P Require Import Prelude Text Json Wire Frame Validate Limits Serde JsonText FrameJson Ndjson NdjsonProps Port NdjsonPort NdjsonPortProps Deadline Spawn.
Local Open Scope Z_scope.

(** ** The environment *)

(** The value of the last entry of that name. *)
Definition last_value (name : string) (entries : list (string * string)) : option string :=
  foldl (fun found '(n, v) => if decide (n = name) then Some v else found) None entries.

Lemma last_value_snoc name entries n v :
  last_value name (entries ++ [(n, v)]) = if decide (n = name) then Some v else last_value name entries.
Proof. unfold last_value. by rewrite foldl_app. Qed.

Lemma extend_lookup m entries name :
  extend m entries !! name = match last_value name entries with Some v => Some v | None => m !! name end.
Proof.
  induction entries as [|[n v] entries IH] using rev_ind; [done|]. rewrite last_value_snoc. unfold extend in *.
  rewrite foldl_app. cbn. destruct (decide (n = name)) as [->|Hne]; [by rewrite lookup_insert_eq|].
  by rewrite lookup_insert_ne.
Qed.

Lemma kept_lookup {UC : UnicodeCase} source name :
  foldl keep_var ∅ source !! name = if env_kept name then last_value name source else None.
Proof.
  induction source as [|[n v] source IH] using rev_ind; [by destruct (env_kept name)|].
  rewrite foldl_app, last_value_snoc. cbn [foldl]. revert IH. generalize (foldl keep_var ∅ source). intros m IH. unfold keep_var. cbv beta iota zeta.
  assert (Hk : env_kept n = negb (negb (existsb (fun allowed => bool_decide (allowed = to_uppercase n)) ENV_ALLOWLIST) &&
    negb (str_starts_with LOCALE_PREFIX (to_uppercase n))) && negb (is_secret_shaped (to_uppercase n))).
  { unfold env_kept. by rewrite negb_andb, !negb_involutive. }
  destruct (negb (existsb _ _) && negb (str_starts_with _ _)); cbn in Hk.
  { rewrite IH. destruct (decide (n = name)) as [<-|]; [by rewrite Hk|done]. }
  destruct (is_secret_shaped (to_uppercase n)); cbn in Hk.
  { rewrite IH. destruct (decide (n = name)) as [<-|]; [by rewrite Hk|done]. }
  destruct (decide (n = name)) as [<-|Hne]; [by rewrite lookup_insert_eq, Hk|by rewrite lookup_insert_ne].
Qed.

(** ** The stderr tail *)

Lemma tail_append_limit t b : bt_limit (tail_append t b) = bt_limit t.
Proof. unfold tail_append. by destruct (_ <? _). Qed.

(** The last [limit] elements. *)
Definition suffix {A} (limit : Z) (l : list A) : list A := drop (Z.to_nat (len l - limit)) l.

Lemma tail_append_suffix t written chunk :
  0 < bt_limit t -> bt_bytes t = suffix (bt_limit t) written ->
  bt_bytes (tail_append t chunk) = suffix (bt_limit t) (written ++ chunk).
Proof.
  intros Hlim Ht. unfold tail_append, suffix in *. rewrite Ht.
  assert (Hcut : forall n : nat, (n <= length written)%nat -> drop n written ++ chunk = drop n (written ++ chunk)).
  { intros n Hn. by rewrite drop_app_le. }
  assert (Hl : len (drop (Z.to_nat (len written - bt_limit t)) written) = Z.min (len written) (bt_limit t)).
  { unfold len. rewrite length_drop. lia. }
  rewrite !len_app, Hl. pose proof (len_nonneg written). pose proof (len_nonneg chunk).
  rewrite Hcut by (unfold len in *; lia).
  destruct (Z.ltb_spec (bt_limit t) (Z.min (len written) (bt_limit t) + len chunk)); cbn.
  - rewrite drop_drop. f_equal. lia.
  - f_equal. lia.
Qed.

Lemma drain_suffix pieces last rest on_stderr : forall t written,
  0 < bt_limit t -> bt_bytes t = suffix (bt_limit t) written ->
  Forall (fun b : bytes => b <> []) pieces -> ends_stream last = true ->
  let '(t', seen) := drain_stderr t on_stderr (map ReadOk pieces ++ last :: rest) in
  bt_limit t' = bt_limit t /\ bt_bytes t' = suffix (bt_limit t) (written ++ concat pieces) /\
  seen = (if on_stderr then pieces else []).
Proof.
  induction pieces as [|b pieces IH]; intros t written Hlim Ht Hne Hlast; cbn [map app concat].
  - rewrite app_nil_r. destruct last as [[|c l]|text]; [|done|]; cbn; by destruct on_stderr.
  - apply Forall_cons in Hne as [Hb Hne]. destruct b as [|c b]; [done|]. cbn [drain_stderr].
    specialize (IH (tail_append t (c :: b)) (written ++ c :: b)). rewrite tail_append_limit in IH.
    specialize (IH Hlim (tail_append_suffix t written (c :: b) Hlim Ht) Hne Hlast).
    destruct (drain_stderr _ on_stderr _) as [t' seen]. rewrite <- app_assoc in IH.
    destruct IH as (H1 & H2 & H3). rewrite H3. by destruct on_stderr.
Qed.

(** ** The termination sequence *)

Lemma suffix_len {A} limit (l : list A) : 0 <= limit -> len (suffix limit l) = Z.min (len l) limit.
Proof. intros. unfold suffix, len in *. rewrite length_drop. lia. Qed.

(** The requests of an escalation that began at [t0], each after its grace. *)
Definition log_ok (g1 g2 t0 now : Z) (log : list (Z * KillRequest)) : Prop :=
  log = [] \/ (exists t1, log = [(t1, Terminate)] /\ t0 + g1 <= t1 <= now) \/
  (exists t1 t2, log = [(t1, Terminate); (t2, Kill)] /\ t0 + g1 <= t1 /\ t1 + g2 <= t2 <= now).

Lemma log_ok_later g1 g2 t0 now now' log : now <= now' -> log_ok g1 g2 t0 now log -> log_ok g1 g2 t0 now' log.
Proof. unfold log_ok. intros Hn [->|[(t1 & -> & H)|(t1 & t2 & -> & H)]]; [by left|right; left|right; right]; naive_solver lia. Qed.

(** A child whose termination has been started at [t0]. *)
Record escalating (g1 g2 g3 t0 : Z) (l : Launch) : Prop := {
  ec_graces : la_graces l = (g1, g2, g3);
  ec_started : la_started l = true;
  ec_exit : forall s, la_exit l = Some s -> la_child l = Some s;
  ec_now : t0 <= la_now l;
  ec_phase :
    match la_escalation l with
    | EIdle => False
    | EReady => la_log l = [] /\ la_outcome l = TPending
    | EStdin u => la_log l = [] /\ la_outcome l = TPending /\ t0 + g1 <= u
    | ETerm u => exists t1, la_log l = [(t1, Terminate)] /\ t0 + g1 <= t1 <= la_now l /\ u = t1 + g2 /\ la_outcome l = TPending
    | EKill u => exists t1 t2, la_log l = [(t1, Terminate); (t2, Kill)] /\ t0 + g1 <= t1 /\ t1 + g2 <= t2 <= la_now l /\
        u = t2 + g3 /\ la_outcome l = TPending
    | EFinished =>
        log_ok g1 g2 t0 (la_now l) (la_log l) /\
        ((exists s, la_outcome l = TExited s /\ la_exit l = Some s) \/
         (la_outcome l = TGaveUp /\ exists t1 t2, la_log l = [(t1, Terminate); (t2, Kill)] /\ t2 + g3 <= la_now l))
    end
}.

Lemma escalating_log g1 g2 g3 t0 l : escalating g1 g2 g3 t0 l -> log_ok g1 g2 t0 (la_now l) (la_log l).
Proof.
  intros [_ _ _ _ H]. unfold log_ok. destruct (la_escalation l); naive_solver lia.
Qed.

Lemma escalating_poll g1 g2 g3 t0 l :
  0 <= g1 -> 0 <= g2 -> 0 <= g3 -> escalating g1 g2 g3 t0 l -> escalating g1 g2 g3 t0 (escalate_poll l).
Proof.
  intros H1 H2 H3 Hl. pose proof (escalating_log _ _ _ _ _ Hl) as Hlog. destruct Hl as [Hg Hs He Hn Hp].
  destruct l as [unix pid gr now child sg kl rp ex st esc log out]. cbn in *. subst gr st.
  assert (Hexit : forall s, ex = Some s -> escalating g1 g2 g3 t0
    (mkLaunch unix pid (g1, g2, g3) now child sg kl rp ex true EFinished log (TExited s))).
  { intros s ->. split; cbn; auto. split; [done|]. left. by exists s. }
  unfold escalate_poll. cbn. destruct esc as [| |u|u|u|]; [done|..].
  - destruct ex as [s|]; [by apply Hexit|]. split; cbn; auto. naive_solver lia.
  - destruct ex as [s|]; [by apply Hexit|]. destruct (Z.leb_spec u now); [|by split].
    destruct Hp as (-> & -> & Hu). split; cbn; auto. exists now. naive_solver lia.
  - destruct ex as [s|]; [by apply Hexit|]. destruct (Z.leb_spec u now); [|by split].
    destruct Hp as (t1 & -> & Ht & -> & ->). split; cbn; auto. exists t1, now. naive_solver lia.
  - destruct ex as [s|]; [by apply Hexit|]. destruct (Z.leb_spec u now); [|by split].
    destruct Hp as (t1 & t2 & -> & Ht1 & Ht2 & -> & ->). split; cbn; auto. split; [done|]. right. split; [done|].
    exists t1, t2. split; [done|lia].
  - by split.
Qed.

Lemma escalating_act g1 g2 g3 t0 l a :
  0 <= g1 -> 0 <= g2 -> 0 <= g3 -> escalating g1 g2 g3 t0 l -> escalating g1 g2 g3 t0 (spawn_act l a).
Proof.
  intros H1 H2 H3 Hl. pose proof (escalating_log _ _ _ _ _ Hl) as Hlog. pose proof Hl as [Hg Hs He Hn Hp].
  destruct a; cbn [spawn_act]; [..|by apply escalating_poll|idtac|idtac|by split].
  - destruct (la_child l) eqn:Ec; [exact Hl|]. destruct (la_reaper l); [|exact Hl].
    split; cbn; auto. intros s Hx. specialize (He s Hx). congruence.
  - split; cbn; auto; [lia|]. destruct (la_escalation l); try done.
    + naive_solver lia.
    + naive_solver lia.
    + destruct Hp as [_ Hp]. split; [eapply log_ok_later; [|done]; lia|]. naive_solver lia.
  - unfold terminator_start. by rewrite Hs.
  - unfold reap_exit. destruct (la_reaper l); [|exact Hl].
    destruct (la_child l) as [s|] eqn:Ec; [|exact Hl]. split; cbn; auto.
    destruct (la_escalation l); try done. destruct Hp as [_ [(s' & Ho & Hx)|Hgu]]; [|naive_solver].
    split; [done|]. left. exists s'. specialize (He s' Hx). naive_solver.
  - unfold reap_signal. destruct (la_reaper l); [|exact Hl].
    destruct (ch_recv (la_kill l)) as [kl [|[r|]]]; [exact Hl|by split|exact Hl].
Qed.

Lemma escalating_run g1 g2 g3 t0 acts : 0 <= g1 -> 0 <= g2 -> 0 <= g3 ->
  forall l, escalating g1 g2 g3 t0 l -> escalating g1 g2 g3 t0 (spawn_run l acts).
Proof. intros H1 H2 H3. induction acts as [|a acts IH]; intros l Hl; cbn; [done|]. by apply IH, escalating_act. Qed.

(** Before it is started nothing of it happens. *)
Lemma not_started acts : forall l,
  Forall (fun a => a <> SStart) acts ->
  la_started l = false -> la_escalation l = EIdle -> la_log l = [] -> la_outcome l = TPending ->
  (forall s, la_exit l = Some s -> la_child l = Some s) ->
  let l' := spawn_run l acts in
  la_started l' = false /\ la_escalation l' = EIdle /\ la_log l' = [] /\ la_outcome l' = TPending /\
  la_graces l' = la_graces l /\ (forall s, la_exit l' = Some s -> la_child l' = Some s).
Proof.
  induction acts as [|a acts IH]; intros l Hns Hs He Hg Ho Hx; cbn; [done|]. apply Forall_cons in Hns as [Ha Hns].
  assert (la_started (spawn_act l a) = false /\ la_escalation (spawn_act l a) = EIdle /\ la_log (spawn_act l a) = [] /\
    la_outcome (spawn_act l a) = TPending /\ la_graces (spawn_act l a) = la_graces l /\
    (forall s, la_exit (spawn_act l a) = Some s -> la_child (spawn_act l a) = Some s)) as (A & B & C & D & E & F).
  { destruct l as [unix pid [[g1 g2] g3] now child sg kl rp ex st esc log out]. cbn in *. subst.
    destruct a; cbn; unfold reap_exit, reap_signal; cbn; try done.
    - destruct child; [by auto|]. destruct rp; cbn; auto 10. split_and!; auto. intros s H. by specialize (Hx s H).
    - destruct rp, child; cbn; auto 10.
    - destruct rp; [|by auto 10]. destruct (ch_recv kl) as [kl' [|[r|]]]; cbn; auto 10. }
  rewrite <- E. by apply IH.
Qed.

(** Starting it. *)
Lemma start_escalating g1 g2 g3 l :
  la_graces l = (g1, g2, g3) -> la_started l = false -> la_log l = [] -> la_outcome l = TPending ->
  (forall s, la_exit l = Some s -> la_child l = Some s) ->
  escalating g1 g2 g3 (la_now l) (terminator_start l).
Proof. intros Hg Hs Hl Ho Hx. unfold terminator_start. rewrite Hs. split; cbn; auto; lia. Qed.

(** ** What reaches the child *)

Definition times {A} `{EqDecision A} (x : A) (l : list A) : nat := length (filter (fun y => y = x) l).

Global Instance SpawnAction_eq_dec : EqDecision SpawnAction.
Proof. solve_decision. Defined.

Lemma times_app {A} `{EqDecision A} (x : A) l1 l2 : times x (l1 ++ l2) = (times x l1 + times x l2)%nat.
Proof. unfold times. by rewrite filter_app, length_app. Qed.

Section delivered.
Context (unix : bool) (pid : Z).

(** How many of the requests deliver the signal [s]. *)
Definition wanted (s : Signal) (rs : list KillRequest) : nat := length (filter (fun r => deliver unix pid r = Some s) rs).

Lemma wanted_app s rs1 rs2 : wanted s (rs1 ++ rs2) = (wanted s rs1 + wanted s rs2)%nat.
Proof. unfold wanted. by rewrite filter_app, length_app. Qed.

Lemma wanted_one s r : wanted s [r] = times s (match deliver unix pid r with Some s' => [s'] | None => [] end).
Proof.
  unfold wanted, times. rewrite filter_cons, filter_nil. destruct (deliver unix pid r) as [s'|]; [|done].
  rewrite filter_cons, filter_nil. destruct (decide (s' = s)) as [->|Hne]; [by rewrite decide_True|].
  rewrite decide_False; [done|]. by intros [= ->].
Qed.

(** Everything delivered was asked for, by the escalation or by one of [k] calls of [kill], once each;
    while the reaper has the child, everything asked for is delivered or in line. *)
Record signalled (k : nat) (l : Launch) : Prop := {
  sg_unix : la_unix l = unix;
  sg_pid : la_pid l = Some pid;
  sg_reaper : ch_receiver (la_kill l) = la_reaper l;
  sg_bound s : (times s (la_signals l) + wanted s (ch_queue (la_kill l)) <= wanted s (map snd (la_log l)) + wanted s (repeat Kill k))%nat;
  sg_exact s : la_reaper l = true ->
    (times s (la_signals l) + wanted s (ch_queue (la_kill l)) = wanted s (map snd (la_log l)) + wanted s (repeat Kill k))%nat
}.

Ltac fields := cbn [la_unix la_pid la_kill la_reaper la_signals la_log set_kill ask drop_receiver ch_receiver ch_queue fst].

Lemma signalled_ask k l r e : signalled k l -> signalled k (ask l r e).
Proof.
  intros [Hu Hp Hr Hb Hx]. unfold ask, ch_send. destruct (ch_receiver (la_kill l)) eqn:E; split; fields; auto; try congruence;
    intros s; rewrite ?map_app, ?wanted_app; specialize (Hb s); specialize (Hx s); cbn [map snd]; first [lia|intros; congruence|intros Hrp; specialize (Hx Hrp); lia].
Qed.

Lemma signalled_kill k l : signalled k l -> signalled (S k) (peer_kill l).
Proof.
  intros [Hu Hp Hr Hb Hx]. unfold peer_kill, ch_send. destruct (ch_receiver (la_kill l)) eqn:E; split; fields; auto; try congruence;
    intros s; change (repeat Kill (S k)) with ([Kill] ++ repeat Kill k); rewrite ?wanted_app; specialize (Hb s); specialize (Hx s); first [lia|intros; congruence|intros Hrp; specialize (Hx Hrp); lia].
Qed.

Lemma signalled_reap k l : signalled k l -> signalled k (reap_signal l).
Proof.
  intros Hl. pose proof Hl as [Hu Hp Hr Hb Hx]. unfold reap_signal. destruct (la_reaper l) eqn:Erp; [|exact Hl]. unfold ch_recv.
  destruct (ch_queue (la_kill l)) as [|r q] eqn:Eq; [by destruct (ch_senders (la_kill l))|].
  split; fields; auto; intros s; rewrite Hu, Hp, times_app; cbn [default]; rewrite <- wanted_one; specialize (Hb s); specialize (Hx s eq_refl);
    change (r :: q) with ([r] ++ q) in *; rewrite wanted_app in *; lia.
Qed.

Lemma signalled_act k l a : signalled k l -> signalled (k + times SKill [a]) (spawn_act l a).
Proof.
  intros Hl. pose proof Hl as [Hu Hp Hr Hb Hx].
  assert (Hk : times SKill [a] = if decide (a = SKill) then 1%nat else 0%nat) by (unfold times; rewrite filter_cons; by case_decide).
  rewrite Hk. clear Hk. case_decide as Ha; [subst a; rewrite Nat.add_1_r; by apply signalled_kill|rewrite Nat.add_0_r].
  destruct a; cbn [spawn_act]; try done.
  - destruct (la_child l); [done|]. destruct (la_reaper l) eqn:E; [|done]. split; fields; auto.
  - unfold terminator_start. destruct (la_started l); [done|]. split; fields; auto.
  - unfold escalate_poll. destruct (la_graces l) as [[g1 g2] g3].
    destruct (la_escalation l), (la_exit l); try done; repeat case_match; try done; by apply signalled_ask.
  - unfold reap_exit. destruct (la_reaper l) eqn:E; [|done]. destruct (la_child l); [|done]. split; fields; auto; [|done].
    intros s. specialize (Hb s). change (wanted s []) with 0%nat. lia.
  - by apply signalled_reap.
Qed.

Lemma signalled_run acts : forall k l, signalled k l -> signalled (k + times SKill acts) (spawn_run l acts).
Proof.
  induction acts as [|a acts IH]; intros k l Hl; [by rewrite Nat.add_0_r|].
  change (a :: acts) with ([a] ++ acts). rewrite times_app, Nat.add_assoc. cbn [spawn_run foldl app]. by apply IH, signalled_act.
Qed.

Lemma signalled_new g1 g2 g3 : signalled 0 (launch_new unix pid g1 g2 g3).
Proof. by split. Qed.
End delivered.

(** What the requests of the two platforms come to. *)
Definition gentle (unix : bool) (pid : Z) : bool := unix && (pid <=? 2147483647).

Lemma wanted_term unix pid rs : wanted unix pid SIGTERM rs = if gentle unix pid then times Terminate rs else 0%nat.
Proof.
  induction rs as [|r rs IH]; [by destruct (gentle unix pid)|]. change (r :: rs) with ([r] ++ rs).
  rewrite wanted_app, times_app, IH, wanted_one. unfold gentle. destruct r, unix; cbn; try done; by destruct (_ <=? _).
Qed.

(** Counts in lists of one or two that are written out. *)
Ltac count := repeat match goal with
  | |- context [times ?x []] => change (times x []) with 0%nat
  | |- context [times ?x [?a]] => let n := eval vm_compute in (times x [a]) in change (times x [a]) with n
  | |- context [times ?x [?a; ?b]] => let n := eval vm_compute in (times x [a; b]) in change (times x [a; b]) with n
  end.

Lemma wanted_kill unix pid rs :
  wanted unix pid SIGKILL rs = (times Kill rs + if unix then 0 else times Terminate rs)%nat.
Proof.
  induction rs as [|r rs IH]; [by destruct unix|]. change (r :: rs) with ([r] ++ rs).
  rewrite wanted_app, !times_app, IH, wanted_one.
  destruct r, unix; cbn [deliver terminate_gently]; try destruct (_ <=? _); count; lia.
Qed.

Lemma times_repeat_kill k : times Kill (repeat Kill k) = k /\ times Terminate (repeat Kill k) = 0%nat.
Proof.
  induction k as [|k [IH1 IH2]]; [done|]. change (repeat Kill (S k)) with ([Kill] ++ repeat Kill k). rewrite !times_app, IH1, IH2. done.
Qed.

(** The signals delivered so far, against the requests made so far. *)
Lemma signals_delivered unix pid k l : signalled unix pid k l ->
  let asked := times Terminate (map snd (la_log l)) in
  let killed := times Kill (map snd (la_log l)) in
  (times SIGTERM (la_signals l) <= if gentle unix pid then asked else 0)%nat /\
  (times SIGKILL (la_signals l) <= killed + k + if unix then 0 else asked)%nat /\
  (la_reaper l = true -> ch_queue (la_kill l) = [] ->
   times SIGTERM (la_signals l) = (if gentle unix pid then asked else 0)%nat /\
   times SIGKILL (la_signals l) = (killed + k + if unix then 0 else asked)%nat).
Proof.
  intros [_ _ _ Hb Hx]. destruct (times_repeat_kill k) as [Hk Ht]. cbv zeta.
  pose proof (Hb SIGTERM) as H1. pose proof (Hb SIGKILL) as H2. pose proof (Hx SIGTERM) as H3. pose proof (Hx SIGKILL) as H4.
  rewrite !wanted_term, Ht in H1, H3. rewrite !wanted_kill, Hk, Ht in H2, H4.
  split; [destruct (gentle unix pid); lia|]. split; [destruct unix; lia|]. intros Hr Hq. specialize (H3 Hr). specialize (H4 Hr).
  rewrite Hq in H3, H4. change (times ?x []) with 0%nat in *. split; [destruct (gentle unix pid); lia|destruct unix; lia].
Qed.

Lemma log_times g1 g2 t0 now log : 0 <= g1 -> 0 <= g2 -> log_ok g1 g2 t0 now log ->
  (times Kill (map snd log) <= times Terminate (map snd log) <= 1)%nat /\
  ((1 <= times Terminate (map snd log))%nat -> t0 + g1 <= now) /\
  ((1 <= times Kill (map snd log))%nat -> t0 + g1 + g2 <= now).
Proof.
  intros H1 H2 [->|[(t1 & -> & H)|(t1 & t2 & -> & H & H')]]; cbn [map snd]; count; lia.
Qed.

(** ** Progress *)

(** Steps left. *)
Definition rank (e : Escalation) : nat :=
  match e with EReady => 4 | EStdin _ => 3 | ETerm _ => 2 | EKill _ => 1 | EIdle | EFinished => 0 end.

Lemma rank_le e : (rank e <= 4)%nat.
Proof. destruct e; cbn; lia. Qed.

(** A wait ends within [d] from now. *)
Definition due (d : Z) (l : Launch) : Prop :=
  la_started l = true /\ la_escalation l <> EIdle /\
  match la_escalation l with EStdin u | ETerm u | EKill u => u <= la_now l + d | _ => True end /\
  let '(g1, g2, g3) := la_graces l in g1 <= d /\ g2 <= d /\ g3 <= d.

Definition elapse (a : SpawnAction) : Z := match a with STime d => Z.max 0 d | _ => 0 end.
Definition elapsed_in (acts : list SpawnAction) : Z := foldr (fun a n => elapse a + n) 0 acts.

(** An action keeps the escalation where it is, or moves it on and begins its next wait. *)
Lemma due_act d l a :
  due d l ->
  due d (spawn_act l a) /\ la_now (spawn_act l a) = la_now l + elapse a /\
  (la_escalation (spawn_act l a) = la_escalation l \/ (rank (la_escalation (spawn_act l a)) < rank (la_escalation l))%nat).
Proof.
  destruct l as [unix pid [[g1 g2] g3] now child sg kl rp ex st esc log out]. unfold due. cbn.
  intros (-> & Hi & Hu & H1 & H2 & H3).
  destruct a; cbn; unfold reap_exit, reap_signal, terminator_start, escalate_poll; cbn.
  - destruct child; [|destruct rp]; cbn; (split; [done|]); (split; [lia|by left]).
  - split; [|split; [done|by left]]. do 2 (split; [done|]). split; [|done]. destruct esc; try done; lia.
  - split; [done|]. split; [lia|by left].
  - destruct esc as [| |u|u|u|]; [done|..]; cbn.
    + destruct ex; cbn; (split; [do 2 (split; [done|]); split; [|done]; try done; lia|]); (split; [lia|]); right; lia.
    + destruct ex; cbn; [|destruct (Z.leb_spec u now); cbn]; (split; [do 2 (split; [done|]); split; [|done]; try done; lia|]);
        (split; [lia|]); try (by left); right; lia.
    + destruct ex; cbn; [|destruct (Z.leb_spec u now); cbn]; (split; [do 2 (split; [done|]); split; [|done]; try done; lia|]);
        (split; [lia|]); try (by left); right; lia.
    + destruct ex; cbn; [|destruct (Z.leb_spec u now); cbn]; (split; [do 2 (split; [done|]); split; [|done]; try done; lia|]);
        (split; [lia|]); try (by left); right; lia.
    + split; [done|]. split; [lia|by left].
  - destruct rp, child; cbn; (split; [done|]); (split; [lia|by left]).
  - destruct rp; [destruct (ch_recv kl) as [kl' [|[r|]]]|]; cbn; (split; [done|]); (split; [lia|by left]).
  - split; [done|]. split; [lia|by left].
Qed.

Lemma spawn_run_app l a b : spawn_run l (a ++ b) = spawn_run (spawn_run l a) b.
Proof. apply foldl_app. Qed.

Lemma due_run d acts : forall l, due d l ->
  let l' := spawn_run l acts in
  due d l' /\ la_now l' = la_now l + elapsed_in acts /\
  (la_escalation l' = la_escalation l \/ (rank (la_escalation l') < rank (la_escalation l))%nat).
Proof.
  induction acts as [|a acts IH]; intros l Hd; [cbn; split; [done|]; split; [lia|by left]|].
  change (spawn_run l (a :: acts)) with (spawn_run (spawn_act l a) acts).
  change (elapsed_in (a :: acts)) with (elapse a + elapsed_in acts).
  destruct (due_act d l a Hd) as (Hd1 & Hn1 & Hr1). destruct (IH _ Hd1) as (Hd2 & Hn2 & Hr2).
  split; [done|]. split; [rewrite Hn2, Hn1; lia|].
  destruct Hr2 as [->|Hr2]; [done|]. right. destruct Hr1 as [<-|Hr1]; [done|lia].
Qed.

(** A poll that comes late enough always moves on. *)
Lemma due_poll l :
  la_escalation l <> EIdle -> la_escalation l <> EFinished ->
  match la_escalation l with EStdin u | ETerm u | EKill u => u <= la_now l | _ => True end ->
  (rank (la_escalation (escalate_poll l)) < rank (la_escalation l))%nat.
Proof.
  destruct l as [unix pid [[g1 g2] g3] now child sg kl rp ex st esc log out]. unfold escalate_poll. cbn.
  intros Hi Hf Hu. destruct esc; try done; destruct ex; cbn; try lia; apply Z.leb_le in Hu; rewrite Hu; cbn; lia.
Qed.

(** One round: the longest grace passes, and the task is polled. *)
Lemma due_round d l acts :
  due d l -> d <= elapsed_in acts ->
  let l' := spawn_run l (acts ++ [SEscalate]) in
  due d l' /\ (rank (la_escalation l') <= pred (rank (la_escalation l)))%nat.
Proof.
  intros Hd He. cbv zeta. rewrite spawn_run_app. change (spawn_run ?x [SEscalate]) with (escalate_poll x).
  destruct (due_run d acts l Hd) as (Hd1 & Hn & Hr). destruct (due_act d _ SEscalate Hd1) as (Hd2 & _ & Hr2).
  split; [done|]. cbn [spawn_act] in *. destruct Hr as [Hsame|Hlt]; [|destruct Hr2 as [->|]; lia].
  destruct Hd as (_ & Hi & Hu & _). destruct (decide (rank (la_escalation l) = 0%nat)) as [H0|Hne].
  { destruct Hr2 as [->|]; rewrite Hsame in *; lia. }
  assert (rank (la_escalation (escalate_poll (spawn_run l acts))) < rank (la_escalation (spawn_run l acts)))%nat.
  { apply due_poll; rewrite Hsame; [done|intros E; by rewrite E in Hne|]. destruct (la_escalation l); try done; lia. }
  rewrite Hsame in *. lia.
Qed.

(** A number of rounds. *)
Lemma due_rounds d rs : forall l, (forall r, r ∈ rs -> d <= elapsed_in r) -> due d l ->
  let l' := spawn_run l (concat (map (fun r => r ++ [SEscalate]) rs)) in
  due d l' /\ (rank (la_escalation l') <= rank (la_escalation l) - length rs)%nat.
Proof.
  induction rs as [|r rs IH]; intros l Hel Hd; [cbn; split; [done|lia]|]. cbn [map concat length].
  assert (d <= elapsed_in r) as Her by (apply Hel; left).
  destruct (due_round d l r Hd Her) as [Hd1 Hr1].
  destruct (IH (spawn_run l (r ++ [SEscalate]))) as [Hd2 Hr2]; [intros; apply Hel; by right|done|].
  cbv zeta. rewrite spawn_run_app. split; [done|lia].
Qed.

(** Right after the first start. *)
Lemma started_run unix pid g1 g2 g3 before :
  0 <= g1 -> 0 <= g2 -> 0 <= g3 -> Forall (fun a => a <> SStart) before ->
  let l0 := spawn_run (launch_new unix pid g1 g2 g3) before in
  due (Z.max g1 (Z.max g2 g3)) (terminator_start l0) /\ escalating g1 g2 g3 (la_now l0) (terminator_start l0).
Proof.
  intros H1 H2 H3 Hb. cbv zeta.
  pose proof (not_started before (launch_new unix pid g1 g2 g3) Hb eq_refl eq_refl eq_refl eq_refl ltac:(done)) as Hns.
  cbv zeta in Hns. destruct Hns as (Hs & _ & Hl & Ho & Hg & Hx). split; [|by apply start_escalating].
  unfold terminator_start, due. rewrite Hs. cbn. rewrite Hg. cbn. split; [done|]. split; [done|]. split; [done|lia].
Qed.

Lemma escalating_outcome g1 g2 g3 t0 l : escalating g1 g2 g3 t0 l ->
  match la_outcome l with
  | TPending => True
  | TExited s => la_exit l = Some s
  | TGaveUp => exists t1 t2, la_log l = [(t1, Terminate); (t2, Kill)] /\ t2 + g3 <= la_now l
  end.
Proof.
  intros [_ _ _ _ Hp]. destruct (la_escalation l); [done|..].
  - by destruct Hp as (_ & ->).
  - by destruct Hp as (_ & -> & _).
  - by destruct Hp as (? & _ & _ & _ & ->).
  - by destruct Hp as (? & ? & _ & _ & _ & _ & ->).
  - by destruct Hp as [_ [(s & -> & ->)|(-> & Hg)]].
Qed.

(** An escalation that has ended has answered. *)
Lemma escalation_answered g1 g2 g3 t0 l : escalating g1 g2 g3 t0 l -> la_escalation l = EFinished ->
  terminate_poll l = Polled (la_exit l) /\
  (la_exit l = None -> exists t1 t2, la_log l = [(t1, Terminate); (t2, Kill)]).
Proof.
  intros [_ _ _ _ Hp] E. rewrite E in Hp. unfold terminate_poll.
  destruct Hp as [_ [(s & -> & ->)|(-> & t1 & t2 & Hl & _)]]; [done|]. split; [done|]. eauto.
Qed.

(** ** The port *)

Section port.
Context {RT : RustText} {SJ : SerdeJson} {UC : UnicodeCase} {W : Type} {AW : AsyncWrite W}.

Lemma terminator_start_started l : la_started (terminator_start l) = true.
Proof. unfold terminator_start. by destruct (la_started l) eqn:E. Qed.

(** A port over a child ends as its inner port does; one without a child hands out its closure once. *)
Global Instance spawn_rx_laws : PortRxLaws (SpawnPort W).
Proof.
  split.
  - intros [[inner|] cl l] [inner' cl' l'] c; cbn; unfold spawn_recv; cbn.
    + destruct (ndjson_recv inner) as [i item] eqn:E. intros [= <- <- Hl Hi]. cbn. subst item.
      pose proof (recv_terminal inner i c E) as E'. cbn in E'. rewrite E'. by rewrite <- Hl.
    + intros [= <- <- <- _]. done.
  - intros [[inner|] cl l] [inner' cl' l']; cbn; unfold spawn_recv; cbn.
    + destruct (ndjson_recv inner) as [i item] eqn:E. intros [= <- <- Hl Hi]. subst item.
      pose proof (recv_ended inner i E) as ->. by rewrite <- Hl.
    + destruct cl; [done|]. by intros [= <- <- <-].
Qed.

(** The sequence starts with the closure and only then. *)
Lemma spawn_recv_starts (p p' : SpawnPort W) item :
  is_Some (sp_inner p) -> spawn_recv p = (p', item) ->
  sp_launch p' = match item with Polled (Some (IClosed _)) => terminator_start (sp_launch p) | _ => sp_launch p end.
Proof.
  intros [inner Hi]. unfold spawn_recv. rewrite Hi. destruct (ndjson_recv inner) as [i it]. by intros [= <- <-].
Qed.

Lemma check_frame_limit_err limit e : check_max_frame_bytes limit = Err e -> limit < MIN_MAX_FRAME_BYTES.
Proof. unfold check_max_frame_bytes, check_at_least. destruct (Z.leb_spec MIN_MAX_FRAME_BYTES limit); [done|lia]. Qed.

Lemma start_command unix vars_os command args (o : SpawnOptions) : so_argv o = command :: args ->
  start (negb unix) vars_os command o =
  {| sc_program := command; sc_args := args; sc_env := default (sanitized_env vars_os []) (so_env o);
     sc_cwd := so_cwd o; sc_no_window := negb unix && so_windows_hide o |}.
Proof. intros Ha. unfold start. rewrite Ha. by destruct (so_env o). Qed.

(** A port without a child that has handed out its closure. *)
Definition spawn_ended (l : Launch) : SpawnPort W := mkSpawnPort None None l.
End port.

(** ** Properties *)


(** The stderr tail.  However a child's stderr is cut into reads, and whatever ends it, the tail is
    exactly the last bytes it wrote up to the limit (at least one), and the caller's own reader was
    shown every read in order. *)
Theorem stderr_tail_exact (limit : Z) (on_stderr : bool) (pieces : list bytes) (last : ReadOutcome) (rest : list ReadOutcome) :
  Forall (fun b : bytes => b <> []) pieces -> ends_stream last = true ->
  let '(tail, seen) := drain_stderr (bounded_tail_new limit) on_stderr (map ReadOk pieces ++ last :: rest) in
  bt_bytes tail = suffix (Z.max limit 1) (concat pieces) /\
  len (bt_bytes tail) = Z.min (len (concat pieces)) (Z.max limit 1) /\
  seen = (if on_stderr then pieces else []).
Proof.
  intros Hne Hlast. pose proof (drain_suffix pieces last rest on_stderr (bounded_tail_new limit) []) as H.
  specialize (H ltac:(cbn; lia) (eq_sym (drop_nil _)) Hne Hlast). destruct (drain_stderr _ _ _) as [tail seen].
  destruct H as (_ & -> & ->). cbn [app]. split; [done|]. split; [|done]. apply suffix_len. cbn. lia.
Qed.


(** C26 ([terminate] always answers).  Once the sequence has been started, four rounds settle it,
    whatever the child does: in each, whatever else happens, the longest grace passes and the
    escalation is polled.  From then on [terminate] answers at once: with the child's own status if
    there is one, with none only if both requests were made and nothing has left. *)
Theorem terminate_resolves (unix : bool) (pid g1 g2 g3 : Z) (before after r1 r2 r3 r4 : list SpawnAction) :
  0 <= g1 -> 0 <= g2 -> 0 <= g3 -> Forall (fun a => a <> SStart) before ->
  (forall r, r ∈ [r1; r2; r3; r4] -> Z.max g1 (Z.max g2 g3) <= elapsed_in r) ->
  let l0 := spawn_run (spawn_run (launch_new unix pid g1 g2 g3) before) (SStart :: after) in
  let l := spawn_run l0 (concat (map (fun r => r ++ [SEscalate]) [r1; r2; r3; r4])) in
  terminate_poll l = Polled (la_exit l) /\
  (la_exit l = None -> exists t1 t2, la_log l = [(t1, Terminate); (t2, Kill)]).
Proof.
  intros H1 H2 H3 Hb Hr. cbv zeta.
  destruct (started_run unix pid g1 g2 g3 before H1 H2 H3 Hb) as [Hd He].
  set (l0 := terminator_start (spawn_run (launch_new unix pid g1 g2 g3) before)) in *.
  change (spawn_run _ (SStart :: after)) with (spawn_run l0 after).
  destruct (due_run _ after _ Hd) as (Hd1 & _ & _).
  destruct (due_rounds _ [r1; r2; r3; r4] _ Hr Hd1) as [(_ & Hi & _) Hrk].
  apply (escalating_run _ _ _ _ after H1 H2 H3) in He.
  apply (escalating_run _ _ _ _ (concat (map (fun r => r ++ [SEscalate]) [r1; r2; r3; r4])) H1 H2 H3) in He.
  set (l := spawn_run _ (concat _)) in *. apply (escalation_answered g1 g2 g3 _ l He).
  cbv zeta in Hrk. fold l in Hrk. pose proof (rank_le (la_escalation (spawn_run l0 after))) as Hle.
  change (length [r1; r2; r3; r4]) with 4%nat in Hrk. assert (rank (la_escalation l) = 0%nat) as H0 by lia.
  by destruct (la_escalation l).
Qed.

(** C36 (starting a child).  A frame limit below the floor panics, and an argv without a command is
    refused, with the operating system as it was: nothing has been started that nobody could signal.
    In every other case it is asked once, for exactly the command, the arguments, the directory and the
    environment of the options, the process's own variables filtered if there are none.  If it starts
    the child, nothing panics any more, and the port speaks NDJSON over its pipes under the configured
    limit.  If it does not, the port takes no frame, hands out one closure with a reason that is never
    empty and then ends, and the peer answers at once: no process id, the kind of the error, and a
    termination that has nothing to end. *)
Theorem spawn_port_outcomes {RT : RustText} {SJ : SerdeJson} {UC : UnicodeCase} {W : Type} {AW : AsyncWrite W} {OS : Type}
    (unix : bool) (vars_os : list (bytes * bytes))
    (os_spawn : OS -> SpawnCommand -> OS * result (Z * list ReadOutcome * W) IoError) (o : SpawnOptions) (os : OS) :
  let '(os', spawned) := spawn_port unix vars_os os_spawn o os in
  match spawned with
  | Err _ => os' = os /\ exists limit, so_max_frame_bytes o = Some limit /\ limit < MIN_MAX_FRAME_BYTES
  | Ok (Err e) => os' = os /\ sa_argv e = so_argv o /\ (so_argv o = [] \/ exists args, so_argv o = "" :: args)
  | Ok (Ok s) =>
      (forall limit, so_max_frame_bytes o = Some limit -> MIN_MAX_FRAME_BYTES <= limit) /\
      exists command args, so_argv o = command :: args /\ command <> "" /\
      let cmd := {| sc_program := command; sc_args := args;
                    sc_env := default (sanitized_env vars_os []) (so_env o); sc_cwd := so_cwd o;
                    sc_no_window := negb unix && so_windows_hide o |} in
      os' = (os_spawn os cmd).1 /\
      match (os_spawn os cmd).2 with
      | Ok (pid, stdout, stdin) =>
          sd_pid s = Some pid /\ sd_spawn_error s = None /\ sd_command s = Some cmd /\
          sp_launch (sd_port s) = launch_new unix pid (so_terminate_grace o) (so_kill_grace o) (so_exit_grace o) /\
          exists port, sp_inner (sd_port s) = Some port /\
            ndjson_port_new stdout stdin (default DEFAULT_MAX_FRAME_BYTES (so_max_frame_bytes o)) = Ok port
      | Err error =>
          sd_pid s = None /\ sd_spawn_error s = Some (io_kind error) /\ sd_command s = None /\
          (forall f, spawn_send (sd_port s) f = (sd_port s, SendClosed)) /\
          terminate_poll (sp_launch (sd_port s)) = Polled (Some exit_status_default) /\
          exists why p, why <> "" /\ spawn_recv (sd_port s) = (p, Polled (Some (IClosed (PClosed None (Some why))))) /\
            spawn_recv p = (p, Polled None)
      end
  end.
Proof.
  unfold spawn_port. destruct (match so_max_frame_bytes o with Some _ => _ | None => _ end) as [z|e] eqn:Em.
  2: { destruct (so_max_frame_bytes o) as [limit|]; [|done]. split; [done|]. exists limit. split; [done|]. by eapply check_frame_limit_err. }
  assert (Hlimit : forall limit, so_max_frame_bytes o = Some limit -> MIN_MAX_FRAME_BYTES <= limit).
  { intros limit H. rewrite H in Em. by apply check_at_least_Ok in Em as [_ Hm]. }
  destruct (so_argv o) as [|command args] eqn:Ea; [by auto|]. case_bool_decide as Hc; [by subst; eauto|].
  rewrite (start_command unix vars_os command args o Ea). set (cmd := Build_SpawnCommand _ _ _ _ _).
  destruct (os_spawn os cmd) as [os' [[[pid stdout] stdin]|error]] eqn:Eo; cbv zeta.
  - destruct (ndjson_port_new_ok stdout stdin (default DEFAULT_MAX_FRAME_BYTES (so_max_frame_bytes o))) as [port Hp].
    { destruct (so_max_frame_bytes o) as [limit|]; [|by vm_compute]. by apply Hlimit. }
    rewrite Hp. cbn [result_bind]. split; [done|]. exists command, args. split; [done|]. split; [done|]. fold cmd. rewrite Eo. cbn. split_and!; eauto.
  - split; [done|]. exists command, args. split; [done|]. split; [done|]. fold cmd. rewrite Eo. cbn. split_and!; try done.
    set (why := str_trim _). eexists _, (spawn_ended (launch_unspawned unix)). split; [|by split].
    by case_bool_decide.
Qed.

(** ** Concrete instances *)

Definition noisy_stderr : list bytes := [to_bytes "starting"; [line_feed]; to_bytes "config missing"].

Lemma stderr_tail_exact_witness :
  let '(tail, seen) := drain_stderr (bounded_tail_new 10) true (map ReadOk noisy_stderr ++ [ReadOk []]) in
  of_bytes (bt_bytes tail) = "ig missing" /\ seen = noisy_stderr.
Proof.
  pose proof (stderr_tail_exact 10 true noisy_stderr (ReadOk []) []) as H.
  destruct (drain_stderr _ _ _) as [tail seen]. destruct H as (-> & _ & ->).
  - repeat constructor; discriminate.
  - reflexivity.
  - vm_compute. by split.
Defined.

(** A child that ignores the request to leave and dies of the kill, which the launcher notices. *)
Definition stubborn : list SpawnAction :=
  [SEscalate; STime 2; SEscalate; SReapSignal; STime 3; SStart; SEscalate; SReapSignal;
   SExit {| es_code := None; es_signal := Some 9 |}; SReapExit; SEscalate].


(** A child that never leaves. *)
Lemma terminate_resolves_witness :
  terminate_poll (spawn_run (spawn_run (spawn_run (launch_new true 7 2 3 4) [STime 1]) [SStart; SEscalate])
    (concat (map (fun r => r ++ [SEscalate]) [[STime 4]; [STime 5; SReapSignal]; [STime 6; SKill]; [STime 4]]))) = Polled None.
Proof.
  destruct (terminate_resolves true 7 2 3 4 [STime 1] [SEscalate] [STime 4] [STime 5; SReapSignal] [STime 6; SKill] [STime 4])
    as [H _]; [lia|lia|lia|repeat constructor; discriminate| |cbv zeta in H; etransitivity; [exact H|vm_compute; reflexivity]].
  intros r Hr. rewrite !elem_of_cons, elem_of_nil in Hr. destruct Hr as [->|[->|[->|[->|[]]]]]; vm_compute; discriminate.
Defined.

(** A system that starts whatever it is asked for, and remembers it. *)
Definition obliging (running : list SpawnCommand) (command : SpawnCommand) :
    list SpawnCommand * result (Z * list ReadOutcome * Pipe) IoError :=
  (running ++ [command], Ok (7, [], {| pipe_bytes := []; pipe_ended := false |})).

#[local] Instance upper_ascii : UnicodeCase := {| to_uppercase s := of_bytes (map ascii_upper (to_bytes s)) |}.

Definition tight_options (limit : Z) : SpawnOptions :=
  let o := spawn_options_new ["mango-runtime"; "--stdio"] in
  {| so_argv := so_argv o; so_cwd := so_cwd o; so_env := so_env o; so_max_frame_bytes := Some limit;
     so_stderr_tail_bytes := so_stderr_tail_bytes o; so_terminate_grace := so_terminate_grace o;
     so_kill_grace := so_kill_grace o; so_exit_grace := so_exit_grace o; so_on_stderr := so_on_stderr o;
     so_windows_hide := so_windows_hide o |}.

(** A limit below the floor starts nothing; one above it starts the child once. *)
Lemma spawn_port_outcomes_witness :
  (spawn_port true [] obliging (tight_options 512) []).1 = [] /\
  exists cmd, (spawn_port true [] obliging (tight_options 8192) []).1 = [cmd] /\ sc_args cmd = ["--stdio"].
Proof.
  split.
  - pose proof (spawn_port_outcomes true [] obliging (tight_options 512) []) as H.
    destruct (spawn_port _ _ _ _ _) as [os [[s|e]|message]] eqn:E; [vm_compute in E; discriminate E..|]. exact (proj1 H).
  - pose proof (spawn_port_outcomes true [] obliging (tight_options 8192) []) as H.
    destruct (spawn_port _ _ _ _ _) as [os [[s|e]|message]] eqn:E; [|vm_compute in E; discriminate E..].
    destruct H as (_ & command & args & Ha & _ & -> & _). cbn in Ha. injection Ha as <- <-. by eexists.
Defined.
