(* ===== verification/Ssh.v ===== *)
(** * The ssh command line

    [transports/ssh.rs]: the argument vector of a launch over the system [ssh] client, with the
    refusals that keep a host or a user from becoming an option and the quoting that keeps the
    remote command what the caller meant.

    [ssh] joins the words after the destination with spaces and hands the line to the target's
    login shell.  The shell is not part of the crate; [shell_words] states the fragment of the POSIX
    shell's word splitting (XCU 2.2 and 2.6.1) the quoting relies on: blanks separate words, single
    quotes keep everything, a back_slash keeps one character, a leading [~/] is the home directory.
    On any other unquoted character it gives no answer at all. *)

From S2P Require Import Prelude Text Wire Spawn.
Local Open Scope Z_scope.

(** ** Options *)

Definition DEFAULT_CONNECT_TIMEOUT_SECONDS : Z := 10.
Definition PORT_MIN : Z := 1.

Record SshArgv : Type :=
  { ssh_host : string;
    ssh_user : option string;
    ssh_port : option Z;
    ssh_identity_file : option string;
    ssh_command : list string;
    ssh_connect_timeout_seconds : Z }.

Definition ssh_argv_new (host : string) (command : list string) : SshArgv :=
  {| ssh_host := host; ssh_user := None; ssh_port := None; ssh_identity_file := None; ssh_command := command;
     ssh_connect_timeout_seconds := DEFAULT_CONNECT_TIMEOUT_SECONDS |}.

Definition with_user (o : SshArgv) (user : string) : SshArgv :=
  {| ssh_host := ssh_host o; ssh_user := Some user; ssh_port := ssh_port o;
     ssh_identity_file := ssh_identity_file o; ssh_command := ssh_command o;
     ssh_connect_timeout_seconds := ssh_connect_timeout_seconds o |}.

Definition with_port (o : SshArgv) (port : Z) : SshArgv :=
  {| ssh_host := ssh_host o; ssh_user := ssh_user o; ssh_port := Some port;
     ssh_identity_file := ssh_identity_file o; ssh_command := ssh_command o;
     ssh_connect_timeout_seconds := ssh_connect_timeout_seconds o |}.

Definition with_identity_file (o : SshArgv) (file : string) : SshArgv :=
  {| ssh_host := ssh_host o; ssh_user := ssh_user o; ssh_port := ssh_port o;
     ssh_identity_file := Some file; ssh_command := ssh_command o;
     ssh_connect_timeout_seconds := ssh_connect_timeout_seconds o |}.

Definition with_connect_timeout_seconds (o : SshArgv) (seconds : Z) : SshArgv :=
  {| ssh_host := ssh_host o; ssh_user := ssh_user o; ssh_port := ssh_port o;
     ssh_identity_file := ssh_identity_file o; ssh_command := ssh_command o; ssh_connect_timeout_seconds := seconds |}.

Inductive SshArgvError : Type :=
| EHost (host : string)
| EUser (user : string)
| EPort (port : Z)
| EConnectTimeoutSeconds (seconds : Z)
| ECommand (command : list string).

Definition ssh_error_reason (e : SshArgvError) : string :=
  match e with
  | EHost _ => "host"
  | EUser _ => "user"
  | EPort _ => "port"
  | EConnectTimeoutSeconds _ => "connectTimeoutSeconds"
  | ECommand _ => "command"
  end.

Definition show_ssh_error {RT : RustText} (e : SshArgvError) : string :=
  let word := " name without whitespace and not beginning with " +:+ quoted "-" in
  match e with
  | EHost host => "ssh host is " +:+ fmt_debug host +:+ "; expected a non-empty host" +:+ word
  | EUser user => "ssh user is " +:+ fmt_debug user +:+ "; expected a non-empty user" +:+ word
  | EPort port => "ssh port is " +:+ show_Z port +:+ "; expected a port of at least " +:+ show_Z PORT_MIN
  | EConnectTimeoutSeconds seconds =>
      "ssh connectTimeoutSeconds is " +:+ show_Z seconds +:+ "; expected an integer of at least 1 second"
  | ECommand command =>
      "ssh command is [" +:+ join ", " (map fmt_debug command) +:+
      "]; expected [remotePath, ...remoteArgs] with a non-empty remote path"
  end.

(** ** Checks *)

Definition option_like (s : string) : bool :=
  bool_decide (s = "") || str_starts_with "-" s || any_whitespace s.

Definition checked_host (host : string) : result string SshArgvError :=
  if option_like host then Err (EHost host) else Ok host.

Definition checked_user (user : string) : result string SshArgvError :=
  if option_like user then Err (EUser user) else Ok user.

Definition checked_port (port : Z) : result Z SshArgvError :=
  if port <? PORT_MIN then Err (EPort port) else Ok port.

Definition checked_timeout (seconds : Z) : result Z SshArgvError :=
  if seconds <? 1 then Err (EConnectTimeoutSeconds seconds) else Ok seconds.

Definition checked_command (command : list string) : result (string * list string) SshArgvError :=
  match command with
  | remote_path :: rest => if bool_decide (remote_path = "") then Err (ECommand command) else Ok (remote_path, rest)
  | [] => Err (ECommand command)
  end.

(** [Option::transpose] after a check. *)
Definition checked_option {A} (check : A -> result A SshArgvError) (o : option A) : result (option A) SshArgvError :=
  match o with
  | Some a => let? a := check a in Ok (Some a)
  | None => Ok None
  end.

(** ** Quoting *)

Definition tick : u8 := "'"%char.
Definition back_slash : u8 := "\"%char.

(** [value.replace('\'', "'\\''")]. *)
Fixpoint escape_ticks (b : bytes) : bytes :=
  match b with
  | [] => []
  | c :: r => if bool_decide (c = tick) then tick :: back_slash :: tick :: tick :: escape_ticks r else c :: escape_ticks r
  end.

Definition single_quote_bytes (b : bytes) : bytes := tick :: escape_ticks b ++ [tick].
Definition single_quote (value : string) : string := of_bytes (single_quote_bytes (to_bytes value)).

(** [strip_prefix("~/")]. *)
Definition strip_home (b : bytes) : option bytes :=
  match b with
  | a :: c :: rest => if bool_decide (a = "~"%char) && bool_decide (c = "/"%char) then Some rest else None
  | _ => None
  end.

Definition quote_path_bytes (b : bytes) : bytes :=
  match strip_home b with
  | Some rest => "~"%char :: "/"%char :: single_quote_bytes rest
  | None => single_quote_bytes b
  end.
Definition quote_remote_path (remote_path : string) : string := of_bytes (quote_path_bytes (to_bytes remote_path)).

(** ** The argument vector *)

Definition preset (connect_timeout : Z) : list string :=
  ["ssh"; "-o"; "BatchMode=yes"; "-o"; "ConnectTimeout=" +:+ show_Z connect_timeout; "-o"; "ServerAliveInterval=15";
   "-o"; "ServerAliveCountMax=3"; "-o"; "StrictHostKeyChecking=yes"; "-o"; "ControlMaster=no"; "-o"; "ControlPath=none";
   "-o"; "RemoteCommand=none"].

Definition destination (user : option string) (host : string) : string :=
  match user with Some user => user +:+ "@" +:+ host | None => host end.

(** Everything before the destination. *)
Definition ssh_options (connect_timeout : Z) (identity_file : option string) (port : option Z) : list string :=
  preset connect_timeout ++
  match identity_file with Some file => ["-o"; "IdentitiesOnly=yes"; "-i"; file] | None => [] end ++
  match port with Some port => ["-p"; show_Z port] | None => [] end ++ ["-T"; "--"].

Definition remote_words (remote_path : string) (remote_args : list string) : list string :=
  quote_remote_path remote_path :: map single_quote remote_args.

Definition ssh_argv (o : SshArgv) : result (list string) SshArgvError :=
  let? host := checked_host (ssh_host o) in
  let? user := checked_option checked_user (ssh_user o) in
  let? connect_timeout := checked_timeout (ssh_connect_timeout_seconds o) in
  let? command := checked_command (ssh_command o) in
  let '(remote_path, remote_args) := command in
  let? port := checked_option checked_port (ssh_port o) in
  Ok (ssh_options connect_timeout (ssh_identity_file o) port ++ [destination user host] ++
      remote_words remote_path remote_args).

(** ** How [ssh] ended *)

Definition SSH_OWN_FAILURE : Z := 255.
Definition COMMAND_NOT_FOUND : Z := 127.

Definition classify_ssh_exit (status : ExitStatus) (stderr_tail : string) : string :=
  if bool_decide (es_code status = Some SSH_OWN_FAILURE) then
    let suffix := match last_non_empty_line stderr_tail with Some detail => ": " +:+ detail | None => "" end in
    "ssh exited 255, its own failure (connection, authentication or host key), not a status from the remote command" +:+
    suffix +:+ "."
  else if bool_decide (es_code status = Some COMMAND_NOT_FOUND) then
    "ssh exited 127: the remote login shell could not find the command; check the remote path and the PATH of a non-interactive shell."
  else
    match es_signal status, es_code status with
    | Some signal, _ =>
        "ssh was killed by " +:+ match signal_name signal with Some name => name | None => "signal " +:+ show_Z signal end +:+
        " before the remote command reported a status."
    | None, None =>
        "ssh ended without an exit status, so the launcher could not observe how the remote command finished."
    | None, Some code => "ssh exited " +:+ show_Z code +:+ ", which is the status the remote command returned."
    end.

Definition own_failure : ExitStatus := {| es_code := Some 255; es_signal := None |}.
Definition remote_status (code : Z) : ExitStatus := {| es_code := Some code; es_signal := None |}.

(** What a launcher shows for a connection that failed, from the last line [ssh] wrote. *)
Example classify_own_failure :
  classify_ssh_exit own_failure ("banner" +:+ String "010" "ssh: connect to host x port 22: timed out " +:+ String "010" "  ") =
  "ssh exited 255, its own failure (connection, authentication or host key), not a status from the remote command: ssh: connect to host x port 22: timed out.".
Proof. vm_compute. reflexivity. Qed.

Example classify_remote_status :
  classify_ssh_exit (remote_status 3) "" = "ssh exited 3, which is the status the remote command returned." /\
  classify_ssh_exit {| es_code := None; es_signal := Some 15 |} "" =
    "ssh was killed by SIGTERM before the remote command reported a status.".
Proof. vm_compute. by split. Qed.

(** ** The login shell *)

(** The words of a line, [word] being the one under way and [quoted] whether a single quote is
    open. *)
Fixpoint shell_read (home : bytes) (quoted : bool) (word : option bytes) (b : bytes) : option (list bytes) :=
  match b with
  | [] => if quoted then None else Some (match word with Some w => [w] | None => [] end)
  | c :: r =>
      if quoted then
        match word with
        | Some w => if bool_decide (c = tick) then shell_read home false (Some w) r
                    else shell_read home true (Some (w ++ [c])) r
        | None => None
        end
      else if bool_decide (c = tick) then shell_read home true (Some (default [] word)) r
      else if bool_decide (c = " "%char) then
        match word with
        | Some w => option_map (cons w) (shell_read home false None r)
        | None => shell_read home false None r
        end
      else if bool_decide (c = back_slash) then
        match r with
        | d :: r' => if bool_decide (d = "010"%char) then None else shell_read home false (Some (default [] word ++ [d])) r'
        | [] => None
        end
      else if bool_decide (c = "~"%char) then
        match word, r with
        | None, d :: r' => if bool_decide (d = "/"%char) then shell_read home false (Some (home ++ ["/"%char])) r' else None
        | _, _ => None
        end
      else None
  end.

Definition shell_words (home line : string) : option (list string) :=
  option_map (map of_bytes) (shell_read (to_bytes home) false None (to_bytes line)).

(** What [ssh] sends: the words joined with spaces. *)
Fixpoint join_words (ws : list string) : string :=
  match ws with
  | [] => ""
  | [w] => w
  | w :: ws => w +:+ " " +:+ join_words ws
  end.

(** The command the caller meant, its path below the home directory if it says so. *)
Definition expand_home (home path : string) : string :=
  match strip_home (to_bytes path) with Some rest => home +:+ "/" +:+ of_bytes rest | None => path end.

(** ** Lemmas *)

Lemma shell_read_escaped home v : forall w rest,
  shell_read home true (Some w) (escape_ticks v ++ rest) = shell_read home true (Some (w ++ v)) rest.
Proof.
  induction v as [|c v IH]; intros w rest; [by rewrite app_nil_r|]. simpl. case_bool_decide as Hc.
  - subst c. simpl. rewrite IH. by rewrite <- app_assoc.
  - simpl. rewrite bool_decide_false by done. rewrite IH. by rewrite <- app_assoc.
Qed.

(** A quoted word reads back as itself, appended to what stands before it. *)
Lemma shell_read_quoted home v word rest :
  shell_read home false word (single_quote_bytes v ++ rest) = shell_read home false (Some (default [] word ++ v)) rest.
Proof.
  unfold single_quote_bytes. simpl. rewrite <- app_assoc, shell_read_escaped. done.
Qed.

Definition expand_home_bytes (home path : bytes) : bytes :=
  match strip_home path with Some rest => home ++ "/"%char :: rest | None => path end.

Lemma shell_read_path home path rest :
  shell_read home false None (quote_path_bytes path ++ rest) = shell_read home false (Some (expand_home_bytes home path)) rest.
Proof.
  unfold quote_path_bytes, expand_home_bytes. destruct (strip_home path) as [tail|]; [|by rewrite shell_read_quoted].
  change (shell_read home false None (("~" :: "/" :: single_quote_bytes tail) ++ rest)%char) with
    (shell_read home false (Some (home ++ ["/"%char])) (single_quote_bytes tail ++ rest)).
  rewrite shell_read_quoted. simpl. by rewrite <- app_assoc.
Qed.

(** The line of bytes [ssh] sends. *)
Fixpoint join_bytes (ws : list bytes) : bytes :=
  match ws with
  | [] => []
  | [w] => w
  | w :: ws => w ++ " "%char :: join_bytes ws
  end.

Lemma join_words_bytes ws : to_bytes (join_words ws) = join_bytes (map to_bytes ws).
Proof.
  induction ws as [|w ws IH]; [done|]. destruct ws as [|w' ws]; [done|].
  change (join_words (w :: w' :: ws)) with (w +:+ " " +:+ join_words (w' :: ws)).
  rewrite !to_bytes_app, IH. done.
Qed.

Lemma shell_read_args home args : forall w,
  shell_read home false (Some w)
    (match args with [] => [] | _ => " "%char :: join_bytes (map single_quote_bytes args) end) = Some (w :: args).
Proof.
  induction args as [|a args IH]; intros w; [done|].
  assert (Hline : join_bytes (map single_quote_bytes (a :: args)) = single_quote_bytes a ++
    match args with [] => [] | _ => " "%char :: join_bytes (map single_quote_bytes args) end).
  { destruct args; [simpl; by rewrite app_nil_r|done]. }
  rewrite Hline. cbn [shell_read]. rewrite !bool_decide_false by done. rewrite bool_decide_true by done.
  rewrite shell_read_quoted. cbn [default app]. by rewrite IH.
Qed.

Lemma strip_home_string home path :
  to_bytes (expand_home home path) = expand_home_bytes (to_bytes home) (to_bytes path).
Proof.
  unfold expand_home, expand_home_bytes. destruct (strip_home (to_bytes path)); [|done].
  by rewrite !to_bytes_app, to_of_bytes.
Qed.

Lemma shell_words_remote home path args :
  shell_words home (join_words (remote_words path args)) = Some (expand_home home path :: args).
Proof.
  unfold shell_words, remote_words. rewrite join_words_bytes. cbn [map]. rewrite map_map.
  unfold quote_remote_path, single_quote. rewrite to_of_bytes.
  rewrite (map_ext _ (fun a => single_quote_bytes (to_bytes a))) by (intros a; apply to_of_bytes).
  rewrite <- (map_map to_bytes single_quote_bytes).
  assert (Hline : join_bytes (quote_path_bytes (to_bytes path) :: map single_quote_bytes (map to_bytes args)) =
    quote_path_bytes (to_bytes path) ++
    match map to_bytes args with [] => [] | _ => " "%char :: join_bytes (map single_quote_bytes (map to_bytes args)) end).
  { destruct args; [simpl; by rewrite app_nil_r|done]. }
  rewrite Hline, shell_read_path, shell_read_args. simpl. f_equal. f_equal.
  - by rewrite <- strip_home_string, of_to_bytes.
  - rewrite map_map, (map_ext _ (fun a => a)) by apply of_to_bytes. apply List.map_id.
Qed.

(** Only the first character counts. *)
Lemma starts_with_dash c s t : str_starts_with "-" (String c s) = str_starts_with "-" (String c t).
Proof. unfold str_starts_with. cbn [String.prefix]. destruct (ascii_dec "-" c); [by destruct s, t|done]. Qed.

Lemma destination_no_option user host :
  option_like host = false -> (forall u, user = Some u -> option_like u = false) ->
  str_starts_with "-" (destination user host) = false.
Proof.
  unfold option_like. intros Hh Hu. destruct user as [u|]; simpl; bools; [|done].
  specialize (Hu u eq_refl). bools. destruct u as [|c u]; [done|].
  etrans; [apply (starts_with_dash c _ u)|done].
Qed.

(** ** Properties *)

(** Ssh command line, spec transports/spawn.md.  An accepted launch never lets its destination
    be read as an option, passes every load-bearing option, and makes the target's login shell run
    exactly the command given, word for word, whatever characters it holds (a leading [~/] being the
    home directory there).  A refused one names a field that really is unusable. *)
Theorem ssh_argv_runs_command (o : SshArgv) (home : string) :
  match ssh_argv o with
  | Ok argv =>
      exists path args, ssh_command o = path :: args /\
        argv = ssh_options (ssh_connect_timeout_seconds o) (ssh_identity_file o) (ssh_port o) ++
               [destination (ssh_user o) (ssh_host o)] ++ remote_words path args /\
        str_starts_with "-" (destination (ssh_user o) (ssh_host o)) = false /\
        shell_words home (join_words (remote_words path args)) = Some (expand_home home path :: args)
  | Err (EHost h) => h = ssh_host o /\ option_like h = true
  | Err (EUser u) => ssh_user o = Some u /\ option_like u = true
  | Err (EPort p) => ssh_port o = Some p /\ p < 1
  | Err (EConnectTimeoutSeconds s) => s = ssh_connect_timeout_seconds o /\ s < 1
  | Err (ECommand c) => c = ssh_command o /\ default "" (head c) = ""
  end.
Proof.
  destruct o as [host user port file command timeout]. unfold ssh_argv, checked_host.
  cbn [ssh_host ssh_user ssh_port ssh_identity_file ssh_command ssh_connect_timeout_seconds].
  destruct (option_like host) eqn:Hh; [done|]. cbn [result_bind].
  assert (Hu : checked_option checked_user user = Ok user /\ (forall u, user = Some u -> option_like u = false) \/
    exists u, user = Some u /\ option_like u = true /\ checked_option checked_user user = Err (EUser u)).
  { destruct user as [u|]; [|by left]. simpl. unfold checked_user. destruct (option_like u) eqn:E; simpl; naive_solver. }
  destruct Hu as [[-> Hu]|(u & -> & Hu & ->)]; [|done]. cbn [result_bind].
  unfold checked_timeout. destruct (Z.ltb_spec timeout 1); [done|]. cbn [result_bind].
  destruct command as [|path args]; [done|]. cbn [checked_command].
  case_bool_decide as Hp; [by subst|]. cbn [result_bind].
  assert (Hport : checked_option checked_port port = Ok port \/
    exists p, port = Some p /\ p < 1 /\ checked_option checked_port port = Err (EPort p)).
  { destruct port as [p|]; [|by left]. simpl. unfold checked_port, PORT_MIN.
    destruct (Z.ltb_spec p 1); simpl; [right; by eexists|by left]. }
  destruct Hport as [->|(p & -> & Hlt & ->)]; [|done]. cbn [result_bind].
  exists path, args. split; [done|]. split; [done|]. split; [by apply destination_no_option|]. apply shell_words_remote.
Qed.
