(* ===== verification/Files.v ===== *)
(** * The file system under a local socket

    The calls of [tokio::fs] and [tokio::net::UnixListener] that [transports/ipc/unix.rs] makes, on the
    directory an address sits in: its entries, the entries of the directories directly inside it,
    inodes with their kind, mode and owner, and the sockets somebody listens on.

    An inode lives while an entry leads to it or a listening socket holds it; its number may be used
    again afterwards, as file systems do.  The number a new inode gets is an argument of the call that
    creates it. *)

From S2P Require Import Prelude Deadline.
Local Open Scope Z_scope.

(** An entry of the directory, or of a directory in it. *)
Inductive Path : Type :=
| Beside (name : string)
| Inside (dir name : string).

Global Instance Path_eq_dec : EqDecision Path.
Proof. solve_decision. Defined.
Global Instance Path_countable : Countable Path.
Proof.
  refine (inj_countable' (fun p => match p with Beside n => inl n | Inside d n => inr (d, n) end)
    (fun x => match x with inl n => Beside n | inr (d, n) => Inside d n end) _). by intros [].
Defined.

Inductive NodeKind : Type := KSocket | KDir | KFile | KSymlink.

Global Instance NodeKind_eq_dec : EqDecision NodeKind.
Proof. solve_decision. Defined.

(** [n_mine]: owned by the user the listeners run as. *)
Record Node : Type := mkNode { n_kind : NodeKind; n_mode : Z; n_mine : bool }.

Record Fs : Type := mkFs { fs_nodes : gmap Z Node; fs_paths : gmap Path Z; fs_open : gset Z }.

(** How the system words its own errors. *)
Class OsText : Type := { strerror : ErrorKind -> string; fmt_file_type : NodeKind -> string }.

Definition node_at (fs : Fs) (p : Path) : option Node :=
  match fs_paths fs !! p with Some i => fs_nodes fs !! i | None => None end.

(** An inode goes when nothing leads to it any more. *)
Definition collect (fs : Fs) (i : Z) : Fs :=
  if bool_decide (i ∈ (map_img (fs_paths fs) : gset Z)) || bool_decide (i ∈ fs_open fs) then fs
  else mkFs (delete i (fs_nodes fs)) (fs_paths fs) (fs_open fs).

(** ** Calls *)

Section calls.
Context {OT : OsText}.

Definition os_error (kind : ErrorKind) : IoError := {| io_kind := kind; io_text := strerror kind |}.

(** [symlink_metadata]: the inode and what it is. *)
Definition lstat (fs : Fs) (p : Path) : result (Z * Node) IoError :=
  match fs_paths fs !! p with
  | Some i => match fs_nodes fs !! i with Some n => Ok (i, n) | None => Err (os_error NotFound) end
  | None => Err (os_error NotFound)
  end.

(** [remove_file]. *)
Definition unlink (fs : Fs) (p : Path) : Fs * result unit IoError :=
  match fs_paths fs !! p with
  | None => (fs, Err (os_error NotFound))
  | Some i =>
      if bool_decide (n_kind <$> fs_nodes fs !! i = Some KDir) then (fs, Err (os_error (OtherKind "IsADirectory")))
      else (collect (mkFs (fs_nodes fs) (delete p (fs_paths fs)) (fs_open fs)) i, Ok tt)
  end.

Definition inside (d : string) (p : Path) : bool :=
  match p with Inside d' _ => bool_decide (d' = d) | Beside _ => false end.
Definition dir_empty (fs : Fs) (d : string) : bool :=
  forallb (fun '(p, _) => negb (inside d p)) (map_to_list (fs_paths fs)).

(** [remove_dir]. *)
Definition rmdir (fs : Fs) (d : string) : Fs * result unit IoError :=
  match fs_paths fs !! Beside d with
  | None => (fs, Err (os_error NotFound))
  | Some i =>
      if negb (bool_decide (n_kind <$> fs_nodes fs !! i = Some KDir)) then (fs, Err (os_error (OtherKind "NotADirectory")))
      else if negb (dir_empty fs d) then (fs, Err (os_error (OtherKind "DirectoryNotEmpty")))
      else (collect (mkFs (fs_nodes fs) (delete (Beside d) (fs_paths fs)) (fs_open fs)) i, Ok tt)
  end.

(** A new inode at a free path. *)
Definition add_node (fs : Fs) (p : Path) (i : Z) (n : Node) : Fs :=
  mkFs (<[i := n]> (fs_nodes fs)) (<[p := i]> (fs_paths fs)) (fs_open fs).

(** [DirBuilder::create]: the mode is what the umask leaves of it. *)
Definition mkdir (fs : Fs) (umask : Z) (d : string) (mode i : Z) : Fs * result unit IoError :=
  if bool_decide (is_Some (fs_paths fs !! Beside d)) then (fs, Err (os_error AlreadyExists))
  else if bool_decide (is_Some (fs_nodes fs !! i)) then (fs, Err (os_error (OtherKind "NoSpace")))
  else (add_node fs (Beside d) i (mkNode KDir (Z.ldiff mode umask) true), Ok tt).

Definition parent_dir (fs : Fs) (p : Path) : bool :=
  match p with
  | Beside _ => true
  | Inside d _ => bool_decide (n_kind <$> node_at fs (Beside d) = Some KDir)
  end.

(** [UnixListener::bind]: the socket's mode is what the umask leaves, and it listens. *)
Definition bind (fs : Fs) (umask : Z) (p : Path) (i : Z) : Fs * result Z IoError :=
  if bool_decide (is_Some (fs_paths fs !! p)) then (fs, Err (os_error AddrInUse))
  else if negb (parent_dir fs p) then (fs, Err (os_error NotFound))
  else if bool_decide (is_Some (fs_nodes fs !! i)) then (fs, Err (os_error (OtherKind "NoSpace")))
  else
    let fs := add_node fs p i (mkNode KSocket (Z.ldiff 511 umask) true) in
    (mkFs (fs_nodes fs) (fs_paths fs) ({[i]} ∪ fs_open fs), Ok i).

(** [set_permissions]. *)
Definition chmod (fs : Fs) (p : Path) (mode : Z) : Fs * result unit IoError :=
  match fs_paths fs !! p with
  | None => (fs, Err (os_error NotFound))
  | Some i =>
      match fs_nodes fs !! i with
      | None => (fs, Err (os_error NotFound))
      | Some n => (mkFs (<[i := mkNode (n_kind n) mode (n_mine n)]> (fs_nodes fs)) (fs_paths fs) (fs_open fs), Ok tt)
      end
  end.

(** [hard_link] refuses a name that is taken. *)
Definition hard_link (fs : Fs) (src dst : Path) : Fs * result unit IoError :=
  match fs_paths fs !! src with
  | None => (fs, Err (os_error NotFound))
  | Some i =>
      if bool_decide (is_Some (fs_paths fs !! dst)) then (fs, Err (os_error AlreadyExists))
      else (mkFs (fs_nodes fs) (<[dst := i]> (fs_paths fs)) (fs_open fs), Ok tt)
  end.

(** [rename] replaces it, unless it is a directory; two names of one inode stay as they are. *)
Definition rename (fs : Fs) (src dst : Path) : Fs * result unit IoError :=
  match fs_paths fs !! src with
  | None => (fs, Err (os_error NotFound))
  | Some i =>
      match fs_paths fs !! dst with
      | None => (mkFs (fs_nodes fs) (<[dst := i]> (delete src (fs_paths fs))) (fs_open fs), Ok tt)
      | Some j =>
          if bool_decide (n_kind <$> fs_nodes fs !! j = Some KDir) then (fs, Err (os_error (OtherKind "IsADirectory")))
          else if bool_decide (i = j) then (fs, Ok tt)
          else (collect (mkFs (fs_nodes fs) (<[dst := i]> (delete src (fs_paths fs))) (fs_open fs)) j, Ok tt)
      end
  end.

(** [UnixStream::connect]: answered while somebody listens, refused by a socket nobody listens on. *)
Definition dial (fs : Fs) (p : Path) : result unit IoError :=
  match fs_paths fs !! p with
  | None => Err (os_error NotFound)
  | Some i => if bool_decide (i ∈ fs_open fs) then Ok tt else Err (os_error ConnectionRefused)
  end.
End calls.

(** Dropping a listening socket. *)
Definition close_socket (fs : Fs) (i : Z) : Fs :=
  collect (mkFs (fs_nodes fs) (fs_paths fs) (fs_open fs ∖ {[i]})) i.

(** ** Who may connect *)

(** No permission for the group or anybody else. *)
Definition owner_only (mode : Z) : bool := Z.land mode 63 =? 0.

(** Another user may connect to a socket he may write to, if every directory on the way to it lets him
    search it. *)
Definition stranger_may_connect (fs : Fs) (p : Path) : bool :=
  match node_at fs p with
  | Some n =>
      bool_decide (n_kind n = KSocket) && negb (Z.land (n_mode n) 18 =? 0) &&
      match p with
      | Beside _ => true
      | Inside d _ =>
          match node_at fs (Beside d) with Some nd => negb (Z.land (n_mode nd) 9 =? 0) | None => false end
      end
  | None => false
  end.

(** ** Lemmas *)

Lemma collect_paths fs i : fs_paths (collect fs i) = fs_paths fs.
Proof. unfold collect. by destruct (_ || _). Qed.
Lemma collect_open fs i : fs_open (collect fs i) = fs_open fs.
Proof. unfold collect. by destruct (_ || _). Qed.

Lemma collect_at fs i p : node_at (collect fs i) p = node_at fs p.
Proof.
  unfold node_at. rewrite collect_paths. destruct (fs_paths fs !! p) as [j|] eqn:Ep; [|done].
  unfold collect. destruct (bool_decide (i ∈ map_img (fs_paths fs))) eqn:Ei; [done|]. cbn.
  destruct (bool_decide (i ∈ fs_open fs)); [done|]. cbn. apply bool_decide_eq_false in Ei.
  rewrite lookup_delete_ne; [done|]. intros ->. apply Ei. by eapply elem_of_map_img_2.
Qed.

Lemma collect_nodes fs i j n : fs_nodes (collect fs i) !! j = Some n -> fs_nodes fs !! j = Some n.
Proof.
  unfold collect. destruct (_ || _); [done|]. cbn. intros H. apply lookup_delete_Some in H. tauto.
Qed.

Lemma close_socket_paths fs i : fs_paths (close_socket fs i) = fs_paths fs.
Proof. unfold close_socket. by rewrite collect_paths. Qed.
Lemma close_socket_open fs i : fs_open (close_socket fs i) = fs_open fs ∖ {[i]}.
Proof. unfold close_socket. by rewrite collect_open. Qed.
Lemma close_socket_at fs i p : node_at (close_socket fs i) p = node_at fs p.
Proof. unfold close_socket. by rewrite collect_at. Qed.

(** ** What a call changes

    Each call in terms of the entries and of what they lead to. *)

(** Every entry leads to an inode, and a directory's entries sit in a directory. *)
Definition fs_wf (fs : Fs) : Prop :=
  (forall p, is_Some (fs_paths fs !! p) -> is_Some (node_at fs p)) /\
  (forall d s, is_Some (fs_paths fs !! Inside d s) -> n_kind <$> node_at fs (Beside d) = Some KDir).

(** The same entries, leading to the same things. *)
Definition unchanged (fs fs' : Fs) : Prop :=
  fs_paths fs' = fs_paths fs /\ fs_open fs' = fs_open fs /\ forall q, node_at fs' q = node_at fs q.

Definition removed (fs fs' : Fs) (p : Path) : Prop :=
  fs_paths fs' = delete p (fs_paths fs) /\ fs_open fs' = fs_open fs /\
  forall q, node_at fs' q = if decide (q = p) then None else node_at fs q.

Definition added (fs fs' : Fs) (p : Path) (i : Z) (n : Node) : Prop :=
  fs_paths fs !! p = None /\ fs_paths fs' = <[p := i]> (fs_paths fs) /\
  (forall q, node_at fs' q = if decide (q = p) then Some n else node_at fs q) /\
  (forall q, fs_paths fs !! q <> Some i).

Lemma unchanged_refl fs : unchanged fs fs.
Proof. by split. Qed.

Lemma remove_removed fs p i :
  removed fs (collect (mkFs (fs_nodes fs) (delete p (fs_paths fs)) (fs_open fs)) i) p.
Proof.
  split; [by rewrite collect_paths|]. split; [by rewrite collect_open|]. intros q. rewrite collect_at. unfold node_at. cbn.
  destruct (decide (q = p)) as [->|Hne]; [by rewrite lookup_delete_eq|by rewrite lookup_delete_ne].
Qed.

Lemma add_node_added fs p i n : fs_wf fs -> fs_paths fs !! p = None -> fs_nodes fs !! i = None ->
  added fs (add_node fs p i n) p i n.
Proof.
  intros [Hw _] Hp Hi. assert (forall q, fs_paths fs !! q <> Some i) as Hfree.
  { intros q Hq. destruct (Hw q) as [m Hm]; [by rewrite Hq|]. unfold node_at in Hm. rewrite Hq in Hm. congruence. }
  split; [done|]. split; [done|]. split; [|done]. intros q. unfold node_at. cbn.
  destruct (decide (q = p)) as [->|Hne]; [by rewrite lookup_insert_eq, lookup_insert_eq|]. rewrite lookup_insert_ne by done.
  destruct (fs_paths fs !! q) as [j|] eqn:Ej; [|done]. rewrite lookup_insert_ne; [done|]. intros <-. by apply (Hfree q).
Qed.

Lemma close_socket_wf fs i : fs_wf fs -> fs_wf (close_socket fs i).
Proof. intros [H1 H2]. split; intros *; rewrite close_socket_paths, !close_socket_at; eauto. Qed.

Lemma unchanged_wf fs fs' : unchanged fs fs' -> fs_wf fs -> fs_wf fs'.
Proof. intros (Hp & _ & Ha) [H1 H2]. split; intros *; rewrite Hp, Ha; eauto. Qed.

Section effects.
Context {OT : OsText}.

Lemma lstat_Ok fs p i n : lstat fs p = Ok (i, n) -> fs_paths fs !! p = Some i /\ node_at fs p = Some n.
Proof.
  unfold lstat, node_at. destruct (fs_paths fs !! p) as [j|]; [|done]. destruct (fs_nodes fs !! j); [|done].
  by intros [= -> ->].
Qed.

Lemma unlink_effect fs p : let fs' := (unlink fs p).1 in
  unchanged fs fs' \/ removed fs fs' p /\ is_Some (fs_paths fs !! p) /\ n_kind <$> node_at fs p <> Some KDir.
Proof.
  unfold unlink, node_at. destruct (fs_paths fs !! p) as [i|]; [|left; apply unchanged_refl].
  case_bool_decide as Hk; [left; apply unchanged_refl|]. right. split; [apply remove_removed|]. split; [by eexists|done].
Qed.

Lemma dir_empty_spec fs d : dir_empty fs d = true -> forall s, fs_paths fs !! Inside d s = None.
Proof.
  unfold dir_empty. rewrite forallb_forall. intros H s. destruct (fs_paths fs !! Inside d s) as [i|] eqn:E; [|done].
  specialize (H (Inside d s, i)). rewrite <- list_elem_of_In, elem_of_map_to_list in H. specialize (H E). cbn in H.
  by rewrite bool_decide_eq_true_2 in H.
Qed.

Lemma rmdir_effect fs d : let fs' := (rmdir fs d).1 in
  unchanged fs fs' \/
  removed fs fs' (Beside d) /\ n_kind <$> node_at fs (Beside d) = Some KDir /\ forall s, fs_paths fs !! Inside d s = None.
Proof.
  unfold rmdir, node_at. destruct (fs_paths fs !! Beside d) as [i|] eqn:Ei; [|left; apply unchanged_refl].
  case_bool_decide as Hk; cbn; [|left; apply unchanged_refl].
  destruct (dir_empty fs d) eqn:Ed; cbn; [|left; apply unchanged_refl]. right.
  split; [apply remove_removed|]. split; [done|by apply dir_empty_spec].
Qed.

Lemma mkdir_effect fs umask d mode i : fs_wf fs -> let '(fs', r) := mkdir fs umask d mode i in
  match r with
  | Ok _ => added fs fs' (Beside d) i (mkNode KDir (Z.ldiff mode umask) true) /\ fs_open fs' = fs_open fs
  | Err _ => fs' = fs
  end.
Proof.
  intros Hw. unfold mkdir. case_bool_decide as Hp; [done|]. case_bool_decide as Hi; [done|].
  apply eq_None_not_Some in Hp. apply eq_None_not_Some in Hi. split; [by apply add_node_added|done].
Qed.

Lemma bind_effect fs umask p i : fs_wf fs -> let '(fs', r) := bind fs umask p i in
  match r with
  | Ok socket => socket = i /\ added fs fs' p i (mkNode KSocket (Z.ldiff 511 umask) true) /\
      fs_open fs' = {[i]} ∪ fs_open fs /\ parent_dir fs p = true
  | Err _ => fs' = fs
  end.
Proof.
  intros Hw. unfold bind. case_bool_decide as Hp; [done|]. destruct (parent_dir fs p) eqn:Hd; [|done]. cbn.
  case_bool_decide as Hi; [done|]. apply eq_None_not_Some in Hp. apply eq_None_not_Some in Hi. split; [done|]. split; [|done].
  destruct (add_node_added fs p i (mkNode KSocket (Z.ldiff 511 umask) true) Hw Hp Hi) as (H1 & H2 & H3 & H4).
  by split_and!.
Qed.

Lemma chmod_effect fs p mode : let '(fs', r) := chmod fs p mode in
  match r with
  | Ok _ => exists n, node_at fs p = Some n /\ fs_paths fs' = fs_paths fs /\ fs_open fs' = fs_open fs /\
      forall q, node_at fs' q =
        if decide (fs_paths fs !! q = fs_paths fs !! p) then Some (mkNode (n_kind n) mode (n_mine n)) else node_at fs q
  | Err _ => fs' = fs
  end.
Proof.
  unfold chmod. destruct (fs_paths fs !! p) as [i|] eqn:Ep; [|done]. destruct (fs_nodes fs !! i) as [n|] eqn:En; [|done].
  exists n. unfold node_at. cbn. rewrite Ep. split; [done|]. do 2 (split; [done|]). intros q. destruct (decide _) as [->|Hne].
  - by rewrite lookup_insert_eq.
  - destruct (fs_paths fs !! q) as [j|]; [|done]. rewrite lookup_insert_ne; [done|]. by intros ->.
Qed.

(** The other name of an inode leads to the same thing. *)
Lemma same_inode fs p q : fs_paths fs !! q = fs_paths fs !! p -> node_at fs q = node_at fs p.
Proof. unfold node_at. by intros ->. Qed.

Lemma hard_link_effect fs src dst : let '(fs', r) := hard_link fs src dst in
  match r with
  | Ok _ => exists i, fs_paths fs !! src = Some i /\ fs_paths fs !! dst = None /\ fs_paths fs' = <[dst := i]> (fs_paths fs) /\
      fs_open fs' = fs_open fs /\ forall q, node_at fs' q = if decide (q = dst) then node_at fs src else node_at fs q
  | Err e => fs' = fs /\ (is_Some (fs_paths fs !! src) -> io_kind e = AlreadyExists)
  end.
Proof.
  unfold hard_link. destruct (fs_paths fs !! src) as [i|] eqn:Es; [|by split; [|intros [? ?]]].
  case_bool_decide as Hd; [done|]. apply eq_None_not_Some in Hd. exists i. do 4 (split; [done|]). intros q.
  unfold node_at. cbn. rewrite Es.
  destruct (decide (q = dst)) as [->|Hne]; [by rewrite lookup_insert_eq|by rewrite lookup_insert_ne].
Qed.

Lemma rename_effect fs src dst : let '(fs', r) := rename fs src dst in
  match r with
  | Ok _ => unchanged fs fs' /\ is_Some (fs_paths fs !! dst) /\ fs_paths fs !! dst = fs_paths fs !! src \/
      exists i, fs_paths fs !! src = Some i /\ n_kind <$> node_at fs dst <> Some KDir /\
        fs_paths fs' = <[dst := i]> (delete src (fs_paths fs)) /\ fs_open fs' = fs_open fs /\
        forall q, node_at fs' q = if decide (q = dst) then node_at fs src else if decide (q = src) then None else node_at fs q
  | Err _ => fs' = fs
  end.
Proof.
  unfold rename. destruct (fs_paths fs !! src) as [i|] eqn:Es; [|done].
  assert (Hat : forall q, node_at (mkFs (fs_nodes fs) (<[dst := i]> (delete src (fs_paths fs))) (fs_open fs)) q =
    if decide (q = dst) then node_at fs src else if decide (q = src) then None else node_at fs q).
  { intros q. unfold node_at. cbn. rewrite Es. destruct (decide (q = dst)) as [->|H1]; [by rewrite lookup_insert_eq|].
    rewrite lookup_insert_ne by done. destruct (decide (q = src)) as [->|H2]; [by rewrite lookup_delete_eq|].
    by rewrite lookup_delete_ne. }
  destruct (fs_paths fs !! dst) as [j|] eqn:Ej.
  - case_bool_decide as Hk; [done|]. case_bool_decide as Hij; [subst; left; by split_and!|]. right. exists i.
    split; [done|]. split; [unfold node_at; by rewrite Ej|]. split; [by rewrite collect_paths|].
    split; [by rewrite collect_open|]. intros q. by rewrite collect_at.
  - right. exists i. split; [done|]. split; [unfold node_at; by rewrite Ej|]. by split_and!.
Qed.
End effects.
