(* ===== verification/Ipc.v ===== *)
(** * The local socket transport

    [transports/ipc.rs] and [transports/ipc/unix.rs]: the address of a named endpoint, the listener that
    publishes a socket at it, the ports it hands out, its end, and dialling it; and what
    [transports/ipc/windows.rs] does instead.

    A listener's life on POSIX is a program counter over the calls it makes ([Pc], [ipc_step]): one
    call is one step, so other listeners, other users and crashes come between any two.  A step may
    also fail with any error the system has ([fault]). *)

From S2P Require Import Prelude Text Json Wire Frame Validate Limits Serde JsonText FrameJson Ndjson NdjsonProps Port NdjsonPort NdjsonPortProps Deadline Files.
Local Open Scope Z_scope.

Definition SOCKET_MODE : Z := 384.               (* 0o600 *)
Definition STAGING_DIRECTORY_MODE : Z := 448.    (* 0o700 *)
Definition PROBE_TIMEOUT : Z := 1000000000.

(** ** Addresses *)

Record IpcNameError : Type := { ine_name : string }.

Definition show_name_error {RT : RustText} (e : IpcNameError) : string :=
  "ipc name is " +:+ fmt_debug (ine_name e) +:+ "; expected one non-empty path segment without " +:+ quoted "/" +:+
  ", " +:+ quoted "\" +:+ " or " +:+ quoted "..".

(** [PathBuf::join] with a relative name. *)
Definition path_join (dir name : string) : string :=
  if bool_decide (dir = "") then name else if str_ends_with "/" dir then dir +:+ name else dir +:+ "/" +:+ name.

(** [address_for] of the two platforms; [xdg_runtime_dir] is the environment's, [temp_dir] the
    standard library's. *)
Definition unix_address_for (xdg_runtime_dir : option string) (temp_dir name : string) : string :=
  path_join (match xdg_runtime_dir with
             | Some dir => if bool_decide (dir = "") then temp_dir else dir
             | None => temp_dir
             end) (name +:+ ".sock").
Definition windows_address_for (name : string) : string := "\\.\pipe\" +:+ name.

Definition ipc_path (address_for : string -> string) (name : string) : result string IpcNameError :=
  if bool_decide (name = "") || str_contains "/" name || str_contains "\" name || str_contains ".." name
  then Err {| ine_name := name |}
  else Ok (address_for name).

(** ** Who connected *)

Record PeerUser : Type := { pu_uid : Z; pu_gid : Z }.
Record PeerIdentity : Type := { pi_process_id : option Z; pi_user : option PeerUser }.

Definition peer_identity_default : PeerIdentity := {| pi_process_id := None; pi_user := None |}.

Definition show_peer_identity (i : PeerIdentity) : string :=
  match pi_user i, pi_process_id i with
  | Some u, Some pid => "uid " +:+ show_Z (pu_uid u) +:+ " gid " +:+ show_Z (pu_gid u) +:+ " in process " +:+ show_Z pid
  | Some u, None => "uid " +:+ show_Z (pu_uid u) +:+ " gid " +:+ show_Z (pu_gid u)
  | None, Some pid => "process " +:+ show_Z pid
  | None, None => "a peer the operating system did not identify"
  end.

(** [SO_PEERCRED]; the process id is an [i32]. *)
Record UCred : Type := { uc_pid : option Z; uc_uid : Z; uc_gid : Z }.

Definition identity_of (peer_cred : result UCred IoError) : PeerIdentity :=
  match peer_cred with
  | Err _ => peer_identity_default
  | Ok credentials =>
      {| pi_process_id := match uc_pid credentials with Some pid => if 0 <=? pid then Some pid else None | None => None end;
         pi_user := Some {| pu_uid := uc_uid credentials; pu_gid := uc_gid credentials |} |}
  end.

(** ** Publishing an address *)

(** [il_socket] is the listening socket's own inode, [il_inode] the number recorded while it was
    staged; [il_accepted] are the ports handed out. *)
Record IpcListener : Type := mkIpcListener
  { il_socket : Z; il_path : string; il_inode : Z; il_max_frame_bytes : option Z; il_accepted : list nat }.

Definition il_with_max_frame_bytes (l : IpcListener) (max_frame_bytes : Z) : panics IpcListener :=
  let? m := check_max_frame_bytes max_frame_bytes in
  Ok (mkIpcListener (il_socket l) (il_path l) (il_inode l) (Some m) (il_accepted l)).

(** The name of an attempt's own directory; the socket in it is [s]. *)
Definition staging_path (pid attempt : N) : string := ".m" +:+ pretty pid +:+ "-" +:+ pretty attempt.
Definition staged_socket (dir : string) : Path := Inside dir "s".

Inductive Staleness : Type := Stale | Live.

(** What [probe] makes of the dial; [None] is the timeout. *)
Definition probe (answer : option (result unit IoError)) : Staleness :=
  match answer with
  | Some (Ok _) => Live
  | Some (Err error) =>
      if bool_decide (io_kind error = ConnectionRefused) || bool_decide (io_kind error = NotFound) then Stale else Live
  | None => Live
  end.

(** Where a listener is: in [remove_stale_socket] and [remove_if_still], in [stage], in [publish], in
    the last [discard] with what [stage_and_publish] gave, serving, and in [close]. *)
Inductive Pc : Type :=
| LStat
| LProbe (judged : Z)
| LRestat (judged : Z)
| LUnlink (judged : Z)
| LName
| LClearCheck
| LClearFile
| LClearDir
| LMkdir
| LBind
| LChmod (socket : Z)
| LStaged (socket : Z)
| LLink (socket inode : Z)
| LRename (socket inode : Z)
| LDiscardCheck (staged : result (Z * Z) IoError)
| LDiscardFile (staged : result (Z * Z) IoError)
| LDiscardDir (staged : result (Z * Z) IoError)
| LFailed (error : IoError)
| Serving (l : IpcListener)
| CDrop (l : IpcListener)
| CStat (l : IpcListener)
| CUnlink (l : IpcListener)
| CEnded.

Section posix.
Context {OT : OsText} (umask : Z) (base : string).

(** A call that fails has no effect. *)
Definition sys {A} (fault : option IoError) (fs : Fs) (r : Fs * result A IoError) : Fs * result A IoError :=
  match fault with Some e => (fs, Err e) | None => r end.
Definition query {A} (fault : option IoError) (r : result A IoError) : result A IoError :=
  match fault with Some e => Err e | None => r end.

(** A dial that is cut short by the timeout, by an error that is not about the listener, or answered. *)
Inductive Dial : Type := DialAnswered | DialTimedOut | DialFailed (error : IoError).
Definition dialled (d : Dial) (fs : Fs) (p : Path) : option (result unit IoError) :=
  match d with
  | DialAnswered => Some (dial fs p)
  | DialTimedOut => None
  | DialFailed error =>
      if bool_decide (io_kind error = ConnectionRefused) || bool_decide (io_kind error = NotFound) then Some (dial fs p)
      else Some (Err error)
  end.

(** What the environment decides about a step: the error of its call, the number of the inode it
    creates, the fate of its dial. *)
Record Env : Type := mkEnv { ev_fault : option IoError; ev_inode : Z; ev_dial : Dial }.

(** The caller's own errors. *)
Definition show_path (path : string) : string := path_join base path.
Definition taken_error (path : string) : IoError :=
  {| io_kind := AlreadyExists;
     io_text := show_path path +:+ " was taken by another listener while this one was binding; expected the address to be free" |}.
Definition not_a_socket_error (path : string) (k : NodeKind) : IoError :=
  {| io_kind := AlreadyExists;
     io_text := show_path path +:+ " is " +:+ fmt_file_type k +:+
                "; expected nothing, or a socket file a previous listener left behind" |}.
Definition in_use_error (path : string) : IoError :=
  {| io_kind := AddrInUse;
     io_text := show_path path +:+ " is served by a live listener; expected the address to be free or a socket file nothing answers on" |}.

(** [is_directory]. *)
Definition is_directory (r : result (Z * Node) IoError) : bool :=
  match r with Ok (_, n) => bool_decide (n_kind n = KDir) | Err _ => false end.

(** [remove_stale_socket]: what sits at the address, and whether somebody answers there. *)
Definition remove_stale_socket (fs : Fs) (path : string) (e : Env) (pc : Pc) : Fs * Pc :=
  match pc with
  | LProbe judged =>
      (fs, match probe (dialled (ev_dial e) fs (Beside path)) with
           | Stale => LRestat judged
           | Live => LFailed (in_use_error path)
           end)
  | _ =>
      match query (ev_fault e) (lstat fs (Beside path)) with
      | Err error => (fs, if bool_decide (io_kind error = NotFound) then LName else LFailed error)
      | Ok (i, n) =>
          (fs, if bool_decide (n_kind n = KSocket) then LProbe i else LFailed (not_a_socket_error path (n_kind n)))
      end
  end.

(** [remove_if_still]. *)
Definition remove_if_still (fs : Fs) (path : string) (e : Env) (judged : Z) (checked : bool) : Fs * Pc :=
  if checked then
    let '(fs, r) := sys (ev_fault e) fs (unlink fs (Beside path)) in
    (fs, match r with Ok _ => LName | Err error => LFailed error end)
  else
    (fs, match query (ev_fault e) (lstat fs (Beside path)) with
         | Err _ => LName
         | Ok (i, _) => if bool_decide (i = judged) then LUnlink judged else LName
         end).

(** [discard]: the check, the removal of the socket and that of the directory, each with what comes
    next. *)
Definition discard_check (fs : Fs) (dir : string) (e : Env) (next done : Pc) : Fs * Pc :=
  (fs, if is_directory (query (ev_fault e) (lstat fs (Beside dir))) then next else done).
Definition discard_file (fs : Fs) (dir : string) (e : Env) (next : Pc) : Fs * Pc :=
  ((sys (ev_fault e) fs (unlink fs (staged_socket dir))).1, next).
Definition discard_dir (fs : Fs) (dir : string) (e : Env) (done : Pc) : Fs * Pc :=
  ((sys (ev_fault e) fs (rmdir fs dir)).1, done).

(** [stage_and_publish] returns: on an error the listener it holds is dropped. *)
Definition giving_up (fs : Fs) (socket : Z) (error : IoError) : Fs * Pc := (close_socket fs socket, LDiscardCheck (Err error)).

(** [stage] and [restrict]. *)
Definition stage (fs : Fs) (dir : string) (e : Env) (pc : Pc) : Fs * Pc :=
  match pc with
  | LClearFile => discard_file fs dir e LClearDir
  | LClearDir => discard_dir fs dir e LMkdir
  | LMkdir =>
      let '(fs, r) := sys (ev_fault e) fs (mkdir fs umask dir STAGING_DIRECTORY_MODE (ev_inode e)) in
      (fs, match r with Ok _ => LBind | Err error => LDiscardCheck (Err error) end)
  | LBind =>
      let '(fs, r) := sys (ev_fault e) fs (bind fs umask (staged_socket dir) (ev_inode e)) in
      (fs, match r with Ok socket => LChmod socket | Err error => LDiscardCheck (Err error) end)
  | LChmod socket =>
      let '(fs, r) := sys (ev_fault e) fs (chmod fs (staged_socket dir) SOCKET_MODE) in
      match r with Ok _ => (fs, LStaged socket) | Err error => giving_up fs socket error end
  | _ => discard_check fs dir e LClearFile LMkdir
  end.

(** [stage_and_publish] between [stage] and [publish]: the inode of the staged socket. *)
Definition stage_and_publish (fs : Fs) (dir : string) (e : Env) (socket : Z) : Fs * Pc :=
  match query (ev_fault e) (lstat fs (staged_socket dir)) with
  | Ok (i, _) => (fs, LLink socket i)
  | Err error => giving_up fs socket error
  end.

(** [publish]: the link, and the rename for a file system that does not link sockets. *)
Definition publish (fs : Fs) (path dir : string) (e : Env) (socket inode : Z) (link : bool) : Fs * Pc :=
  if link then
    let '(fs, r) := sys (ev_fault e) fs (hard_link fs (staged_socket dir) (Beside path)) in
    match r with
    | Ok _ => (fs, LDiscardCheck (Ok (socket, inode)))
    | Err error =>
        if bool_decide (io_kind error = AlreadyExists) then giving_up fs socket (taken_error path) else (fs, LRename socket inode)
    end
  else
    let '(fs, r) := sys (ev_fault e) fs (rename fs (staged_socket dir) (Beside path)) in
    match r with Ok _ => (fs, LDiscardCheck (Ok (socket, inode))) | Err error => giving_up fs socket error end.

(** [listen_ipc] returns. *)
Definition listening (path : string) (staged : result (Z * Z) IoError) : Pc :=
  match staged with
  | Ok (socket, inode) => Serving (mkIpcListener socket path inode None [])
  | Err error => LFailed error
  end.

(** [IpcListener::close], once the sessions have been told: the socket is dropped, and the address goes
    if it is still this listener's. *)
Definition listener_close (fs : Fs) (e : Env) (l : IpcListener) (pc : Pc) : Fs * Pc :=
  match pc with
  | CStat _ =>
      (fs, match query (ev_fault e) (lstat fs (Beside (il_path l))) with
           | Ok (i, _) => if bool_decide (i = il_inode l) then CUnlink l else CEnded
           | Err _ => CEnded
           end)
  | CUnlink _ => ((sys (ev_fault e) fs (unlink fs (Beside (il_path l)))).1, CEnded)
  | _ => (close_socket fs (il_socket l), CStat l)
  end.

(** The next call of the listener at [path] whose staging directory is [dir]: [listen_ipc], then, once
    it is asked to, [close]. *)
Definition ipc_step (fs : Fs) (path dir : string) (e : Env) (pc : Pc) : Fs * Pc :=
  match pc with
  | LStat | LProbe _ => remove_stale_socket fs path e pc
  | LRestat judged => remove_if_still fs path e judged false
  | LUnlink judged => remove_if_still fs path e judged true
  | LName => (fs, LClearCheck)
  | LClearCheck | LClearFile | LClearDir | LMkdir | LBind | LChmod _ => stage fs dir e pc
  | LStaged socket => stage_and_publish fs dir e socket
  | LLink socket inode => publish fs path dir e socket inode true
  | LRename socket inode => publish fs path dir e socket inode false
  | LDiscardCheck staged => discard_check fs dir e (LDiscardFile staged) (listening path staged)
  | LDiscardFile staged => discard_file fs dir e (LDiscardDir staged)
  | LDiscardDir staged => discard_dir fs dir e (listening path staged)
  | LFailed _ | Serving _ | CEnded => (fs, pc)
  | CDrop l | CStat l | CUnlink l => listener_close fs e l pc
  end.

(** [listen_ipc] with nobody else around: the inodes [i] and [j] for its directory and its socket.  It
    makes at most 14 calls. *)
Fixpoint alone (calls : nat) (path dir : string) (i j : Z) (fs : Fs) (pc : Pc) : Fs * Pc :=
  match calls with
  | O => (fs, pc)
  | S calls =>
      let inode := match pc with LMkdir => i | _ => j end in
      let '(fs, pc) := ipc_step fs path dir (mkEnv None inode DialAnswered) pc in
      alone calls path dir i j fs pc
  end.

(** ** Everybody on the machine *)

(** A listener's life in one process. *)
Record Task : Type := mkTask { tk_pid : N; tk_path : string; tk_dir : string; tk_pc : Pc }.

(** [wd_attempts] is each process's [NEXT_ATTEMPT]. *)
Record World : Type := mkWorld { wd_fs : Fs; wd_tasks : gmap nat Task; wd_attempts : N -> N }.

(** What a process lets go of when it ends. *)
Definition held (pc : Pc) : option Z :=
  match pc with
  | LChmod socket | LStaged socket | LLink socket _ | LRename socket _
  | LDiscardCheck (Ok (socket, _)) | LDiscardFile (Ok (socket, _)) | LDiscardDir (Ok (socket, _)) => Some socket
  | Serving l | CDrop l => Some (il_socket l)
  | _ => None
  end.
Definition crash_fs (fs : Fs) (tasks : list Task) : Fs :=
  foldl (fun fs t => match held (tk_pc t) with Some i => close_socket fs i | None => fs end) fs tasks.

(** Another user: he makes entries in the shared directory and in his own, sockets he listens on
    included, and changes or removes his own; the shared directory is sticky. *)
Inductive StrangerOp : Type :=
| SMake (p : Path) (i : Z) (k : NodeKind) (mode : Z) (listening : bool)
| SHangUp (p : Path)
| SRemove (p : Path)
| SChmod (p : Path) (mode : Z).

Definition his (fs : Fs) (p : Path) : bool := match node_at fs p with Some n => negb (n_mine n) | None => false end.
Definition his_parent (fs : Fs) (p : Path) : bool :=
  match p with
  | Beside _ => true
  | Inside d _ => his fs (Beside d) && bool_decide (n_kind <$> node_at fs (Beside d) = Some KDir)
  end.

Definition stranger (fs : Fs) (op : StrangerOp) : Fs :=
  match op with
  | SMake p i k mode listening =>
      if bool_decide (fs_paths fs !! p = None) && bool_decide (fs_nodes fs !! i = None) && his_parent fs p then
        let fs := add_node fs p i (mkNode k mode false) in
        if listening then mkFs (fs_nodes fs) (fs_paths fs) ({[i]} ∪ fs_open fs) else fs
      else fs
  | SHangUp p =>
      match fs_paths fs !! p with Some i => if his fs p then close_socket fs i else fs | None => fs end
  | SRemove p =>
      if his fs p then
        match p with
        | Beside d => if bool_decide (n_kind <$> node_at fs p = Some KDir) then (rmdir fs d).1 else (unlink fs p).1
        | Inside _ _ => (unlink fs p).1
        end
      else fs
  | SChmod p mode => if his fs p then (chmod fs p mode).1 else fs
  end.

Inductive Action : Type :=
| AListen (t : nat) (pid : N) (path : string)    (* [listen_ipc] is called *)
| AStep (t : nat) (e : Env)                      (* a listener makes its next call *)
| AClose (t : nat)                               (* [IpcListener::close] is called, and has told its sessions *)
| ACrash (pid : N)                               (* a process ends *)
| AStranger (op : StrangerOp).

Definition set_task (w : World) (t : nat) (k : Task) : World := mkWorld (wd_fs w) (<[t := k]> (wd_tasks w)) (wd_attempts w).

Definition act (w : World) (a : Action) : World :=
  match a with
  | AListen t pid path =>
      match wd_tasks w !! t with
      | None => set_task w t (mkTask pid path "" LStat)
      | Some _ => w
      end
  | AStep t e =>
      match wd_tasks w !! t with
      | None => w
      | Some k =>
          let '(fs, pc) := ipc_step (wd_fs w) (tk_path k) (tk_dir k) e (tk_pc k) in
          match tk_pc k with
          | LName =>
              let attempt := wd_attempts w (tk_pid k) in
              mkWorld fs (<[t := mkTask (tk_pid k) (tk_path k) (staging_path (tk_pid k) attempt) pc]> (wd_tasks w))
                (fun pid => if bool_decide (pid = tk_pid k) then N.succ attempt else wd_attempts w pid)
          | _ => mkWorld fs (<[t := mkTask (tk_pid k) (tk_path k) (tk_dir k) pc]> (wd_tasks w)) (wd_attempts w)
          end
      end
  | AClose t =>
      match wd_tasks w !! t with
      | Some (mkTask pid path dir (Serving l)) => set_task w t (mkTask pid path dir (CDrop l))
      | _ => w
      end
  | ACrash pid =>
      mkWorld (crash_fs (wd_fs w) (filter (fun k => tk_pid k = pid) (map_to_list (wd_tasks w)).*2))
        (filter (fun '(_, k) => tk_pid k <> pid) (wd_tasks w))
        (fun p => if bool_decide (p = pid) then 0%N else wd_attempts w p)
  | AStranger op => mkWorld (stranger (wd_fs w) op) (wd_tasks w) (wd_attempts w)
  end.

Definition run (w : World) (acts : list Action) : World := foldl act w acts.

(** A directory nobody listens in yet. *)
Definition world_new (fs : Fs) : World := mkWorld fs ∅ (fun _ => 0%N).
End posix.

(** One call, down to the file system's. *)
Ltac unfold_step :=
  cbv beta iota delta [ipc_step remove_stale_socket remove_if_still discard_check discard_file discard_dir stage
    stage_and_publish publish listening listener_close].
