(* ===== verification/IpcProps.v ===== *)
(** * What a local socket promises

    In every interleaving of listeners, crashes and other users: a listener's socket is out of every
    other user's reach from the instant it exists ([socket_owner_only]). *)

From S2P Require Import Prelude Text Json Wire Frame Validate Limits Serde JsonText FrameJson Ndjson NdjsonProps Port NdjsonPort NdjsonPortProps Deadline Files Ipc.
Local Open Scope Z_scope.

(** ** Staging names *)

Fixpoint no_dash (s : string) : bool :=
  match s with EmptyString => true | String c s => negb (bool_decide (c = "-"%char)) && no_dash s end.

Lemma pretty_N_char_no_dash x : pretty_N_char x <> "-"%char.
Proof. destruct x as [|p]; [done|]. repeat (destruct p as [p|p|]; try done). Qed.

Lemma pretty_N_go_no_dash x : forall s, no_dash s = true -> no_dash (pretty_N_go x s) = true.
Proof.
  induction (N.lt_wf_0 x) as [x _ IH]. intros s Hs. destruct (decide (0 < x)%N) as [Hx|Hx].
  - rewrite pretty_N_go_step by done. apply IH; [apply N.div_lt; lia|]. cbn. rewrite Hs, andb_true_r.
    rewrite bool_decide_eq_false_2; [done|]. apply pretty_N_char_no_dash.
  - assert (x = 0)%N as -> by lia. by rewrite pretty_N_go_0.
Qed.

Lemma pretty_no_dash (x : N) : no_dash (pretty x) = true.
Proof. unfold pretty, pretty_N. destruct (decide (x = 0)%N); [done|]. by apply pretty_N_go_no_dash. Qed.

Lemma cut_at_dash a : forall a' b b', no_dash a = true -> no_dash a' = true ->
  a +:+ "-" +:+ b = a' +:+ "-" +:+ b' -> a = a' /\ b = b'.
Proof.
  induction a as [|c a IH]; intros [|c' a'] b b' Ha Ha' H; cbn in *.
  - by injection H.
  - injection H as <- _. by rewrite bool_decide_eq_true_2 in Ha'.
  - injection H as -> _. by rewrite bool_decide_eq_true_2 in Ha.
  - injection H as -> H. apply andb_true_iff in Ha as [_ Ha]. apply andb_true_iff in Ha' as [_ Ha'].
    destruct (IH a' b b' Ha Ha' H) as [-> ->]. done.
Qed.

Lemma staging_path_inj pid attempt pid' attempt' :
  staging_path pid attempt = staging_path pid' attempt' -> pid = pid' /\ attempt = attempt'.
Proof.
  unfold staging_path. intros H. injection H as H. apply cut_at_dash in H as [H1 H2]; [|apply pretty_no_dash..].
  split; by apply (inj pretty).
Qed.

(** ** Out of reach *)

(** A directory only its owner may search. *)
Definition shielded (fs : Fs) (d : string) : Prop :=
  exists n, node_at fs (Beside d) = Some n /\ n_kind n = KDir /\ n_mine n = true /\ owner_only (n_mode n) = true.

(** Every socket of ours is owner-only, or sits in such a directory. *)
Definition safe (fs : Fs) : Prop :=
  fs_wf fs /\ forall p n, node_at fs p = Some n -> n_kind n = KSocket -> n_mine n = true ->
    owner_only (n_mode n) = true \/ exists d s, p = Inside d s /\ shielded fs d.

(** What the listener staging in [d] may rely on while others make their calls. *)
Definition keeps (fs fs' : Fs) (d : string) : Prop :=
  shielded fs d ->
  node_at fs' (Beside d) = node_at fs (Beside d) /\
  forall n', node_at fs' (staged_socket d) = Some n' -> exists n, node_at fs (staged_socket d) = Some n /\
    n_kind n' = n_kind n /\ n_mine n' = n_mine n /\
    (n_mine n = true -> owner_only (n_mode n) = true -> owner_only (n_mode n') = true).

Lemma shielded_view fs fs' d : node_at fs' (Beside d) = node_at fs (Beside d) -> shielded fs d -> shielded fs' d.
Proof. unfold shielded. by intros ->. Qed.

Lemma safe_view fs fs' : fs_paths fs' = fs_paths fs -> (forall q, node_at fs' q = node_at fs q) -> safe fs -> safe fs'.
Proof.
  intros Hp Ha [[W1 W2] Hs]. split.
  - split; intros *; rewrite Hp, Ha; eauto.
  - intros p n. rewrite Ha. intros Hn Hk Hm. destruct (Hs p n Hn Hk Hm) as [|(d & s & -> & Hd)]; [by left|].
    right. exists d, s. split; [done|]. by apply (shielded_view fs).
Qed.

Lemma keeps_view fs fs' d : (forall q, node_at fs' q = node_at fs q) -> keeps fs fs' d.
Proof. intros Ha _. split; [done|]. intros n'. rewrite Ha. by exists n'. Qed.

Lemma safe_close_socket fs i : safe fs -> safe (close_socket fs i).
Proof. apply safe_view; [apply close_socket_paths|apply close_socket_at]. Qed.
Lemma keeps_close_socket fs fs' i d : keeps fs fs' d -> keeps fs (close_socket fs' i) d.
Proof.
  intros H Hd. destruct (H Hd) as [H1 H2]. rewrite close_socket_at. split; [done|]. intros n'. rewrite close_socket_at. apply H2.
Qed.

Lemma safe_removed fs fs' p :
  removed fs fs' p -> (forall d s, p = Beside d -> fs_paths fs !! Inside d s = None) -> safe fs -> safe fs'.
Proof.
  intros (Hp & _ & Ha) Hempty [[W1 W2] Hs].
  assert (Hd : forall d s, is_Some (fs_paths fs' !! Inside d s) -> node_at fs' (Beside d) = node_at fs (Beside d)).
  { intros d s Hi. rewrite Ha. destruct (decide (Beside d = p)) as [<-|]; [|done]. exfalso. rewrite Hp in Hi.
    rewrite lookup_delete_ne in Hi by done. rewrite (Hempty d s eq_refl) in Hi. by destruct Hi. }
  split.
  - split.
    + intros q. rewrite Hp, Ha. destruct (decide (q = p)) as [->|Hne]; [rewrite lookup_delete_eq; by intros []|].
      rewrite lookup_delete_ne by done. apply W1.
    + intros d s Hi. rewrite (Hd d s Hi). apply (W2 d s). rewrite Hp in Hi. apply lookup_delete_is_Some in Hi. tauto.
  - intros q n Hq. pose proof Hq as Hq'. rewrite Ha in Hq. destruct (decide (q = p)); [done|]. intros Hk Hm.
    destruct (Hs q n Hq Hk Hm) as [|(d & s & -> & Hsh)]; [by left|]. right. exists d, s. split; [done|].
    apply (shielded_view fs); [|done]. apply (Hd d s). unfold node_at in Hq'. destruct (fs_paths fs' !! Inside d s); [by eexists|done].
Qed.

Lemma keeps_removed fs fs' p d : removed fs fs' p -> (shielded fs d -> p <> Beside d) -> keeps fs fs' d.
Proof.
  intros (_ & _ & Ha) Hp Hd. rewrite (Ha (Beside d)). destruct (decide (Beside d = p)) as [<-|]; [by destruct (Hp Hd)|]. split; [done|].
  intros n'. rewrite Ha. destruct (decide _); [done|]. by exists n'.
Qed.

Lemma safe_added fs fs' p i n :
  added fs fs' p i n ->
  (forall d s, p = Inside d s -> n_kind <$> node_at fs (Beside d) = Some KDir) ->
  (n_kind n = KSocket -> n_mine n = true -> owner_only (n_mode n) = true \/ exists d s, p = Inside d s /\ shielded fs d) ->
  safe fs -> safe fs'.
Proof.
  intros (Hfree & Hp & Ha & _) Hpar Hn [[W1 W2] Hs].
  assert (Hbeside : forall d, is_Some (node_at fs (Beside d)) -> node_at fs' (Beside d) = node_at fs (Beside d)).
  { intros d Hd. rewrite Ha. destruct (decide (Beside d = p)) as [<-|]; [|done]. unfold node_at in Hd. rewrite Hfree in Hd. by destruct Hd. }
  assert (Hkdir : forall d, n_kind <$> node_at fs (Beside d) = Some KDir -> n_kind <$> node_at fs' (Beside d) = Some KDir).
  { intros d Hd. rewrite Hbeside; [done|]. by destruct (node_at fs (Beside d)). }
  assert (Hshield : forall d, shielded fs d -> shielded fs' d).
  { intros d Hd. apply (shielded_view fs); [|done]. apply Hbeside. destruct Hd as (m & -> & _). by eexists. }
  split.
  - split.
    + intros q. rewrite Hp, Ha. destruct (decide (q = p)) as [->|Hne]; [done|]. rewrite lookup_insert_ne by done. apply W1.
    + intros d s. rewrite Hp. intros Hi. apply Hkdir. destruct (decide (Inside d s = p)) as [<-|Hne]; [by eapply Hpar|].
      rewrite lookup_insert_ne in Hi by done. by apply (W2 d s).
  - intros q m. rewrite Ha. destruct (decide (q = p)) as [->|Hne].
    + intros [= <-] Hk Hm. destruct (Hn Hk Hm) as [|(d & s & -> & Hd)]; [by left|]. right. exists d, s. by split; [|apply Hshield].
    + intros Hq Hk Hm. destruct (Hs q m Hq Hk Hm) as [|(d & s & -> & Hd)]; [by left|]. right. exists d, s. by split; [|apply Hshield].
Qed.

Lemma keeps_added fs fs' p i n d : added fs fs' p i n -> (shielded fs d -> p <> staged_socket d) -> keeps fs fs' d.
Proof.
  intros (Hfree & _ & Ha & _) Hp Hd. rewrite (Ha (Beside d)). destruct (decide (Beside d = p)) as [<-|].
  { destruct Hd as (m & Hm & _). unfold node_at in Hm. by rewrite Hfree in Hm. }
  split; [done|]. intros n'. rewrite Ha. destruct (decide _) as [E|]; [by destruct (Hp Hd)|]. by exists n'.
Qed.

(** *** Calls *)

Section owner.
Context {OT : OsText} (umask : Z) (base : string).

(** Nothing sits in what is not a directory. *)
Lemma not_dir_empty fs d : fs_wf fs -> n_kind <$> node_at fs (Beside d) <> Some KDir -> forall s, fs_paths fs !! Inside d s = None.
Proof. intros [_ W] Hk s. apply eq_None_not_Some. intros Hi. apply Hk. by apply (W d s). Qed.

Lemma unlink_safe fs p : safe fs -> safe (unlink fs p).1 /\ forall d, keeps fs (unlink fs p).1 d.
Proof.
  intros Hs. destruct (unlink_effect fs p) as [(Hp & _ & Ha)|(Hr & _ & Hk)].
  - split; [by apply (safe_view fs)|]. intros d. by apply keeps_view.
  - split.
    + apply (safe_removed fs _ p Hr); [|done]. intros d s ->. apply not_dir_empty; [apply Hs|done].
    + intros d. apply (keeps_removed fs _ p d Hr). intros (n & Hn & Hd & _) ->. apply Hk. rewrite Hn. cbn. by rewrite Hd.
Qed.

Lemma rmdir_safe fs d' : safe fs -> safe (rmdir fs d').1 /\ forall d, (shielded fs d -> d <> d') -> keeps fs (rmdir fs d').1 d.
Proof.
  intros Hs. destruct (rmdir_effect fs d') as [(Hp & _ & Ha)|(Hr & _ & He)].
  - split; [by apply (safe_view fs)|]. intros d _. by apply keeps_view.
  - split.
    + apply (safe_removed fs _ _ Hr); [|done]. intros d s [= <-]. apply He.
    + intros d Hd. apply (keeps_removed fs _ _ d Hr). intros Hsh [= <-]. by apply Hd.
Qed.

(** A call that keeps every directory, makes no entry inside one and brings no socket of ours that is
    not owner-only. *)
Lemma safe_call fs fs' :
  (forall q, is_Some (fs_paths fs' !! q) -> is_Some (node_at fs' q)) ->
  (forall d s, is_Some (fs_paths fs' !! Inside d s) -> is_Some (fs_paths fs !! Inside d s)) ->
  (forall d m, node_at fs (Beside d) = Some m -> n_kind m = KDir -> node_at fs' (Beside d) = Some m) ->
  (forall q m, node_at fs' q = Some m -> n_kind m = KSocket -> n_mine m = true ->
     owner_only (n_mode m) = true \/ node_at fs q = Some m) ->
  safe fs -> safe fs'.
Proof.
  intros Hp Hin Hdir Hsock [[W1 W2] Hs]. split; [split; [done|]|].
  - intros d s Hq. apply Hin in Hq. specialize (W2 d s Hq). destruct (node_at fs (Beside d)) as [m|] eqn:E; [|done].
    rewrite (Hdir d m E); [done|]. by injection W2.
  - intros q m Hq Hk Hm. destruct (Hsock q m Hq Hk Hm) as [|Hold]; [by left|].
    destruct (Hs q m Hold Hk Hm) as [|(d & s & -> & n & Hd & Hkd & Hr)]; [by left|]. right. exists d, s. split; [done|]. exists n. auto.
Qed.

(** The listener's own [chmod] of its own socket. *)
Lemma chmod_safe fs p n : safe fs -> node_at fs p = Some n -> n_kind n = KSocket -> n_mine n = true ->
  let fs' := (chmod fs p SOCKET_MODE).1 in safe fs' /\ forall d, keeps fs fs' d.
Proof.
  intros Hs Hn Hk Hm. pose proof (chmod_effect fs p SOCKET_MODE) as He. cbv zeta. destruct (chmod fs p SOCKET_MODE) as [fs' [u|e]]; cbn.
  2: { subst fs'. split; [done|]. intros d. by apply keeps_view. }
  destruct He as (n0 & Hn0 & Hp & _ & Ha). assert (n0 = n) as -> by congruence. clear Hn0. rewrite Hk, Hm in Ha.
  assert (Hdir : forall d m, node_at fs (Beside d) = Some m -> n_kind m = KDir -> node_at fs' (Beside d) = Some m).
  { intros d m Hd Hkd. rewrite Ha. destruct (decide _) as [E|]; [|done]. apply same_inode in E. congruence. }
  split.
  - apply (safe_call fs); try done.
    + intros q Hq. rewrite Hp in Hq. rewrite Ha. destruct (decide _); [by eexists|by apply Hs].
    + intros d s. by rewrite Hp.
    + intros q m. rewrite Ha. destruct (decide _); [intros [= <-] _ _; by left|by right].
  - intros d (m & Hdm & Hkd & _). split; [by rewrite (Hdir d m), Hdm|]. intros n'. rewrite Ha.
    destruct (decide _) as [E|]; [|intros H; by exists n']. apply same_inode in E. rewrite Hn in E. intros [= <-]. exists n. by rewrite Hk, Hm.
Qed.

(** Linking or renaming an owner-only socket onto an address. *)
Lemma hard_link_safe fs src path n : safe fs -> node_at fs src = Some n -> owner_only (n_mode n) = true ->
  let fs' := (hard_link fs src (Beside path)).1 in safe fs' /\ forall d, keeps fs fs' d.
Proof.
  intros Hs Hn Ho. pose proof (hard_link_effect fs src (Beside path)) as He. cbv zeta.
  destruct (hard_link fs src (Beside path)) as [fs' [u|e]]; cbn.
  2: { destruct He as [-> _]. split; [done|]. intros d. by apply keeps_view. }
  destruct He as (i & Hi & Hfree & Hp & _ & Ha). rewrite Hn in Ha.
  assert (Hdir : forall d m, node_at fs (Beside d) = Some m -> n_kind m = KDir -> node_at fs' (Beside d) = Some m).
  { intros d m Hd _. rewrite Ha. destruct (decide _) as [[= ->]|]; [|done]. unfold node_at in Hd. by rewrite Hfree in Hd. }
  split.
  - apply (safe_call fs); try done.
    + intros q. rewrite Hp, Ha. destruct (decide (q = Beside path)) as [->|]; [done|]. rewrite lookup_insert_ne by done. apply Hs.
    + intros d s. by rewrite Hp, lookup_insert_ne.
    + intros q m. rewrite Ha. destruct (decide (q = Beside path)); [intros [= <-] _ _; by left|by right].
  - intros d (m & Hdm & Hkd & _). split; [by rewrite (Hdir d m), Hdm|]. intros n'. rewrite Ha.
    destruct (decide _); [done|]. intros H. by exists n'.
Qed.

Lemma rename_safe fs dir s path n : safe fs -> node_at fs (Inside dir s) = Some n -> owner_only (n_mode n) = true ->
  let fs' := (rename fs (Inside dir s) (Beside path)).1 in safe fs' /\ forall d, keeps fs fs' d.
Proof.
  intros Hs Hn Ho. pose proof (rename_effect fs (Inside dir s) (Beside path)) as He. cbv zeta.
  destruct (rename fs (Inside dir s) (Beside path)) as [fs' [u|e]]; cbn.
  2: { subst fs'. split; [done|]. intros d. by apply keeps_view. }
  destruct He as [((Hp & _ & Ha) & _)|(i & Hi & Hk & Hp & _ & Ha)].
  { split; [by apply (safe_view fs)|]. intros d. by apply keeps_view. }
  rewrite Hn in Ha.
  assert (Hdir : forall d m, node_at fs (Beside d) = Some m -> n_kind m = KDir -> node_at fs' (Beside d) = Some m).
  { intros d m Hd Hkd. rewrite Ha. destruct (decide _) as [[= ->]|]; [|done]. rewrite Hd in Hk. cbn in Hk. congruence. }
  split.
  - apply (safe_call fs); try done.
    + intros q. rewrite Hp, Ha. destruct (decide (q = Beside path)) as [->|]; [done|]. rewrite lookup_insert_ne by done.
      destruct (decide (q = Inside dir s)) as [->|]; [rewrite lookup_delete_eq; by intros []|].
      rewrite lookup_delete_ne by done. apply Hs.
    + intros d s'. rewrite Hp, lookup_insert_ne by done. intros Hq. by apply lookup_delete_is_Some in Hq as [_ Hq].
    + intros q m. rewrite Ha. destruct (decide (q = Beside path)); [intros [= <-] _ _; by left|]. destruct (decide _); [done|by right].
  - intros d (m & Hdm & Hkd & _). split; [by rewrite (Hdir d m), Hdm|]. intros n'. rewrite Ha.
    destruct (decide _); [done|]. destruct (decide _); [done|]. intros H. by exists n'.
Qed.

(** Another user's doings. *)
Lemma stranger_safe fs op : safe fs -> safe (stranger fs op) /\ forall d, keeps fs (stranger fs op) d.
Proof.
  intros Hs. assert (Hid : safe fs /\ forall d, keeps fs fs d) by (split; [done|]; intros d; by apply keeps_view).
  destruct op as [p i k mode listening|p|p|p mode]; cbn [stranger].
  - case_bool_decide as Hp; [|done]. case_bool_decide as Hi; [|done]. destruct (his_parent fs p) eqn:Hpar; [|done]. cbn [andb].
    pose proof (add_node_added fs p i (mkNode k mode false) (proj1 Hs) Hp Hi) as Ha.
    assert (safe (add_node fs p i (mkNode k mode false)) /\ forall d, keeps fs (add_node fs p i (mkNode k mode false)) d) as [H1 H2].
    { split.
      - apply (safe_added _ _ _ _ _ Ha); [|done|done]. intros d s ->. cbn in Hpar. apply andb_true_iff in Hpar as [_ H].
        by apply bool_decide_eq_true in H.
      - intros d. apply (keeps_added _ _ _ _ _ _ Ha). intros (n & Hn & _ & Hm & _) ->. cbn in Hpar. unfold his in Hpar. rewrite Hn in Hpar.
        by rewrite Hm in Hpar. }
    by destruct listening.
  - destruct (fs_paths fs !! p) as [i|]; [|done]. destruct (his fs p); [|done]. split; [by apply safe_close_socket|].
    intros d. apply keeps_view, close_socket_at.
  - destruct (his fs p) eqn:Hh; [|done]. destruct p as [d|d s]; [|by apply unlink_safe].
    case_bool_decide as Hk; [|by apply unlink_safe]. destruct (rmdir_safe fs d Hs) as [H1 H2]. split; [done|]. intros d'.
    apply H2. intros (n & Hn & _ & Hm & _) ->. unfold his in Hh. by rewrite Hn, Hm in Hh.
  - destruct (his fs p) eqn:Hh; [|done]. pose proof (chmod_effect fs p mode) as He. destruct (chmod fs p mode) as [fs' [u|e]]; cbn; [|by subst].
    destruct He as (n & Hn & Hp & _ & Ha). unfold his in Hh. rewrite Hn in Hh. apply negb_true_iff in Hh. rewrite Hh in Ha.
    assert (Hmine : forall q m, node_at fs q = Some m -> n_mine m = true -> node_at fs' q = Some m).
    { intros q m Hq Hm. rewrite Ha. destruct (decide _) as [E|]; [|done]. apply same_inode in E. congruence. }
    split.
    + destruct Hs as [[W1 W2] Hs]. split; [split|].
      * intros q Hq. rewrite Hp in Hq. rewrite Ha. destruct (decide _); [by eexists|by apply W1].
      * intros d s. rewrite Hp, Ha. intros Hq. specialize (W2 d s Hq). destruct (decide _) as [E|]; [|done]. apply same_inode in E.
        rewrite E, Hn in W2. done.
      * intros q m. rewrite Ha. destruct (decide _); [by intros [= <-]|]. intros Hq Hk Hm.
        destruct (Hs q m Hq Hk Hm) as [|(d & s & -> & n' & Hd & Hkd & Hmd & Hr)]; [by left|]. right. exists d, s. split; [done|]. exists n'. auto.
    + intros d (m & Hdm & _ & Hm & _). split; [by rewrite (Hmine _ m Hdm Hm)|]. intros n'. rewrite Ha.
      destruct (decide _) as [E|]; [|intros H; by exists n']. apply same_inode in E. rewrite Hn in E. intros [= <-]. exists n.
      split; [done|]. split; [done|]. split; [by rewrite Hh|]. rewrite Hh. done.
Qed.

(** *** A listener's calls *)

(** What holds of its staging directory where it is. *)
Definition task_ok (fs : Fs) (dir : string) (pc : Pc) : Prop :=
  match pc with
  | LBind => shielded fs dir
  | LChmod _ => shielded fs dir /\ forall n, node_at fs (staged_socket dir) = Some n -> n_kind n = KSocket /\ n_mine n = true
  | LStaged _ | LLink _ _ | LRename _ _ => shielded fs dir /\ forall n, node_at fs (staged_socket dir) = Some n ->
      n_kind n = KSocket /\ n_mine n = true /\ owner_only (n_mode n) = true
  | _ => True
  end.

(** Where a listener uses its staging directory. *)
Definition staging (pc : Pc) : bool :=
  match pc with
  | LClearCheck | LClearFile | LClearDir | LMkdir | LBind | LChmod _ | LStaged _ | LLink _ _ | LRename _ _
  | LDiscardCheck _ | LDiscardFile _ | LDiscardDir _ => true
  | _ => false
  end.

Lemma task_ok_keeps fs fs' dir pc : keeps fs fs' dir -> task_ok fs dir pc -> task_ok fs' dir pc.
Proof.
  intros Hk. assert (Hsh : shielded fs dir -> shielded fs' dir).
  { intros H. destruct (Hk H) as [H1 _]. by apply (shielded_view fs). }
  assert (Hst : shielded fs dir -> (forall n, node_at fs (staged_socket dir) = Some n ->
      n_kind n = KSocket /\ n_mine n = true /\ owner_only (n_mode n) = true) ->
    forall n, node_at fs' (staged_socket dir) = Some n -> n_kind n = KSocket /\ n_mine n = true /\ owner_only (n_mode n) = true).
  { intros H Hold n' Hn'. destruct (Hk H) as [_ H2]. destruct (H2 n' Hn') as (n & Hn & -> & -> & Ho).
    destruct (Hold n Hn) as (? & ? & ?). auto. }
  destruct pc; cbn; try done; try tauto.
  intros [H Hold]. split; [by apply Hsh|]. intros n' Hn'. destruct (Hk H) as [_ H2]. destruct (H2 n' Hn') as (n & Hn & -> & -> & _). by apply Hold.
Qed.

Definition step_ok (fs : Fs) (dir : string) (pc : Pc) (r : Fs * Pc) : Prop :=
  safe r.1 /\ (forall d, (staging pc = true -> d <> dir) -> keeps fs r.1 d) /\ task_ok r.1 dir r.2.

Lemma step_ok_same fs dir pc pc' : safe fs -> (task_ok fs dir pc -> task_ok fs dir pc') -> task_ok fs dir pc -> step_ok fs dir pc (fs, pc').
Proof. intros Hs Hk Hp. split; [done|]. split; [intros d _; by apply keeps_view|by apply Hk]. Qed.

Lemma giving_up_ok fs fs' dir pc socket error : safe fs' -> (forall d, (staging pc = true -> d <> dir) -> keeps fs fs' d) ->
  step_ok fs dir pc (giving_up fs' socket error).
Proof. intros H1 H2. split; [by apply safe_close_socket|]. split; [|done]. intros d Hd. by apply keeps_close_socket, H2. Qed.

Lemma owner_only_ldiff mode : forall u, owner_only mode = true -> owner_only (Z.ldiff mode u) = true.
Proof.
  unfold owner_only. intros u. rewrite !Z.eqb_eq. intros H. apply Z.bits_inj'. intros n Hn.
  apply (f_equal (fun z => Z.testbit z n)) in H. rewrite Z.land_spec, Z.bits_0 in *. rewrite Z.ldiff_spec.
  by destruct (Z.testbit mode n), (Z.testbit 63 n), (Z.testbit u n).
Qed.

Lemma stage_ok fs path dir e pc : pc = LMkdir \/ pc = LBind -> safe fs -> task_ok fs dir pc ->
  step_ok fs dir pc (ipc_step umask base fs path dir e pc).
Proof.
  intros [->| ->] Hs Hok; unfold_step; unfold sys; destruct (ev_fault e); try (by apply step_ok_same).
  - pose proof (mkdir_effect fs umask dir STAGING_DIRECTORY_MODE (ev_inode e) (proj1 Hs)) as He.
    destruct (mkdir _ _ _ _ _) as [fs' [u|er]]; [|subst; by apply step_ok_same]. destruct He as [Ha _].
    split; [|split].
    + by apply (safe_added _ _ _ _ _ Ha).
    + intros d Hd. by apply (keeps_added _ _ _ _ _ _ Ha).
    + destruct Ha as (_ & _ & Ha & _). exists (mkNode KDir (Z.ldiff STAGING_DIRECTORY_MODE umask) true).
      cbn [fst]. rewrite Ha. rewrite decide_True by done. split; [done|]. split; [done|]. split; [done|]. by apply owner_only_ldiff.
  - pose proof (bind_effect fs umask (staged_socket dir) (ev_inode e) (proj1 Hs)) as He.
    destruct (bind _ _ _ _) as [fs' [socket|er]]; [|subst; by apply step_ok_same]. destruct He as (_ & Ha & _ & Hpar).
    split; [|split].
    + apply (safe_added _ _ _ _ _ Ha); [|by right; exists dir, "s"|done]. intros d s [= <- _]. cbn in Hpar. by apply bool_decide_eq_true in Hpar.
    + intros d Hd. apply (keeps_added _ _ _ _ _ _ Ha). intros _ [= <-]. by apply Hd.
    + destruct Ha as (Hf & _ & Ha & _). cbn [fst snd task_ok]. split.
      * apply (shielded_view fs); [|done]. rewrite Ha. by rewrite decide_False.
      * intros n. rewrite Ha, decide_True by done. by intros [= <-].
Qed.

Lemma publish_ok fs path dir e pc : match pc with LChmod _ | LStaged _ | LLink _ _ | LRename _ _ => True | _ => False end ->
  safe fs -> task_ok fs dir pc -> step_ok fs dir pc (ipc_step umask base fs path dir e pc).
Proof.
  intros Hpc Hs Hok. assert (Hsame : forall socket error, step_ok fs dir pc (giving_up fs socket error)).
  { intros socket error. apply giving_up_ok; [done|]. intros d _. by apply keeps_view. }
  destruct pc; try done; unfold_step; unfold sys, query; (destruct (ev_fault e) as [er|];
    [cbv beta iota; first [by apply Hsame|case_bool_decide; [by apply Hsame|by apply step_ok_same]]|]).
  - destruct Hok as [Hsh Hn]. pose proof (chmod_effect fs (staged_socket dir) SOCKET_MODE) as He.
    pose proof (fun n => chmod_safe fs (staged_socket dir) n Hs) as Hsafe.
    destruct (chmod _ _ _) as [fs' [u|er]]; [|subst; by apply Hsame]. destruct He as (n & Hat & Hp & _ & Ha).
    destruct (Hn n Hat) as [Hk Hm]. destruct (Hsafe n Hat Hk Hm) as [H1 H2]. cbn [fst] in *.
    split; [done|]. split; [by intros d _|]. cbn [fst snd task_ok]. destruct (H2 dir Hsh) as [H3 _]. split; [by apply (shielded_view fs)|].
    intros m. rewrite Ha, decide_True by done. by intros [= <-].
  - destruct (lstat fs (staged_socket dir)) as [[i n]|er]; [by apply step_ok_same|by apply Hsame].
  - pose proof (hard_link_effect fs (staged_socket dir) (Beside path)) as He.
    destruct Hok as [Hsh Hn]. pose proof (fun n => hard_link_safe fs (staged_socket dir) path n Hs) as Hsafe.
    destruct (hard_link _ _ _) as [fs' [u|er]].
    + destruct He as (i & Hi & _). destruct (proj1 (proj1 Hs) (staged_socket dir)) as [n Hat]; [by rewrite Hi|].
      destruct (Hsafe n Hat) as [H1 H2]; [by apply Hn|]. by split; [|split; [intros d _|]].
    + destruct He as [-> _]. case_bool_decide; [by apply Hsame|by apply step_ok_same].
  - pose proof (rename_effect fs (staged_socket dir) (Beside path)) as He.
    destruct Hok as [Hsh Hn]. pose proof (fun n => rename_safe fs dir "s" path n Hs) as Hsafe.
    destruct (rename _ _ _) as [fs' [u|er]]; [|subst; by apply Hsame].
    assert (is_Some (fs_paths fs !! staged_socket dir)) as Hi.
    { destruct He as [(_ & Hd & <-)|(i & Hi & _)]; [done|by eexists]. }
    destruct (proj1 (proj1 Hs) (staged_socket dir) Hi) as [n Hat].
    destruct (Hsafe n Hat) as [H1 H2]; [by apply Hn|]. by split; [|split; [intros d _|]].
Qed.

Lemma ipc_step_ok fs path dir e pc : safe fs -> task_ok fs dir pc -> step_ok fs dir pc (ipc_step umask base fs path dir e pc).
Proof.
  intros Hs Hok. assert (Hunlink : forall p pc' pc'', task_ok (sys (ev_fault e) fs (unlink fs p)).1 dir pc'' -> step_ok fs dir pc' ((sys (ev_fault e) fs (unlink fs p)).1, pc'')).
  { intros p pc' pc'' H. destruct (unlink_safe fs p Hs) as [H1 H2]. unfold sys in *. destruct (ev_fault e).
    - split; [done|]. split; [intros d _; by apply keeps_view|done].
    - split; [done|]. split; [by intros d _|done]. }
  assert (Hrmdir : forall pc' pc'', staging pc' = true -> task_ok (sys (ev_fault e) fs (rmdir fs dir)).1 dir pc'' ->
    step_ok fs dir pc' ((sys (ev_fault e) fs (rmdir fs dir)).1, pc'')).
  { intros pc' pc'' Hst H. destruct (rmdir_safe fs dir Hs) as [H1 H2]. unfold sys in *. destruct (ev_fault e).
    - split; [done|]. split; [intros d _; by apply keeps_view|done].
    - split; [done|]. split; [|done]. intros d Hd. apply H2. intros _. by apply Hd. }
  destruct pc; try (by apply publish_ok); try (apply stage_ok; by auto); unfold_step.
  - unfold query. destruct (ev_fault e); [|destruct (lstat fs (Beside path)) as [[i n]|er]];
      (apply step_ok_same; [done|intros _; by case_bool_decide|done]).
  - apply step_ok_same; [done|intros _; by destruct (probe _)|done].
  - apply step_ok_same; [done|intros _|done]. by repeat case_match.
  - specialize (Hunlink (Beside path) (LUnlink judged)). destruct (sys _ _ _) as [fs' r]. apply Hunlink. by destruct r.
  - by apply step_ok_same.
  - apply step_ok_same; [done|intros _; by destruct (is_directory _)|done].
  - by apply Hunlink.
  - by apply Hrmdir.
  - apply step_ok_same; [done|intros _|done]. destruct (is_directory _); [done|]. by destruct staged as [[? ?]|?].
  - by apply Hunlink.
  - apply Hrmdir; [done|]. by destruct staged as [[? ?]|?].
  - by apply step_ok_same.
  - by apply step_ok_same.
  - split; [by apply safe_close_socket|]. split; [|done]. intros d _. apply keeps_view. apply close_socket_at.
  - apply step_ok_same; [done|intros _|done]. by repeat case_match.
  - by apply Hunlink.
  - by apply step_ok_same.
Qed.

(** *** Everybody *)

Record inv (w : World) : Prop := {
  inv_safe : safe (wd_fs w);
  inv_ok : forall t k, wd_tasks w !! t = Some k -> task_ok (wd_fs w) (tk_dir k) (tk_pc k);
  inv_named : forall t k, wd_tasks w !! t = Some k -> staging (tk_pc k) = true ->
    exists a, tk_dir k = staging_path (tk_pid k) a /\ (a < wd_attempts w (tk_pid k))%N;
  inv_distinct : forall t t' k k', wd_tasks w !! t = Some k -> wd_tasks w !! t' = Some k' ->
    staging (tk_pc k) = true -> staging (tk_pc k') = true -> tk_dir k = tk_dir k' -> t = t'
}.

(** A listener that uses its directory was doing so before, or has just been given its name. *)
Lemma staging_step fs path dir e pc : pc <> LName -> staging (ipc_step umask base fs path dir e pc).2 = true -> staging pc = true.
Proof.
  destruct pc; try done; unfold_step; cbn [staging snd fst]; unfold query; try (by intros _; repeat case_match).
Qed.

(** A change of the file system that every listener may rely on, with fewer or the same tasks. *)
Lemma inv_mono w w' : inv w -> safe (wd_fs w') -> (forall d, keeps (wd_fs w) (wd_fs w') d) ->
  (forall t k, wd_tasks w' !! t = Some k -> wd_tasks w !! t = Some k /\ wd_attempts w' (tk_pid k) = wd_attempts w (tk_pid k)) -> inv w'.
Proof.
  intros [Hs Hok Hn Hd] Hs' Hk Ht. split; [done|..].
  - intros t k Hl. apply (task_ok_keeps (wd_fs w)); [done|]. apply Ht in Hl as [Hl _]. by eapply Hok.
  - intros t k Hl. destruct (Ht t k Hl) as [Hl' ->]. by apply (Hn t).
  - intros t t' k k' Hl Hl'. apply Ht in Hl as [Hl _]. apply Ht in Hl' as [Hl' _]. by apply (Hd t t' k k').
Qed.

(** One task makes a step that leaves its directory's name as it is. *)
Lemma inv_step w t k fs' pc' : inv w -> wd_tasks w !! t = Some k ->
  step_ok (wd_fs w) (tk_dir k) (tk_pc k) (fs', pc') -> (staging pc' = true -> staging (tk_pc k) = true) ->
  inv (mkWorld fs' (<[t := mkTask (tk_pid k) (tk_path k) (tk_dir k) pc']> (wd_tasks w)) (wd_attempts w)).
Proof.
  intros [Hs Hok Hn Hd] Hk (Hs' & Hkeep & Hok') Hst. split; cbn; [done|..].
  - intros u m Hm. destruct (decide (u = t)) as [->|Hne]; [rewrite lookup_insert_eq in Hm; by injection Hm as <-|].
    rewrite lookup_insert_ne in Hm by done. destruct (staging (tk_pc m)) eqn:Em.
    + apply (task_ok_keeps (wd_fs w)); [|by eapply Hok]. apply Hkeep. intros Hsk Heq. apply Hne. by apply (Hd u t m k).
    + by destruct (tk_pc m).
  - intros u m Hm Hsm. destruct (decide (u = t)) as [->|Hne].
    + rewrite lookup_insert_eq in Hm. injection Hm as <-. cbn in *. apply (Hn t k Hk). by apply Hst.
    + rewrite lookup_insert_ne in Hm by done. by apply (Hn u).
  - intros u u' m m' Hm Hm' Hsm Hsm' Heq. destruct (decide (u = t)) as [->|Hne], (decide (u' = t)) as [->|Hne']; [done|..];
      rewrite ?lookup_insert_eq in Hm; rewrite ?lookup_insert_eq in Hm'; rewrite ?lookup_insert_ne in Hm by done;
      rewrite ?lookup_insert_ne in Hm' by done; simplify_eq; cbn in *; [apply (Hd t u' k m')|apply (Hd u t m k)|apply (Hd u u' m m')]; auto.
Qed.

(** A step that gives the task its directory's name. *)
Lemma inv_name w t k : inv w -> wd_tasks w !! t = Some k -> tk_pc k = LName ->
  inv (mkWorld (wd_fs w)
    (<[t := mkTask (tk_pid k) (tk_path k) (staging_path (tk_pid k) (wd_attempts w (tk_pid k))) LClearCheck]> (wd_tasks w))
    (fun pid => if bool_decide (pid = tk_pid k) then N.succ (wd_attempts w (tk_pid k)) else wd_attempts w pid)).
Proof.
  intros [Hs Hok Hn Hd] Hk Hpc.
  assert (Hnew : forall u m, u <> t -> wd_tasks w !! u = Some m -> staging (tk_pc m) = true ->
    tk_dir m <> staging_path (tk_pid k) (wd_attempts w (tk_pid k))).
  { intros u m Hne Hm Hsm Heq. destruct (Hn u m Hm Hsm) as (a & Hdir & Ha). rewrite Hdir in Heq. apply staging_path_inj in Heq as [E ->].
    rewrite E in Ha. lia. }
  split; cbn; [done|..].
  - intros u m Hm. destruct (decide (u = t)) as [->|Hne]; [rewrite lookup_insert_eq in Hm; by injection Hm as <-|].
    rewrite lookup_insert_ne in Hm by done. by apply (Hok u).
  - intros u m Hm Hsm. destruct (decide (u = t)) as [->|Hne].
    + rewrite lookup_insert_eq in Hm. injection Hm as <-. cbn in *. rewrite bool_decide_eq_true_2 by done. eexists. split; [done|lia].
    + rewrite lookup_insert_ne in Hm by done. destruct (Hn u m Hm Hsm) as (a & Hdir & Ha). exists a. split; [done|].
      case_bool_decide as E; [rewrite E in Ha; lia|done].
  - intros u u' m m' Hm Hm' Hsm Hsm' Heq. destruct (decide (u = t)) as [->|Hne], (decide (u' = t)) as [->|Hne']; [done|..];
      rewrite ?lookup_insert_eq in Hm; rewrite ?lookup_insert_eq in Hm'; rewrite ?lookup_insert_ne in Hm by done;
      rewrite ?lookup_insert_ne in Hm' by done; simplify_eq; cbn in *.
    + by destruct (Hnew u' m' Hne' Hm' Hsm').
    + by destruct (Hnew u m Hne Hm Hsm).
    + by apply (Hd u u' m m').
Qed.

Lemma crash_fs_view ks : forall fs, fs_paths (crash_fs fs ks) = fs_paths fs /\ forall q, node_at (crash_fs fs ks) q = node_at fs q.
Proof.
  induction ks as [|k ks IH]; intros fs; [done|]. cbn. destruct (held (tk_pc k)) as [i|]; [|apply IH].
  destruct (IH (close_socket fs i)) as [H1 H2]. unfold crash_fs in *. rewrite H1, close_socket_paths. split; [done|].
  intros q. by rewrite H2, close_socket_at.
Qed.

Lemma naming pc : pc = LName \/ pc <> LName.
Proof. destruct pc; (by left) || (by right). Qed.

Lemma inv_act w a : inv w -> inv (act umask base w a).
Proof.
  intros Hi. destruct a as [t pid path|t e|t|pid|op]; cbn [act].
  - destruct (wd_tasks w !! t) as [k|] eqn:Ht; [done|]. destruct Hi as [Hs Hok Hn Hd]. split; cbn; [done|..].
    + intros u m Hm. destruct (decide (u = t)) as [->|Hne]; [rewrite lookup_insert_eq in Hm; by injection Hm as <-|].
      rewrite lookup_insert_ne in Hm by done. by apply (Hok u).
    + intros u m Hm. destruct (decide (u = t)) as [->|Hne]; [rewrite lookup_insert_eq in Hm; by injection Hm as <-|].
      rewrite lookup_insert_ne in Hm by done. by apply (Hn u).
    + intros u u' m m' Hm Hm' Hsm Hsm'. destruct (decide (u = t)) as [->|Hne]; [rewrite lookup_insert_eq in Hm; by injection Hm as <-|].
      destruct (decide (u' = t)) as [->|Hne']; [rewrite lookup_insert_eq in Hm'; by injection Hm' as <-|].
      rewrite lookup_insert_ne in Hm by done. rewrite lookup_insert_ne in Hm' by done. by apply (Hd u u' m m').
  - destruct (wd_tasks w !! t) as [k|] eqn:Ht; [|done].
    pose proof (ipc_step_ok (wd_fs w) (tk_path k) (tk_dir k) e (tk_pc k) (inv_safe w Hi) (inv_ok w Hi t k Ht)) as Hok.
    destruct (naming (tk_pc k)) as [Hpc|Hpc].
    { rewrite Hpc in *. unfold_step. by apply inv_name. }
    pose proof (staging_step (wd_fs w) (tk_path k) (tk_dir k) e (tk_pc k) Hpc) as Hst.
    destruct (ipc_step _ _ _ _ _ _) as [fs' pc'] eqn:Es.
    pose proof (inv_step w t k fs' pc' Hi Ht Hok Hst) as Hinv. by destruct (tk_pc k).
  - destruct (wd_tasks w !! t) as [[pid path dir pc]|] eqn:Ht; [|done]. destruct pc; try done.
    apply (inv_step w t _ (wd_fs w) (CDrop l) Hi Ht); [|done]. apply step_ok_same; [apply Hi|done|done].
  - destruct (crash_fs_view (filter (fun k => tk_pid k = pid) (map_to_list (wd_tasks w)).*2) (wd_fs w)) as [Hp Ha].
    apply (inv_mono w); cbn; [done|by apply (safe_view (wd_fs w)); [..|apply Hi]|intros d; by apply keeps_view|].
    intros t k Hl. apply map_lookup_filter_Some in Hl as [Hl Hne]. by rewrite bool_decide_eq_false_2.
  - destruct (stranger_safe (wd_fs w) op (inv_safe w Hi)) as [H1 H2]. by apply (inv_mono w).
Qed.

Lemma inv_run acts : forall w, inv w -> inv (run umask base w acts).
Proof. induction acts as [|a acts IH]; intros w Hi; cbn; [done|]. by apply IH, inv_act. Qed.

Lemma inv_new fs : safe fs -> inv (world_new fs).
Proof. intros Hs. by split. Qed.

(** Permissions that are all the owner's leave nothing to anybody else. *)
Lemma owner_only_land mode m : owner_only mode = true -> Z.land 63 m = m -> Z.land mode m = 0.
Proof. unfold owner_only. rewrite Z.eqb_eq. intros H <-. by rewrite Z.land_assoc, H. Qed.

Lemma safe_no_stranger fs p n : safe fs -> node_at fs p = Some n -> n_mine n = true -> stranger_may_connect fs p = false.
Proof.
  intros [_ Hs] Hn Hm. unfold stranger_may_connect. rewrite Hn. case_bool_decide as Hk; [|done]. cbn [andb].
  destruct (Hs p n Hn Hk Hm) as [Ho|(d & s & -> & nd & -> & _ & _ & Ho)].
  - by rewrite (owner_only_land _ 18 Ho).
  - rewrite (owner_only_land _ 9 Ho) by done. cbn. by rewrite andb_false_r.
Qed.
End owner.

(** ** Properties *)

(** C10 (a local socket is owner-only, spec transports/local-socket.md).  In every interleaving of
    listeners that start, publish, close and fail at any call, of crashes that leave their files
    behind, and of other users who plant files, directories and links of their own: no other user can
    connect to a socket of a listener at any moment, whatever the umask, not even between its creation
    and its [chmod]; and what is published at an address has no permission for anybody but its
    owner. *)
Theorem socket_owner_only {OT : OsText} (umask : Z) (base : string) (fs : Fs) (acts : list Action) (p : Path) (n : Node) :
  fs_wf fs -> (forall q m, node_at fs q = Some m -> n_kind m = KSocket -> n_mine m = false) ->
  let fs' := wd_fs (run umask base (world_new fs) acts) in
  node_at fs' p = Some n -> n_mine n = true ->
  stranger_may_connect fs' p = false /\
  (forall address, p = Beside address -> n_kind n = KSocket -> owner_only (n_mode n) = true).
Proof.
  intros Hw Hnone. cbv zeta. intros Hn Hm. assert (safe fs) as Hs.
  { split; [done|]. intros q m Hq Hk Hmm. rewrite (Hnone q m Hq Hk) in Hmm. done. }
  pose proof (inv_safe _ (inv_run umask base acts _ (inv_new fs Hs))) as Hs'. split; [by apply (safe_no_stranger _ _ n)|].
  intros address -> Hk. destruct (proj2 Hs' _ n Hn Hk Hm) as [|(d & s & [=] & _)]; done.
Qed.
