(* ===== verification/IpcAddress.v ===== *)
(** * Whose address it is

    A listener that serves is the one its address leads to, until it closes or its process ends
    ([address_kept]): neither the removal of a stale socket nor a listener that closes late takes it
    away.  This holds while a file that is checked is removed before anybody else acts, while the file
    system links sockets, and while inode numbers are not used twice; [reused_inode] shows what the
    check of [remove_if_still] misses when they are. *)

From S2P Require Import Prelude Text Json Wire Frame Validate Limits Serde JsonText FrameJson Ndjson NdjsonProps Port NdjsonPort NdjsonPortProps Deadline Files Ipc IpcProps.
Local Open Scope Z_scope.

(** ** Orderly runs *)

Definition unlinking (pc : Pc) : bool := match pc with LUnlink _ | CUnlink _ => true | _ => false end.

(** Nothing happens between a check and the removal it is for. *)
Definition undisturbed (w : World) (a : Action) : bool :=
  forallb (fun '(t, k) => negb (unlinking (tk_pc k)) || match a with AStep u _ => bool_decide (u = t) | _ => false end)
    (map_to_list (wd_tasks w)).

(** The file system does not hard-link a socket. *)
Definition link_fails (w : World) (a : Action) : bool :=
  match a with
  | AStep t e =>
      match wd_tasks w !! t with
      | Some k => match tk_pc k with LLink _ _ => bool_decide (is_Some (ev_fault e)) | _ => false end
      | None => false
      end
  | _ => false
  end.

Definition allocates (a : Action) : option Z :=
  match a with AStep _ e => Some (ev_inode e) | AStranger (SMake _ i _ _ _) => Some i | _ => None end.
Definition unused (used : gset Z) (a : Action) : bool :=
  match allocates a with Some i => negb (bool_decide (i ∈ used)) | None => true end.
Definition use (used : gset Z) (a : Action) : gset Z :=
  match allocates a with Some i => {[i]} ∪ used | None => used end.

Section address.
Context {OT : OsText} (umask : Z) (base : string).

Fixpoint orderly (used : gset Z) (w : World) (acts : list Action) : bool :=
  match acts with
  | [] => true
  | a :: acts =>
      unused used a && undisturbed w a && negb (link_fails w a) && orderly (use used a) (act umask base w a) acts
  end.

(** ** Entries that lead to a listener's socket *)

Definition leads (fs : Fs) (q : Path) (i : Z) : Prop :=
  fs_paths fs !! q = Some i /\ exists n, node_at fs q = Some n /\ n_kind n = KSocket /\ n_mine n = true.

Lemma leads_view fs fs' q i : fs_paths fs' = fs_paths fs -> (forall q, node_at fs' q = node_at fs q) -> leads fs q i -> leads fs' q i.
Proof. intros Hp Ha. unfold leads. by rewrite Hp, Ha. Qed.

Lemma leads_removed fs fs' p q i : removed fs fs' p -> q <> p -> leads fs q i -> leads fs' q i.
Proof. intros (Hp & _ & Ha) Hne. unfold leads. rewrite Hp, Ha, lookup_delete_ne, decide_False by done. done. Qed.

Lemma leads_unlink fs p q i : q <> p -> leads fs q i -> leads (unlink fs p).1 q i.
Proof.
  intros Hne. destruct (unlink_effect fs p) as [(Hp & _ & Ha)|(Hr & _)]; [by apply leads_view|by apply (leads_removed _ _ _ _ _ Hr)].
Qed.

Lemma leads_rmdir fs d q i : leads fs q i -> leads (rmdir fs d).1 q i.
Proof.
  intros Hl. destruct (rmdir_effect fs d) as [(Hp & _ & Ha)|(Hr & Hk & _)]; [by apply (leads_view fs)|].
  apply (leads_removed _ _ _ _ _ Hr); [|done]. intros ->. destruct Hl as (_ & n & Hn & Hkn & _). rewrite Hn in Hk. cbn in Hk. congruence.
Qed.

Lemma leads_added fs fs' p j n q i : added fs fs' p j n -> leads fs q i -> leads fs' q i.
Proof.
  intros (Hf & Hp & Ha & _) [Hq Hn]. assert (q <> p) as Hne by (intros ->; congruence). unfold leads.
  rewrite Hp, Ha, lookup_insert_ne, decide_False by done. done.
Qed.

Lemma leads_chmod fs p mode q i : leads fs q i -> leads (chmod fs p mode).1 q i.
Proof.
  intros Hl. pose proof (chmod_effect fs p mode) as He. destruct (chmod fs p mode) as [fs' [u|e]]; cbn; [|by subst].
  destruct He as (n & Hn & Hp & _ & Ha). destruct Hl as (Hq & m & Hm & Hk & Hmm). split; [by rewrite Hp|]. rewrite Ha.
  destruct (decide _) as [E|]; [|by exists m]. apply same_inode in E. assert (m = n) as -> by congruence. by eexists.
Qed.

Lemma leads_link fs src dst q i : leads fs q i -> leads (hard_link fs src dst).1 q i.
Proof.
  intros Hl. pose proof (hard_link_effect fs src dst) as He. destruct (hard_link fs src dst) as [fs' [u|e]]; cbn.
  2: by destruct He as [-> _].
  destruct He as (j & Hj & Hf & Hp & _ & Ha). destruct Hl as [Hq Hn]. assert (q <> dst) as Hne by (intros ->; congruence).
  unfold leads. rewrite Hp, Ha, lookup_insert_ne, decide_False by done. done.
Qed.

Lemma leads_close_socket fs i q j : leads fs q j -> leads (close_socket fs i) q j.
Proof. apply leads_view; [apply close_socket_paths|apply close_socket_at]. Qed.

Lemma leads_his fs q i : leads fs q i -> his fs q = false.
Proof. intros (_ & n & Hn & _ & Hm). unfold his. by rewrite Hn, Hm. Qed.

Lemma leads_stranger fs op q i : fs_wf fs -> leads fs q i -> leads (stranger fs op) q i.
Proof.
  intros Hw Hl. destruct op as [p j k mode listening|p|p|p mode]; cbn [stranger].
  - case_bool_decide as Hp; [|done]. case_bool_decide as Hj; [|done]. destruct (his_parent fs p); [|done]. cbn [andb].
    assert (leads (add_node fs p j (mkNode k mode false)) q i) as H.
    { eapply leads_added; [|done]. by apply add_node_added. }
    by destruct listening.
  - destruct (fs_paths fs !! p); [|done]. destruct (his fs p); [by apply leads_close_socket|done].
  - destruct (his fs p) eqn:Hh; [|done]. assert (q <> p) as Hne by (intros ->; rewrite (leads_his _ _ _ Hl) in Hh; done).
    destruct p; [case_bool_decide; [by apply leads_rmdir|]|]; by apply leads_unlink.
  - destruct (his fs p); [by apply leads_chmod|done].
Qed.

(** ** A listener's own step *)

(** The socket a listener made. *)
Definition own (pc : Pc) : option Z :=
  match pc with
  | LChmod s | LStaged s | LLink s _ | LRename s _
  | LDiscardCheck (Ok (s, _)) | LDiscardFile (Ok (s, _)) | LDiscardDir (Ok (s, _)) => Some s
  | Serving l | CDrop l | CStat l | CUnlink l => Some (il_socket l)
  | _ => None
  end.
(** It has been published; it still is. *)
Definition past (pc : Pc) : bool :=
  match pc with
  | LDiscardCheck (Ok _) | LDiscardFile (Ok _) | LDiscardDir (Ok _) | Serving _ | CDrop _ | CStat _ | CUnlink _ => true
  | _ => false
  end.
Definition published (pc : Pc) : bool :=
  match pc with
  | LDiscardCheck (Ok _) | LDiscardFile (Ok _) | LDiscardDir (Ok _) | Serving _ | CDrop _ => true
  | _ => false
  end.

Definition is_mine (path : string) (l : IpcListener) : Prop := il_inode l = il_socket l /\ il_path l = path.

Definition placed (fs : Fs) (path dir : string) (pc : Pc) : Prop :=
  match pc with
  | LUnlink j => fs_paths fs !! Beside path = Some j
  | LChmod s | LStaged s => leads fs (staged_socket dir) s /\ s ∈ fs_open fs
  | LLink s i => (leads fs (staged_socket dir) s /\ s ∈ fs_open fs) /\ i = s
  | LRename _ _ => False
  | LDiscardCheck (Ok (s, i)) | LDiscardFile (Ok (s, i)) | LDiscardDir (Ok (s, i)) =>
      (leads fs (Beside path) s /\ s ∈ fs_open fs) /\ i = s
  | Serving l | CDrop l => (leads fs (Beside path) (il_socket l) /\ il_socket l ∈ fs_open fs) /\ is_mine path l
  | CStat l => is_mine path l
  | CUnlink l => is_mine path l /\ fs_paths fs !! Beside path = Some (il_socket l)
  | _ => True
  end.

Lemma sys_leads {A} fault fs (r : Fs * result A IoError) q i : (leads fs q i -> leads r.1 q i) -> leads fs q i -> leads (sys fault fs r).1 q i.
Proof. by destruct fault. Qed.

Lemma unlink_open fs p : fs_open (unlink fs p).1 = fs_open fs.
Proof. by destruct (unlink_effect fs p) as [(_ & H & _)|((_ & H & _) & _)]. Qed.
Lemma rmdir_open fs d : fs_open (rmdir fs d).1 = fs_open fs.
Proof. by destruct (rmdir_effect fs d) as [(_ & H & _)|((_ & H & _) & _)]. Qed.
Lemma sys_open {A} fault fs (r : Fs * result A IoError) : fs_open r.1 = fs_open fs -> fs_open (sys fault fs r).1 = fs_open fs.
Proof. by destruct fault. Qed.
#[local] Hint Resolve sys_open unlink_open rmdir_open : core.

(** Its own place. *)
Lemma placed_step fs path dir e pc : fs_wf fs -> (forall s i, pc = LLink s i -> ev_fault e = None) ->
  placed fs path dir pc -> let '(fs', pc') := ipc_step umask base fs path dir e pc in placed fs' path dir pc'.
Proof.
  intros Hw Hf Hpl. destruct pc as [|j|j|j| | | | | | |s|s|s i|s i|st|st|st|er|l|l|l|l|]; unfold_step; try done.
  - unfold query. destruct (ev_fault e); [|destruct (lstat _ _) as [[i n]|]]; by case_bool_decide.
  - by destruct (probe _).
  - unfold query. destruct (ev_fault e); [done|]. destruct (lstat _ _) as [[i n]|] eqn:El; [|done]. case_bool_decide as E; [|done].
    subst i. by apply lstat_Ok in El as [? _].
  - by destruct (sys _ _ _) as [fs' []].
  - by destruct (is_directory _).
  - by destruct (sys _ _ _) as [fs' []].
  - unfold sys. destruct (ev_fault e); [done|]. pose proof (bind_effect fs umask (staged_socket dir) (ev_inode e) Hw) as He.
    destruct (bind _ _ _ _) as [fs' [s|er]]; [|done]. destruct He as (-> & (_ & Hp & Ha & _) & Ho & _). cbn. rewrite Ho.
    split; [|set_solver]. split; [by rewrite Hp, lookup_insert_eq|]. rewrite Ha, decide_True by done. by eexists.
  - destruct Hpl as [Hl Ho]. pose proof (sys_leads (ev_fault e) fs (chmod fs (staged_socket dir) SOCKET_MODE) _ _
      (leads_chmod fs (staged_socket dir) SOCKET_MODE (staged_socket dir) s) Hl) as Hl'.
    assert (fs_open (sys (ev_fault e) fs (chmod fs (staged_socket dir) SOCKET_MODE)).1 = fs_open fs) as Ho'.
    { apply sys_open. pose proof (chmod_effect fs (staged_socket dir) SOCKET_MODE) as He. destruct (chmod _ _ _) as [fs' [|]]; cbn; [|by subst].
      by destruct He as (n & _ & _ & H & _). }
    destruct (sys _ _ _) as [fs' [|]]; [|done]. cbn in *. by rewrite Ho'.
  - destruct Hpl as [Hl Ho]. unfold query. destruct (ev_fault e); [done|]. destruct (lstat _ _) as [[i n]|] eqn:El; [|done].
    apply lstat_Ok in El as [Hi _]. split; [done|]. destruct Hl as [Hl _]. congruence.
  - destruct Hpl as [[Hl Ho] ->]. rewrite (Hf s s eq_refl). cbn [sys].
    pose proof (hard_link_effect fs (staged_socket dir) (Beside path)) as He. destruct (hard_link _ _ _) as [fs' [u|er]].
    + destruct He as (j & Hj & _ & Hp & Ho' & Ha). destruct Hl as [Hs Hn]. assert (j = s) as -> by congruence.
      cbn. rewrite Ho'. split; [|done]. split; [|done]. split; [by rewrite Hp, lookup_insert_eq|]. by rewrite Ha, decide_True.
    + destruct He as [-> Hk]. rewrite bool_decide_eq_true_2; [done|]. apply Hk. destruct Hl as [-> _]. by eexists.
  - destruct (is_directory _); [done|]. destruct st as [[s i]|]; [|done]. by destruct Hpl as [? ->].
  - destruct st as [[s i]|]; [|done]. cbn in *. destruct Hpl as [[Hl Ho] ->]. split; [|done].
    rewrite sys_open by auto. split; [|done]. apply sys_leads; [|done]. by apply leads_unlink.
  - destruct st as [[s i]|]; [|done]. cbn in *. destruct Hpl as [[Hl Ho] ->]. split; [|done].
    rewrite sys_open by auto. split; [|done]. apply sys_leads; [|done]. apply leads_rmdir.
  - by destruct Hpl as [_ ?].
  - unfold query. destruct (ev_fault e); [done|]. destruct Hpl as [Hi Hp]. rewrite Hp. destruct (lstat _ _) as [[i n]|] eqn:El; [|done].
    case_bool_decide as E; [|done]. cbn. split; [by split|]. apply lstat_Ok in El as [-> _]. by rewrite E, Hi.
Qed.

(** Other entries that lead to a socket: only a removal at that address, and the clearing of its own
    staging directory, take one away. *)
Lemma leads_step fs path dir e pc q i : fs_wf fs -> placed fs path dir pc -> leads fs q i ->
  (unlinking pc = true -> q <> Beside path) -> (staging pc = true -> q <> staged_socket dir) ->
  leads (ipc_step umask base fs path dir e pc).1 q i.
Proof.
  intros Hw Hpl Hl Hu Hs. destruct pc as [|j|j|j| | | | | | |s|s|s x|s x|st|st|st|er|l|l|l|l|]; unfold_step; try done.
  - unfold query. destruct (ev_fault e); [|destruct (lstat _ _) as [[x n]|]]; done.
  - pose proof (sys_leads (ev_fault e) fs (unlink fs (Beside path)) q i (leads_unlink fs (Beside path) q i (Hu eq_refl)) Hl) as H.
    by destruct (sys _ _ _).
  - apply sys_leads; [|done]. apply leads_unlink. by apply Hs.
  - apply sys_leads; [|done]. apply leads_rmdir.
  - unfold sys. destruct (ev_fault e); [done|]. pose proof (mkdir_effect fs umask dir STAGING_DIRECTORY_MODE (ev_inode e) Hw) as He.
    destruct (mkdir _ _ _ _ _) as [fs' [u|er]]; [|by subst]. destruct He as [Ha _]. by eapply leads_added.
  - unfold sys. destruct (ev_fault e); [done|]. pose proof (bind_effect fs umask (staged_socket dir) (ev_inode e) Hw) as He.
    destruct (bind _ _ _ _) as [fs' [u|er]]; [|by subst]. destruct He as (_ & Ha & _). by eapply leads_added.
  - pose proof (sys_leads (ev_fault e) fs (chmod fs (staged_socket dir) SOCKET_MODE) q i (leads_chmod _ _ _ _ _) Hl) as H.
    destruct (sys _ _ _) as [fs' [u|er]]; [done|]. by apply leads_close_socket.
  - destruct (query _ _) as [[x n]|er]; [done|]. by apply leads_close_socket.
  - pose proof (sys_leads (ev_fault e) fs (hard_link fs (staged_socket dir) (Beside path)) q i (leads_link _ _ _ _ _) Hl) as H.
    destruct (sys _ _ _) as [fs' [u|er]]; [done|]. case_bool_decide; [by apply leads_close_socket|done].
  - apply sys_leads; [|done]. apply leads_unlink. by apply Hs.
  - apply sys_leads; [|done]. apply leads_rmdir.
  - by apply leads_close_socket.
  - apply sys_leads; [|done]. apply leads_unlink. destruct Hpl as [[_ ->] _]. by apply Hu.
Qed.

(** Where an entry of the next file system comes from. *)
Definition came_from (fs : Fs) (path dir : string) (e : Env) (pc pc' : Pc) (q : Path) (i : Z) : Prop :=
  fs_paths fs !! q = Some i \/
  i = ev_inode e /\ (own pc' = Some i -> q = staged_socket dir) \/
  q = Beside path /\ own pc = Some i /\ past pc' = true.

Lemma unlink_paths fs p q i : fs_paths (unlink fs p).1 !! q = Some i -> fs_paths fs !! q = Some i.
Proof.
  destruct (unlink_effect fs p) as [(-> & _)|((-> & _) & _)]; [done|]. intros H. apply lookup_delete_Some in H. tauto.
Qed.
Lemma rmdir_paths fs d q i : fs_paths (rmdir fs d).1 !! q = Some i -> fs_paths fs !! q = Some i.
Proof.
  destruct (rmdir_effect fs d) as [(-> & _)|((-> & _) & _)]; [done|]. intros H. apply lookup_delete_Some in H. tauto.
Qed.
Lemma sys_paths {A} fault fs (r : Fs * result A IoError) q i :
  (fs_paths r.1 !! q = Some i -> fs_paths fs !! q = Some i) -> fs_paths (sys fault fs r).1 !! q = Some i -> fs_paths fs !! q = Some i.
Proof. by destruct fault. Qed.

Lemma paths_step fs path dir e pc q i : fs_wf fs -> placed fs path dir pc ->
  let '(fs', pc') := ipc_step umask base fs path dir e pc in
  fs_paths fs' !! q = Some i -> came_from fs path dir e pc pc' q i.
Proof.
  intros Hw Hpl. destruct pc as [|j|j|j| | | | | | |s|s|s x|s x|st|st|st|er|l|l|l|l|]; unfold_step; try done; try (by left).
  - unfold query. destruct (ev_fault e); [|destruct (lstat _ _) as [[x n]|]]; by left.
  - pose proof (sys_paths (ev_fault e) fs (unlink fs (Beside path)) q i (unlink_paths _ _ _ _)) as H.
    destruct (sys _ _ _). left. by apply H.
  - left. eapply sys_paths; [|done]. apply unlink_paths.
  - left. eapply sys_paths; [|done]. apply rmdir_paths.
  - unfold sys. destruct (ev_fault e); [by left|]. pose proof (mkdir_effect fs umask dir STAGING_DIRECTORY_MODE (ev_inode e) Hw) as He.
    destruct (mkdir _ _ _ _ _) as [fs' [u|er]]; [|subst; by left]. destruct He as [(_ & -> & _) _]. intros H.
    apply lookup_insert_Some in H as [[<- <-]|[_ H]]; [right; by left|by left].
  - unfold sys. destruct (ev_fault e); [by left|]. pose proof (bind_effect fs umask (staged_socket dir) (ev_inode e) Hw) as He.
    destruct (bind _ _ _ _) as [fs' [u|er]]; [|subst; by left]. destruct He as (_ & (_ & -> & _) & _). intros H.
    apply lookup_insert_Some in H as [[<- <-]|[_ H]]; [right; by left|by left].
  - assert (fs_paths (sys (ev_fault e) fs (chmod fs (staged_socket dir) SOCKET_MODE)).1 = fs_paths fs) as H.
    { unfold sys. destruct (ev_fault e); [done|]. pose proof (chmod_effect fs (staged_socket dir) SOCKET_MODE) as He.
      destruct (chmod _ _ _) as [fs' [|]]; cbn; [|by subst]. by destruct He as (n & _ & H & _). }
    destruct (sys _ _ _) as [fs' [u|er]]; unfold giving_up; rewrite ?close_socket_paths; cbn in H; rewrite H; by left.
  - destruct (query _ _) as [[x n]|er]; unfold giving_up; rewrite ?close_socket_paths; by left.
  - assert (forall fs' r, sys (ev_fault e) fs (hard_link fs (staged_socket dir) (Beside path)) = (fs', r) ->
      fs_paths fs' = fs_paths fs \/ (exists u, r = Ok u) /\ fs_paths fs' = <[Beside path := s]> (fs_paths fs)) as H.
    { intros fs' r Hr. unfold sys in Hr. destruct (ev_fault e); [left; congruence|].
      pose proof (hard_link_effect fs (staged_socket dir) (Beside path)) as He. rewrite Hr in He. destruct r as [u|er].
      - destruct He as (y & Hy & _ & Hp & _). right. split; [by eexists|]. destruct Hpl as [[[Hs _] _] _]. congruence.
      - left. by destruct He as [-> _]. }
    destruct (sys _ _ _) as [fs' r]. destruct (H fs' r eq_refl) as [Hp|[[u ->] Hp]].
    + destruct r as [u|er]; [rewrite Hp; by left|]. case_bool_decide; unfold giving_up; rewrite ?close_socket_paths, Hp; by left.
    + rewrite Hp. intros Hq. apply lookup_insert_Some in Hq as [[<- <-]|[_ Hq]]; [right; by right|by left].
  - left. eapply sys_paths; [|done]. apply unlink_paths.
  - left. eapply sys_paths; [|done]. apply rmdir_paths.
  - rewrite close_socket_paths. by left.
  - left. eapply sys_paths; [|done]. apply unlink_paths.
Qed.

(** Who listens: a new socket is the step's own, and only its own is let go of. *)
Lemma open_step fs path dir e pc : fs_wf fs -> placed fs path dir pc ->
  let '(fs', pc') := ipc_step umask base fs path dir e pc in
  (forall i, i ∈ fs_open fs' -> i ∈ fs_open fs \/ i = ev_inode e) /\
  (forall i, i ∈ fs_open fs -> own pc <> Some i -> i ∈ fs_open fs').
Proof.
  intros Hw Hpl. assert (Hsame : forall fs' : Fs, fs_open fs' = fs_open fs ->
    (forall i, i ∈ fs_open fs' -> i ∈ fs_open fs \/ i = ev_inode e) /\
    (forall i, i ∈ fs_open fs -> own pc <> Some i -> i ∈ fs_open fs')) by (intros fs' ->; auto).
  assert (Hdrop : forall (fs' : Fs) s, fs_open fs' = fs_open fs -> own pc = Some s ->
    (forall i, i ∈ fs_open (close_socket fs' s) -> i ∈ fs_open fs \/ i = ev_inode e) /\
    (forall i, i ∈ fs_open fs -> own pc <> Some i -> i ∈ fs_open (close_socket fs' s))).
  { intros fs' s Ho Hs. rewrite close_socket_open, Ho. split; [set_solver|]. intros i Hi Hne. apply elem_of_difference. split; [done|].
    intros Hx. apply elem_of_singleton in Hx. congruence. }
  destruct pc as [|j|j|j| | | | | | |s|s|s x|s x|st|st|st|er|l|l|l|l|]; unfold_step; try done; try (by apply Hsame); try (by apply Hsame; auto).
  - unfold query. destruct (ev_fault e); [|destruct (lstat _ _) as [[x n]|]]; by apply Hsame.
  - pose proof (sys_open (ev_fault e) fs (unlink fs (Beside path)) (unlink_open _ _)) as H. destruct (sys _ _ _). by apply Hsame.
  - unfold sys. destruct (ev_fault e); [by apply Hsame|]. pose proof (mkdir_effect fs umask dir STAGING_DIRECTORY_MODE (ev_inode e) Hw) as He.
    destruct (mkdir _ _ _ _ _) as [fs' [u|er]]; [|subst; by apply Hsame]. destruct He as [_ Ho]. by apply Hsame.
  - unfold sys. destruct (ev_fault e); [by apply Hsame|]. pose proof (bind_effect fs umask (staged_socket dir) (ev_inode e) Hw) as He.
    destruct (bind _ _ _ _) as [fs' [u|er]]; [|subst; by apply Hsame]. destruct He as (_ & _ & -> & _). set_solver.
  - assert (fs_open (sys (ev_fault e) fs (chmod fs (staged_socket dir) SOCKET_MODE)).1 = fs_open fs) as H.
    { apply sys_open. pose proof (chmod_effect fs (staged_socket dir) SOCKET_MODE) as He.
      destruct (chmod _ _ _) as [fs' [|]]; cbn; [|by subst]. by destruct He as (n & _ & _ & H & _). }
    destruct (sys _ _ _) as [fs' [u|er]]; [by apply Hsame|by apply Hdrop].
  - destruct (query _ _) as [[x n]|er]; [by apply Hsame|by apply Hdrop].
  - assert (fs_open (sys (ev_fault e) fs (hard_link fs (staged_socket dir) (Beside path))).1 = fs_open fs) as H.
    { apply sys_open. pose proof (hard_link_effect fs (staged_socket dir) (Beside path)) as He.
      destruct (hard_link _ _ _) as [fs' [|]]; cbn; [by destruct He as (n & _ & _ & _ & H & _)|by destruct He as [-> _]]. }
    destruct (sys _ _ _) as [fs' [u|er]]; [by apply Hsame|]. case_bool_decide; [by apply Hdrop|by apply Hsame].
  - by apply Hdrop.
Qed.

(** What it owns, and how far it is. *)
Lemma own_step fs path dir e pc : fs_wf fs -> let '(fs', pc') := ipc_step umask base fs path dir e pc in
  forall i, own pc' = Some i ->
  own pc = Some i /\ (past pc = true -> past pc' = true) /\ (past pc = true -> published pc = false -> published pc' = false) \/
  own pc = None /\ i = ev_inode e /\ pc = LBind.
Proof.
  intros Hw. destruct pc as [|j|j|j| | | | | | |s|s|s x|s x|st|st|st|er|l|l|l|l|]; unfold_step; try done; try (by left).
  - unfold query. destruct (ev_fault e); [|destruct (lstat _ _) as [[x n]|]]; by case_bool_decide.
  - by destruct (probe _).
  - destruct (query _ _) as [[x n]|er]; [by case_bool_decide|done].
  - by destruct (sys _ _ _) as [fs' []].
  - by destruct (is_directory _).
  - by destruct (sys _ _ _) as [fs' []].
  - unfold sys. destruct (ev_fault e); [done|]. pose proof (bind_effect fs umask (staged_socket dir) (ev_inode e) Hw) as He.
    destruct (bind _ _ _ _) as [fs' [u|er]]; [|done]. destruct He as [-> _]. intros i [= <-]. by right.
  - destruct (sys _ _ _) as [fs' []]; [by left|done].
  - destruct (query _ _) as [[x n]|er]; [by left|done].
  - destruct (sys _ _ _) as [fs' []]; [by left|]. case_bool_decide; [done|by left].
  - destruct (sys _ _ _) as [fs' []]; [by left|done].
  - destruct (is_directory _), st as [[s x]|]; try done; by left.
  - destruct st as [[s x]|]; try done; by left.
  - destruct (query _ _) as [[x n]|er]; [case_bool_decide; [by left|done]|done].
Qed.

(** What it has judged. *)
Lemma judged_step fs path dir e pc : let '(fs', pc') := ipc_step umask base fs path dir e pc in
  (forall j, pc' = LProbe j -> fs_paths fs !! Beside path = Some j) /\
  (forall j, pc' = LRestat j -> pc = LProbe j /\ forall i, fs_paths fs !! Beside path = Some i -> i ∉ fs_open fs) /\
  (forall j, pc' = LUnlink j -> pc = LRestat j).
Proof.
  destruct pc as [|j|j|j| | | | | | |s|s|s x|s x|st|st|st|er|l|l|l|l|]; unfold_step; try done.
  - unfold query. destruct (ev_fault e); [by case_bool_decide|]. destruct (lstat _ _) as [[x n]|] eqn:El; [|by case_bool_decide].
    case_bool_decide; [|done]. split; [|done]. intros j [= <-]. by apply lstat_Ok in El as [? _].
  - destruct (probe _) eqn:Ep; [|done]. split; [done|]. split; [|done]. intros y [= <-]. split; [done|]. intros i Hi Hopen.
    assert (dial fs (Beside path) = Ok tt) as Hd by (unfold dial; by rewrite Hi, bool_decide_eq_true_2).
    unfold dialled in Ep. destruct (ev_dial e) as [| |er]; [by rewrite Hd in Ep|done|].
    destruct (_ || _) eqn:Eo; [by rewrite Hd in Ep|]. cbn in Ep. by rewrite Eo in Ep.
  - destruct (query _ _) as [[x n]|er]; [case_bool_decide as E; [|done]|done]. split; [done|]. split; [done|]. by intros y [= <-].
  - by destruct (sys _ _ _) as [fs' []].
  - by destruct (is_directory _).
  - by destruct (sys _ _ _) as [fs' []].
  - by destruct (sys _ _ _) as [fs' []].
  - by destruct (sys _ _ _) as [fs' []].
  - by destruct (query _ _) as [[x n]|er].
  - destruct (sys _ _ _) as [fs' []]; [done|]. by case_bool_decide.
  - by destruct (sys _ _ _) as [fs' []].
  - by destruct (is_directory _), st as [[s x]|].
  - by destruct st as [[s x]|].
  - destruct (query _ _) as [[x n]|er]; [by case_bool_decide|done].
Qed.

(** ** Everybody *)

Definition judged (pc : Pc) : option Z := match pc with LProbe j | LRestat j | LUnlink j => Some j | _ => None end.
Definition stale (pc : Pc) : option Z := match pc with LRestat j | LUnlink j => Some j | _ => None end.

Lemma stale_judged pc j : stale pc = Some j -> judged pc = Some j.
Proof. by destruct pc. Qed.

Record owned (used : gset Z) (w : World) : Prop := {
  ow_paths : forall p i, fs_paths (wd_fs w) !! p = Some i -> i ∈ used;
  ow_open : forall i, i ∈ fs_open (wd_fs w) -> i ∈ used;
  ow_own : forall t k i, wd_tasks w !! t = Some k -> own (tk_pc k) = Some i -> i ∈ used;
  ow_judged : forall t k j, wd_tasks w !! t = Some k -> judged (tk_pc k) = Some j -> j ∈ used;
  ow_placed : forall t k, wd_tasks w !! t = Some k -> placed (wd_fs w) (tk_path k) (tk_dir k) (tk_pc k);
  ow_distinct : forall t t' k k' i, wd_tasks w !! t = Some k -> wd_tasks w !! t' = Some k' ->
    own (tk_pc k) = Some i -> own (tk_pc k') = Some i -> t = t';
  ow_link : forall t k i p, wd_tasks w !! t = Some k -> own (tk_pc k) = Some i -> fs_paths (wd_fs w) !! Beside p = Some i ->
    p = tk_path k /\ past (tk_pc k) = true;
  ow_probe : forall t k j u m, wd_tasks w !! t = Some k -> tk_pc k = LProbe j -> wd_tasks w !! u = Some m -> own (tk_pc m) = Some j ->
    tk_path m = tk_path k /\ past (tk_pc m) = true;
  ow_stale : forall t k j u m, wd_tasks w !! t = Some k -> stale (tk_pc k) = Some j -> wd_tasks w !! u = Some m -> own (tk_pc m) = Some j ->
    past (tk_pc m) = true /\ published (tk_pc m) = false
}.

(** What is published leads to its socket, and is listened on. *)
Lemma placed_published fs path dir pc i : placed fs path dir pc -> published pc = true -> own pc = Some i ->
  leads fs (Beside path) i /\ i ∈ fs_open fs.
Proof. destruct pc; try done; cbn; try (destruct staged as [[? ?]|]; [|done]); intros [H _] _ [= <-]; done. Qed.

Lemma held_own pc i : held pc = Some i -> own pc = Some i.
Proof. by destruct pc. Qed.

(** How a listener's place depends on the file system. *)
Lemma placed_mono fs fs' path dir pc :
  placed fs path dir pc -> unlinking pc = false ->
  (forall i, staging pc = true -> own pc = Some i -> leads fs (staged_socket dir) i -> leads fs' (staged_socket dir) i) ->
  (forall i, published pc = true -> own pc = Some i -> leads fs (Beside path) i -> leads fs' (Beside path) i) ->
  (forall i, held pc = Some i -> i ∈ fs_open fs -> i ∈ fs_open fs') ->
  placed fs' path dir pc.
Proof.
  intros Hpl Hu Hs Hp Ho.
  destruct pc; try done; cbn in *; try (destruct staged as [[? ?]|]; [|done]); destruct_and?; split_and?; eauto.
Qed.

Lemma placed_other used w t k u m e :
  owned used w -> inv w -> wd_tasks w !! t = Some k -> wd_tasks w !! u = Some m -> u <> t -> unlinking (tk_pc m) = false ->
  placed (ipc_step umask base (wd_fs w) (tk_path k) (tk_dir k) e (tk_pc k)).1 (tk_path m) (tk_dir m) (tk_pc m).
Proof.
  intros Hw Hi Hk Hm Hne Hu. pose proof (ow_placed _ _ Hw t k Hk) as Hpk. pose proof (ow_placed _ _ Hw u m Hm) as Hpm.
  assert (fs_wf (wd_fs w)) as Hwf by apply (inv_safe w Hi).
  apply (placed_mono (wd_fs w)); [done|done|..].
  - intros i Hst Hown Hl. apply leads_step; [done|done|done|done|]. intros Hst' [=Hd]. apply Hne. by apply (inv_distinct w Hi u t m k).
  - intros i Hpub Hown Hl. apply leads_step; [done|done|done| |done]. intros Hul [=Hp]. destruct Hl as [Hl _]. rewrite Hp in Hl.
    destruct (tk_pc k) as [| | |j| | | | | | | | | | | | | | | | | |l|] eqn:Epc; try done; cbn in Hpk.
    + assert (j = i) as -> by congruence. destruct (ow_stale _ _ Hw t k i u m Hk) as [_ Hnp]; [by rewrite Epc|done|done|congruence].
    + destruct Hpk as [_ Hpk]. apply Hne. apply (ow_distinct _ _ Hw u t m k i); [done|done|done|]. rewrite Epc. cbn. congruence.
  - intros i Hown%held_own Hopen. pose proof (open_step (wd_fs w) (tk_path k) (tk_dir k) e (tk_pc k) Hwf Hpk) as Ho.
    destruct (ipc_step _ _ _ _ _ _) as [fs' pc']. destruct Ho as [_ Ho]. apply Ho; [done|]. intros Hk'. apply Hne.
    by apply (ow_distinct _ _ Hw u t m k i).
Qed.

(** *** One listener's step in the world *)

Section one_step.
Context (used : gset Z) (w : World) (t : nat) (k : Task) (e : Env) (dir' : string) (fs' : Fs) (pc' : Pc).
Context (Hw : owned used w) (Hi : inv w) (Hk : wd_tasks w !! t = Some k) (Hfresh : ev_inode e ∉ used)
  (Hq : forall u m, u <> t -> wd_tasks w !! u = Some m -> unlinking (tk_pc m) = false)
  (Hlk : forall s i, tk_pc k = LLink s i -> ev_fault e = None) (Hdir : tk_pc k <> LName -> dir' = tk_dir k)
  (Es : ipc_step umask base (wd_fs w) (tk_path k) (tk_dir k) e (tk_pc k) = (fs', pc')).

Let tasks' := <[t := mkTask (tk_pid k) (tk_path k) dir' pc']> (wd_tasks w).

Lemma step_wf : fs_wf (wd_fs w).
Proof. apply (inv_safe w Hi). Qed.
Lemma step_placed : placed (wd_fs w) (tk_path k) (tk_dir k) (tk_pc k).
Proof. by apply (ow_placed _ _ Hw t). Qed.

Lemma step_task u m : tasks' !! u = Some m ->
  u = t /\ m = mkTask (tk_pid k) (tk_path k) dir' pc' \/ u <> t /\ wd_tasks w !! u = Some m.
Proof. intros Hm. apply lookup_insert_Some in Hm as [[<- <-]|[Hne Hm]]; [by left|by right]. Qed.

Lemma step_new u m i : wd_tasks w !! u = Some m -> own (tk_pc m) = Some i -> i <> ev_inode e.
Proof. intros Hm Ho ->. by apply Hfresh, (ow_own _ _ Hw u m). Qed.

Lemma step_judged :
  (forall j, pc' = LProbe j -> fs_paths (wd_fs w) !! Beside (tk_path k) = Some j) /\
  (forall j, pc' = LRestat j -> tk_pc k = LProbe j /\
     forall i, fs_paths (wd_fs w) !! Beside (tk_path k) = Some i -> i ∉ fs_open (wd_fs w)) /\
  (forall j, pc' = LUnlink j -> tk_pc k = LRestat j).
Proof. pose proof (judged_step (wd_fs w) (tk_path k) (tk_dir k) e (tk_pc k)) as H. by rewrite Es in H. Qed.

Lemma step_paths q i : fs_paths fs' !! q = Some i -> came_from (wd_fs w) (tk_path k) (tk_dir k) e (tk_pc k) pc' q i.
Proof. pose proof (paths_step (wd_fs w) (tk_path k) (tk_dir k) e (tk_pc k) q i step_wf step_placed) as H. by rewrite Es in H. Qed.

(** What a task owns now it owned before, or has just made. *)
Lemma step_owns u m i : tasks' !! u = Some m -> own (tk_pc m) = Some i ->
  i = ev_inode e /\ u = t \/
  exists m0, wd_tasks w !! u = Some m0 /\ own (tk_pc m0) = Some i /\ tk_path m = tk_path m0 /\
    (past (tk_pc m0) = true -> past (tk_pc m) = true) /\
    (past (tk_pc m0) = true -> published (tk_pc m0) = false -> published (tk_pc m) = false).
Proof.
  intros Hm Ho. apply step_task in Hm as [[-> ->]|[_ Hm]]; [|right; by exists m]. cbn in Ho.
  pose proof (own_step (wd_fs w) (tk_path k) (tk_dir k) e (tk_pc k) step_wf) as Hown. rewrite Es in Hown.
  destruct (Hown i Ho) as [(H1 & H2 & H3)|(_ & -> & _)]; [right; by exists k|by left].
Qed.

Lemma step_judged_used u m j : tasks' !! u = Some m -> judged (tk_pc m) = Some j -> j ∈ used.
Proof.
  intros Hm Hj. apply step_task in Hm as [[-> ->]|[_ Hm]]; [|by eapply ow_judged]. cbn in Hj.
  destruct step_judged as (Hprobe & Hrestat & Hunlink).
  destruct pc' as [|j'|j'|j'| | | | | | | | | | | | | | | | | | |] eqn:Epc; try done; injection Hj as ->.
  - eapply ow_paths; [done|]. by apply Hprobe.
  - apply (ow_judged _ _ Hw t k); [done|]. by destruct (Hrestat j eq_refl) as [-> _].
  - apply (ow_judged _ _ Hw t k); [done|]. by rewrite (Hunlink j eq_refl).
Qed.

(** A judged inode is nobody's new one. *)
Lemma step_judged_owner u m j v n : tasks' !! u = Some m -> judged (tk_pc m) = Some j -> tasks' !! v = Some n -> own (tk_pc n) = Some j ->
  exists n0, wd_tasks w !! v = Some n0 /\ own (tk_pc n0) = Some j /\ tk_path n = tk_path n0 /\
    (past (tk_pc n0) = true -> past (tk_pc n) = true) /\
    (past (tk_pc n0) = true -> published (tk_pc n0) = false -> published (tk_pc n) = false).
Proof.
  intros Hm Hj Hn Ho. destruct (step_owns v n j Hn Ho) as [[-> _]|H]; [|done]. by destruct Hfresh; apply (step_judged_used u m).
Qed.

Lemma step_link u m i q : tasks' !! u = Some m -> own (tk_pc m) = Some i -> fs_paths fs' !! Beside q = Some i ->
  q = tk_path m /\ past (tk_pc m) = true.
Proof.
  intros Hm Ho Hqi. destruct (step_owns u m i Hm Ho) as [[-> ->]|(m0 & Hm0 & Ho0 & Hp & Hpast & _)].
  - apply step_task in Hm as [[_ ->]|[? _]]; [|done]. destruct (step_paths _ _ Hqi) as [H|[[_ H]|(_ & H & _)]].
    + destruct Hfresh. by eapply ow_paths.
    + by specialize (H Ho).
    + by destruct (step_new t k _ Hk H).
  - destruct (step_paths _ _ Hqi) as [H|[[-> _]|(Hqk & H & Hpc)]].
    + destruct (ow_link _ _ Hw u m0 i q Hm0 Ho0 H) as [-> H2]. by auto.
    + by destruct (step_new u m0 _ Hm0 Ho0).
    + injection Hqk as ->. assert (u = t) as -> by (by apply (ow_distinct _ _ Hw u t m0 k i)).
      apply step_task in Hm as [[_ ->]|[? _]]; done.
Qed.

Lemma step_probe u m j v n : tasks' !! u = Some m -> tk_pc m = LProbe j -> tasks' !! v = Some n -> own (tk_pc n) = Some j ->
  tk_path n = tk_path m /\ past (tk_pc n) = true.
Proof.
  intros Hm Hpc Hn Ho. destruct (step_judged_owner u m j v n Hm ltac:(by rewrite Hpc) Hn Ho) as (n0 & Hn0 & Ho0 & -> & Hpast & _).
  apply step_task in Hm as [[-> ->]|[_ Hm]]; cbn in *.
  - destruct (ow_link _ _ Hw v n0 j (tk_path k) Hn0 Ho0 (proj1 step_judged j Hpc)) as [-> H2]. by auto.
  - destruct (ow_probe _ _ Hw u m j v n0 Hm Hpc Hn0 Ho0). by auto.
Qed.

Lemma step_stale u m j v n : tasks' !! u = Some m -> stale (tk_pc m) = Some j -> tasks' !! v = Some n -> own (tk_pc n) = Some j ->
  past (tk_pc n) = true /\ published (tk_pc n) = false.
Proof.
  intros Hm Hpc Hn Ho. destruct (step_judged_owner u m j v n Hm (stale_judged _ _ Hpc) Hn Ho) as (n0 & Hn0 & Ho0 & _ & Hpast & Hpub).
  assert (past (tk_pc n0) = true /\ published (tk_pc n0) = false) as [H1 H2]; [|by auto].
  apply step_task in Hm as [[-> ->]|[_ Hm]]; cbn in Hpc; [|by apply (ow_stale _ _ Hw u m j v n0)].
  destruct step_judged as (_ & Hrestat & Hunlink). destruct pc' eqn:Epc; try done; injection Hpc as ->.
  - destruct (Hrestat j eq_refl) as [Hpr Hclosed]. destruct (ow_probe _ _ Hw t k j v n0 Hk Hpr Hn0 Ho0) as [Hpath H1].
    split; [done|]. destruct (published (tk_pc n0)) eqn:E; [|done]. exfalso.
    destruct (placed_published _ _ _ _ j (ow_placed _ _ Hw v n0 Hn0) E Ho0) as [[Hl _] Hop]. rewrite Hpath in Hl. by apply (Hclosed j).
  - apply (ow_stale _ _ Hw t k j v n0); try done. by rewrite (Hunlink j eq_refl).
Qed.

Lemma step_places u m : tasks' !! u = Some m -> placed fs' (tk_path m) (tk_dir m) (tk_pc m).
Proof.
  intros Hm. apply step_task in Hm as [[-> ->]|[Hne Hm]]; cbn.
  - pose proof (placed_step (wd_fs w) (tk_path k) (tk_dir k) e (tk_pc k) step_wf Hlk step_placed) as H. rewrite Es in H.
    destruct (naming (tk_pc k)) as [Hn|Hn]; [|by rewrite (Hdir Hn)]. rewrite Hn in Es. cbn in Es. by injection Es as _ <-.
  - pose proof (placed_other used w t k u m e Hw Hi Hk Hm Hne (Hq u m Hne Hm)) as H. by rewrite Es in H.
Qed.

Lemma owned_step att : owned ({[ev_inode e]} ∪ used) (mkWorld fs' tasks' att).
Proof.
  split; cbn; [..|exact step_places| |exact step_link|exact step_probe|exact step_stale].
  - intros q i Hqi. apply elem_of_union. destruct (step_paths q i Hqi) as [H|[[-> _]|(_ & H & _)]];
      [right; by eapply ow_paths|left; set_solver|right; by eapply ow_own].
  - intros i Ho. apply elem_of_union. pose proof (open_step (wd_fs w) (tk_path k) (tk_dir k) e (tk_pc k) step_wf step_placed) as H.
    rewrite Es in H. destruct (proj1 H i Ho) as [H'|H']; [right; by eapply ow_open|left; set_solver].
  - intros u m i Hm Ho. apply elem_of_union.
    destruct (step_owns u m i Hm Ho) as [[-> _]|(m0 & Hm0 & Ho0 & _)]; [left; set_solver|right; by eapply ow_own].
  - intros u m j Hm Hj. apply elem_of_union_r. by apply (step_judged_used u m).
  - intros u u' m m' i Hm Hm' Ho Ho'. destruct (step_owns u m i Hm Ho) as [[-> ->]|(m0 & Hm0 & Ho0 & _)],
      (step_owns u' m' _ Hm' Ho') as [[Hii ->]|(m0' & Hm0' & Ho0' & _)]; [done|..].
    + by destruct (step_new u' m0' _ Hm0' Ho0').
    + by destruct (step_new u m0 _ Hm0 Ho0).
    + by apply (ow_distinct _ _ Hw u u' m0 m0' i).
Qed.
End one_step.

(** Something else happens: the tasks that are left are where they were. *)
Lemma owned_mono used used' w w' :
  owned used w -> used ⊆ used' ->
  (forall t k, wd_tasks w' !! t = Some k -> wd_tasks w !! t = Some k) ->
  (forall p i, fs_paths (wd_fs w') !! p = Some i -> fs_paths (wd_fs w) !! p = Some i \/ i ∈ used' /\ i ∉ used) ->
  (forall i, i ∈ fs_open (wd_fs w') -> i ∈ used') ->
  (forall t k, wd_tasks w' !! t = Some k -> placed (wd_fs w') (tk_path k) (tk_dir k) (tk_pc k)) ->
  owned used' w'.
Proof.
  intros [H1 H2 H3 H4 H5 H6 H7 H8 H9] Hu Ht Hp Ho Hpl. split; [..|done|eauto| |eauto|eauto].
  - intros p i Hi. destruct (Hp p i Hi) as [H|[H _]]; [apply Hu; by eapply H1|done].
  - done.
  - intros t k i Hk Hi. apply Hu. by eapply H3; [apply Ht|].
  - intros t k j Hk Hj. apply Hu. by eapply H4; [apply Ht|].
  - intros t k i p Hk Hi Hq. apply Ht in Hk. destruct (Hp _ _ Hq) as [H|[_ H]]; [by eapply H7|]. destruct H. by eapply H3.
Qed.

Lemma owned_listen used w t pid path : owned used w -> wd_tasks w !! t = None ->
  owned used (set_task w t (mkTask pid path "" LStat)).
Proof.
  intros Hw Ht. assert (Htask : forall u m, wd_tasks (set_task w t (mkTask pid path "" LStat)) !! u = Some m ->
    m = mkTask pid path "" LStat \/ wd_tasks w !! u = Some m).
  { intros u m Hm. cbn in Hm. apply lookup_insert_Some in Hm as [[_ <-]|[_ Hm]]; auto. }
  destruct Hw as [H1 H2 H3 H4 H5 H6 H7 H8 H9]. split; [done|done|..].
  - intros u m i Hm. destruct (Htask u m Hm) as [->|Hm']; [done|by apply (H3 u)].
  - intros u m i Hm. destruct (Htask u m Hm) as [->|Hm']; [done|by apply (H4 u)].
  - intros u m Hm. destruct (Htask u m Hm) as [->|Hm']; [done|by apply (H5 u)].
  - intros u u' m m' i Hm Hm'. destruct (Htask u m Hm) as [->|?]; [done|]. destruct (Htask u' m' Hm') as [->|?]; [done|]. by apply (H6 u u' m m').
  - intros u m i p Hm. destruct (Htask u m Hm) as [->|?]; [done|]. by apply (H7 u).
  - intros u m j v n Hm Hpc Hn. destruct (Htask u m Hm) as [->|?]; [done|]. destruct (Htask v n Hn) as [->|?]; [done|]. by apply (H8 u m j v n).
  - intros u m j v n Hm Hpc Hn. destruct (Htask u m Hm) as [->|?]; [done|]. destruct (Htask v n Hn) as [->|?]; [done|]. by apply (H9 u m j v n).
Qed.

(** A listener that begins to close is where it was. *)
Lemma owned_close used w t pid path dir l : owned used w -> wd_tasks w !! t = Some (mkTask pid path dir (Serving l)) ->
  owned used (set_task w t (mkTask pid path dir (CDrop l))).
Proof.
  intros Hw Ht. assert (Htask : forall u m, wd_tasks (set_task w t (mkTask pid path dir (CDrop l))) !! u = Some m ->
    exists m0, wd_tasks w !! u = Some m0 /\ own (tk_pc m) = own (tk_pc m0) /\ judged (tk_pc m) = judged (tk_pc m0) /\
      stale (tk_pc m) = stale (tk_pc m0) /\ (forall j, tk_pc m = LProbe j -> tk_pc m0 = LProbe j) /\ tk_path m = tk_path m0 /\
      past (tk_pc m) = past (tk_pc m0) /\ published (tk_pc m) = published (tk_pc m0) /\
      (placed (wd_fs w) (tk_path m0) (tk_dir m0) (tk_pc m0) -> placed (wd_fs w) (tk_path m) (tk_dir m) (tk_pc m))).
  { intros u m Hm. cbn in Hm. apply lookup_insert_Some in Hm as [[<- <-]|[_ Hm]]; [by eexists|exists m; by split_and!]. }
  destruct Hw as [H1 H2 H3 H4 H5 H6 H7 H8 H9]. split; [done|done|..].
  - intros u m i Hm. destruct (Htask u m Hm) as (m0 & Hm0 & -> & _). by apply (H3 u).
  - intros u m i Hm. destruct (Htask u m Hm) as (m0 & Hm0 & _ & -> & _). by apply (H4 u).
  - intros u m Hm. destruct (Htask u m Hm) as (m0 & Hm0 & _ & _ & _ & _ & _ & _ & _ & Hpl). by apply Hpl, (H5 u).
  - intros u u' m m' i Hm Hm'. destruct (Htask u m Hm) as (m0 & Hm0 & -> & _). destruct (Htask u' m' Hm') as (m0' & Hm0' & -> & _).
    by apply (H6 u u' m0 m0').
  - intros u m i p Hm. destruct (Htask u m Hm) as (m0 & Hm0 & -> & _ & _ & _ & -> & -> & _). by apply (H7 u).
  - intros u m j v n Hm Hpc Hn. destruct (Htask u m Hm) as (m0 & Hm0 & _ & _ & _ & Hpr & -> & _).
    destruct (Htask v n Hn) as (n0 & Hn0 & -> & _ & _ & _ & -> & -> & _). apply (H8 u m0 j v n0); auto.
  - intros u m j v n Hm. destruct (Htask u m Hm) as (m0 & Hm0 & _ & _ & -> & _). intros Hpc Hn.
    destruct (Htask v n Hn) as (n0 & Hn0 & -> & _ & _ & _ & _ & -> & -> & _). by apply (H9 u m0 j v n0).
Qed.

(** A crash closes the sockets of its own process. *)
Lemma crash_fs_open ks : forall fs i, i ∈ fs_open (crash_fs fs ks) <->
  i ∈ fs_open fs /\ forall k, k ∈ ks -> held (tk_pc k) <> Some i.
Proof.
  induction ks as [|k ks IH]; intros fs i; [cbn; set_solver|]. unfold crash_fs in *. cbn [foldl]. rewrite IH. setoid_rewrite elem_of_cons.
  destruct (held (tk_pc k)) as [j|] eqn:Ej.
  - rewrite close_socket_open, elem_of_difference, elem_of_singleton. naive_solver.
  - naive_solver.
Qed.

Lemma owned_crash used w pid : owned used w -> (forall u m, wd_tasks w !! u = Some m -> unlinking (tk_pc m) = false) ->
  owned used (act umask base w (ACrash pid)).
Proof.
  intros Hw Hq. cbn [act]. set (ks := filter _ _). destruct (crash_fs_view ks (wd_fs w)) as [Hp Ha].
  assert (Hks : forall k, k ∈ ks -> tk_pid k = pid /\ exists u, wd_tasks w !! u = Some k).
  { intros k Hk. apply list_elem_of_filter in Hk as [Hpid Hk]. split; [done|]. apply list_elem_of_fmap in Hk as ([u m] & -> & Hm).
    exists u. by apply elem_of_map_to_list in Hm. }
  assert (Hleft : forall t k, filter (fun '(_, k) => tk_pid k <> pid) (wd_tasks w) !! t = Some k -> wd_tasks w !! t = Some k /\ tk_pid k <> pid).
  { intros t k Hk. by apply map_lookup_filter_Some in Hk. }
  apply (owned_mono used used w); cbn; [done|done|..].
  - intros t k Hk. by apply Hleft.
  - intros p i. rewrite Hp. by left.
  - intros i Hi. apply crash_fs_open in Hi as [Hi _]. by eapply ow_open.
  - intros t k Hk. apply Hleft in Hk as [Hk Hne]. apply (placed_mono (wd_fs w)); [by apply (ow_placed _ _ Hw t)|by apply (Hq t)|..].
    + intros i _ _. by apply leads_view.
    + intros i _ _. by apply leads_view.
    + intros i Ho%held_own Hi. apply crash_fs_open. split; [done|]. intros k' Hk' Hh. destruct (Hks k' Hk') as (Hpid & u & Hu).
      assert (u = t) as -> by (eapply (ow_distinct _ _ Hw u t k' k i); eauto using held_own). congruence.
Qed.

(** Another user lets go of his own sockets only. *)
Lemma stranger_open fs op : fs_wf fs ->
  (forall i, i ∈ fs_open (stranger fs op) -> i ∈ fs_open fs \/ allocates (AStranger op) = Some i) /\
  (forall q i, leads fs q i -> i ∈ fs_open fs -> i ∈ fs_open (stranger fs op)).
Proof.
  intros Hw. assert (Hsame : forall fs' : Fs, fs_open fs' = fs_open fs ->
    (forall i, i ∈ fs_open fs' -> i ∈ fs_open fs \/ allocates (AStranger op) = Some i) /\
    (forall q i, leads fs q i -> i ∈ fs_open fs -> i ∈ fs_open fs')) by (intros fs' ->; eauto).
  destruct op as [p j k mode listening|p|p|p mode]; cbn [stranger allocates] in *.
  - destruct (_ && _); [|by apply Hsame]. destruct listening; [|by apply Hsame]. cbn. set_solver.
  - destruct (fs_paths fs !! p) as [j|] eqn:Ej; [|by apply Hsame]. destruct (his fs p) eqn:Hh; [|by apply Hsame].
    rewrite close_socket_open. split; [set_solver|]. intros q i (Hq & n & Hn & _ & Hm) Hi. apply elem_of_difference. split; [done|].
    intros Hx. apply elem_of_singleton in Hx as ->. unfold his in Hh. rewrite (same_inode fs q p) in Hh by congruence.
    by rewrite Hn, Hm in Hh.
  - destruct (his fs p); [|by apply Hsame]. destruct p; [case_bool_decide|]; auto using rmdir_open, unlink_open.
  - destruct (his fs p); [|by apply Hsame]. apply Hsame. pose proof (chmod_effect fs p mode) as He.
    destruct (chmod fs p mode) as [fs' [|]]; cbn; [|by subst]. by destruct He as (n & _ & _ & H & _).
Qed.

Lemma stranger_paths fs op q i : fs_paths (stranger fs op) !! q = Some i -> fs_paths fs !! q = Some i \/ allocates (AStranger op) = Some i.
Proof.
  destruct op as [p j k mode listening|p|p|p mode]; cbn [stranger allocates].
  - destruct (_ && _); [|by left]. assert (forall fs', fs_paths fs' = <[p := j]> (fs_paths fs) -> fs_paths fs' !! q = Some i ->
      fs_paths fs !! q = Some i \/ Some j = Some i) as H.
    { intros fs' ->. intros H. apply lookup_insert_Some in H as [[_ <-]|[_ H]]; auto. }
    by destruct listening; apply H.
  - destruct (fs_paths fs !! p); [|by left]. destruct (his fs p); [|by left]. rewrite close_socket_paths. by left.
  - destruct (his fs p); [|by left]. left. destruct p; [case_bool_decide|]; eauto using rmdir_paths, unlink_paths.
  - destruct (his fs p); [|by left]. left. pose proof (chmod_effect fs p mode) as He.
    destruct (chmod fs p mode) as [fs' [|]]; cbn in *; [|by subst]. destruct He as (n & _ & Hp & _). by rewrite <- Hp.
Qed.

(** What a listener that holds a socket relies on. *)
Lemma placed_leads fs path dir pc i : placed fs path dir pc -> held pc = Some i -> exists q, leads fs q i.
Proof.
  destruct pc; try done; cbn; try (destruct staged as [[? ?]|]; [|done]); intros Hpl [= <-]; destruct_and?; eauto.
Qed.

Lemma owned_stranger used w op : owned used w -> inv w -> unused used (AStranger op) = true ->
  (forall u m, wd_tasks w !! u = Some m -> unlinking (tk_pc m) = false) ->
  owned (use used (AStranger op)) (act umask base w (AStranger op)).
Proof.
  intros Hw Hi Hun Hq. cbn [act]. assert (fs_wf (wd_fs w)) as Hwf by apply (inv_safe w Hi).
  destruct (stranger_open (wd_fs w) op Hwf) as [Ho1 Ho2].
  assert (Hnew : forall i, allocates (AStranger op) = Some i -> i ∈ use used (AStranger op) /\ i ∉ used).
  { intros i Ha. unfold unused, use in *. rewrite Ha in *. apply negb_true_iff, bool_decide_eq_false in Hun. set_solver. }
  assert (used ⊆ use used (AStranger op)) as Hsub by (unfold use; destruct (allocates _); set_solver).
  apply (owned_mono used _ w); cbn; [done|done|done|..].
  - intros p i Hp. destruct (stranger_paths _ _ _ _ Hp) as [H|H]; [by left|right; by apply Hnew].
  - intros i Hx. destruct (Ho1 i Hx) as [H|H]; [apply Hsub; by eapply ow_open|by apply Hnew].
  - intros t k Hk. pose proof (ow_placed _ _ Hw t k Hk) as Hpl. apply (placed_mono (wd_fs w)); [done|by apply (Hq t)|..].
    + intros i _ _. by apply leads_stranger.
    + intros i _ _. by apply leads_stranger.
    + intros i Hheld Hopen. destruct (placed_leads _ _ _ _ i Hpl Hheld) as [q Hl]. by apply (Ho2 q).
Qed.

(** *** Runs *)

Lemma undisturbed_spec w a : undisturbed w a = true ->
  forall u m, wd_tasks w !! u = Some m -> unlinking (tk_pc m) = true -> exists e, a = AStep u e.
Proof.
  unfold undisturbed. rewrite forallb_forall. intros H u m Hm Hu. specialize (H (u, m)).
  rewrite <- list_elem_of_In, elem_of_map_to_list in H. specialize (H Hm). cbn in H. rewrite Hu in H. cbn in H.
  destruct a; try done. apply bool_decide_eq_true in H as ->. by eexists.
Qed.

Lemma owned_act used w a : owned used w -> inv w -> unused used a = true -> undisturbed w a = true -> link_fails w a = false ->
  owned (use used a) (act umask base w a).
Proof.
  intros Hw Hi Hun Hud Hlf. pose proof (undisturbed_spec w a Hud) as Hq.
  assert (Hcalm : (forall t e, a <> AStep t e) -> forall u m, wd_tasks w !! u = Some m -> unlinking (tk_pc m) = false).
  { intros Ha u m Hm. destruct (unlinking (tk_pc m)) eqn:E; [|done]. destruct (Hq u m Hm E) as [e He]. by destruct (Ha u e). }
  destruct a as [t pid path|t e|t|pid|op].
  - cbn [act]. destruct (wd_tasks w !! t) eqn:Ht; [done|]. by apply owned_listen.
  - cbn [act use allocates]. destruct (wd_tasks w !! t) as [k|] eqn:Ht.
    2: { apply (owned_mono used _ w); [done|set_solver|done|by left| |apply Hw]. intros i H. apply elem_of_union_r. by eapply ow_open. }
    unfold unused in Hun. cbn in Hun. apply negb_true_iff, bool_decide_eq_false in Hun.
    assert (Hothers : forall u m, u <> t -> wd_tasks w !! u = Some m -> unlinking (tk_pc m) = false).
    { intros u m Hne Hm. destruct (unlinking (tk_pc m)) eqn:E; [|done]. destruct (Hq u m Hm E) as [e' [=]]. done. }
    assert (Hlink : forall s i, tk_pc k = LLink s i -> ev_fault e = None).
    { intros s i Hpc. cbn in Hlf. rewrite Ht, Hpc in Hlf. apply bool_decide_eq_false in Hlf. by apply eq_None_not_Some. }
    destruct (ipc_step _ _ _ _ _ _) as [fs' pc'] eqn:Es.
    pose proof (fun dir' Hd att => owned_step used w t k e dir' fs' pc' Hw Hi Ht Hun Hothers Hlink Hd Es att) as Hstep.
    destruct (tk_pc k) eqn:Epc; by apply Hstep.
  - cbn [act use allocates]. destruct (wd_tasks w !! t) as [[pid path dir pc]|] eqn:Ht; [|done]. destruct pc; try done. by apply owned_close.
  - apply owned_crash; [done|]. by apply Hcalm.
  - apply owned_stranger; [done|done|done|]. by apply Hcalm.
Qed.

Lemma owned_run acts : forall used w, owned used w -> inv w -> orderly used w acts = true ->
  exists used', owned used' (run umask base w acts).
Proof.
  induction acts as [|a acts IH]; intros used w Hw Hi Ho; [by exists used|]. cbn in Ho. rewrite !andb_true_iff, negb_true_iff in Ho.
  destruct Ho as (((H1 & H2) & H3) & H4). cbn. eapply IH; [|by apply inv_act|done]. by apply owned_act.
Qed.

Lemma owned_new fs used : (forall p i, fs_paths fs !! p = Some i -> i ∈ used) -> (forall i, i ∈ fs_open fs -> i ∈ used) -> owned used (world_new fs).
Proof. intros H1 H2. by split. Qed.
End address.

(** ** Properties *)

(** C15 (an address is its listener's own).  In every interleaving of listeners, crashes and other users
    in which a checked file is removed before anybody else acts, sockets can be linked and no inode
    number comes back: a listener that serves is the one its address leads to and a dial to it is
    answered, so no two listeners serve one address; neither another listener that starts and takes
    the address for stale, nor an older one that closes late, nor another user takes it away. *)
Theorem address_kept {OT : OsText} (umask : Z) (base : string) (fs : Fs) (used : gset Z) (acts : list Action) :
  fs_wf fs -> (forall q m, node_at fs q = Some m -> n_kind m = KSocket -> n_mine m = false) ->
  (forall p i, fs_paths fs !! p = Some i -> i ∈ used) -> (forall i, i ∈ fs_open fs -> i ∈ used) ->
  orderly umask base used (world_new fs) acts = true ->
  let w := run umask base (world_new fs) acts in
  forall t k l, wd_tasks w !! t = Some k -> tk_pc k = Serving l ->
    il_path l = tk_path k /\ fs_paths (wd_fs w) !! Beside (tk_path k) = Some (il_inode l) /\
    dial (wd_fs w) (Beside (tk_path k)) = Ok tt /\
    (forall t' k' l', wd_tasks w !! t' = Some k' -> tk_pc k' = Serving l' -> tk_path k' = tk_path k -> t' = t).
Proof.
  intros Hw Hnone Hp Ho Hord w t k l Hk Hpc.
  assert (safe fs) as Hs.
  { split; [done|]. intros q m Hq Hkm Hm. rewrite (Hnone q m Hq Hkm) in Hm. done. }
  destruct (owned_run umask base acts used (world_new fs) (owned_new fs used Hp Ho) (inv_new fs Hs) Hord) as [used' How].
  fold w in How. pose proof (ow_placed _ _ How t k Hk) as Hpl. rewrite Hpc in Hpl. destruct Hpl as [[[Hl Hn] Hopen] [Hino Hpath]].
  split; [done|]. split; [by rewrite Hino|]. split; [unfold dial; by rewrite Hl, bool_decide_eq_true_2|].
  intros t' k' l' Hk' Hpc' Hsame. pose proof (ow_placed _ _ How t' k' Hk') as Hpl'. rewrite Hpc' in Hpl'.
  destruct Hpl' as [[[Hl' _] _] _]. rewrite Hsame in Hl'. apply (ow_distinct _ _ How t' t k' k (il_socket l)); try done.
  - rewrite Hpc'. cbn. congruence.
  - by rewrite Hpc.
Qed.

(** ** Concrete instances *)

Global Instance plain_os_text : OsText := {| strerror := fun _ => "error"; fmt_file_type := fun _ => "FileType" |}.

Definition empty_dir : Fs := mkFs ∅ ∅ ∅.

Lemma empty_dir_wf : fs_wf empty_dir.
Proof. split; intros *; cbn; rewrite lookup_empty; by intros []. Qed.

(** The next calls of a listener, with the inodes they may take. *)
Definition call (t : nat) (i : Z) : Action := AStep t (mkEnv None i DialAnswered).
Definition calls (t : nat) (inodes : list Z) : list Action := map (call t) inodes.

(** A listener that comes up, dies and leaves its file; its successor finds it, replaces it and serves,
    while a third one comes too late. *)
Definition restart : list Action :=
  AListen 0 5 "hub.sock" :: calls 0 [1; 2; 3; 4; 5; 6; 7; 8; 9; 10; 11] ++ [ACrash 5] ++
  AListen 1 7 "hub.sock" :: calls 1 [21; 22; 23; 24; 25; 26; 27; 28; 29; 30; 31; 32; 33; 34] ++
  AListen 2 8 "hub.sock" :: calls 2 [41; 42; 43].

Lemma socket_owner_only_witness :
  let fs := wd_fs (run 0 "/tmp" (world_new empty_dir) (AListen 0 5 "hub.sock" :: calls 0 [1; 2; 3; 4; 5])) in
  node_at fs (Inside ".m5-0" "s") = Some (mkNode KSocket 511 true) /\ stranger_may_connect fs (Inside ".m5-0" "s") = false.
Proof.
  split; [vm_compute; reflexivity|].
  refine (proj1 (socket_owner_only 0 "/tmp" empty_dir (AListen 0 5 "hub.sock" :: calls 0 [1; 2; 3; 4; 5])
    (Inside ".m5-0" "s") (mkNode KSocket 511 true) empty_dir_wf _ _ _)); [|vm_compute; reflexivity|reflexivity].
  intros q m Hq. exfalso. unfold node_at, empty_dir in Hq. cbn in Hq. rewrite lookup_empty in Hq. discriminate.
Defined.

Lemma address_kept_witness :
  let w := run 0 "/tmp" (world_new empty_dir) restart in
  tk_pc <$> wd_tasks w !! 2%nat = Some (LFailed (in_use_error "/tmp" "hub.sock")) /\
  dial (wd_fs w) (Beside "hub.sock") = Ok tt.
Proof.
  split; [vm_compute; reflexivity|].
  destruct (address_kept 0 "/tmp" empty_dir ∅ restart empty_dir_wf) with (t := 1%nat)
    (k := mkTask 7 "hub.sock" ".m7-0" (Serving (mkIpcListener 28 "hub.sock" 28 None []))) (l := mkIpcListener 28 "hub.sock" 28 None [])
    as (_ & _ & H & _); [..|exact H].
  - intros q m Hq. exfalso. unfold node_at, empty_dir in Hq. cbn in Hq. rewrite lookup_empty in Hq. discriminate.
  - intros p i Hp. exfalso. cbn in Hp. rewrite lookup_empty in Hp. discriminate.
  - intros i Hi. cbn in Hi. set_solver.
  - vm_compute. reflexivity.
  - vm_compute. reflexivity.
  - reflexivity.
Defined.

(** Two listeners restart at once over the file of a third, and the file system gives the winner's
    socket the number of the file it removed. *)
Definition race : list Action :=
  AListen 0 5 "hub.sock" :: calls 0 [1; 2; 3; 4; 5; 6; 7; 8; 9; 10; 11] ++ [ACrash 5] ++
  [AListen 1 7 "hub.sock"; AListen 2 8 "hub.sock"; call 1 20; call 1 20; call 2 20; call 2 20] ++
  calls 1 [20; 20; 20; 20; 21; 5; 20; 20; 20; 20; 20; 20] ++ calls 2 [20; 20].

Fixpoint undisturbed_run {OT : OsText} (umask : Z) (base : string) (w : World) (acts : list Action) : bool :=
  match acts with
  | [] => true
  | a :: acts => undisturbed w a && negb (link_fails w a) && undisturbed_run umask base (act umask base w a) acts
  end.

(** The loser's check of the inode then finds the number it judged stale, and it removes the winner's
    address although nothing came between its check and its removal. *)
Lemma reused_inode :
  undisturbed_run 0 "/tmp" (world_new empty_dir) race = true /\
  let w := run 0 "/tmp" (world_new empty_dir) race in
  tk_pc <$> wd_tasks w !! 1%nat = Some (Serving (mkIpcListener 5 "hub.sock" 5 None [])) /\
  fs_paths (wd_fs w) !! Beside "hub.sock" = None.
Proof. vm_compute. split_and!; reflexivity. Qed.
