(* ===== verification/IpcListen.v ===== *)
(** * Listening alone

    [listen_ipc] of [transports/ipc/unix.rs] from its first call to its last when nobody else is
    around: what it does for each thing that may sit at the address ([listen_ipc_outcomes]). *)

From S2P Require Import Prelude Text Json Wire Frame Validate Limits Serde JsonText FrameJson Ndjson NdjsonProps Port NdjsonPort NdjsonPortProps Deadline Files Ipc IpcProps IpcAddress.
Local Open Scope Z_scope.

(** ** Calls that succeed *)

Section solo.
Context {OT : OsText} (umask : Z) (base : string).

Lemma dir_empty_iff fs d : (forall s, fs_paths fs !! Inside d s = None) -> dir_empty fs d = true.
Proof.
  intros H. unfold dir_empty. apply forallb_forall. intros [[n|d' n] i] Hin; cbn; [done|].
  rewrite <- list_elem_of_In, elem_of_map_to_list in Hin. case_bool_decide as E; [|done]. subst. by rewrite H in Hin.
Qed.

Lemma mkdir_ok fs d mode i : fs_paths fs !! Beside d = None -> fs_nodes fs !! i = None ->
  mkdir fs umask d mode i = (add_node fs (Beside d) i (mkNode KDir (Z.ldiff mode umask) true), Ok tt).
Proof. intros Hd Hi. unfold mkdir. rewrite Hd, Hi. by rewrite !bool_decide_eq_false_2 by (by intros []). Qed.

Lemma bind_ok fs d s i : fs_paths fs !! Inside d s = None -> n_kind <$> node_at fs (Beside d) = Some KDir -> fs_nodes fs !! i = None ->
  bind fs umask (Inside d s) i =
  (mkFs (<[i := mkNode KSocket (Z.ldiff 511 umask) true]> (fs_nodes fs)) (<[Inside d s := i]> (fs_paths fs)) ({[i]} ∪ fs_open fs), Ok i).
Proof.
  intros Hs Hd Hi. unfold bind, parent_dir. rewrite Hs, Hd, Hi. rewrite (bool_decide_eq_true_2 (Some KDir = Some KDir)) by done.
  by rewrite !bool_decide_eq_false_2 by (by intros []).
Qed.

Lemma unlink_ok fs p n : node_at fs p = Some n -> n_kind n <> KDir -> exists fs', unlink fs p = (fs', Ok tt) /\
  removed fs fs' p /\ forall x, fs_nodes fs !! x = None -> fs_nodes fs' !! x = None.
Proof.
  unfold node_at, unlink. destruct (fs_paths fs !! p) as [i|]; [|done]. intros -> Hk. cbn.
  rewrite bool_decide_eq_false_2 by congruence. eexists. split; [done|]. split; [apply remove_removed|]. intros x Hx.
  destruct (fs_nodes (collect _ _) !! x) as [m|] eqn:E; [|done]. apply collect_nodes in E. cbn in E. congruence.
Qed.

Lemma removed_wf fs fs' path n : removed fs fs' (Beside path) -> node_at fs (Beside path) = Some n -> n_kind n <> KDir -> fs_wf fs -> fs_wf fs'.
Proof.
  intros (Hp & _ & Ha) Hn Hk [W1 W2]. split.
  - intros q. rewrite Hp, Ha. destruct (decide (q = Beside path)) as [->|]; [rewrite lookup_delete_eq; by intros []|].
    rewrite lookup_delete_ne by done. apply W1.
  - intros d s. rewrite Hp, Ha, lookup_delete_ne by done. intros Hd. specialize (W2 d s Hd). destruct (decide _) as [E|]; [|done].
    rewrite E, Hn in W2. cbn in W2. congruence.
Qed.

Lemma rmdir_ok fs d : n_kind <$> node_at fs (Beside d) = Some KDir -> (forall s, fs_paths fs !! Inside d s = None) ->
  exists fs', rmdir fs d = (fs', Ok tt) /\ removed fs fs' (Beside d).
Proof.
  unfold node_at, rmdir. destruct (fs_paths fs !! Beside d) as [i|]; [|done]. intros Hk He. rewrite bool_decide_eq_true_2 by done.
  rewrite dir_empty_iff by done. eexists. split; [done|]. apply remove_removed.
Qed.

Lemma alone_S n path dir i j fs pc fs' pc' :
  ipc_step umask base fs path dir (mkEnv None (match pc with LMkdir => i | _ => j end) DialAnswered) pc = (fs', pc') ->
  alone umask base (S n) path dir i j fs pc = alone umask base n path dir i j fs' pc'.
Proof. intros E. cbn [alone]. by rewrite E. Qed.

(** The end of a listener that has linked its socket: its directory goes. *)
Lemma cleared_alone n path dir i j fs nd ns :
  fs_paths fs !! Beside dir = Some i -> node_at fs (Beside dir) = Some nd -> n_kind nd = KDir ->
  node_at fs (staged_socket dir) = Some ns -> n_kind ns = KSocket -> (forall s, s <> "s" -> fs_paths fs !! Inside dir s = None) ->
  exists fs', alone umask base (3 + n) path dir i j fs (LDiscardCheck (Ok (j, j))) =
    alone umask base n path dir i j fs' (Serving (mkIpcListener j path j None [])) /\
  fs_paths fs' = delete (Beside dir) (delete (staged_socket dir) (fs_paths fs)) /\ fs_open fs' = fs_open fs /\
  forall q, node_at fs' q = if decide (q = Beside dir \/ q = staged_socket dir) then None else node_at fs q.
Proof.
  intros Hi Hd Hkd Hs Hks Hempty. destruct (unlink_ok fs (staged_socket dir) ns Hs) as (fs1 & E1 & (P1 & O1 & A1) & _); [congruence|].
  destruct (rmdir_ok fs1 dir) as (fs2 & E2 & P2 & O2 & A2).
  { rewrite A1, decide_False by done. rewrite Hd. cbn. by rewrite Hkd. }
  { intros s. rewrite P1. destruct (decide (s = "s")) as [->|Hne]; [by rewrite lookup_delete_eq|].
    rewrite lookup_delete_ne by (unfold staged_socket; congruence). by apply Hempty. }
  exists fs2. split.
  - cbn [Nat.add]. rewrite (alone_S _ _ _ _ _ fs _ fs (LDiscardFile (Ok (j, j)))).
    2: { unfold_step; cbn [ev_fault query]. unfold lstat. rewrite Hi. unfold node_at in Hd. rewrite Hi in Hd. rewrite Hd. cbn. by rewrite Hkd. }
    rewrite (alone_S _ _ _ _ _ fs _ fs1 (LDiscardDir (Ok (j, j)))) by (unfold_step; cbn [ev_fault sys]; by rewrite E1).
    by rewrite (alone_S _ _ _ _ _ fs1 _ fs2 (Serving (mkIpcListener j path j None []))) by (unfold_step; cbn [ev_fault sys]; by rewrite E2).
  - rewrite P2, P1, O2, O1. split; [done|]. split; [done|]. intros q. rewrite A2, A1.
    destruct (decide (q = Beside dir)) as [->|H1]; [by rewrite decide_True by auto|].
    destruct (decide (q = staged_socket dir)) as [->|H2]; [by rewrite decide_True by auto|]. by rewrite decide_False by tauto.
Qed.

Section staged.
Context (path dir : string) (i j : Z) (fs : Fs).
Context (Hw : fs_wf fs) (Hpath : fs_paths fs !! Beside path = None) (Hdir : fs_paths fs !! Beside dir = None) (Hne : dir <> path)
  (Hi : fs_nodes fs !! i = None) (Hj : fs_nodes fs !! j = None) (Hij : i <> j).

Let nd : Node := mkNode KDir (Z.ldiff STAGING_DIRECTORY_MODE umask) true.
Let ns : Node := mkNode KSocket SOCKET_MODE true.

(** What is there once the socket is linked. *)
Let linked : Fs :=
  mkFs (<[j := ns]> (<[j := mkNode KSocket (Z.ldiff 511 umask) true]> (<[i := nd]> (fs_nodes fs))))
    (<[Beside path := j]> (<[staged_socket dir := j]> (<[Beside dir := i]> (fs_paths fs)))) ({[j]} ∪ fs_open fs).

Lemma free_inside s : fs_paths fs !! Inside dir s = None.
Proof. apply not_dir_empty; [done|]. unfold node_at. by rewrite Hdir. Qed.

Lemma free_inode q x : fs_paths fs !! q = Some x -> x <> i /\ x <> j.
Proof.
  intros Hq. destruct (proj1 Hw q) as [m Hm]; [by rewrite Hq|]. unfold node_at in Hm. rewrite Hq in Hm. split; congruence.
Qed.

Lemma linked_at q : node_at linked q =
  if decide (q = Beside path \/ q = staged_socket dir) then Some ns else if decide (q = Beside dir) then Some nd else node_at fs q.
Proof.
  unfold node_at, linked. cbn. destruct (decide (q = Beside path)) as [->|H1].
  { by rewrite lookup_insert_eq, lookup_insert_eq, decide_True by auto. }
  rewrite lookup_insert_ne by done. destruct (decide (q = staged_socket dir)) as [->|H2].
  { by rewrite lookup_insert_eq, lookup_insert_eq, decide_True by auto. }
  rewrite lookup_insert_ne by done. rewrite (decide_False (P := _ \/ _)) by tauto. destruct (decide (q = Beside dir)) as [->|H3].
  { rewrite lookup_insert_eq. rewrite lookup_insert_ne by done. rewrite lookup_insert_ne by done. by rewrite lookup_insert_eq. }
  rewrite lookup_insert_ne by done. destruct (fs_paths fs !! q) as [x|] eqn:Ex; [|done]. destruct (free_inode q x Ex).
  by rewrite !lookup_insert_ne by done.
Qed.

Lemma linked_alone n : alone umask base (7 + n) path dir i j fs LName = alone umask base n path dir i j linked (LDiscardCheck (Ok (j, j))).
Proof.
  cbn [Nat.add]. rewrite (alone_S _ _ _ _ _ fs _ fs LClearCheck) by done.
  rewrite (alone_S _ _ _ _ _ fs _ fs LMkdir) by (unfold_step; cbn [ev_fault query]; unfold lstat; by rewrite Hdir).
  set (fs1 := add_node fs (Beside dir) i nd).
  rewrite (alone_S _ _ _ _ _ fs _ fs1 LBind) by (unfold_step; cbn [ev_fault ev_inode sys]; by rewrite mkdir_ok).
  set (fs2 := mkFs (<[j := mkNode KSocket (Z.ldiff 511 umask) true]> (fs_nodes fs1)) (<[staged_socket dir := j]> (fs_paths fs1)) ({[j]} ∪ fs_open fs1)).
  rewrite (alone_S _ _ _ _ _ fs1 _ fs2 (LChmod j)).
  2: { unfold_step; cbn [ev_fault ev_inode sys]. unfold staged_socket. rewrite bind_ok; [done|..].
       - cbn. rewrite lookup_insert_ne by done. apply free_inside.
       - unfold node_at. cbn. by rewrite lookup_insert_eq, lookup_insert_eq.
       - cbn. by rewrite lookup_insert_ne. }
  set (fs3 := mkFs (<[j := ns]> (fs_nodes fs2)) (fs_paths fs2) (fs_open fs2)).
  rewrite (alone_S _ _ _ _ _ fs2 _ fs3 (LStaged j)).
  2: { unfold_step; cbn [ev_fault sys]. unfold chmod. cbn. by rewrite lookup_insert_eq, lookup_insert_eq. }
  rewrite (alone_S _ _ _ _ _ fs3 _ fs3 (LLink j j)).
  2: { unfold_step; cbn [ev_fault query]. unfold lstat. cbn. by rewrite lookup_insert_eq, lookup_insert_eq. }
  apply alone_S. unfold_step; cbn [ev_fault sys]. unfold hard_link. cbn. rewrite lookup_insert_eq. rewrite lookup_insert_ne by done.
  rewrite lookup_insert_ne by congruence. rewrite Hpath. by rewrite bool_decide_eq_false_2 by (by intros []).
Qed.

(** The address is free: the listener publishes itself there and leaves nothing behind. *)
Lemma publish_alone n : let '(fs', pc) := alone umask base (10 + n) path dir i j fs LName in
  pc = Serving (mkIpcListener j path j None []) /\ fs_paths fs' = <[Beside path := j]> (fs_paths fs) /\
  fs_open fs' = {[j]} ∪ fs_open fs /\ forall q, node_at fs' q = if decide (q = Beside path) then Some ns else node_at fs q.
Proof.
  change (10 + n)%nat with (7 + (3 + n))%nat. rewrite linked_alone.
  destruct (cleared_alone n path dir i j linked nd ns) as (fs' & -> & Hp & Ho & Ha).
  - cbn. rewrite lookup_insert_ne by congruence. rewrite lookup_insert_ne by done. by rewrite lookup_insert_eq.
  - rewrite linked_at, decide_False by (intros [[= ->]|?]; done). by rewrite decide_True.
  - done.
  - rewrite linked_at. by rewrite decide_True by auto.
  - done.
  - intros s Hs. cbn. rewrite !lookup_insert_ne by (unfold staged_socket; congruence). apply free_inside.
  - assert (alone umask base n path dir i j fs' (Serving (mkIpcListener j path j None [])) = (fs', Serving (mkIpcListener j path j None []))) as ->.
    { clear. induction n as [|n IH]; [done|]. cbn [alone]. unfold_step. done. }
    split; [done|]. split; [|split; [done|]].
    + rewrite Hp. cbn. apply map_eq. intros q. destruct (decide (q = Beside dir)) as [->|H1].
      { rewrite lookup_delete_eq. rewrite lookup_insert_ne by congruence. done. }
      rewrite lookup_delete_ne by done. destruct (decide (q = staged_socket dir)) as [->|H2].
      { rewrite lookup_delete_eq. rewrite lookup_insert_ne by done. apply eq_sym, free_inside. }
      rewrite lookup_delete_ne by done. destruct (decide (q = Beside path)) as [->|H3]; [by rewrite !lookup_insert_eq|].
      by rewrite !lookup_insert_ne by done.
    + intros q. rewrite Ha, linked_at. destruct (decide (q = Beside dir)) as [->|H1].
      { rewrite decide_True by auto. rewrite decide_False by congruence. unfold node_at. by rewrite Hdir. }
      destruct (decide (q = staged_socket dir)) as [->|H2].
      { rewrite decide_True by auto. rewrite decide_False by done. unfold node_at, staged_socket. by rewrite free_inside. }
      rewrite (decide_False (P := q = Beside dir \/ _)) by tauto.
      destruct (decide (q = Beside path)) as [->|H3]; [by rewrite decide_True by auto|]. by rewrite decide_False by tauto.
Qed.
End staged.

(** Nothing more happens to a listener that has failed. *)
Lemma failed_alone n path dir i j fs e : alone umask base n path dir i j fs (LFailed e) = (fs, LFailed e).
Proof. by induction n. Qed.
End solo.

(** Listening on an address.  [listen_ipc], with nobody else around and a staging name that is
    free: a file at the address that is not a socket, or a socket somebody answers on, is refused with
    the error that says so and nothing is touched; otherwise a file nobody answers on is removed first
    and the listener serves.  The address then leads to its own listening socket with mode 0600, what
    it staged is gone, and everything else is as it was. *)
Theorem listen_ipc_outcomes {OT : OsText} (umask : Z) (base path dir : string) (i j : Z) (fs : Fs) :
  fs_wf fs -> fs_paths fs !! Beside dir = None -> dir <> path -> fs_nodes fs !! i = None -> fs_nodes fs !! j = None -> i <> j ->
  let '(fs', pc) := alone umask base 14 path dir i j fs LStat in
  let serves :=
    pc = Serving (mkIpcListener j path j None []) /\ fs_paths fs' = <[Beside path := j]> (fs_paths fs) /\
    fs_open fs' = {[j]} ∪ fs_open fs /\
    forall q, node_at fs' q = if decide (q = Beside path) then Some (mkNode KSocket SOCKET_MODE true) else node_at fs q in
  match lstat fs (Beside path) with
  | Err _ => serves
  | Ok (x, n) =>
      if bool_decide (n_kind n = KSocket) then
        if bool_decide (x ∈ fs_open fs) then fs' = fs /\ pc = LFailed (in_use_error base path) else serves
      else fs' = fs /\ pc = LFailed (not_a_socket_error base path (n_kind n))
  end.
Proof.
  intros Hw Hdir Hne Hi Hj Hij. destruct (lstat fs (Beside path)) as [[x n]|e] eqn:El.
  - apply lstat_Ok in El as Hat. destruct Hat as [Hx Hn]. case_bool_decide as Hk.
    2: { rewrite (alone_S _ _ _ _ _ _ _ fs _ fs (LFailed (not_a_socket_error base path (n_kind n)))).
         - by rewrite failed_alone.
         - unfold_step; cbn [ev_fault query]. rewrite El. by rewrite bool_decide_eq_false_2. }
    rewrite (alone_S _ _ _ _ _ _ _ fs _ fs (LProbe x)).
    2: { unfold_step; cbn [ev_fault query]. rewrite El. by rewrite bool_decide_eq_true_2. }
    case_bool_decide as Ho.
    { rewrite (alone_S _ _ _ _ _ _ _ fs _ fs (LFailed (in_use_error base path))); [by rewrite failed_alone|].
      unfold_step; cbn [ev_dial dialled]. unfold dial. rewrite Hx. by rewrite bool_decide_eq_true_2. }
    rewrite (alone_S _ _ _ _ _ _ _ fs _ fs (LRestat x)).
    2: { unfold_step; cbn [ev_dial dialled]. unfold dial. rewrite Hx. by rewrite bool_decide_eq_false_2. }
    rewrite (alone_S _ _ _ _ _ _ _ fs _ fs (LUnlink x)).
    2: { unfold_step; cbn [ev_fault query]. rewrite El. by rewrite bool_decide_eq_true_2. }
    destruct (unlink_ok fs (Beside path) n Hn) as (fs1 & E1 & R1 & N1); [congruence|].
    rewrite (alone_S _ _ _ _ _ _ _ fs _ fs1 LName) by (unfold_step; cbn [ev_fault sys]; by rewrite E1).
    assert (fs_wf fs1) as Hw1 by (eapply removed_wf; [done|done|congruence|done]). destruct R1 as (P1 & O1 & A1).
    pose proof (publish_alone umask base path dir i j fs1 Hw1) as H. rewrite P1, O1, lookup_delete_eq in H.
    rewrite lookup_delete_ne in H by congruence. specialize (H eq_refl Hdir Hne (N1 _ Hi) (N1 _ Hj) Hij 0%nat).
    change (10 + 0)%nat with 10%nat in H. destruct (alone _ _ _ _ _ _ _ _ _) as [fs' pc]. destruct H as (H1 & H2 & H3 & H4).
    split; [done|]. split; [by rewrite H2, insert_delete_eq|]. split; [done|]. intros q. rewrite H4, A1. by destruct (decide _).
  - assert (fs_paths fs !! Beside path = None) as Hfree.
    { destruct (fs_paths fs !! Beside path) as [x|] eqn:Ex; [|done]. destruct (proj1 Hw (Beside path)) as [m Hm]; [by eexists|].
      unfold node_at in Hm. unfold lstat in El. rewrite Ex in Hm, El. by rewrite Hm in El. }
    rewrite (alone_S _ _ _ _ _ _ _ fs _ fs LName).
    + apply (publish_alone umask base path dir i j fs Hw Hfree Hdir Hne Hi Hj Hij 3).
    + unfold_step; cbn [ev_fault query]. unfold lstat. by rewrite Hfree.
Qed.

(** An address whose last listener died. *)
Definition stale_dir : Fs := mkFs {[4 := mkNode KSocket 384 true]} {[Beside "hub.sock" := 4]} ∅.

Lemma listen_ipc_outcomes_witness :
  (alone 18 "/tmp" 14 "hub.sock" ".m7-0" 8 9 stale_dir LStat).2 = Serving (mkIpcListener 9 "hub.sock" 9 None []) /\
  node_at (alone 18 "/tmp" 14 "hub.sock" ".m7-0" 8 9 stale_dir LStat).1 (Beside "hub.sock") = Some (mkNode KSocket 384 true).
Proof.
  pose proof (listen_ipc_outcomes 18 "/tmp" "hub.sock" ".m7-0" 8 9 stale_dir) as H.
  destruct (alone 18 "/tmp" 14 "hub.sock" ".m7-0" 8 9 stale_dir LStat) as [fs' pc] eqn:E.
  destruct H as (H1 & _ & _ & H2).
  - split.
    + intros p Hp. unfold node_at, stale_dir in *. cbn in *. destruct (decide (p = Beside "hub.sock")) as [->|Hne].
      * rewrite lookup_singleton_eq, lookup_singleton_eq. by eexists.
      * rewrite lookup_singleton_ne in Hp by congruence. by destruct Hp.
    + intros d s Hp. cbn in Hp. rewrite lookup_singleton_ne in Hp by discriminate. by destruct Hp.
  - vm_compute. reflexivity.
  - discriminate.
  - vm_compute. reflexivity.
  - vm_compute. reflexivity.
  - discriminate.
  - split; [exact H1|]. cbn [fst]. rewrite H2. by rewrite decide_True.
Defined.
