(* ===== verification/IpcPorts.v ===== *)
(** * The sessions of a local socket

    What [transports/ipc.rs], [ipc/unix.rs] and [ipc/windows.rs] do with connections: the ports a
    listener hands out and forgets again, the farewell it sends them when it closes, the pipe
    instances of Windows, and dialling; and the port of [transports/stdio.rs].

    A listener keeps weak handles on the ports it handed out.  The ports themselves live in a store
    everybody who has a handle shares; a port that was dropped is no longer in it. *)

From S2P Require Import Prelude Text Json Wire Frame Validate Limits Serde JsonText FrameJson Ndjson NdjsonProps Port NdjsonPort NdjsonPortProps Deadline Files Ipc.
Local Open Scope Z_scope.

(** The ports that are still somebody's. *)
#[local] Abbreviation Ports W := (gmap nat (NdjsonPort W)).

Section ports.
Context {RT : RustText} {SJ : SerdeJson} {W : Type} {AW : AsyncWrite W}.

(** [stdio_port]. *)
Definition stdio_port (stdin : list ReadOutcome) (stdout : W) : panics (NdjsonPort W) :=
  ndjson_port_new stdin stdout DEFAULT_MAX_FRAME_BYTES.

(** [socket_port] and [framed]: one connection, one port. *)
Definition socket_port (reader : list ReadOutcome) (writer : W) (max_frame_bytes : option Z) : panics (NdjsonPort W) :=
  match max_frame_bytes with
  | Some limit => ndjson_port_new reader writer limit
  | None => ndjson_port_new reader writer DEFAULT_MAX_FRAME_BYTES
  end.

(** [PortCloser::is_open]. *)
Definition is_open (ports : Ports W) (id : nat) : bool := bool_decide (is_Some (ports !! id)).

(** The handles a listener keeps after one more connection. *)
Definition retain_and_push (ports : Ports W) (accepted : list nat) (id : nat) : list nat :=
  filter (fun h => is_open ports h = true) accepted ++ [id].

(** A connection the system has accepted: its two halves and its credentials. *)
Record Stream : Type := { st_reader : list ReadOutcome; st_writer : W; st_cred : result UCred IoError }.

(** [IpcListener::accept] on POSIX; [id] names the port. *)
Definition ipc_accept (l : IpcListener) (ports : Ports W) (answer : result Stream IoError) (id : nat) :
    panics (IpcListener * Ports W * result (nat * PeerIdentity) IoError) :=
  match answer with
  | Err error => Ok (l, ports, Err error)
  | Ok stream =>
      let identity := identity_of (st_cred stream) in
      let? port := socket_port (st_reader stream) (st_writer stream) (il_max_frame_bytes l) in
      let ports := <[id := port]> ports in
      Ok (mkIpcListener (il_socket l) (il_path l) (il_inode l) (il_max_frame_bytes l) (retain_and_push ports (il_accepted l) id),
          ports, Ok (id, identity))
  end.

(** [tell_accepted]: each on its own, a port that is gone not at all. *)
Definition tell_accepted (ports : Ports W) (accepted : list nat) (code : Z) (reason : string) : Ports W :=
  foldl (fun ports id => alter (fun p => closer_close p code (Some reason)) id ports) ports accepted.

(** The first thing [IpcListener::close] does. *)
Definition close_sessions (accepted : list nat) (ports : Ports W) : Ports W :=
  tell_accepted ports accepted close_codes.RELEASED "listener closing".

(** ** Named pipes *)

(** An instance of the pipe and the client on it. *)
Record PipeInstance : Type := { in_id : nat; in_client : option (Stream * option Z) }.
Record PipeListener : Type := mkPipeListener
  { pl_idle : PipeInstance; pl_path : string; pl_max_frame_bytes : option Z; pl_accepted : list nat }.

(** [listen_ipc] on Windows; [create] is [create_owner_only_instance] with [first_instance]. *)
Definition pipe_listen (create : result nat IoError) (path : string) : result PipeListener IoError :=
  let? id := create in
  Ok (mkPipeListener {| in_id := id; in_client := None |} path None []).

(** [NamedPipeServer::connect]: the client that arrives, or the one that is already there. *)
Definition pipe_connect (i : PipeInstance) (arrival : result (Stream * option Z) IoError) :
    PipeInstance * result (Stream * option Z) IoError :=
  match in_client i, arrival with
  | Some client, _ => (i, Ok client)
  | None, Ok client => ({| in_id := in_id i; in_client := Some client |}, Ok client)
  | None, Err error => (i, Err error)
  end.
Definition pipe_disconnect (i : PipeInstance) : PipeInstance := {| in_id := in_id i; in_client := None |}.

(** [IpcListener::accept] on Windows; [create] is [create_owner_only_instance] for the next client. *)
Definition pipe_accept (l : PipeListener) (ports : Ports W) (arrival : result (Stream * option Z) IoError) (create : result nat IoError)
    (id : nat) : panics (PipeListener * Ports W * result (nat * PeerIdentity) IoError) :=
  let '(idle, connected) := pipe_connect (pl_idle l) arrival in
  match connected with
  | Err error => Ok (mkPipeListener idle (pl_path l) (pl_max_frame_bytes l) (pl_accepted l), ports, Err error)
  | Ok (stream, process_id) =>
      match create with
      | Err error =>
          Ok (mkPipeListener (pipe_disconnect idle) (pl_path l) (pl_max_frame_bytes l) (pl_accepted l), ports, Err error)
      | Ok next =>
          let identity := {| pi_process_id := process_id; pi_user := None |} in
          let? port := socket_port (st_reader stream) (st_writer stream) (pl_max_frame_bytes l) in
          let ports := <[id := port]> ports in
          Ok (mkPipeListener {| in_id := next; in_client := None |} (pl_path l) (pl_max_frame_bytes l)
                (retain_and_push ports (pl_accepted l) id), ports, Ok (id, identity))
      end
  end.

(** ** Dialling *)

Definition ERROR_PIPE_BUSY : Z := 231.

(** The port of a connection that was made. *)
Definition dialled_port {F} (r : F * poll (result Stream ConnectError)) : F * poll (result (panics (NdjsonPort W)) ConnectError) :=
  match r with
  | (f, Pending) => (f, Pending)
  | (f, Polled (Err error)) => (f, Polled (Err error))
  | (f, Polled (Ok stream)) => (f, Polled (Ok (socket_port (st_reader stream) (st_writer stream) None)))
  end.

(** [connect_ipc] on POSIX: the attempt is one [connect], whose error is passed on. *)
Definition unix_attempt {F} (connect : F -> F * poll (result Stream IoError)) (f : F) : F * poll (result Stream ConnectError) :=
  match connect f with
  | (f, Pending) => (f, Pending)
  | (f, Polled r) => (f, Polled (map_err connect_error_from r))
  end.
Definition connect_ipc {F} (connect : F -> F * poll (result Stream IoError)) (path : string) (d : ConnectDeadline) (f : F)
    (wakes : list Wake) : F * poll (result (panics (NdjsonPort W)) ConnectError) :=
  dialled_port (connect_within (unix_attempt connect) path d f wakes).

(** On Windows it is a loop: what each poll meets is the end of the [BUSY_RETRY] sleep not being
    reached, or an [open] with its answer and the raw error it failed with. *)
Inductive PipeOpen : Type :=
| StillSleeping
| Opened (stream : Stream)
| OpenFailed (raw_os_error : option Z) (error : IoError).

Definition pipe_attempt (polls : list PipeOpen) : list PipeOpen * poll (result Stream ConnectError) :=
  match polls with
  | [] => ([], Pending)
  | StillSleeping :: polls => (polls, Pending)
  | Opened stream :: polls => (polls, Polled (Ok stream))
  | OpenFailed raw error :: polls =>
      if bool_decide (raw = Some ERROR_PIPE_BUSY) then (polls, Pending) else (polls, Polled (Err (IoConnect error)))
  end.
Definition pipe_dial (path : string) (d : ConnectDeadline) (polls : list PipeOpen) (wakes : list Wake) :
    list PipeOpen * poll (result (panics (NdjsonPort W)) ConnectError) :=
  dialled_port (connect_within pipe_attempt path d polls wakes).

(** ** The life of a listener's sessions *)

(** The listener, the ports, and how many it has handed out. *)
Record Sessions : Type := mkSessions { ss_listener : IpcListener; ss_ports : Ports W; ss_next : nat }.

Inductive SessionAct : Type :=
| SConnect (answer : result Stream IoError)          (* [accept] returns *)
| SUse (id : nat) (port : NdjsonPort W)              (* whoever has the port works with it *)
| SDrop (id : nat).                                  (* and drops it *)

Definition session_act (s : Sessions) (a : SessionAct) : Sessions :=
  match a with
  | SConnect answer =>
      match ipc_accept (ss_listener s) (ss_ports s) answer (ss_next s) with
      | Ok (l, ports, _) => mkSessions l ports (S (ss_next s))
      | Err _ => s
      end
  | SUse id port => mkSessions (ss_listener s) (alter (fun _ => port) id (ss_ports s)) (ss_next s)
  | SDrop id => mkSessions (ss_listener s) (delete id (ss_ports s)) (ss_next s)
  end.
Definition session_run (s : Sessions) (acts : list SessionAct) : Sessions := foldl session_act s acts.

(** *** Lemmas *)

Lemma socket_port_ok reader (w : W) max : (forall m, max = Some m -> MIN_MAX_FRAME_BYTES <= m) ->
  exists port, socket_port reader w max = Ok port.
Proof.
  intros Hm. unfold socket_port. destruct max as [m|]; [by apply ndjson_port_new_ok, Hm|]. apply ndjson_port_new_ok. by vm_compute.
Qed.

Lemma tell_lookup accepted code reason : forall (ports : Ports W) id, NoDup accepted ->
  tell_accepted ports accepted code reason !! id =
  if decide (id ∈ accepted) then (fun p => closer_close p code (Some reason)) <$> ports !! id else ports !! id.
Proof.
  induction accepted as [|h accepted IH]; intros ports id Hnd; [by rewrite decide_False by (by intros ?%elem_of_nil)|].
  apply NoDup_cons in Hnd as [Hh Hnd]. unfold tell_accepted in *. cbn [foldl]. rewrite IH by done.
  destruct (decide (id = h)) as [->|Hne].
  - rewrite decide_False by done. rewrite decide_True by (by left). by rewrite lookup_alter_eq.
  - rewrite lookup_alter_ne by done. destruct (decide (id ∈ accepted)).
    + by rewrite decide_True by (by right).
    + by rewrite decide_False by (rewrite elem_of_cons; tauto).
Qed.

(** Every port that is still there has a handle, once. *)
Record tracked (s : Sessions) : Prop := {
  tr_all : forall id, is_Some (ss_ports s !! id) -> id ∈ il_accepted (ss_listener s);
  tr_nodup : NoDup (il_accepted (ss_listener s));
  tr_next : forall id, id ∈ il_accepted (ss_listener s) -> (id < ss_next s)%nat;
  tr_max : forall m, il_max_frame_bytes (ss_listener s) = Some m -> MIN_MAX_FRAME_BYTES <= m
}.

Lemma retain_spec (ports : Ports W) accepted id h : h ∈ retain_and_push ports accepted id <-> h ∈ accepted /\ is_Some (ports !! h) \/ h = id.
Proof.
  unfold retain_and_push, is_open. rewrite elem_of_app, list_elem_of_filter, bool_decide_eq_true, list_elem_of_singleton. tauto.
Qed.

Lemma tracked_act s a : tracked s -> tracked (session_act s a).
Proof.
  intros [Ha Hn Hx Hm]. destruct a as [[stream|error]|id port|id]; cbn [session_act ipc_accept].
  - destruct (socket_port_ok (st_reader stream) (st_writer stream) _ Hm) as [port ->]. cbn.
    assert (ss_next s ∉ il_accepted (ss_listener s)) as Hfresh by (intros H; specialize (Hx _ H); lia).
    split; cbn; [..|done].
    + intros id Hid. apply retain_spec. destruct (decide (id = ss_next s)) as [->|Hne]; [by right|]. left. split; [|done].
      apply Ha. by rewrite lookup_insert_ne in Hid.
    + unfold retain_and_push. apply NoDup_app. split; [by apply NoDup_filter|]. split; [|apply NoDup_singleton].
      intros h Hh Hs. apply list_elem_of_singleton in Hs as ->. by apply list_elem_of_filter in Hh as [_ Hh].
    + intros id Hid. apply retain_spec in Hid as [[Hid _]| ->]; [specialize (Hx id Hid); lia|lia].
  - cbn. split; cbn; [done|done| |done]. intros id Hid. specialize (Hx id Hid). lia.
  - split; cbn; [|done..]. intros id' Hid. apply Ha. destruct (decide (id' = id)) as [->|Hne].
    + rewrite lookup_alter_eq in Hid. by apply fmap_is_Some in Hid.
    + by rewrite lookup_alter_ne in Hid.
  - split; cbn; [|done..]. intros id' Hid. apply Ha. by apply lookup_delete_is_Some in Hid as [_ Hid].
Qed.

Lemma tracked_run acts : forall s, tracked s -> tracked (session_run s acts).
Proof. induction acts as [|a acts IH]; intros s Hs; cbn; [done|]. by apply IH, tracked_act. Qed.
End ports.
Arguments Stream W : clear implicits.
Arguments PipeListener W : clear implicits.
Arguments Sessions W : clear implicits.

(** ** Properties *)

(** A listener takes leave of its sessions, spec transports/local-socket.md.  However connections
    came, were used and ended: closing the listener writes the farewell 4000 "listener closing" on
    every port it handed out that is still somebody's, once and on no other, and after each accept it
    keeps a handle on exactly the ports that are still there. *)
Theorem listener_close_tells {RT : RustText} {SJ : SerdeJson} {W : Type} {AW : AsyncWrite W}
    (l : IpcListener) (acts : list SessionAct) (stream : Stream W) :
  il_accepted l = [] -> (forall m, il_max_frame_bytes l = Some m -> MIN_MAX_FRAME_BYTES <= m) ->
  let s := session_run (mkSessions l ∅ 0) acts in
  (forall id, close_sessions (il_accepted (ss_listener s)) (ss_ports s) !! id =
    (fun p => closer_close p close_codes.RELEASED (Some "listener closing")) <$> ss_ports s !! id) /\
  (let s' := session_act s (SConnect (Ok stream)) in
   forall id, id ∈ il_accepted (ss_listener s') <-> is_Some (ss_ports s' !! id)).
Proof.
  intros Hl Hm. cbv zeta. assert (tracked (mkSessions (W := W) l ∅ 0)) as H0.
  { split; cbn; rewrite ?Hl; [by intros id []|apply NoDup_nil_2|by intros id ?%elem_of_nil|done]. }
  pose proof (tracked_run acts _ H0) as Hs. set (s := session_run _ acts) in *. split.
  - intros id. unfold close_sessions. rewrite tell_lookup by apply Hs. destruct (decide _) as [|Hn]; [done|].
    destruct (ss_ports s !! id) as [p|] eqn:E; [|done]. destruct Hn. apply Hs. by rewrite E.
  - intros id. split; [|apply tracked_act; done]. cbn [session_act ipc_accept].
    destruct (socket_port_ok (st_reader stream) (st_writer stream) _ (tr_max _ Hs)) as [port ->]. cbn.
    intros [[_ H]| ->]%retain_spec; [done|]. by rewrite lookup_insert_eq.
Qed.

(** Accepting on a named pipe.  A client is served at most once: after every [accept] the idle
    instance has no client.  A client that arrives while no further instance can be made is
    disconnected and not handed out later; only an arrival with an instance for the next one gives a
    port, and the error of either call is the one reported. *)
Theorem pipe_accept_outcomes {RT : RustText} {SJ : SerdeJson} {W : Type} {AW : AsyncWrite W}
    (l l' : PipeListener W) (ports ports' : Ports W) (arrival : result (Stream W * option Z) IoError) (create : result nat IoError)
    (id : nat) (r : result (nat * PeerIdentity) IoError) :
  in_client (pl_idle l) = None -> pipe_accept l ports arrival create id = Ok (l', ports', r) ->
  in_client (pl_idle l') = None /\
  match r with
  | Ok (id', identity) =>
      exists stream process_id next port, arrival = Ok (stream, process_id) /\ create = Ok next /\ id' = id /\
        identity = {| pi_process_id := process_id; pi_user := None |} /\ in_id (pl_idle l') = next /\
        socket_port (st_reader stream) (st_writer stream) (pl_max_frame_bytes l) = Ok port /\ ports' = <[id := port]> ports /\
        id ∈ pl_accepted l'
  | Err error => ports' = ports /\ pl_accepted l' = pl_accepted l /\ in_id (pl_idle l') = in_id (pl_idle l) /\
      (arrival = Err error \/ exists client, arrival = Ok client /\ create = Err error)
  end.
Proof.
  intros Hidle. unfold pipe_accept, pipe_connect. rewrite Hidle. destruct arrival as [[stream pid]|error].
  - destruct create as [next|error].
    + destruct (socket_port _ _ _) as [port|e] eqn:Ep; cbn; [|done]. intros [= <- <- <-]. split; [done|].
      exists stream, pid, next, port. split_and!; try done. apply retain_spec. by right.
    + intros [= <- <- <-]. split; [done|]. cbn. split_and!; try done. right. by eexists.
  - intros [= <- <- <-]. split; [done|]. cbn. split_and!; try done. by left.
Qed.

(** ** Addresses *)

Lemma contains_char c s : str_contains (String c "") s = true <-> c ∈ to_bytes s.
Proof.
  unfold str_contains. rewrite bytes_contain_spec. split.
  - intros (l & r & ->). rewrite !elem_of_app. right. left. cbn. by left.
  - intros (l & r & ->)%list_elem_of_split. by exists l, r.
Qed.

Lemma append_inj_r (a b c : string) : a +:+ c = b +:+ c -> a = b.
Proof. intros H. apply to_bytes_inj. apply (f_equal to_bytes) in H. rewrite !to_bytes_app in H. by apply app_inv_tail in H. Qed.

Lemma path_join_inj dir a b : path_join dir a = path_join dir b -> a = b.
Proof.
  unfold path_join. case_bool_decide as E; [done|]. destruct (str_ends_with _ _); intros H; apply (f_equal to_bytes) in H;
    rewrite !to_bytes_app in H; repeat apply app_inv_head in H; by apply to_bytes_inj.
Qed.

(** Addresses.  [ipc_path] gives an address for exactly the names that are one path segment, and
    then one entry directly in the runtime directory, or in the temporary one where that is unset or
    empty: no part of the name is read as a directory or as the parent, and different names give
    different addresses, on POSIX and on Windows. *)
Theorem ipc_path_one_segment (xdg_runtime_dir : option string) (temp_dir name : string) :
  let dir := match xdg_runtime_dir with Some d => if bool_decide (d = "") then temp_dir else d | None => temp_dir end in
  (match ipc_path (unix_address_for xdg_runtime_dir temp_dir) name with
   | Ok address => exists segment, address = path_join dir segment /\ segment = name +:+ ".sock" /\
       str_contains "/" segment = false /\ segment <> "." /\ segment <> ".."
   | Err e => ine_name e = name /\
       (name = "" \/ str_contains "/" name = true \/ str_contains "\" name = true \/ str_contains ".." name = true)
   end) /\
  (forall address other, ipc_path (unix_address_for xdg_runtime_dir temp_dir) name = Ok address ->
     ipc_path (unix_address_for xdg_runtime_dir temp_dir) other = Ok address -> other = name) /\
  (forall address other, ipc_path windows_address_for name = Ok address ->
     ipc_path windows_address_for other = Ok address -> other = name).
Proof.
  cbv zeta. set (dir := match xdg_runtime_dir with Some _ => _ | None => _ end). unfold ipc_path, unix_address_for. fold dir. split; [|split].
  - destruct (bool_decide (name = "")) eqn:E1; [apply bool_decide_eq_true in E1; by cbn; auto|].
    destruct (str_contains "/" name) eqn:E2; [by cbn; auto|]. destruct (str_contains "\" name) eqn:E3; [by cbn; auto|].
    destruct (str_contains ".." name) eqn:E4; [by cbn; auto|]. cbn [orb]. exists (name +:+ ".sock"). split; [done|]. split; [done|]. split.
    + apply not_true_iff_false. intros H%contains_char. rewrite to_bytes_app, elem_of_app in H. destruct H as [H|H].
      * apply contains_char in H. congruence.
      * cbn in H. by repeat (apply elem_of_cons in H as [H|H]; [done|]); apply elem_of_nil in H.
    + apply bool_decide_eq_false in E1. destruct name as [|c name]; [done|]. split; intros [= _ H]; apply (f_equal to_bytes) in H;
        rewrite to_bytes_app in H; apply (f_equal length) in H; rewrite length_app in H; cbn in H; lia.
  - intros address other. destruct (_ || _); [done|]. intros [= <-]. destruct (_ || _); [done|]. intros [= H].
    by apply path_join_inj, append_inj_r in H.
  - intros address other. destruct (_ || _); [done|]. intros [= <-]. destruct (_ || _); [done|]. unfold windows_address_for. cbn.
    by intros [= H].
Qed.

(** ** Concrete instances *)

Definition caller_cred : UCred := {| uc_pid := Some 42; uc_uid := 1000; uc_gid := 100 |}.
Definition a_stream : Stream Pipe := {| st_reader := []; st_writer := empty_pipe; st_cred := Ok caller_cred |}.
Definition a_listener : IpcListener := mkIpcListener 3 "hub.sock" 3 (Some 4096) [].

(** Two come, one goes, a third comes: two are told. *)
Lemma listener_close_tells_witness :
  let s := session_run (mkSessions a_listener ∅ 0) [SConnect (Ok a_stream); SConnect (Ok a_stream); SDrop 0; SConnect (Ok a_stream)] in
  il_accepted (ss_listener s) = [1; 2]%nat /\
  close_sessions (il_accepted (ss_listener s)) (ss_ports s) !! 1%nat =
    (fun p => closer_close p 4000 (Some "listener closing")) <$> ss_ports s !! 1%nat.
Proof.
  split; [vm_compute; reflexivity|].
  destruct (listener_close_tells a_listener [SConnect (Ok a_stream); SConnect (Ok a_stream); SDrop 0; SConnect (Ok a_stream)] a_stream)
    as [H _]; [reflexivity|intros m [= <-]; vm_compute; discriminate|]. exact (H 1%nat).
Defined.

Definition busy_error : IoError := {| io_kind := OtherKind "AllPipesBusy"; io_text := "no instance" |}.

Lemma pipe_accept_outcomes_witness :
  let l := mkPipeListener {| in_id := 7; in_client := None |} "hub" None [] in
  let l' := mkPipeListener {| in_id := 7; in_client := None |} "hub" None [] in
  pipe_accept l ∅ (Ok (a_stream, Some 42)) (Err busy_error) 0 = Ok (l', ∅, Err busy_error) /\ in_client (pl_idle l') = None.
Proof.
  split; [vm_compute; reflexivity|].
  refine (proj1 (pipe_accept_outcomes (mkPipeListener {| in_id := 7; in_client := None |} "hub" None [])
    (mkPipeListener {| in_id := 7; in_client := None |} "hub" None []) ∅ ∅ (Ok (a_stream, Some 42)) (Err busy_error) 0 (Err busy_error) _ _)).
  - reflexivity.
  - vm_compute. reflexivity.
Defined.

Lemma ipc_path_one_segment_witness :
  ipc_path (unix_address_for (Some "/run/user/1000") "/tmp") "mango-hub" = Ok "/run/user/1000/mango-hub.sock" /\
  forall other, ipc_path (unix_address_for (Some "/run/user/1000") "/tmp") other = Ok "/run/user/1000/mango-hub.sock" -> other = "mango-hub".
Proof.
  split; [vm_compute; reflexivity|]. intros other H.
  destruct (ipc_path_one_segment (Some "/run/user/1000") "/tmp" "mango-hub") as (_ & Hinj & _).
  apply (Hinj "/run/user/1000/mango-hub.sock"); [vm_compute; reflexivity|exact H].
Defined.
