(* ===== verification/PipeSecurity.v ===== *)
(** * Named pipes that admit their owner alone

    [transports/ipc/windows/security.rs], the crate's only [unsafe] module, and the listener of
    [transports/ipc/windows.rs] that uses it.  What Windows keeps is explicit: the descriptors it
    allocated and the pipe instances it created.  Reading or freeing a descriptor that is not
    allocated is undefined behaviour, [None] here; whether a call of the system succeeds is its
    answer. *)

From S2P Require Import Prelude Text Json Wire Frame Validate Limits Serde JsonText FrameJson Ndjson NdjsonProps Port NdjsonPort NdjsonPortProps Deadline Files Ipc IpcPorts.
Local Open Scope Z_scope.

(** UTF-16 units of ASCII text. *)
Definition utf16_ascii (s : string) : list Z := map Z_of_byte (to_bytes s).

(** The literal as the source writes it, with its terminator. *)
Definition OWNER_ONLY_SDDL : list Z := [68; 58; 80; 40; 65; 59; 59; 71; 65; 59; 59; 59; 79; 87; 41; 0].

(** ** The system *)

(** A pipe instance: where, with which descriptor, and what the server options asked for. *)
Record PipeObject : Type :=
  { po_path : string; po_sddl : list Z; po_inherit : Z; po_first : bool; po_reject_remote : bool }.

(** [wi_heap] maps an allocated descriptor to the text it was converted from. *)
Record Windows : Type := mkWindows
  { wi_heap : gmap nat (list Z); wi_next : nat; wi_pipes : gmap nat PipeObject; wi_next_pipe : nat }.

(** A pointer that may be null. *)
Definition Pointer : Type := option nat.

(** [ConvertStringSecurityDescriptorToSecurityDescriptorW]: zero and nothing written, or a fresh
    allocation. *)
Definition convert_descriptor (w : Windows) (sddl : list Z) (refused : bool) : Windows * Z * Pointer :=
  if refused then (w, 0, None)
  else (mkWindows (<[wi_next w := sddl]> (wi_heap w)) (S (wi_next w)) (wi_pipes w) (wi_next_pipe w), 1, Some (wi_next w)).

(** [LocalFree]. *)
Definition local_free (w : Windows) (p : nat) : option Windows :=
  match wi_heap w !! p with
  | Some _ => Some (mkWindows (delete p (wi_heap w)) (wi_next w) (wi_pipes w) (wi_next_pipe w))
  | None => None
  end.

Record SECURITY_ATTRIBUTES : Type := { lpSecurityDescriptor : Pointer; bInheritHandle : Z }.
Record ServerOptions : Type := { first_pipe_instance : bool; reject_remote_clients : bool }.

(** [create_with_security_attributes_raw]: it reads the descriptor, a null one being the default. *)
Definition create_raw (w : Windows) (o : ServerOptions) (path : string) (a : SECURITY_ATTRIBUTES) (answer : result unit IoError) :
    option (Windows * result nat IoError) :=
  let create sddl :=
    match answer with
    | Err error => (w, Err error)
    | Ok _ =>
        let pipe := {| po_path := path; po_sddl := sddl; po_inherit := bInheritHandle a; po_first := first_pipe_instance o;
                       po_reject_remote := reject_remote_clients o |} in
        (mkWindows (wi_heap w) (wi_next w) (<[wi_next_pipe w := pipe]> (wi_pipes w)) (S (wi_next_pipe w)), Ok (wi_next_pipe w))
    end in
  match lpSecurityDescriptor a with
  | None => Some (create [])
  | Some p => match wi_heap w !! p with Some sddl => Some (create sddl) | None => None end
  end.

(** ** [security.rs] *)

Record OwnerOnlyDescriptor : Type := { descriptor : Pointer }.

(** [OwnerOnlyDescriptor::new]; [last_error] is [io::Error::last_os_error()]. *)
Definition descriptor_new (w : Windows) (refused : bool) (last_error : IoError) : Windows * result OwnerOnlyDescriptor IoError :=
  let '(w, converted, p) := convert_descriptor w OWNER_ONLY_SDDL refused in
  if converted =? 0 then (w, Err last_error) else (w, Ok {| descriptor := p |}).

Definition attributes (d : OwnerOnlyDescriptor) : SECURITY_ATTRIBUTES :=
  {| lpSecurityDescriptor := descriptor d; bInheritHandle := 0 |}.

(** [impl Drop for OwnerOnlyDescriptor]. *)
Definition descriptor_drop (w : Windows) (d : OwnerOnlyDescriptor) : option Windows :=
  match descriptor d with
  | None => Some w
  | Some p => local_free w p
  end.

(** What Windows will answer to the calls of one creation. *)
Record CreateAnswers : Type := { ca_refused : bool; ca_last_error : IoError; ca_create : result unit IoError }.

Definition create_owner_only_instance (w : Windows) (path : string) (first : bool) (answers : CreateAnswers) :
    option (Windows * result nat IoError) :=
  match descriptor_new w (ca_refused answers) (ca_last_error answers) with
  | (w, Err error) => Some (w, Err error)
  | (w, Ok d) =>
      let options := {| first_pipe_instance := first; reject_remote_clients := true |} in
      match create_raw w options path (attributes d) (ca_create answers) with
      | None => None
      | Some (w, server) =>
          match descriptor_drop w d with
          | None => None
          | Some w => Some (w, server)
          end
      end
  end.

(** [client_process_id]: what [GetNamedPipeClientProcessId] returned and wrote. *)
Definition client_process_id (read process_id : Z) : option Z := if negb (read =? 0) then Some process_id else None.

(** ** [windows.rs]: the listener *)

Section listener.
Context {RT : RustText} {SJ : SerdeJson} {W : Type} {AW : AsyncWrite W}.

Definition windows_listen (w : Windows) (path : string) (answers : CreateAnswers) : option (Windows * result (PipeListener W) IoError) :=
  match create_owner_only_instance w path true answers with
  | None => None
  | Some (w, created) => Some (w, pipe_listen created path)
  end.

Definition pl_with_max_frame_bytes (l : PipeListener W) (max_frame_bytes : Z) : panics (PipeListener W) :=
  let? m := check_max_frame_bytes max_frame_bytes in
  Ok (mkPipeListener (pl_idle l) (pl_path l) (Some m) (pl_accepted l)).

(** The next instance is created once a client is there, and only then. *)
Definition windows_accept (w : Windows) (l : PipeListener W) (ports : gmap nat (NdjsonPort W))
    (arrival : result (Stream W * option Z) IoError) (answers : CreateAnswers) (id : nat) :
    option (Windows * panics (PipeListener W * gmap nat (NdjsonPort W) * result (nat * PeerIdentity) IoError)) :=
  match (pipe_connect (pl_idle l) arrival).2 with
  | Err error => Some (w, pipe_accept l ports arrival (Err error) id)
  | Ok _ =>
      match create_owner_only_instance w (pl_path l) false answers with
      | None => None
      | Some (w, created) => Some (w, pipe_accept l ports arrival created id)
      end
  end.

(** [IpcListener::close]: the sessions are told, then the idle instance is dropped. *)
Definition windows_close (w : Windows) (l : PipeListener W) (ports : gmap nat (NdjsonPort W)) : Windows * gmap nat (NdjsonPort W) :=
  (mkWindows (wi_heap w) (wi_next w) (delete (in_id (pl_idle l)) (wi_pipes w)) (wi_next_pipe w),
   close_sessions (pl_accepted l) ports).
End listener.

(** ** The access control the literal spells *)

(** The text of a security descriptor with a discretionary list alone, in the documented grammar:
    [D:], [P] when protected, then [(type;flags;rights;object;inherited;account)] per entry. *)
Record AccessEntry : Type := { ae_type : string; ae_rights : string; ae_account : string }.
Record Dacl : Type := { da_protected : bool; da_entries : list AccessEntry }.

Definition entry_text (e : AccessEntry) : string :=
  "(" +:+ ae_type e +:+ ";;" +:+ ae_rights e +:+ ";;;" +:+ ae_account e +:+ ")".
Definition dacl_text (d : Dacl) : string :=
  "D:" +:+ (if da_protected d then "P" else "") +:+ foldr (fun e s => entry_text e +:+ s) "" (da_entries d).

(** Nothing inherited, and one entry: all access ([GA]) for the owner ([OW]). *)
Definition owner_only : Dacl :=
  {| da_protected := true; da_entries := [{| ae_type := "A"; ae_rights := "GA"; ae_account := "OW" |}] |}.

Lemma sddl_spells_owner_only : OWNER_ONLY_SDDL = utf16_ascii (dacl_text owner_only) ++ [0].
Proof. reflexivity. Qed.

(** ** Properties *)

(** A pipe nobody but its owner reaches, from this machine only. *)
Definition admits_owner_only (p : PipeObject) : Prop :=
  po_sddl p = utf16_ascii (dacl_text owner_only) ++ [0] /\ po_inherit p = 0 /\ po_reject_remote p = true.

(** [wi_next] is fresh, and so is [wi_next_pipe]. *)
Record windows_ok (w : Windows) : Prop := {
  wk_heap : forall p, is_Some (wi_heap w !! p) -> (p < wi_next w)%nat;
  wk_pipes : forall p, is_Some (wi_pipes w !! p) -> (p < wi_next_pipe w)%nat
}.

(** One creation: defined behaviour, nothing leaked, and at most one more pipe, owner-only. *)
Lemma create_owner_only_spec w path first answers :
  windows_ok w ->
  exists w' r, create_owner_only_instance w path first answers = Some (w', r) /\ windows_ok w' /\
    wi_heap w' = wi_heap w /\
    match r with
    | Err _ => wi_pipes w' = wi_pipes w
    | Ok id => exists p, wi_pipes w' = <[id := p]> (wi_pipes w) /\ wi_pipes w !! id = None /\
        admits_owner_only p /\ po_path p = path /\ po_first p = first
    end.
Proof.
  intros [Hh Hp]. unfold create_owner_only_instance, descriptor_new, convert_descriptor.
  assert (Hfresh : wi_heap w !! wi_next w = None).
  { destruct (wi_heap w !! wi_next w) eqn:E; [|done]. assert (wi_next w < wi_next w)%nat by (apply Hh; by eexists). lia. }
  assert (Hpipe : wi_pipes w !! wi_next_pipe w = None).
  { destruct (wi_pipes w !! wi_next_pipe w) eqn:E; [|done].
    assert (wi_next_pipe w < wi_next_pipe w)%nat by (apply Hp; by eexists). lia. }
  assert (Hok : forall pipes n, (forall p, is_Some (pipes !! p) -> (p < n)%nat) ->
    windows_ok (mkWindows (wi_heap w) (S (wi_next w)) pipes n)).
  { intros pipes n Hn. split; simpl; [|done]. intros p H. specialize (Hh p H). lia. }
  destruct (ca_refused answers); [by eexists _, _|]. simpl. unfold create_raw. simpl. rewrite lookup_insert_eq.
  destruct (ca_create answers) as [[]|error]; unfold descriptor_drop, local_free; simpl; rewrite lookup_insert_eq;
    rewrite delete_insert_id by done; eexists _, _; (split; [done|]).
  - split; [|split; [done|by eexists]]. apply Hok. intros p H.
    destruct (decide (p = wi_next_pipe w)) as [->|Hne]; [lia|]. rewrite lookup_insert_ne in H by done.
    specialize (Hp p H). lia.
  - split; [by apply Hok|done].
Qed.

Section run.
Context {RT : RustText} {SJ : SerdeJson} {W : Type} {AW : AsyncWrite W}.

(** A listener's accepts, one after the other: what arrives and what Windows answers. *)
Fixpoint windows_run (w : Windows) (l : PipeListener W) (ports : gmap nat (NdjsonPort W)) (id : nat)
    (events : list (result (Stream W * option Z) IoError * CreateAnswers)) :
    option (Windows * panics (PipeListener W * gmap nat (NdjsonPort W))) :=
  match events with
  | [] => Some (w, Ok (l, ports))
  | (arrival, answers) :: rest =>
      match windows_accept w l ports arrival answers id with
      | None => None
      | Some (w, Err message) => Some (w, Err message)
      | Some (w, Ok (l, ports, _)) => windows_run w l ports (S id) rest
      end
  end.

(** The pipes of one listener: owner-only, at its address, and only the first asked to be first. *)
Definition serves (w : Windows) (path : string) (first : nat) : Prop :=
  windows_ok w /\ is_Some (wi_pipes w !! first) /\
  forall id p, wi_pipes w !! id = Some p ->
    admits_owner_only p /\ po_path p = path /\ (po_first p = true <-> id = first).

Lemma pipe_accept_path (l l' : PipeListener W) ports ports' arrival create id r :
  pipe_accept l ports arrival create id = Ok (l', ports', r) -> pl_path l' = pl_path l.
Proof.
  unfold pipe_accept. destruct (pipe_connect _ _) as [idle [[stream pid]|error]]; [|by intros [= <- _ _]].
  destruct create as [next|error]; [|by intros [= <- _ _]].
  intros (port & _ & [= <- _ _])%result_bind_Ok. done.
Qed.

Lemma create_serves w path first answers :
  serves w path first ->
  exists w' r, create_owner_only_instance w path false answers = Some (w', r) /\ wi_heap w' = wi_heap w /\ serves w' path first.
Proof.
  intros (Hok & Hfirst & Hall). destruct (create_owner_only_spec w path false answers Hok) as (w' & r & Hc & Hok' & Hh & Hr).
  exists w', r. split; [done|]. split; [done|]. destruct r as [id|error]; cycle 1.
  { unfold serves. by rewrite Hr. }
  destruct Hr as (p & Hp & Hnew & Hadm & Hpath & Hf). unfold serves. rewrite Hp. split; [done|].
  assert (first <> id) by (intros ->; rewrite Hnew in Hfirst; by destruct Hfirst).
  split; [by rewrite lookup_insert_ne|]. intros id' p' [[<- <-]|[_ H']]%lookup_insert_Some; [|by apply Hall].
  split; [done|]. split; [done|]. rewrite Hf. by split.
Qed.

Lemma windows_run_serves events : forall w l ports id path first,
  serves w path first -> pl_path l = path ->
  exists w' r, windows_run w l ports id events = Some (w', r) /\ wi_heap w' = wi_heap w /\ serves w' path first.
Proof.
  induction events as [|[arrival answers] events IH]; intros w l ports id path first Hs Hp; [by exists w, (Ok (l, ports))|].
  assert (Ha : exists w' r, windows_accept w l ports arrival answers id = Some (w', r) /\ wi_heap w' = wi_heap w /\
    serves w' path first /\ forall l' ports' o, r = Ok (l', ports', o) -> pl_path l' = path).
  { unfold windows_accept. destruct (pipe_connect (pl_idle l) arrival).2 as [client|error].
    - rewrite Hp. destruct (create_serves w path first answers Hs) as (w' & r & -> & Hh & Hs').
      exists w'. eexists. split; [done|]. split; [done|]. split; [done|].
      intros l' ports' o H. apply pipe_accept_path in H. congruence.
    - exists w. eexists. split; [done|]. split; [done|]. split; [done|].
      intros l' ports' o H. apply pipe_accept_path in H. congruence. }
  destruct Ha as (w' & r & Hacc & Hh & Hs' & Hpath). cbn [windows_run]. rewrite Hacc.
  destruct r as [[[l' ports'] o]|message]; [|by exists w', (Err message)].
  destruct (IH w' l' ports' (S id) path first Hs' (Hpath _ _ _ eq_refl)) as (w2 & r & Hrun & Hh2 & Hs2).
  exists w2, r. split; [done|]. split; [congruence|done].
Qed.

(** C24 (the Windows address is the owner's).  Whatever Windows answers and whoever connects, a
    listener's calls never read or free a descriptor that is not allocated and leave none
    allocated; every pipe instance it ever publishes, the first and each later one, carries the
    protected access list with one entry for its owner, is closed to remote clients and is not
    inherited by child processes; and only the first asked to be the first at the address. *)
Theorem pipes_owner_only (w w1 : Windows) (path : string) (answers : CreateAnswers) (l : PipeListener W)
    (events : list (result (Stream W * option Z) IoError * CreateAnswers)) :
  windows_ok w -> wi_pipes w = ∅ -> windows_listen w path answers = Some (w1, Ok l) ->
  exists w2 r first, windows_run w1 l ∅ 0 events = Some (w2, r) /\ wi_heap w2 = wi_heap w /\
    forall id p, wi_pipes w2 !! id = Some p ->
      admits_owner_only p /\ po_path p = path /\ (po_first p = true <-> id = first).
Proof.
  intros Hok Hnone. unfold windows_listen.
  destruct (create_owner_only_spec w path true answers Hok) as (w' & r & -> & Hok' & Hh & Hr). intros [= <- Hl].
  destruct r as [first|error]; [|done]. injection Hl as <-. destruct Hr as (p & Hp & _ & Hadm & Hpath & Hf).
  rewrite Hnone in Hp. destruct (windows_run_serves events w' (mkPipeListener {| in_id := first; in_client := None |} path None [])
    ∅ 0 path first) as (w2 & r & Hrun & Hh2 & _ & _ & Hall); [|done|].
  - split; [done|]. rewrite Hp. split; [by rewrite lookup_insert_eq|].
    intros id p' [[<- <-]|[_ H']]%lookup_insert_Some; [by rewrite Hf|by rewrite lookup_empty in H'].
  - exists w2, r, first. split; [done|]. split; [congruence|done].
Qed.
End run.

(** A listener and one client, on a fresh system. *)
Lemma pipes_owner_only_witness :
  let w := mkWindows ∅ 0 ∅ 0 in
  let yes := {| ca_refused := false; ca_last_error := busy_error; ca_create := Ok tt |} in
  let l := mkPipeListener {| in_id := 0; in_client := None |} "\\.\pipe\hub" None [] in
  exists w1, windows_listen w "\\.\pipe\hub" yes = Some (w1, Ok l) /\
    exists w2 r first, windows_run w1 l ∅ 0 [(Ok (a_stream, Some 42), yes)] = Some (w2, r) /\ wi_heap w2 = ∅ /\
      forall id p, wi_pipes w2 !! id = Some p ->
        admits_owner_only p /\ po_path p = "\\.\pipe\hub" /\ (po_first p = true <-> id = first).
Proof.
  intros w yes l. eexists. split; [reflexivity|].
  apply (pipes_owner_only w _ "\\.\pipe\hub" yes l [(Ok (a_stream, Some 42), yes)]).
  - split; intros p [? H]; discriminate H.
  - reflexivity.
  - reflexivity.
Defined.
