(* ===== verification/Session.v ===== *)
(** * Sessions: options and shared state

    [session.rs], [session/options.rs], [session/shared.rs], [session/command.rs] and
    [session/handler.rs]: how a session is configured and opened, and the state its handles and
    its driver share, with the operations on it.  Every critical section behind one of the
    crate's mutexes is one Rocq function on [Shared], so a sequence of calls is a sequence of
    lock acquisitions. *)

From S2P Require Import Prelude Json Wire Frame Validate Limits Serde FrameJson Ndjson NdjsonProps Port.
Local Open Scope Z_scope.

(** A [Duration], in nanoseconds. *)
Abbreviation Duration := Z (only parsing).
Definition from_secs (s : Z) : Duration := s * 1000000000.
Definition as_millis (d : Duration) : Z := d / 1000000.

(** ** [session/options.rs] *)

Definition DEFAULT_HANDSHAKE_TIMEOUT : Duration := from_secs 15.
Definition DEFAULT_LIVENESS_INTERVAL : Duration := from_secs 20.
Definition DEFAULT_HANDLER_GRACE : Duration := from_secs 5.
Definition DEFAULT_MAX_IN_FLIGHT : Z := 256.
Definition DEFAULT_MAX_STREAM_KEYS : Z := 1024.
Definition MIN_OPEN_STREAM_KEYS : Z := 1.
Definition IN_FLIGHT_LIMIT_KIND : string := "in_flight_limit".
Definition STREAM_KEY_LIMIT_KIND : string := "stream_key_limit".
Definition DEFAULT_REQUEST_ID_PREFIX : string := "r".
Definition HANDSHAKE_TIMEOUT_REASON : string := "handshake timeout".

(** An [Arc<dyn Handler>]: application code, known to the session only by which object it is. *)
Definition Handler : Type := nat.

Record SessionOptions : Type :=
  { so_peer : PeerInfo;
    so_capabilities : Map;
    so_protocol : ProtocolVersion;
    so_max_frame_bytes : option Z;
    so_max_in_flight : Z;
    so_max_stream_keys : Z;
    so_handshake_timeout : Duration;
    so_liveness_interval : option Duration;
    so_request_id_prefix : string;
    so_handler_grace : Duration;
    so_handlers : list (string * Handler) }.

Definition session_options_new (peer : PeerInfo) : SessionOptions :=
  {| so_peer := peer;
     so_capabilities := [];
     so_protocol := PROTOCOL_VERSION;
     so_max_frame_bytes := None;
     so_max_in_flight := DEFAULT_MAX_IN_FLIGHT;
     so_max_stream_keys := DEFAULT_MAX_STREAM_KEYS;
     so_handshake_timeout := DEFAULT_HANDSHAKE_TIMEOUT;
     so_liveness_interval := Some DEFAULT_LIVENESS_INTERVAL;
     so_request_id_prefix := DEFAULT_REQUEST_ID_PREFIX;
     so_handler_grace := DEFAULT_HANDLER_GRACE;
     so_handlers := [] |}.

(** The builder methods.  The three ceilings panic below their floor. *)
Definition with_capabilities (o : SessionOptions) (c : Map) : SessionOptions :=
  {| so_peer := so_peer o; so_capabilities := c; so_protocol := so_protocol o;
     so_max_frame_bytes := so_max_frame_bytes o; so_max_in_flight := so_max_in_flight o;
     so_max_stream_keys := so_max_stream_keys o; so_handshake_timeout := so_handshake_timeout o;
     so_liveness_interval := so_liveness_interval o; so_request_id_prefix := so_request_id_prefix o;
     so_handler_grace := so_handler_grace o; so_handlers := so_handlers o |}.

Definition with_protocol (o : SessionOptions) (v : ProtocolVersion) : SessionOptions :=
  {| so_peer := so_peer o; so_capabilities := so_capabilities o; so_protocol := v;
     so_max_frame_bytes := so_max_frame_bytes o; so_max_in_flight := so_max_in_flight o;
     so_max_stream_keys := so_max_stream_keys o; so_handshake_timeout := so_handshake_timeout o;
     so_liveness_interval := so_liveness_interval o; so_request_id_prefix := so_request_id_prefix o;
     so_handler_grace := so_handler_grace o; so_handlers := so_handlers o |}.

Definition with_max_frame_bytes (o : SessionOptions) (max : Z) : panics SessionOptions :=
  let? m := check_max_frame_bytes max in
  Ok {| so_peer := so_peer o; so_capabilities := so_capabilities o; so_protocol := so_protocol o;
        so_max_frame_bytes := Some m; so_max_in_flight := so_max_in_flight o;
        so_max_stream_keys := so_max_stream_keys o; so_handshake_timeout := so_handshake_timeout o;
        so_liveness_interval := so_liveness_interval o; so_request_id_prefix := so_request_id_prefix o;
        so_handler_grace := so_handler_grace o; so_handlers := so_handlers o |}.

Definition with_max_in_flight (o : SessionOptions) (max : Z) : panics SessionOptions :=
  let? m := check_at_least "max_in_flight" max MIN_ANNOUNCED_IN_FLIGHT in
  Ok {| so_peer := so_peer o; so_capabilities := so_capabilities o; so_protocol := so_protocol o;
        so_max_frame_bytes := so_max_frame_bytes o; so_max_in_flight := m;
        so_max_stream_keys := so_max_stream_keys o; so_handshake_timeout := so_handshake_timeout o;
        so_liveness_interval := so_liveness_interval o; so_request_id_prefix := so_request_id_prefix o;
        so_handler_grace := so_handler_grace o; so_handlers := so_handlers o |}.

Definition with_max_stream_keys (o : SessionOptions) (max : Z) : panics SessionOptions :=
  let? m := check_at_least "max_stream_keys" max MIN_OPEN_STREAM_KEYS in
  Ok {| so_peer := so_peer o; so_capabilities := so_capabilities o; so_protocol := so_protocol o;
        so_max_frame_bytes := so_max_frame_bytes o; so_max_in_flight := so_max_in_flight o;
        so_max_stream_keys := m; so_handshake_timeout := so_handshake_timeout o;
        so_liveness_interval := so_liveness_interval o; so_request_id_prefix := so_request_id_prefix o;
        so_handler_grace := so_handler_grace o; so_handlers := so_handlers o |}.

Definition with_handshake_timeout (o : SessionOptions) (d : Duration) : SessionOptions :=
  {| so_peer := so_peer o; so_capabilities := so_capabilities o; so_protocol := so_protocol o;
     so_max_frame_bytes := so_max_frame_bytes o; so_max_in_flight := so_max_in_flight o;
     so_max_stream_keys := so_max_stream_keys o; so_handshake_timeout := d;
     so_liveness_interval := so_liveness_interval o; so_request_id_prefix := so_request_id_prefix o;
     so_handler_grace := so_handler_grace o; so_handlers := so_handlers o |}.

Definition with_request_id_prefix (o : SessionOptions) (p : string) : SessionOptions :=
  {| so_peer := so_peer o; so_capabilities := so_capabilities o; so_protocol := so_protocol o;
     so_max_frame_bytes := so_max_frame_bytes o; so_max_in_flight := so_max_in_flight o;
     so_max_stream_keys := so_max_stream_keys o; so_handshake_timeout := so_handshake_timeout o;
     so_liveness_interval := so_liveness_interval o; so_request_id_prefix := p;
     so_handler_grace := so_handler_grace o; so_handlers := so_handlers o |}.

Definition with_handler_grace (o : SessionOptions) (d : Duration) : SessionOptions :=
  {| so_peer := so_peer o; so_capabilities := so_capabilities o; so_protocol := so_protocol o;
     so_max_frame_bytes := so_max_frame_bytes o; so_max_in_flight := so_max_in_flight o;
     so_max_stream_keys := so_max_stream_keys o; so_handshake_timeout := so_handshake_timeout o;
     so_liveness_interval := so_liveness_interval o; so_request_id_prefix := so_request_id_prefix o;
     so_handler_grace := d; so_handlers := so_handlers o |}.

Definition with_liveness_interval (o : SessionOptions) (d : option Duration) : SessionOptions :=
  {| so_peer := so_peer o; so_capabilities := so_capabilities o; so_protocol := so_protocol o;
     so_max_frame_bytes := so_max_frame_bytes o; so_max_in_flight := so_max_in_flight o;
     so_max_stream_keys := so_max_stream_keys o; so_handshake_timeout := so_handshake_timeout o;
     so_liveness_interval := d; so_request_id_prefix := so_request_id_prefix o;
     so_handler_grace := so_handler_grace o; so_handlers := so_handlers o |}.

Definition with_handler (o : SessionOptions) (method : string) (h : Handler) : SessionOptions :=
  {| so_peer := so_peer o; so_capabilities := so_capabilities o; so_protocol := so_protocol o;
     so_max_frame_bytes := so_max_frame_bytes o; so_max_in_flight := so_max_in_flight o;
     so_max_stream_keys := so_max_stream_keys o; so_handshake_timeout := so_handshake_timeout o;
     so_liveness_interval := so_liveness_interval o; so_request_id_prefix := so_request_id_prefix o;
     so_handler_grace := so_handler_grace o; so_handlers := so_handlers o ++ [(method, h)] |}.

(** ** [session/handle.rs] and [session/teardown.rs]: the data the shared state holds *)

Inductive SessionState : Type := Handshaking | Ready | Closed.

Global Instance SessionState_eq_dec : EqDecision SessionState.
Proof. solve_decision. Defined.

Record RemotePeer : Type :=
  { rp_peer : PeerInfo;
    rp_protocol : ProtocolVersion;
    rp_capabilities : Map;
    rp_limits : option Limits;
    rp_effective_minor : Z }.

Record SessionClosure : Type :=
  { sc_code : Z;
    sc_reason : option string;
    sc_fatal : bool;
    sc_error : option CodecError;
    sc_unfinished_handlers : Z }.

(** ** [session/command.rs] *)

(** A [oneshot::Sender], by the number of its channel. *)
Definition Reply : Type := nat.

Inductive Command : Type :=
| CmdClose (code : Z) (reason : option string)
| CmdRequest (frame : Frame) (reply : Reply)
| CmdCancel (id : string) (forget : bool)
| CmdSend (frame : Frame).

(** ** [session/shared.rs] *)

(** The fields of [Shared] nothing changes after [Session::open]. *)
Record Config : Type :=
  { local_peer : PeerInfo;
    local_protocol : ProtocolVersion;
    local_capabilities : Map;
    local_max_frame_bytes : Z;
    cfg_max_in_flight : Z;
    cfg_max_stream_keys : Z;
    request_id_prefix : string;
    handler_grace : Duration }.

(** The fields behind a lock, a watch channel or an atomic.  A subscriber is the number of its
    channel; the channels themselves outlive the list that names them. *)
Record Shared : Type := mkShared
  { sh_cfg : Config;
    sh_state : SessionState;
    sh_remote : option RemotePeer;
    sh_ready : option (result RemotePeer RemoteError);
    sh_closure : option SessionClosure;
    sh_commands : channel Command;
    sh_request_sequence : Z;
    sh_in_flight : Z;
    sh_handlers : gmap string (Z * Handler);
    sh_next_generation : Z;
    sh_event_sequences : gmap string Z;
    sh_event_subscribers : list nat;
    sh_pong_subscribers : list nat;
    sh_event_channels : gmap nat (channel Event);
    sh_pong_channels : gmap nat (channel unit);
    sh_next_channel : nat }.

Definition set_inner (s : Shared) (st : SessionState) (r : option RemotePeer) : Shared :=
  mkShared (sh_cfg s) st r (sh_ready s) (sh_closure s) (sh_commands s) (sh_request_sequence s)
    (sh_in_flight s) (sh_handlers s) (sh_next_generation s) (sh_event_sequences s)
    (sh_event_subscribers s) (sh_pong_subscribers s) (sh_event_channels s) (sh_pong_channels s)
    (sh_next_channel s).

Definition set_ready (s : Shared) (r : option (result RemotePeer RemoteError)) : Shared :=
  mkShared (sh_cfg s) (sh_state s) (sh_remote s) r (sh_closure s) (sh_commands s)
    (sh_request_sequence s) (sh_in_flight s) (sh_handlers s) (sh_next_generation s)
    (sh_event_sequences s) (sh_event_subscribers s) (sh_pong_subscribers s) (sh_event_channels s)
    (sh_pong_channels s) (sh_next_channel s).

Definition set_closure (s : Shared) (c : option SessionClosure) : Shared :=
  mkShared (sh_cfg s) (sh_state s) (sh_remote s) (sh_ready s) c (sh_commands s)
    (sh_request_sequence s) (sh_in_flight s) (sh_handlers s) (sh_next_generation s)
    (sh_event_sequences s) (sh_event_subscribers s) (sh_pong_subscribers s) (sh_event_channels s)
    (sh_pong_channels s) (sh_next_channel s).

Definition set_commands (s : Shared) (c : channel Command) : Shared :=
  mkShared (sh_cfg s) (sh_state s) (sh_remote s) (sh_ready s) (sh_closure s) c
    (sh_request_sequence s) (sh_in_flight s) (sh_handlers s) (sh_next_generation s)
    (sh_event_sequences s) (sh_event_subscribers s) (sh_pong_subscribers s) (sh_event_channels s)
    (sh_pong_channels s) (sh_next_channel s).

Definition set_request_sequence (s : Shared) (n : Z) : Shared :=
  mkShared (sh_cfg s) (sh_state s) (sh_remote s) (sh_ready s) (sh_closure s) (sh_commands s) n
    (sh_in_flight s) (sh_handlers s) (sh_next_generation s) (sh_event_sequences s)
    (sh_event_subscribers s) (sh_pong_subscribers s) (sh_event_channels s) (sh_pong_channels s)
    (sh_next_channel s).

Definition set_in_flight (s : Shared) (n : Z) : Shared :=
  mkShared (sh_cfg s) (sh_state s) (sh_remote s) (sh_ready s) (sh_closure s) (sh_commands s)
    (sh_request_sequence s) n (sh_handlers s) (sh_next_generation s) (sh_event_sequences s)
    (sh_event_subscribers s) (sh_pong_subscribers s) (sh_event_channels s) (sh_pong_channels s)
    (sh_next_channel s).

Definition set_handlers (s : Shared) (h : gmap string (Z * Handler)) (g : Z) : Shared :=
  mkShared (sh_cfg s) (sh_state s) (sh_remote s) (sh_ready s) (sh_closure s) (sh_commands s)
    (sh_request_sequence s) (sh_in_flight s) h g (sh_event_sequences s)
    (sh_event_subscribers s) (sh_pong_subscribers s) (sh_event_channels s) (sh_pong_channels s)
    (sh_next_channel s).

Definition set_event_sequences (s : Shared) (m : gmap string Z) : Shared :=
  mkShared (sh_cfg s) (sh_state s) (sh_remote s) (sh_ready s) (sh_closure s) (sh_commands s)
    (sh_request_sequence s) (sh_in_flight s) (sh_handlers s) (sh_next_generation s) m
    (sh_event_subscribers s) (sh_pong_subscribers s) (sh_event_channels s) (sh_pong_channels s)
    (sh_next_channel s).

Definition set_event_subs (s : Shared) (l : list nat) (m : gmap nat (channel Event)) (n : nat) : Shared :=
  mkShared (sh_cfg s) (sh_state s) (sh_remote s) (sh_ready s) (sh_closure s) (sh_commands s)
    (sh_request_sequence s) (sh_in_flight s) (sh_handlers s) (sh_next_generation s)
    (sh_event_sequences s) l (sh_pong_subscribers s) m (sh_pong_channels s) n.

Definition set_pong_subs (s : Shared) (l : list nat) (m : gmap nat (channel unit)) (n : nat) : Shared :=
  mkShared (sh_cfg s) (sh_state s) (sh_remote s) (sh_ready s) (sh_closure s) (sh_commands s)
    (sh_request_sequence s) (sh_in_flight s) (sh_handlers s) (sh_next_generation s)
    (sh_event_sequences s) (sh_event_subscribers s) l (sh_event_channels s) m n.

(** [usize::try_from(z).unwrap_or(usize::MAX)] of a [u64]. *)
Definition usize_of_u64 (z : Z) : Z := Z.min z usize_max.

Definition send_limit_bytes (s : Shared) : Z :=
  let remote_limit :=
    match r ← sh_remote s; l ← rp_limits r; max_frame_bytes l with
    | Some bytes => usize_of_u64 bytes
    | None => DEFAULT_MAX_FRAME_BYTES
    end in
  Z.min (local_max_frame_bytes (sh_cfg s)) remote_limit.

Definition remote_max_in_flight (s : Shared) : Z :=
  match r ← sh_remote s; l ← rp_limits r; max_in_flight l with
  | Some count => usize_of_u64 count
  | None => DEFAULT_MAX_IN_FLIGHT
  end.

(** Never overwrites an earlier outcome. *)
Definition settle_ready (s : Shared) (outcome : result RemotePeer RemoteError) : Shared :=
  match sh_ready s with
  | Some _ => s
  | None => set_ready s (Some outcome)
  end.

(** [fetch_add] on the [AtomicU64], which wraps. *)
Definition fetch_add_u64 (n : Z) : Z := (n + 1) mod (u64_max + 1).

(** The number shown is the one before, plus one, in 64 bits, as a release build computes it. *)
Definition next_request_id (s : Shared) : Shared * string :=
  let sequence := fetch_add_u64 (sh_request_sequence s) in
  (set_request_sequence s (fetch_add_u64 (sh_request_sequence s)),
   request_id_prefix (sh_cfg s) +:+ "-" +:+ show_Z sequence).

Definition register_handler (s : Shared) (method : string) (h : Handler) : Shared * (string * Z) :=
  let generation := sh_next_generation s in
  (set_handlers s (<[method := (generation, h)]> (sh_handlers s))
     (fetch_add_u64 (sh_next_generation s)), (method, generation)).

Definition subscribe_events (s : Shared) : Shared * nat :=
  let c := sh_next_channel s in
  (set_event_subs s (sh_event_subscribers s ++ [c])
     (<[c := unbounded_channel]> (sh_event_channels s)) (S c), c).

Definition subscribe_pongs (s : Shared) : Shared * nat :=
  let c := sh_next_channel s in
  (set_pong_subs s (sh_pong_subscribers s ++ [c])
     (<[c := unbounded_channel]> (sh_pong_channels s)) (S c), c).

(** [retain(|sender| sender.send(item.clone()).is_ok())]: a subscriber whose receiver is gone
    leaves the list, and its sender is dropped with it. *)
Fixpoint fan_out {A} (item : A) (subs : list nat) (chs : gmap nat (channel A)) :
    list nat * gmap nat (channel A) :=
  match subs with
  | [] => ([], chs)
  | c :: rest =>
      match chs !! c with
      | Some ch =>
          let '(ch', ok) := ch_send ch item in
          let '(kept, chs') := fan_out item rest (<[c := if ok then ch' else drop_senders ch']> chs) in
          (if ok then c :: kept else kept, chs')
      | None => fan_out item rest chs
      end
  end.

Definition fan_out_event (s : Shared) (e : Event) : Shared :=
  if bool_decide (sh_state s = Ready) then
    let '(subs, chs) := fan_out e (sh_event_subscribers s) (sh_event_channels s) in
    set_event_subs s subs chs (sh_next_channel s)
  else s.

Definition fan_out_pong (s : Shared) : Shared :=
  let '(subs, chs) := fan_out tt (sh_pong_subscribers s) (sh_pong_channels s) in
  set_pong_subs s subs chs (sh_next_channel s).

(** [clear()] on a list of senders drops every one of them. *)
Definition clear_subs {A} (subs : list nat) (chs : gmap nat (channel A)) : gmap nat (channel A) :=
  foldr (fun c m => alter drop_senders c m) chs subs.

(** ** [session/handler.rs]: the registration guard *)

Record HandlerGuard : Type := { hg_method : string; hg_generation : Z; hg_armed : bool }.

Definition guard_persist (g : HandlerGuard) : HandlerGuard :=
  {| hg_method := hg_method g; hg_generation := hg_generation g; hg_armed := false |}.

(** [impl Drop for HandlerGuard]: unregisters only the registration it stands for. *)
Definition guard_drop (s : Shared) (g : HandlerGuard) : Shared :=
  if hg_armed g then
    match sh_handlers s !! hg_method g with
    | Some (generation, _) =>
        if generation =? hg_generation g
        then set_handlers s (delete (hg_method g) (sh_handlers s)) (sh_next_generation s)
        else s
    | None => s
    end
  else s.

(** ** [session.rs]: opening *)

(** The option and the port each may name a ceiling; the lower one wins. *)
Definition narrow_ceiling (session port : option Z) : Z :=
  match session, port with
  | Some session, Some port => Z.min session port
  | Some only, None | None, Some only => only
  | None, None => DEFAULT_MAX_FRAME_BYTES
  end.

Definition check_option (name : string) (o : option Z) (floor : Z) : panics (option Z) :=
  match o with
  | Some v => let? v := check_at_least name v floor in Ok (Some v)
  | None => Ok None
  end.

Definition open_shared (port_max_frame_bytes : option Z) (o : SessionOptions) : panics Shared :=
  let? session_ceiling := check_option "max_frame_bytes" (so_max_frame_bytes o) MIN_MAX_FRAME_BYTES in
  let? port_ceiling := check_option "port max_frame_bytes" port_max_frame_bytes MIN_MAX_FRAME_BYTES in
  let? in_flight := check_at_least "max_in_flight" (so_max_in_flight o) MIN_ANNOUNCED_IN_FLIGHT in
  let? stream_keys := check_at_least "max_stream_keys" (so_max_stream_keys o) MIN_OPEN_STREAM_KEYS in
  let shared :=
    {| sh_cfg :=
         {| local_peer := so_peer o;
            local_protocol := so_protocol o;
            local_capabilities := so_capabilities o;
            local_max_frame_bytes := narrow_ceiling session_ceiling port_ceiling;
            cfg_max_in_flight := in_flight;
            cfg_max_stream_keys := stream_keys;
            request_id_prefix := so_request_id_prefix o;
            handler_grace := so_handler_grace o |};
       sh_state := Handshaking; sh_remote := None; sh_ready := None; sh_closure := None;
       sh_commands := unbounded_channel; sh_request_sequence := 0; sh_in_flight := 0;
       sh_handlers := ∅; sh_next_generation := 0; sh_event_sequences := ∅;
       sh_event_subscribers := []; sh_pong_subscribers := [];
       sh_event_channels := ∅; sh_pong_channels := ∅; sh_next_channel := 0 |} in
  Ok (foldl (fun s mh => (register_handler s mh.1 mh.2).1) shared (so_handlers o)).

Section preflight.
Context {RT : RustText} {SJ : SerdeJson}.

(** [Shared::assert_fits]: validate and measure before the frame reaches the port. *)
Definition assert_fits (s : Shared) (frame : Frame) (what : string) : result unit RemoteError :=
  let limit := send_limit_bytes s in
  match encode_frame_bytes frame limit with
  | Ok _ => Ok tt
  | Err error =>
      if bool_decide (kind error = TooLarge) then
        let n := match to_vec frame with Ok encoded => len encoded | Err _ => limit + 1 end in
        Err (with_detail
               (with_detail
                  (remote_error codes.FRAME_TOO_LARGE
                     (what +:+ " encodes to " +:+ show_Z n +:+ " bytes; the session limit is " +:+
                      show_Z limit +:+ " bytes."))
                  "bytes" (from_u64 n))
               "limit" (from_u64 limit))
      else Err (remote_error codes.INTERNAL (what +:+ " failed to encode: " +:+ show_codec_error error))
  end.
End preflight.
