(* ===== verification/Dispatch.v ===== *)
(** * Inbound requests

    [session/dispatch.rs], with the [Writer] of [session/driver.rs] it answers through: the five
    refusal checks, spawning a handler, and turning what it produced into a frame.

    A spawned task and its cancellation token are named by the same number, taken from a
    counter: both are fresh per request. *)

From S2P Require Import Prelude Json Wire Frame Validate Limits Serde FrameJson Ndjson NdjsonProps Port Session.
Local Open Scope Z_scope.

(** ** The writer task *)

(** The queue is what has been enqueued and not yet handed to the port; [w_report] is the first
    outcome that was not [Sent], as the [oneshot] reports it to the driver.  [w_gone] is set when
    the task panicked inside a send: it then sends nothing more and hands nothing back. *)
Record Writer (T : Type) : Type :=
  { w_tx : T; w_queue : list Frame; w_report : option SendOutcome; w_gone : bool }.
Arguments w_tx {T} w.
Arguments w_queue {T} w.
Arguments w_report {T} w.
Arguments w_gone {T} w.

Section writer.
Context {T : Type} {PT : PortTx T}.

Definition writer_spawn (tx : T) : Writer T := 
  {| w_tx := tx; w_queue := []; w_report := None; w_gone := false |}.

Definition enqueue (w : Writer T) (f : Frame) : Writer T :=
  {| w_tx := w_tx w; w_queue := w_queue w ++ [f]; w_report := w_report w; w_gone := w_gone w |}.

(** One turn of the task's loop: the send of the oldest queued frame completes.  A send may wait for
    a peer that does not read, for ever if the port lets it; then this turn does not come, and the queue
    stays as it is.  [panics] says that the port's [send] panics on it. *)
Definition writer_turn (w : Writer T) (panics : bool) : Writer T :=
  match w_queue w, w_gone w with
  | [], _ | _, true => w
  | f :: rest, false =>
      if panics then {| w_tx := w_tx w; w_queue := rest; w_report := w_report w; w_gone := true |} else
      let '(tx, outcome) := port_send (w_tx w) f in
      {| w_tx := tx; w_queue := rest;
         w_report := match w_report w with
                     | Some o => Some o
                     | None => if bool_decide (outcome = Sent) then None else Some outcome
                     end;
         w_gone := false |}
  end.

(** [shut_down], when its sends complete: the queue is flushed in order, then the send half comes
    back.  [Closing.v] has it one send at a time, with those that do not complete. *)
Definition shut_down (w : Writer T) : option T :=
  if w_gone w then None else Some (foldl (fun tx f => (port_send tx f).1) (w_tx w) (w_queue w)).
End writer.

(** ** Tracking *)

Record ActiveRequest : Type := { ar_cancel : nat; ar_method : string }.

Definition HandlerOutcome : Type := result Value RemoteError.

Record CallContext : Type :=
  { cc_id : string; cc_method : string; cc_cancel : nat; cc_remote : RemotePeer }.

(** A spawned [handler.call(params, context)]. *)
Record HandlerCall : Type := { hc_handler : Handler; hc_params : Value; hc_context : CallContext }.

(** [RequestTracking], with the tokens that have been cancelled and the supply of fresh
    numbers. *)
Record RequestTracking : Type := mkTracking
  { tk_tasks : gmap nat HandlerCall;
    tk_active : gmap string ActiveRequest;
    tk_by_task_id : gmap nat string;
    tk_cancelled : gset nat;
    tk_next : nat }.

Definition tracking_default : RequestTracking := mkTracking ∅ ∅ ∅ ∅ 0.

(** What a panicking task carries: a [&str], a [String] or anything else; [None] for a task that
    was aborted. *)
Inductive PanicPayload : Type := PanicStr (s : string) | PanicString (s : string) | PanicOther.
Record JoinError : Type := { je_id : nat; je_payload : option PanicPayload }.

Definition Settled : Type := result (nat * HandlerOutcome) JoinError.

Definition settled_task (s : Settled) : nat :=
  match s with Ok (t, _) => t | Err e => je_id e end.

Definition panic_message (e : JoinError) : string :=
  match je_payload e with
  | None => "The handler task was aborted before it could settle."
  | Some (PanicStr message) => message
  | Some (PanicString message) => message
  | Some PanicOther => "The handler panicked."
  end.

Section dispatch.
Context {RT : RustText} {SJ : SerdeJson} {T : Type} {PT : PortTx T}.

Definition error_frame (id : string) (error : RemoteError) : Frame :=
  FErr {| err_id := id;
          err_error := {| err_code := re_code error; err_message := re_message error;
                          err_details := re_details error |} |}.

Definition respond_error (w : Writer T) (id : string) (error : RemoteError) : Writer T :=
  enqueue w (error_frame id error).

(** The refusals of [on_request]. *)
Definition not_ready_error : RemoteError :=
  remote_error codes.UNAVAILABLE
    "The session handshake has not completed; requests are refused until both hellos have crossed.".

Definition in_flight_error (limit : Z) (method : string) : RemoteError :=
  with_detail
    (with_detail
       (with_detail
          (remote_error codes.UNAVAILABLE
             ("This peer is already answering " +:+ show_Z limit +:+ " requests; retry " +:+
              quoted method +:+ " once one of yours has settled."))
          "kind" (from_str IN_FLIGHT_LIMIT_KIND))
       "limit" (from_u64 limit))
    "method" (from_str method).

Definition duplicate_id_error (id : string) : RemoteError :=
  with_detail
    (remote_error codes.INVALID_REQUEST
       ("Request id " +:+ quoted id +:+ " is already in flight; expected an id unique among the sender's pending requests."))
    "id" (from_str id).

Definition reserved_error (method : string) (minor : Z) : RemoteError :=
  with_detail
    (with_detail
       (remote_error codes.INVALID_REQUEST
          ("Method " +:+ quoted method +:+ " is reserved; the rpc. segment belongs to the protocol and defines no such method at wire minor " +:+
           show_Z minor +:+ "."))
       "method" (from_str method))
    "effectiveMinor" (from_u64 minor).

Definition unsupported_error (method : string) : RemoteError :=
  with_detail
    (remote_error codes.METHOD_UNSUPPORTED ("Method " +:+ quoted method +:+ " has no handler on this peer."))
    "method" (from_str method).

(** [tasks.spawn(handler.call(params, context))] and its bookkeeping. *)
Definition spawn_handler (tk : RequestTracking) (h : Handler) (remote : RemotePeer) (r : Request) :
    RequestTracking :=
  let t := tk_next tk in
  let context := {| cc_id := req_id r; cc_method := req_method r; cc_cancel := t; cc_remote := remote |} in
  mkTracking
    (<[t := {| hc_handler := h; hc_params := req_params r; hc_context := context |}]> (tk_tasks tk))
    (<[req_id r := {| ar_cancel := t; ar_method := req_method r |}]> (tk_active tk))
    (<[t := req_id r]> (tk_by_task_id tk))
    (tk_cancelled tk)
    (S t).

Definition on_request (s : Shared) (tk : RequestTracking) (w : Writer T) (r : Request) :
    Shared * RequestTracking * Writer T :=
  let remote := if bool_decide (sh_state s = Ready) then sh_remote s else None in
  match remote with
  | None => (s, tk, respond_error w (req_id r) not_ready_error)
  | Some remote =>
      let limit := cfg_max_in_flight (sh_cfg s) in
      if limit <=? Z.of_nat (size (tk_active tk)) then
        (s, tk, respond_error w (req_id r) (in_flight_error limit (req_method r)))
      else if bool_decide (is_Some (tk_active tk !! req_id r)) then
        (s, tk, respond_error w (req_id r) (duplicate_id_error (req_id r)))
      else
        let minor := rp_effective_minor remote in
        if is_reserved_method_name (req_method r) &&
           negb (is_defined_reserved_method (req_method r) minor) then
          (s, tk, respond_error w (req_id r) (reserved_error (req_method r) minor))
        else
          match sh_handlers s !! req_method r with
          | None => (s, tk, respond_error w (req_id r) (unsupported_error (req_method r)))
          | Some (_, h) => (set_in_flight s (sh_in_flight s + 1), spawn_handler tk h remote r, w)
          end
  end.

Definition on_cancel (tk : RequestTracking) (id : string) : RequestTracking :=
  match tk_active tk !! id with
  | Some request =>
      mkTracking (tk_tasks tk) (tk_active tk) (tk_by_task_id tk)
        ({[ar_cancel request]} ∪ tk_cancelled tk) (tk_next tk)
  | None => tk
  end.

Definition respond_result (s : Shared) (w : Writer T) (method id : string) (v : Value) : Writer T :=
  let frame := FRes {| res_id := id; res_result := v |} in
  match assert_fits s frame ("The result of " +:+ quoted method) with
  | Ok _ => enqueue w frame
  | Err error => respond_error w id error
  end.

(** [join_next_with_id] takes the settled task out of the [JoinSet]. *)
Definition join_task (tk : RequestTracking) (t : nat) : RequestTracking :=
  mkTracking (delete t (tk_tasks tk)) (tk_active tk) (tk_by_task_id tk) (tk_cancelled tk) (tk_next tk).

Definition settled_outcome (settled : Settled) : HandlerOutcome :=
  match settled with
  | Ok (_, outcome) => outcome
  | Err join_error => Err (remote_error codes.INTERNAL (panic_message join_error))
  end.

Definition on_handler_settled (s : Shared) (tk : RequestTracking) (w : Writer T) (settled : Settled) :
    Shared * RequestTracking * Writer T :=
  let task_id := settled_task settled in
  let s := set_in_flight s (sh_in_flight s - 1) in
  match tk_by_task_id tk !! task_id with
  | None => (s, tk, w)
  | Some id =>
      let tk := mkTracking (tk_tasks tk) (tk_active tk) (delete task_id (tk_by_task_id tk))
                  (tk_cancelled tk) (tk_next tk) in
      match tk_active tk !! id with
      | None => (s, tk, w)
      | Some request =>
          let tk := mkTracking (tk_tasks tk) (delete id (tk_active tk)) (tk_by_task_id tk)
                      (tk_cancelled tk) (tk_next tk) in
          let w := match settled_outcome settled with
                   | Ok v => respond_result s w (ar_method request) id v
                   | Err error => respond_error w id error
                   end in
          (s, tk, w)
      end
  end.
End dispatch.
