(* ===== verification/DispatchProps.v ===== *)
(** * Properties of inbound requests

    The bookkeeping invariant of [RequestTracking] and the response guarantee: every inbound
    request is answered exactly once. *)

From S2P Require Import Prelude Json Wire Frame Validate Limits Serde FrameJson Ndjson NdjsonProps Port Session Dispatch.
Local Open Scope Z_scope.

(** The request a frame answers. *)
Definition response_id (f : Frame) : option string :=
  match f with
  | FRes r => Some (res_id r)
  | FErr e => Some (err_id e)
  | _ => None
  end.

(** How many of a list of frames answer [id]. *)
Fixpoint answers (id : string) (fs : list Frame) : Z :=
  match fs with
  | [] => 0
  | f :: fs => (if bool_decide (response_id f = Some id) then 1 else 0) + answers id fs
  end.

Lemma answers_app id fs gs : answers id (fs ++ gs) = answers id fs + answers id gs.
Proof. induction fs as [|f fs IH]; simpl; [done|]. rewrite IH. lia. Qed.

(** 1 while a request is being answered. *)
Definition is_active (tk : RequestTracking) (id : string) : Z :=
  if bool_decide (is_Some (tk_active tk !! id)) then 1 else 0.

(** The three maps and the counter agree: one task, one entry, one token per active request,
    never more than the ceiling. *)
Record tracking_ok (s : Shared) (tk : RequestTracking) : Prop := {
  tko_tasks : dom (tk_tasks tk) = dom (tk_by_task_id tk);
  tko_bij : forall t id, tk_by_task_id tk !! t = Some id <->
              exists a, tk_active tk !! id = Some a /\ ar_cancel a = t;
  tko_size : size (tk_by_task_id tk) = size (tk_active tk);
  tko_in_flight : sh_in_flight s = Z.of_nat (size (tk_active tk));
  tko_bound : Z.of_nat (size (tk_active tk)) <= cfg_max_in_flight (sh_cfg s);
  tko_fresh : forall t, is_Some (tk_by_task_id tk !! t) -> (t < tk_next tk)%nat
}.

(** What the invariant reads of the shared state. *)
Lemma tracking_ok_shared s s' tk :
  sh_in_flight s' = sh_in_flight s -> sh_cfg s' = sh_cfg s -> tracking_ok s tk -> tracking_ok s' tk.
Proof. intros Hf Hc [? ? ? ? ? ?]. split; rewrite ?Hf, ?Hc; done. Qed.

Lemma tracking_default_ok s : sh_in_flight s = 0 -> 1 <= cfg_max_in_flight (sh_cfg s) ->
  tracking_ok s tracking_default.
Proof.
  intros Hf Hc. split; simpl; try done.
  - intros t id. split; [by rewrite lookup_empty|]. intros (a & H & _). by rewrite lookup_empty in H.
  - rewrite map_size_empty. lia.
  - intros t [x H]. by rewrite lookup_empty in H.
Qed.

Section dispatch.
Context {RT : RustText} {SJ : SerdeJson} {T : Type} {PT : PortTx T}.

Lemma spawn_handler_ok s tk h remote r :
  tracking_ok s tk -> tk_active tk !! req_id r = None ->
  Z.of_nat (size (tk_active tk)) < cfg_max_in_flight (sh_cfg s) ->
  tracking_ok (set_in_flight s (sh_in_flight s + 1)) (spawn_handler tk h remote r).
Proof.
  intros [Ht Hb Hs Hi Hc Hf] Hid Hlt.
  assert (tk_by_task_id tk !! tk_next tk = None) as Hnew.
  { destruct (tk_by_task_id tk !! tk_next tk) eqn:E; [|done].
    specialize (Hf (tk_next tk) ltac:(by eexists)). lia. }
  split; simpl.
  - rewrite !dom_insert_L, Ht. done.
  - intros t id. rewrite lookup_insert_Some. split.
    + intros [[<- <-]|[Hne H]]; [eexists; by rewrite lookup_insert_eq|].
      apply Hb in H as (a & Ha & Hca). exists a. rewrite lookup_insert_ne; [done|].
      intros <-. by rewrite Hid in Ha.
    + intros (a & H & Hca). apply lookup_insert_Some in H as [[<- <-]|[Hne H]]; [by left|].
      right. assert (tk_by_task_id tk !! t = Some id) as Hbt by (apply Hb; eauto).
      split; [|done]. intros <-. by rewrite Hnew in Hbt.
  - by rewrite !map_size_insert_None, Hs.
  - rewrite map_size_insert_None by done. lia.
  - rewrite map_size_insert_None by done. lia.
  - intros t [x Hx]. apply lookup_insert_Some in Hx as [[<- _]|[_ Hx]]; [lia|].
    specialize (Hf t ltac:(by eexists)). lia.
Qed.

Lemma is_active_spawn tk h remote r id :
  tk_active tk !! req_id r = None ->
  is_active (spawn_handler tk h remote r) id =
  is_active tk id + (if bool_decide (req_id r = id) then 1 else 0).
Proof.
  intros Hid. unfold is_active. simpl. destruct (decide (req_id r = id)) as [<-|Hne].
  - rewrite lookup_insert_eq, Hid. by rewrite (bool_decide_true (req_id r = req_id r)).
  - rewrite lookup_insert_ne by done. rewrite (bool_decide_false (req_id r = id)) by done. lia.
Qed.

(** Routing one request keeps the invariant, appends to the queue, and accounts for it: an
    answer goes out now or the request is active. *)
Lemma on_request_step s tk (w : Writer T) r s' tk' w' :
  tracking_ok s tk -> on_request s tk w r = (s', tk', w') ->
  tracking_ok s' tk' /\
  exists out, w' = {| w_tx := w_tx w; w_queue := w_queue w ++ out; w_report := w_report w; w_gone := w_gone w |} /\
    (forall id, is_active tk id + (if bool_decide (req_id r = id) then 1 else 0) =
                answers id out + is_active tk' id) /\
    s' = set_in_flight s (sh_in_flight s') /\
    Forall (fun f => exists e, f = error_frame (req_id r) e) out.
Proof.
  intros Hok. unfold on_request, respond_error, enqueue.
  assert (Href : forall e, tracking_ok s tk /\
    exists out, ({| w_tx := w_tx w; w_queue := w_queue w ++ [error_frame (req_id r) e]; w_report := w_report w; w_gone := w_gone w |}) =
      {| w_tx := w_tx w; w_queue := w_queue w ++ out; w_report := w_report w; w_gone := w_gone w |} /\
    (forall id, is_active tk id + (if bool_decide (req_id r = id) then 1 else 0) =
                answers id out + is_active tk id) /\
    s = set_in_flight s (sh_in_flight s) /\ Forall (fun f => exists e, f = error_frame (req_id r) e) out).
  { intros e. split; [done|]. eexists. split; [done|]. split; [|split; [by destruct s|by repeat econstructor]].
    intros id. simpl. destruct (decide (req_id r = id)) as [<-|Hne].
    - rewrite !bool_decide_true by done. lia.
    - rewrite !bool_decide_false by congruence. lia. }
  repeat case_match; intros Heq; simplify_eq; try apply Href. bools.
  assert (tk_active tk !! req_id r = None) as Hid by (by apply eq_None_not_Some).
  split; [apply spawn_handler_ok; [done|done|lia]|].
  exists []. rewrite app_nil_r. split; [by destruct w'|]. split; [|split; [done|constructor]].
  intros id. rewrite is_active_spawn by done. simpl. lia.
Qed.

Lemma respond_result_one s (w : Writer T) method id v :
  exists f, respond_result s w method id v = enqueue w f /\ response_id f = Some id.
Proof. unfold respond_result, respond_error. destruct (assert_fits _ _ _); by eexists. Qed.

(** Settling one task keeps the invariant and answers exactly its request. *)
Lemma on_settled_step s tk (w : Writer T) st s' tk' w' :
  tracking_ok s tk -> is_Some (tk_tasks tk !! settled_task st) ->
  on_handler_settled s (join_task tk (settled_task st)) w st = (s', tk', w') ->
  tracking_ok s' tk' /\
  exists f, w' = enqueue w f /\ is_Some (response_id f) /\
    (forall id, is_active tk id = answers id [f] + is_active tk' id) /\
    s' = set_in_flight s (sh_in_flight s') /\
    ((exists id e, f = error_frame id e) \/
     is_ok (encode_frame_bytes f (send_limit_bytes s)) = true).
Proof.
  intros [Ht Hb Hs Hi Hc Hf] Htask. unfold on_handler_settled. simpl.
  assert (is_Some (tk_by_task_id tk !! settled_task st)) as [id Hid].
  { apply elem_of_dom. rewrite <- Ht. by apply elem_of_dom. }
  rewrite Hid. destruct (proj1 (Hb (settled_task st) id) Hid) as (a & Ha & Hca). simpl. rewrite Ha.
  intros Heq. simplify_eq.
  assert (size (tk_active tk) = S (size (delete id (tk_active tk)))) as Hsz.
  { rewrite <- (insert_delete_id (tk_active tk) id a Ha) at 1.
    by rewrite map_size_insert_None by apply lookup_delete_eq. }
  split.
  - split; simpl.
    + by rewrite !dom_delete_L, Ht.
    + intros t' id'. rewrite lookup_delete_Some, Hb. split.
      * intros [Hne (b & Hb' & Hcb)]. exists b. rewrite lookup_delete_Some. split; [split; [|done]|done].
        intros <-. rewrite Ha in Hb'. simplify_eq.
      * intros (b & Hb' & Hcb). apply lookup_delete_Some in Hb' as [Hne Hb'].
        split; [|by eexists]. intros <-. apply Hne.
        assert (tk_by_task_id tk !! settled_task st = Some id') as E by (apply Hb; eauto). congruence.
    + rewrite !map_size_delete_Some by by eexists. by rewrite Hs.
    + rewrite Hi. lia.
    + lia.
    + intros t' [x Hx]. apply lookup_delete_Some in Hx as [_ Hx]. apply Hf. by eexists.
  - assert (Hact : forall f, response_id f = Some id -> forall i,
      is_active tk i = answers i [f] +
      is_active (mkTracking (delete (settled_task st) (tk_tasks tk)) (delete id (tk_active tk)) (delete (settled_task st) (tk_by_task_id tk)) (tk_cancelled tk) (tk_next tk)) i).
    { intros f Hf' i. unfold is_active. simpl. rewrite Hf'. destruct (decide (id = i)) as [<-|Hne].
      - rewrite lookup_delete_eq. rewrite !bool_decide_true by (done || by eexists).
        by rewrite bool_decide_false by (by intros [? ?]).
      - rewrite lookup_delete_ne by done. rewrite (bool_decide_false (Some id = Some i)) by congruence. lia. }
    destruct (settled_outcome st) as [v|e].
    + unfold respond_result. destruct (assert_fits _ _ _) eqn:Hfit.
      * eexists. split; [done|]. split; [by eexists|]. split; [by apply Hact|]. split; [done|]. right.
        unfold assert_fits in Hfit. change (send_limit_bytes (set_in_flight s (sh_in_flight s - 1)))
          with (send_limit_bytes s) in Hfit.
        destruct (encode_frame_bytes _ _); [done|]. by case_bool_decide.
      * eexists. split; [done|]. split; [by eexists|]. split; [by apply Hact|]. split; [done|]. left. eauto.
    + eexists. split; [done|]. split; [by eexists|]. split; [by apply Hact|]. split; [done|]. left. eauto.
Qed.
End dispatch.
