(* ===== verification/Driver.v ===== *)
(** * The session driver

    [session/driver.rs] and [session/teardown.rs]: the handshake, the routing of frames and
    commands, the biased [select!] loop, and the teardown every path funnels through.

    The futures the loop polls are inputs of one iteration ([Wakeups]); which of them wins, and
    what the iteration then does, is the code's. *)

From S2P Require Import Prelude Json Wire Frame Validate Limits Serde FrameJson Ndjson NdjsonProps Port Session Dispatch.
Local Open Scope Z_scope.

(** ** Oneshot replies *)

(** A [oneshot] channel after its sender was used or dropped; an absent number is still open. *)
Inductive oneshot : Type :=
| OSent (r : result Value RemoteError)
| ODropped.

Abbreviation Oneshots := (gmap nat oneshot).

(** ** [session/driver.rs] *)

Record PendingRequest : Type := { pr_method : string; pr_reply : Reply }.

Inductive Teardown : Type :=
| TLocal (code : Z) (reason : option string)
| TPeerFrame (code : Z) (reason : option string)
| TPort (c : PortClosure).

(** [SessionDriver]; [d_liveness] tells whether the interval timer has been built. *)
Record Driver (T : Type) : Type := mkDriver
  { d_shared : Shared;
    d_pending : gmap string PendingRequest;
    d_tracking : RequestTracking;
    d_writer : Writer T;
    d_oneshots : Oneshots;
    d_handshake_timeout : Duration;
    d_liveness_interval : option Duration;
    d_liveness : bool;
    d_awaiting_pong : bool }.
Arguments mkDriver {T}.
Arguments d_shared {T} d.
Arguments d_pending {T} d.
Arguments d_tracking {T} d.
Arguments d_writer {T} d.
Arguments d_oneshots {T} d.
Arguments d_handshake_timeout {T} d.
Arguments d_liveness_interval {T} d.
Arguments d_liveness {T} d.
Arguments d_awaiting_pong {T} d.

(** The branch of the [select!] that won. *)
Inductive Branch : Type :=
| BSendFailed (outcome : result SendOutcome unit)
| BHandshakeTimeout
| BLivenessTick
| BSettled (s : Settled)
| BCommand (c : Command)
| BInbound (i : option Inbound).

(** Which of the futures outside the driver's own state are ready. *)
Record Wakeups : Type :=
  { wk_sleep : bool;
    wk_tick : bool;
    wk_settled : option Settled;
    wk_inbound : poll (option Inbound) }.

(** [Session::open]'s second half: the driver before it runs.  A zero liveness period is no
    cadence. *)
Definition open_driver {T} (s : Shared) (tx : T) (o : SessionOptions) : Driver T :=
  {| d_shared := s; d_pending := ∅; d_tracking := tracking_default; d_writer := writer_spawn tx;
     d_oneshots := ∅; d_handshake_timeout := so_handshake_timeout o;
     d_liveness_interval :=
       match so_liveness_interval o with
       | Some period => if period =? 0 then None else Some period
       | None => None
       end;
     d_liveness := false; d_awaiting_pong := false |}.

Definition session_open {T} (port_max_frame_bytes : option Z) (tx : T) (o : SessionOptions) :
    panics (Driver T) :=
  let? s := open_shared port_max_frame_bytes o in
  Ok (open_driver s tx o).

Definition build_hello (s : Shared) : Hello :=
  let cfg := sh_cfg s in
  let limits :=
    {| max_frame_bytes :=
         if local_max_frame_bytes cfg <? DEFAULT_MAX_FRAME_BYTES
         then Some (local_max_frame_bytes cfg) else None;
       max_in_flight :=
         if negb (cfg_max_in_flight cfg =? DEFAULT_MAX_IN_FLIGHT)
         then Some (cfg_max_in_flight cfg) else None |} in
  {| hello_protocol := local_protocol cfg;
     hello_peer := local_peer cfg;
     hello_capabilities := local_capabilities cfg;
     hello_limits := if bool_decide (limits = limits_default) then None else Some limits |}.

Definition on_send_failure (outcome : result SendOutcome unit) : Teardown :=
  let reason :=
    match outcome with
    | Ok (Refused error) => "the transport refused a frame: " +:+ show_codec_error error
    | Ok _ => "the transport is gone"
    | Err _ => "the writer task ended"
    end in
  TLocal close_codes.RELEASED (Some reason).

Definition refused_hello (outcome : SendOutcome) : option RemoteError :=
  let refusal detail :=
    Some (remote_error codes.UNAVAILABLE ("The transport refused the hello: " +:+ detail)) in
  match outcome with
  | Sent => None
  | Refused error => refusal (show_codec_error error)
  | SendClosed => refusal "the port is already closed"
  end.

Definition mismatch_error (s : Shared) (hello : Hello) (close_code : Z) : RemoteError :=
  let local := major (local_protocol (sh_cfg s)) in
  let remote := major (hello_protocol hello) in
  with_detail
    (with_detail
       (with_detail
          (remote_error codes.PROTOCOL_MISMATCH
             ("Peer " +:+ quoted (peer_name (hello_peer hello)) +:+ " speaks wire major " +:+ show_Z remote +:+
              "; this session speaks major " +:+ show_Z local +:+ "."))
          "local_major" (from_u64 local))
       "remote_major" (from_u64 remote))
    "close_code" (from_u64 close_code).

Definition on_hello (s : Shared) (hello : Hello) : Shared * option Teardown :=
  if negb (bool_decide (sh_state s = Handshaking)) then
    (s, Some (TLocal close_codes.PROTOCOL_ERROR (Some "duplicate hello")))
  else
    match negotiate (local_protocol (sh_cfg s)) (hello_protocol hello) with
    | Mismatch close_code =>
        (settle_ready s (Err (mismatch_error s hello close_code)),
         Some (TLocal close_code (Some "protocol version unsupported")))
    | Compatible effective_minor =>
        let remote :=
          {| rp_peer := hello_peer hello;
             rp_protocol := hello_protocol hello;
             rp_capabilities := hello_capabilities hello;
             rp_limits := hello_limits hello;
             rp_effective_minor := effective_minor |} in
        (settle_ready (set_inner s Ready (Some remote)) (Ok remote), None)
    end.

Definition on_response (pending : gmap string PendingRequest) (os : Oneshots) (id : string)
    (r : result Value RemoteError) : gmap string PendingRequest * Oneshots :=
  match pending !! id with
  | Some request => (delete id pending, <[pr_reply request := OSent r]> os)
  | None => (pending, os)
  end.

(** [pending.remove(&id)] without an answer drops the reply sender. *)
Definition forget_pending (pending : gmap string PendingRequest) (os : Oneshots) (id : string) :
    gmap string PendingRequest * Oneshots :=
  match pending !! id with
  | Some request => (delete id pending, <[pr_reply request := ODropped]> os)
  | None => (pending, os)
  end.

Definition handshake_timeout_error (timeout : Duration) : RemoteError :=
  let millis := Z.min (as_millis timeout) u64_max in
  with_detail
    (remote_error codes.UNAVAILABLE ("The peer did not send hello within " +:+ show_Z millis +:+ "ms."))
    "timeout_ms" (from_u64 millis).

Definition on_handshake_timeout (s : Shared) (timeout : Duration) : Shared * Teardown :=
  (settle_ready s (Err (handshake_timeout_error timeout)),
   TLocal close_codes.PROTOCOL_ERROR (Some HANDSHAKE_TIMEOUT_REASON)).

(** The error an [err] frame reports to its requester. *)
Definition remote_of_payload (e : ErrorPayload) : RemoteError :=
  let error := remote_error (err_code e) (err_message e) in
  match err_details e with Some details => with_details error details | None => error end.

Section driver.
Context {RT : RustText} {SJ : SerdeJson} {T : Type} {PT : PortTx T}.

Definition set_shared (d : Driver T) (s : Shared) : Driver T :=
  mkDriver s (d_pending d) (d_tracking d) (d_writer d) (d_oneshots d) (d_handshake_timeout d)
    (d_liveness_interval d) (d_liveness d) (d_awaiting_pong d).
Definition set_dispatch (d : Driver T) (s : Shared) (tk : RequestTracking) (w : Writer T) : Driver T :=
  mkDriver s (d_pending d) tk w (d_oneshots d) (d_handshake_timeout d)
    (d_liveness_interval d) (d_liveness d) (d_awaiting_pong d).
Definition set_pending (d : Driver T) (po : gmap string PendingRequest * Oneshots) : Driver T :=
  mkDriver (d_shared d) po.1 (d_tracking d) (d_writer d) po.2 (d_handshake_timeout d)
    (d_liveness_interval d) (d_liveness d) (d_awaiting_pong d).
Definition set_writer (d : Driver T) (w : Writer T) : Driver T :=
  mkDriver (d_shared d) (d_pending d) (d_tracking d) w (d_oneshots d) (d_handshake_timeout d)
    (d_liveness_interval d) (d_liveness d) (d_awaiting_pong d).
Definition set_awaiting (d : Driver T) (b : bool) : Driver T :=
  mkDriver (d_shared d) (d_pending d) (d_tracking d) (d_writer d) (d_oneshots d) (d_handshake_timeout d)
    (d_liveness_interval d) (d_liveness d) b.
Definition set_liveness (d : Driver T) (b : bool) : Driver T :=
  mkDriver (d_shared d) (d_pending d) (d_tracking d) (d_writer d) (d_oneshots d) (d_handshake_timeout d)
    (d_liveness_interval d) b (d_awaiting_pong d).

Definition on_frame (d : Driver T) (frame : Frame) : Driver T * option Teardown :=
  match frame with
  | FHello hello => let '(s, t) := on_hello (d_shared d) hello in (set_shared d s, t)
  | FClose close => (d, Some (TPeerFrame (close_code close) (close_reason close)))
  | FReq request =>
      let '(s, tk, w) := on_request (d_shared d) (d_tracking d) (d_writer d) request in
      (set_dispatch d s tk w, None)
  | FRes response =>
      (set_pending d (on_response (d_pending d) (d_oneshots d) (res_id response)
         (Ok (res_result response))), None)
  | FErr error =>
      (set_pending d (on_response (d_pending d) (d_oneshots d) (err_id error)
         (Err (remote_of_payload (err_error error)))), None)
  | FEvt event => (set_shared d (fan_out_event (d_shared d) event), None)
  | FCancel cancel =>
      (set_dispatch d (d_shared d) (on_cancel (d_tracking d) (cancel_id cancel)) (d_writer d), None)
  | FPing => (set_writer d (enqueue (d_writer d) FPong), None)
  | FPong =>
      (set_awaiting (set_shared d (fan_out_pong (d_shared d))) false, None)
  end.

Definition on_command (d : Driver T) (command : Command) : Driver T * option Teardown :=
  match command with
  | CmdClose code reason => (d, Some (TLocal code reason))
  | CmdRequest frame reply =>
      let d := match frame with
               | FReq request =>
                   let po := forget_pending (d_pending d) (d_oneshots d) (req_id request) in
                   set_pending d (<[req_id request := {| pr_method := req_method request;
                                                        pr_reply := reply |}]> po.1, po.2)
               | _ => set_pending d (d_pending d, <[reply := ODropped]> (d_oneshots d))
               end in
      (set_writer d (enqueue (d_writer d) frame), None)
  | CmdCancel id forget =>
      let d := if forget then d else set_pending d (forget_pending (d_pending d) (d_oneshots d) id) in
      (set_writer d (enqueue (d_writer d) (FCancel {| cancel_id := id |})), None)
  | CmdSend frame => (set_writer d (enqueue (d_writer d) frame), None)
  end.

Definition on_liveness_tick (d : Driver T) : Driver T * option Teardown :=
  if d_awaiting_pong d then
    (d, Some (TLocal close_codes.RELEASED (Some "liveness timeout")))
  else (set_writer (set_awaiting d true) (enqueue (d_writer d) FPing), None).

(** The head of the loop: the liveness timer is built once the session is ready. *)
Definition arm_liveness (d : Driver T) : Driver T :=
  if negb (d_liveness d) && bool_decide (sh_state (d_shared d) = Ready) then
    match d_liveness_interval d with
    | Some _ => set_liveness d true
    | None => d
    end
  else d.

(** The biased [select!]: the first ready branch in source order. *)
Definition select (d : Driver T) (wk : Wakeups) : option Branch :=
  match w_report (d_writer d) with
  | Some outcome => Some (BSendFailed (Ok outcome))
  | None =>
  if w_gone (d_writer d) then Some (BSendFailed (Err tt))
  else if wk_sleep wk && bool_decide (sh_state (d_shared d) = Handshaking) then Some BHandshakeTimeout
  else if wk_tick wk && d_liveness d then Some BLivenessTick
  else match (if bool_decide (tk_tasks (d_tracking d) = ∅) then None else wk_settled wk) with
  | Some settled => Some (BSettled settled)
  | None =>
  match (ch_recv (sh_commands (d_shared d))).2 with
  | Polled (Some command) => Some (BCommand command)
  | _ =>
  match wk_inbound wk with
  | Polled inbound => Some (BInbound inbound)
  | Pending => None
  end end end end.

(** The body of the branch that won; [Some] breaks the loop. *)
Definition on_branch (d : Driver T) (b : Branch) : Driver T * option Teardown :=
  match b with
  | BSendFailed outcome => (d, Some (on_send_failure outcome))
  | BHandshakeTimeout =>
      let '(s, t) := on_handshake_timeout (d_shared d) (d_handshake_timeout d) in
      (set_shared d s, Some t)
  | BLivenessTick => on_liveness_tick d
  | BSettled settled =>
      let tk := join_task (d_tracking d) (settled_task settled) in
      let '(s, tk, w) := on_handler_settled (d_shared d) tk (d_writer d) settled in
      (set_dispatch d s tk w, None)
  | BCommand command =>
      let d := set_shared d (set_commands (d_shared d) (ch_recv (sh_commands (d_shared d))).1) in
      on_command d command
  | BInbound (Some (IFrame frame)) => on_frame d frame
  | BInbound (Some (IClosed closure)) => (d, Some (TPort closure))
  | BInbound None => (d, Some (TPort (PClosed None None)))
  end.

(** One turn of the main loop, [None] when every future is pending. *)
Definition loop_turn (d : Driver T) (wk : Wakeups) : option (Driver T * option Teardown) :=
  let d := arm_liveness d in
  match select d wk with
  | Some b => Some (on_branch d b)
  | None => None
  end.

(** ** [session/teardown.rs] *)

(** Code, reason, refused record and whether the port still needs telling. *)
Definition closing (reason : Teardown) : Z * option string * option CodecError * bool :=
  match reason with
  | TLocal code reason => (code, reason, None, true)
  | TPeerFrame code reason => (code, reason, None, false)
  | TPort (PClosed code reason) => (default close_codes.RELEASED code, reason, None, false)
  | TPort (PProtocolError error code) => (code, Some (show_codec_error error), Some error, false)
  end.

Definition why_text (reason : option string) : string :=
  match reason with Some text => ": " +:+ text | None => "" end.

Definition closed_early_error (code : Z) (reason : option string) : RemoteError :=
  let ready_code := if code =? close_codes.PROTOCOL_MISMATCH
                    then codes.PROTOCOL_MISMATCH else codes.UNAVAILABLE in
  with_detail
    (remote_error ready_code
       ("The session closed before the handshake completed (" +:+ show_Z code +:+ why_text reason +:+ ")."))
    "close_code" (from_u64 code).

Definition closed_request_error (code : Z) (reason : option string) (id method : string) : RemoteError :=
  with_detail
    (with_detail
       (with_detail
          (remote_error codes.UNAVAILABLE
             ("Request " +:+ quoted method +:+ " cannot complete: the session is closed (" +:+
              show_Z code +:+ why_text reason +:+ ")."))
          "method" (from_str method))
       "id" (from_str id))
    "close_code" (from_u64 code).

(** Step 5: [pending.drain()], failing every request. *)
Definition fail_pending (code : Z) (reason : option string) (pending : gmap string PendingRequest)
    (os : Oneshots) : Oneshots :=
  map_fold (fun id request os =>
    <[pr_reply request := OSent (Err (closed_request_error code reason id (pr_method request)))]> os)
    os pending.

(** Step 6: every active token. *)
Definition active_tokens (tk : RequestTracking) : gset nat :=
  list_to_set (map (fun kv => ar_cancel kv.2) (map_to_list (tk_active tk))).

(** The whole sequence.  [settle] is the set of handler tasks that finish within the grace
    period; the rest are still running when it expires, and dropping the [JoinSet] at the end
    aborts them. *)
Definition teardown (d : Driver T) (reason : Teardown) (settle : gset nat) :
    Driver T * SessionClosure :=
  let '(code, reason_text, error, close_port) := closing reason in
  let fatal := is_fatal_close_code code in
  let s := set_inner (d_shared d) Closed (sh_remote (d_shared d)) in
  let tx :=
    match shut_down (d_writer d) with
    | Some tx => if close_port then port_close tx code reason_text else tx
    | None => w_tx (d_writer d)
    end in
  let s := settle_ready s (Err (closed_early_error code reason_text)) in
  let os := fail_pending code reason_text (d_pending d) (d_oneshots d) in
  let cancelled := active_tokens (d_tracking d) ∪ tk_cancelled (d_tracking d) in
  let s := set_event_sequences s ∅ in
  let s := set_event_subs s [] (clear_subs (sh_event_subscribers s) (sh_event_channels s)) (sh_next_channel s) in
  let s := set_pong_subs s [] (clear_subs (sh_pong_subscribers s) (sh_pong_channels s)) (sh_next_channel s) in
  let tasks := filter (fun kv => kv.1 ∉ settle) (tk_tasks (d_tracking d)) in
  let closure :=
    {| sc_code := code; sc_reason := reason_text; sc_fatal := fatal; sc_error := error;
       sc_unfinished_handlers := Z.of_nat (size tasks) |} in
  let s := set_closure s (Some closure) in
  (mkDriver s ∅
     (mkTracking tasks ∅ (tk_by_task_id (d_tracking d)) cancelled (tk_next (d_tracking d)))
     {| w_tx := tx; w_queue := []; w_report := w_report (d_writer d); w_gone := w_gone (d_writer d) |} os
     (d_handshake_timeout d) (d_liveness_interval d) (d_liveness d) (d_awaiting_pong d), closure).

(** The replies of requests still in the command queue: dropped with the receiver. *)
Definition queued_replies (q : list Command) : list Reply :=
  omap (fun c => match c with CmdRequest _ reply => Some reply | _ => None end) q.

(** The end of [run]: the driver and what it owns are dropped, the command receiver and the
    remaining handler tasks with it. *)
Definition drop_driver (d : Driver T) : Driver T :=
  let s := d_shared d in
  let os := foldr (fun r os => <[r := ODropped]> os) (d_oneshots d) (queued_replies (ch_queue (sh_commands s))) in
  mkDriver (set_commands s (drop_receiver (sh_commands s))) ∅
    (mkTracking ∅ (tk_active (d_tracking d)) (tk_by_task_id (d_tracking d)) (tk_cancelled (d_tracking d))
       (tk_next (d_tracking d)))
    (d_writer d) os (d_handshake_timeout d) (d_liveness_interval d) (d_liveness d) (d_awaiting_pong d).

(** [run] up to the loop: the hello takes the preflight, then goes straight to the port. *)
Definition start (d : Driver T) : Driver T * option Teardown :=
  let hello := FHello (build_hello (d_shared d)) in
  let refuse d error :=
    (set_shared d (settle_ready (d_shared d) (Err error)),
     Some (TLocal close_codes.RELEASED (Some "hello could not be sent"))) in
  match assert_fits (d_shared d) hello "The hello" with
  | Err error => refuse d error
  | Ok _ =>
      let '(tx, outcome) := port_send (w_tx (d_writer d)) hello in
      let d := set_writer d (writer_spawn tx) in
      match refused_hello outcome with
      | Some error => refuse d error
      | None => (d, None)
      end
  end.
End driver.
