(* ===== verification/Handle.v ===== *)
(** * Session handles

    [session/handle.rs]: the calls a caller makes on a [Session].  [request_with] is a future, so
    it is modelled in the pieces its suspension points cut it into: the checks before the
    handshake is known ([check_method]), what runs once it is ([request_start]), the polling of
    the [select!] loop ([request_poll]) and the drop of an unfinished call ([request_drop]). *)

From S2P Require Import Prelude Json Wire Frame Validate Limits Serde FrameJson Ndjson NdjsonProps Port Session Dispatch Driver.
Local Open Scope Z_scope.

Definition session_remote (s : Shared) : result RemotePeer RemoteError :=
  match sh_remote s with
  | Some remote => Ok remote
  | None =>
      Err (remote_error codes.UNAVAILABLE
        "The session handshake has not completed; expected a ready session, received one still handshaking.")
  end.

(** [ready()] and [closed()] wait on a watch channel; [state()] and [closure()] read. *)
Definition ready (s : Shared) : poll (result RemotePeer RemoteError) :=
  match sh_ready s with Some outcome => Polled outcome | None => Pending end.
Definition closed (s : Shared) : poll SessionClosure :=
  match sh_closure s with Some closure => Polled closure | None => Pending end.

(** [let _ = commands.send(command)] and the variant whose result is looked at. *)
Definition send_command (s : Shared) (c : Command) : Shared * bool :=
  let '(ch, ok) := ch_send (sh_commands s) c in (set_commands s ch, ok).

Definition close_now (s : Shared) (code : Z) (reason : option string) : Shared :=
  (send_command s (CmdClose code reason)).1.

Definition ping (s : Shared) : Shared := (send_command s (CmdSend FPing)).1.

Definition handle (s : Shared) (method : string) (h : Handler) : Shared * HandlerGuard :=
  let '(s, (method, generation)) := register_handler s method h in
  (s, {| hg_method := method; hg_generation := generation; hg_armed := true |}).

Definition closure_text (c : SessionClosure) : string :=
  " (closed with " +:+ show_Z (sc_code c) +:+ why_text (sc_reason c) +:+ ")".

Definition unavailable (s : Shared) (method : string) : RemoteError :=
  let why := match sh_closure s with Some c => closure_text c | None => "" end in
  let error :=
    with_detail
      (remote_error codes.UNAVAILABLE
         ("Request " +:+ quoted method +:+ " cannot complete: the session is closed" +:+ why +:+ "."))
      "method" (from_str method) in
  match sh_closure s with
  | Some c => with_detail error "close_code" (from_u64 (sc_code c))
  | None => error
  end.

(** ** [request_with] *)

Definition invalid_method_error (method : string) : RemoteError :=
  remote_error codes.INVALID_REQUEST
    ("Method " +:+ quoted method +:+ " is not a valid, unreserved method name; expected two or more dot-separated lowercase segments outside rpc.").

Definition undefined_minor_error (method : string) (minor : Z) : RemoteError :=
  with_detail
    (with_detail
       (remote_error codes.INVALID_REQUEST
          ("Method " +:+ quoted method +:+ " is defined from wire minor " +:+ show_Z RPC_DISCOVER_MINOR +:+
           "; this session negotiated minor " +:+ show_Z minor +:+ "."))
       "method" (from_str method))
    "effectiveMinor" (from_u64 minor).

(** Before [ready().await]. *)
Definition check_method (method : string) : result unit RemoteError :=
  let reserved := is_reserved_method_name method in
  if negb (is_valid_method_name method) ||
     (reserved && negb (is_defined_reserved_method method PROTOCOL_MINOR))
  then Err (invalid_method_error method)
  else Ok tt.

Definition driver_gone_error (method : string) : RemoteError :=
  remote_error codes.UNAVAILABLE
    ("Request " +:+ quoted method +:+ " could not be sent: the session driver is gone.").

(** A call waiting in its [select!]: [rf_armed] is its [CancelGuard]. *)
Record RequestFuture : Type :=
  { rf_id : string; rf_method : string; rf_reply : Reply; rf_timeout : option Duration;
    rf_cancel_sent : bool; rf_armed : bool }.

Definition timeout_error (method : string) (timeout : option Duration) : RemoteError :=
  let millis := match timeout with Some d => as_millis d | None => 0 end in
  with_detail
    (with_detail
       (remote_error codes.TIMEOUT
          ("Request " +:+ quoted method +:+ " timed out after " +:+ show_Z millis +:+ "ms."))
       "method" (from_str method))
    "timeout_ms" (from_u64 (Z.min millis u64_max)).

(** What the reply receiver sees: nothing yet, an answer, or a sender that went away. *)
Definition reply_poll (s : Shared) (os : Oneshots) (f : RequestFuture) : poll (result Value RemoteError) :=
  match os !! rf_reply f with
  | Some (OSent r) => Polled r
  | Some ODropped => Polled (Err (unavailable s (rf_method f)))
  | None => Pending
  end.

Definition disarm (f : RequestFuture) (cancel_sent : bool) (armed : bool) : RequestFuture :=
  {| rf_id := rf_id f; rf_method := rf_method f; rf_reply := rf_reply f; rf_timeout := rf_timeout f;
     rf_cancel_sent := cancel_sent; rf_armed := armed |}.

(** One poll of the loop: the reply first, then the caller's cancel, then the deadline.  A cancel
    goes round the loop again, so the deadline is still looked at. *)
Definition request_poll (s : Shared) (os : Oneshots) (f : RequestFuture) (cancelled deadline : bool) :
    Shared * RequestFuture * poll (result Value RemoteError) :=
  match reply_poll s os f with
  | Polled r => (s, disarm f (rf_cancel_sent f) false, Polled r)
  | Pending =>
      let send_cancel := cancelled && negb (rf_cancel_sent f) in
      let s := if send_cancel then (send_command s (CmdCancel (rf_id f) true)).1 else s in
      let f := disarm f (rf_cancel_sent f || send_cancel) (rf_armed f) in
      if deadline && bool_decide (is_Some (rf_timeout f)) then
        ((send_command s (CmdCancel (rf_id f) false)).1, disarm f (rf_cancel_sent f) false,
         Polled (Err (timeout_error (rf_method f) (rf_timeout f))))
      else (s, f, Pending)
  end.

(** [impl Drop for CancelGuard]. *)
Definition request_drop (s : Shared) (f : RequestFuture) : Shared :=
  if rf_armed f then (send_command s (CmdCancel (rf_id f) false)).1 else s.

(** ** [emit] *)

Record EventInput : Type :=
  { ei_topic : string; ei_payload : Value; ei_stream_id : option string; ei_end : bool }.

Definition stream_key (e : EventInput) : string := default (ei_topic e) (ei_stream_id e).

Definition stream_key_error (key : string) (limit : Z) : RemoteError :=
  with_detail
    (with_detail
       (with_detail
          (remote_error codes.UNAVAILABLE
             ("Stream key " +:+ quoted key +:+ " would be one past the " +:+ show_Z limit +:+
              " this session emits on at once. End a stream before starting another."))
          "kind" (from_str STREAM_KEY_LIMIT_KIND))
       "key" (from_str key))
    "limit" (from_u64 limit).

Definition event_frame (e : EventInput) (seq : Z) : Frame :=
  FEvt {| evt_topic := ei_topic e; evt_seq := seq; evt_stream_id := ei_stream_id e;
          evt_payload := ei_payload e; evt_end := if ei_end e then Some TheEnd else None |}.

Section handle.
Context {RT : RustText} {SJ : SerdeJson}.

(** After [ready().await] has produced the peer; [reply] is the fresh oneshot. *)
Definition request_start (s : Shared) (remote : RemotePeer) (method : string) (params : Value)
    (timeout : option Duration) (reply : Reply) : Shared * result RequestFuture RemoteError :=
  if is_reserved_method_name method &&
     negb (is_defined_reserved_method method (rp_effective_minor remote)) then
    (s, Err (undefined_minor_error method (rp_effective_minor remote)))
  else if bool_decide (sh_state s = Closed) then (s, Err (unavailable s method))
  else
    let '(s, id) := next_request_id s in
    let frame := FReq {| req_id := id; req_method := method; req_params := params |} in
    match assert_fits s frame ("Request " +:+ quoted method) with
    | Err error => (s, Err error)
    | Ok _ =>
        let '(s, ok) := send_command s (CmdRequest frame reply) in
        if ok then
          (s, Ok {| rf_id := id; rf_method := method; rf_reply := reply; rf_timeout := timeout;
                    rf_cancel_sent := false; rf_armed := true |})
        else (s, Err (driver_gone_error method))
    end.

(** The lock on the sequences is held from the limit check to the commit. *)
Definition emit (s : Shared) (e : EventInput) : Shared * result bool RemoteError :=
  if negb (bool_decide (sh_state s = Ready)) then (s, Ok false)
  else
    let key := stream_key e in
    let sequences := sh_event_sequences s in
    let limit := cfg_max_stream_keys (sh_cfg s) in
    if negb (bool_decide (is_Some (sequences !! key))) && (limit <=? Z.of_nat (size sequences)) then
      (s, Err (stream_key_error key limit))
    else
      let seq := default 0 (sequences !! key) in
      let frame := event_frame e seq in
      match assert_fits s frame ("Event " +:+ quoted (ei_topic e)) with
      | Err error => (s, Err error)
      | Ok _ =>
          let '(s, ok) := send_command s (CmdSend frame) in
          if negb ok then (s, Ok false)
          else
            (set_event_sequences s
               (if ei_end e then delete key sequences else <[key := seq + 1]> sequences), Ok true)
      end.
End handle.
