(* ===== verification/System.v ===== *)
(** * A session as a whole

    The interleavings of one session: its handles, its writer task, its handler tasks, its driver
    and its peer.  An [Action] is one thing that may happen next; [act] runs the code that then
    runs.  Everything a list of actions leads to is reachable, and the theorems quantify over all
    lists: any number of callers, in any order, against any peer and any transport.

    Three logs record what the code itself does not keep and the properties talk about: the
    requests the driver routed, the frames it enqueued and the commands its handles queued. *)

From S2P Require Import Prelude Json Wire Frame Validate Limits Serde FrameJson Ndjson NdjsonProps Port Session Dispatch Driver Handle.
Local Open Scope Z_scope.

(** [APort] is the other end at work on the transport: it changes what the send half sees, at any
    time, as a peer does that reads or that hangs up. *)
Inductive Action (T : Type) : Type :=
| ARegister (method : string) (h : Handler)
| AGuardDrop (g : HandlerGuard)
| ASubscribeEvents
| ASubscribePongs
| APing
| AClose (code : Z) (reason : option string)
| AEmit (e : EventInput)
| ARequest (method : string) (params : Value) (timeout : option Duration)
| APoll (reply : Reply) (cancelled deadline : bool)
| ADropCall (reply : Reply)
| AWriter (panics : bool)
| ALoop (wk : Wakeups) (settle : gset nat)
| APort (tx : T).
Arguments ARegister {T} method h.
Arguments AGuardDrop {T} g.
Arguments ASubscribeEvents {T}.
Arguments ASubscribePongs {T}.
Arguments APing {T}.
Arguments AClose {T} code reason.
Arguments AEmit {T} e.
Arguments ARequest {T} method params timeout.
Arguments APoll {T} reply cancelled deadline.
Arguments ADropCall {T} reply.
Arguments AWriter {T} panics.
Arguments ALoop {T} wk settle.
Arguments APort {T} tx.

(** [wo_futures] are the calls still being awaited; [wo_closure] is set once [run] returned. *)
Record World (T : Type) : Type := mkWorld
  { wo_driver : Driver T;
    wo_closure : option SessionClosure;
    wo_futures : gmap Reply RequestFuture;
    wo_next_reply : Reply;
    wo_routed : list string;
    wo_enqueued : list Frame;
    wo_commands : list Command }.
Arguments mkWorld {T}.
Arguments wo_driver {T} w.
Arguments wo_closure {T} w.
Arguments wo_futures {T} w.
Arguments wo_next_reply {T} w.
Arguments wo_routed {T} w.
Arguments wo_enqueued {T} w.
Arguments wo_commands {T} w.

(** What was appended to a queue. *)
Definition appended {A} (old new : list A) : list A := drop (length old) new.

Section system.
Context {RT : RustText} {SJ : SerdeJson} {T : Type} {PT : PortTx T}.

Definition with_shared (w : World T) (s : Shared) : World T :=
  let old := ch_queue (sh_commands (d_shared (wo_driver w))) in
  mkWorld (set_shared (wo_driver w) s) (wo_closure w) (wo_futures w) (wo_next_reply w) (wo_routed w)
    (wo_enqueued w) (wo_commands w ++ appended old (ch_queue (sh_commands s))).

Definition set_futures (w : World T) (fs : gmap Reply RequestFuture) (next : Reply) : World T :=
  mkWorld (wo_driver w) (wo_closure w) fs next (wo_routed w) (wo_enqueued w) (wo_commands w).

(** The calls that only touch the shared state. *)
Definition shared_op (s : Shared) (a : Action T) : Shared :=
  match a with
  | ARegister method h => (handle s method h).1
  | AGuardDrop g => guard_drop s g
  | ASubscribeEvents => (subscribe_events s).1
  | ASubscribePongs => (subscribe_pongs s).1
  | APing => ping s
  | AClose code reason => close_now s code reason
  | AEmit e => (emit s e).1
  | _ => s
  end.

(** A [request_with] call up to its first suspension in the [select!]; it stays suspended
    before that while the handshake is open. *)
Definition request_action (w : World T) (method : string) (params : Value) (timeout : option Duration) :
    World T :=
  let s := d_shared (wo_driver w) in
  match check_method method, ready s with
  | Ok _, Polled (Ok remote) =>
      let reply := wo_next_reply w in
      let '(s', r) := request_start s remote method params timeout reply in
      let w := with_shared w s' in
      match r with
      | Ok f => set_futures w (<[reply := f]> (wo_futures w)) (S reply)
      | Err _ => w
      end
  | _, _ => w
  end.

Definition poll_action (w : World T) (reply : Reply) (cancelled deadline : bool) : World T :=
  match wo_futures w !! reply with
  | Some f =>
      let d := wo_driver w in
      let '(s, f', r) := request_poll (d_shared d) (d_oneshots d) f cancelled deadline in
      let w := with_shared w s in
      match r with
      | Polled _ => set_futures w (delete reply (wo_futures w)) (wo_next_reply w)
      | Pending => set_futures w (<[reply := f']> (wo_futures w)) (wo_next_reply w)
      end
  | None => w
  end.

Definition drop_action (w : World T) (reply : Reply) : World T :=
  match wo_futures w !! reply with
  | Some f =>
      let w := with_shared w (request_drop (d_shared (wo_driver w)) f) in
      set_futures w (delete reply (wo_futures w)) (wo_next_reply w)
  | None => w
  end.

(** A [JoinSet] only ever reports a task it holds. *)
Definition wakeups_ok (d : Driver T) (wk : Wakeups) : bool :=
  match wk_settled wk with
  | Some st => bool_decide (is_Some (tk_tasks (d_tracking d) !! settled_task st))
  | None => true
  end.

(** The request an iteration routes, if it routes one. *)
Definition routed_by (d : Driver T) (wk : Wakeups) : list string :=
  match select (arm_liveness d) wk with
  | Some (BInbound (Some (IFrame (FReq r)))) => [req_id r]
  | _ => []
  end.

Definition loop_action (w : World T) (wk : Wakeups) (settle : gset nat) : World T :=
  let d := wo_driver w in
  if wakeups_ok d wk then
    match loop_turn d wk with
    | None => w
    | Some (d', t) =>
        let routed := wo_routed w ++ routed_by d wk in
        let enqueued := wo_enqueued w ++ appended (w_queue (d_writer d)) (w_queue (d_writer d')) in
        match t with
        | None => mkWorld d' None (wo_futures w) (wo_next_reply w) routed enqueued (wo_commands w)
        | Some reason =>
            let '(d'', closure) := teardown d' reason settle in
            mkWorld (drop_driver d'') (Some closure) (wo_futures w) (wo_next_reply w) routed enqueued
              (wo_commands w)
        end
    end
  else w.

Definition act (w : World T) (a : Action T) : World T :=
  match a with
  | ARequest method params timeout => request_action w method params timeout
  | APoll reply cancelled deadline => poll_action w reply cancelled deadline
  | ADropCall reply => drop_action w reply
  | AWriter panics =>
      match wo_closure w with
      | Some _ => w
      | None =>
          mkWorld (set_writer (wo_driver w) (writer_turn (d_writer (wo_driver w)) panics)) None (wo_futures w)
            (wo_next_reply w) (wo_routed w) (wo_enqueued w) (wo_commands w)
      end
  | ALoop wk settle =>
      match wo_closure w with
      | Some _ => w
      | None => loop_action w wk settle
      end
  | APort tx =>
      let wr := d_writer (wo_driver w) in
      let wr := {| w_tx := tx; w_queue := w_queue wr; w_report := w_report wr; w_gone := w_gone wr |} in
      mkWorld (set_writer (wo_driver w) wr) (wo_closure w) (wo_futures w) (wo_next_reply w) (wo_routed w)
        (wo_enqueued w) (wo_commands w)
  | _ => with_shared w (shared_op (d_shared (wo_driver w)) a)
  end.

Definition run_actions (w : World T) (acts : list (Action T)) : World T := foldl act w acts.

(** Opening a session and running it up to its loop.  [settle] matters only when the hello is
    refused. *)
Definition world_open (port_max_frame_bytes : option Z) (tx : T) (o : SessionOptions) (settle : gset nat) :
    panics (World T) :=
  let? d := session_open port_max_frame_bytes tx o in
  Ok (match start d with
      | (d, None) => mkWorld d None ∅ 0%nat [] [] []
      | (d, Some reason) =>
          let '(d, closure) := teardown d reason settle in
          mkWorld (drop_driver d) (Some closure) ∅ 0%nat [] [] []
      end).

Definition reachable (w0 w : World T) : Prop := exists acts, w = run_actions w0 acts.

(** Anything [act] preserves holds of every reachable world. *)
Lemma run_actions_ind (P : World T -> Prop) (w : World T) acts :
  P w -> (forall w a, P w -> P (act w a)) -> P (run_actions w acts).
Proof.
  intros Hw Hact. unfold run_actions. revert w Hw.
  induction acts as [|a acts IH]; intros w Hw; simpl; [done|]. by apply IH, Hact.
Qed.
End system.
