(* ===== verification/Lifecycle.v ===== *)
(** * The life of a session

    What the calls on a handle leave alone, and how the state, the peer, the ready watch and the
    closure watch evolve together: handshaking, then ready, then closed, never back. *)

From S2P Require Import Prelude Json Wire Frame Validate Limits Serde FrameJson Ndjson NdjsonProps Port Session Dispatch Driver Handle System.
Local Open Scope Z_scope.

(** ** What a handle cannot change *)

(** The parts of [Shared] only the driver writes; the command queue only grows. *)
Record core_eq (s s' : Shared) : Prop := {
  ce_cfg : sh_cfg s' = sh_cfg s;
  ce_state : sh_state s' = sh_state s;
  ce_remote : sh_remote s' = sh_remote s;
  ce_ready : sh_ready s' = sh_ready s;
  ce_closure : sh_closure s' = sh_closure s;
  ce_in_flight : sh_in_flight s' = sh_in_flight s;
  ce_receiver : ch_receiver (sh_commands s') = ch_receiver (sh_commands s);
  ce_queue : exists extra, ch_queue (sh_commands s') = ch_queue (sh_commands s) ++ extra;
  ce_dead : ch_receiver (sh_commands s) = false -> ch_queue (sh_commands s') = ch_queue (sh_commands s)
}.

Lemma core_eq_refl s : core_eq s s.
Proof. split; try done. exists []. by rewrite app_nil_r. Qed.

Lemma core_eq_trans a b c : core_eq a b -> core_eq b c -> core_eq a c.
Proof.
  intros [? ? ? ? ? ? ? [x Hx] Hd] [? ? ? ? ? ? ? [y Hy] Hd']. split; try congruence.
  - exists (x ++ y). by rewrite Hy, Hx, app_assoc.
  - intros H. rewrite Hd', Hd; congruence.
Qed.

Global Instance core_eq_preorder : PreOrder core_eq.
Proof. split; [exact core_eq_refl|exact core_eq_trans]. Qed.

Lemma appended_spec {A} (old extra : list A) : appended old (old ++ extra) = extra.
Proof. unfold appended. by rewrite drop_app_length. Qed.

Lemma send_command_core s c : core_eq s (send_command s c).1.
Proof.
  unfold send_command, ch_send. destruct (sh_commands s) as [q r sd] eqn:E. simpl.
  destruct r; split; simpl; rewrite ?E; try done; simpl; [by eexists|].
  exists []. by rewrite app_nil_r.
Qed.

(** A command is queued exactly when the driver is still there to read it. *)
Lemma send_command_queue s c :
  let '(s', ok) := send_command s c in
  ok = ch_receiver (sh_commands s) /\
  ch_queue (sh_commands s') = ch_queue (sh_commands s) ++ (if ok then [c] else []).
Proof.
  unfold send_command, ch_send. destruct (sh_commands s) as [q [] sd] eqn:E; simpl; [done|].
  rewrite ?E. simpl. by rewrite app_nil_r.
Qed.

Ltac core := split; try done; exists []; by rewrite app_nil_r.

Lemma set_handlers_core s h g : core_eq s (set_handlers s h g).
Proof. core. Qed.
Lemma set_event_sequences_core s m : core_eq s (set_event_sequences s m).
Proof. core. Qed.
Lemma set_event_subs_core s l m n : core_eq s (set_event_subs s l m n).
Proof. core. Qed.
Lemma set_pong_subs_core s l m n : core_eq s (set_pong_subs s l m n).
Proof. core. Qed.
Lemma set_request_sequence_core s n : core_eq s (set_request_sequence s n).
Proof. core. Qed.

#[export] Hint Resolve core_eq_refl send_command_core set_handlers_core set_event_sequences_core
  set_event_subs_core set_pong_subs_core set_request_sequence_core : mango.

Section handle.
Context {RT : RustText} {SJ : SerdeJson}.

Lemma guard_drop_core s g : core_eq s (guard_drop s g).
Proof. unfold guard_drop. repeat case_match; auto with mango. Qed.

Lemma emit_core s e : core_eq s (emit s e).1.
Proof.
  unfold emit. repeat case_match; simpl; simplify_eq; auto with mango;
    match goal with H : send_command ?s ?c = _ |- _ => pose proof (send_command_core s c) as Hc;
      rewrite H in Hc; simpl in Hc end;
    first [exact Hc | etrans; [exact Hc|apply set_event_sequences_core]].
Qed.

Lemma shared_op_core {T} s (a : Action T) : core_eq s (shared_op s a).
Proof.
  destruct a; simpl; unfold ping, close_now; auto with mango.
  - apply guard_drop_core.
  - apply emit_core.
Qed.

Lemma request_start_core s remote method params timeout reply :
  core_eq s (request_start s remote method params timeout reply).1.
Proof.
  unfold request_start. simpl. repeat case_match; simpl; simplify_eq; auto with mango;
    match goal with H : send_command ?s ?c = _ |- _ => pose proof (send_command_core s c) as Hc;
      rewrite H in Hc; simpl in Hc end; (etrans; [|exact Hc]); apply set_request_sequence_core.
Qed.

Lemma request_poll_core s os f c dl : core_eq s (request_poll s os f c dl).1.1.
Proof.
  unfold request_poll. repeat case_match; simpl; auto with mango.
  etrans; apply send_command_core.
Qed.

Lemma request_drop_core s f : core_eq s (request_drop s f).
Proof. unfold request_drop. case_match; auto with mango. Qed.
End handle.

(** ** Phases *)

(** While the driver runs: both hellos have crossed exactly when the peer is known and [ready]
    has succeeded with it. *)
Record live_shared (s : Shared) : Prop := {
  lv_closure : sh_closure s = None;
  lv_receiver : ch_receiver (sh_commands s) = true;
  lv_phase : (sh_state s = Handshaking /\ sh_remote s = None /\ sh_ready s = None) \/
             (sh_state s = Ready /\ exists r, sh_remote s = Some r /\ sh_ready s = Some (Ok r))
}.

(** Once it returned. *)
Record dead_shared (s : Shared) (c : SessionClosure) : Prop := {
  dd_closure : sh_closure s = Some c;
  dd_state : sh_state s = Closed;
  dd_ready : is_Some (sh_ready s);
  dd_receiver : ch_receiver (sh_commands s) = false;
  dd_queue : ch_queue (sh_commands s) = []
}.

Lemma live_core s s' : core_eq s s' -> live_shared s -> live_shared s'.
Proof.
  intros [? Hs Hr Hd Hc ? Hv _ _] [? ? ?]. split; rewrite ?Hs, ?Hr, ?Hd, ?Hc, ?Hv; done.
Qed.

Lemma dead_core s s' c : core_eq s s' -> dead_shared s c -> dead_shared s' c.
Proof.
  intros [? Hs Hr Hd Hc ? Hv _ Hq] [? ? ? ? ?]. split; rewrite ?Hs, ?Hr, ?Hd, ?Hc, ?Hv, ?Hq; done.
Qed.

Lemma fan_out_event_core s e : core_eq s (fan_out_event s e).
Proof. unfold fan_out_event. repeat case_match; auto with mango. Qed.

Lemma fan_out_pong_core s : core_eq s (fan_out_pong s).
Proof. unfold fan_out_pong. repeat case_match; auto with mango. Qed.

#[export] Hint Resolve fan_out_event_core fan_out_pong_core : mango.

Section driver.
Context {RT : RustText} {SJ : SerdeJson} {T : Type} {PT : PortTx T}.

Lemma on_request_shared s tk (w : Writer T) r :
  exists n, (on_request s tk w r).1.1 = set_in_flight s n.
Proof. unfold on_request. repeat case_match; simpl; eauto; exists (sh_in_flight s); by destruct s. Qed.

Lemma on_settled_shared s tk (w : Writer T) st :
  exists n, (on_handler_settled s tk w st).1.1 = set_in_flight s n.
Proof. unfold on_handler_settled. repeat case_match; simpl; eauto. Qed.

Lemma live_in_flight s n : live_shared s -> live_shared (set_in_flight s n).
Proof. intros [? ? ?]. by split. Qed.

Lemma live_recv s : live_shared s -> live_shared (set_commands s (ch_recv (sh_commands s)).1).
Proof. intros [? ? ?]. split; simpl; try done. unfold ch_recv. by case_match. Qed.

Lemma on_hello_live s h s' :
  live_shared s -> on_hello s h = (s', None) -> live_shared s'.
Proof.
  intros [Hc Hr Hp]. unfold on_hello. case_bool_decide as Hst; simpl; [|done].
  destruct (negotiate _ _); intros [= <-]. destruct Hp as [(_ & _ & Hd)|(Hs & _)]; [|congruence].
  unfold settle_ready. simpl. rewrite Hd. split; simpl; [done|done|]. right. eauto.
Qed.

Lemma on_command_shared (d : Driver T) c : d_shared (on_command d c).1 = d_shared d.
Proof. unfold on_command. repeat case_match; by simplify_eq/=. Qed.

(** An iteration that does not break leaves a running session. *)
Lemma on_branch_live (d d' : Driver T) b :
  live_shared (d_shared d) -> on_branch d b = (d', None) -> live_shared (d_shared d').
Proof.
  intros Hl. destruct b as [o| | |st|c|[[f|c]|]]; simpl; try done.
  - unfold on_liveness_tick. case_match; intros [= <-]. done.
  - destruct (on_settled_shared (d_shared d) (join_task (d_tracking d) (settled_task st)) (d_writer d) st) as [n Hn].
    destruct (on_handler_settled _ _ _ _) as [[s tk] w]. intros [= <-]. simpl in *. subst.
    by apply live_in_flight.
  - intros H. pose proof (on_command_shared
      (set_shared d (set_commands (d_shared d) (ch_recv (sh_commands (d_shared d))).1)) c) as Hs.
    rewrite H in Hs. simpl in Hs. rewrite Hs. by apply live_recv.
  - destruct f as [h|r|r|e|e|c| | |c]; simpl; try (intros [= <-]; simpl; done); try done.
    + destruct (on_hello (d_shared d) h) as [s t] eqn:E. intros [= <- ->]. by eapply on_hello_live.
    + destruct (on_request_shared (d_shared d) (d_tracking d) (d_writer d) r) as [n Hn].
      destruct (on_request _ _ _ _) as [[s tk] w]. intros [= <-]. simpl in *. subst.
      by apply live_in_flight.
    + intros [= <-]. simpl. eapply live_core; [|exact Hl]. apply fan_out_event_core.
    + intros [= <-]. simpl. eapply live_core; [|exact Hl]. apply fan_out_pong_core.
Qed.

Lemma arm_liveness_shared (d : Driver T) : d_shared (arm_liveness d) = d_shared d.
Proof. unfold arm_liveness. by repeat case_match. Qed.

(** Tearing down closes for good, whatever the session was doing. *)
Lemma teardown_dead (d : Driver T) reason settle d' c :
  teardown d reason settle = (d', c) -> dead_shared (d_shared (drop_driver d')) c.
Proof.
  unfold teardown. destruct (closing reason) as [[[code text] error] port]. intros [= <- <-].
  split; simpl; try done; unfold settle_ready; simpl; destruct (sh_ready (d_shared d)) eqn:E; simpl;
    rewrite ?E; eauto.
Qed.

(** The invariant. *)
Definition lifecycle (w : World T) : Prop :=
  match wo_closure w with
  | None => live_shared (d_shared (wo_driver w))
  | Some c => dead_shared (d_shared (wo_driver w)) c
  end.

Lemma lifecycle_core (w : World T) s :
  core_eq (d_shared (wo_driver w)) s -> lifecycle w -> lifecycle (with_shared w s).
Proof.
  unfold lifecycle. simpl. intros Hc. destruct (wo_closure w).
  - by apply dead_core.
  - by apply live_core.
Qed.

(** Every action but the writer's and the loop's goes through the shared state only, and the port
    is nobody's business. *)
Lemma act_shared (w : World T) a :
  (exists s fs n, act w a = set_futures (with_shared w s) fs n /\ core_eq (d_shared (wo_driver w)) s) \/
  act w a = w \/ (exists panics, a = AWriter panics) \/ (exists tx, a = APort tx) \/ exists wk settle, a = ALoop wk settle.
Proof.
  assert (Hself : forall w' : World T, w' = set_futures w' (wo_futures w') (wo_next_reply w')) by (by intros []).
  destruct a; simpl; eauto 12;
    try (left; eexists _, _, _; split; [apply Hself|]; apply (shared_op_core (T := T) _ (ARegister _ _)) ||
         apply (shared_op_core (T := T) _ (AGuardDrop _)) || apply (shared_op_core (T := T) _ ASubscribeEvents) ||
         apply (shared_op_core (T := T) _ ASubscribePongs) || apply (shared_op_core (T := T) _ APing) ||
         apply (shared_op_core (T := T) _ (AClose _ _)) || apply (shared_op_core (T := T) _ (AEmit _))).
  - unfold request_action. destruct (check_method _); [|eauto]. destruct (ready _) as [|[remote|]]; eauto.
    pose proof (request_start_core (d_shared (wo_driver w)) remote method params timeout (wo_next_reply w)) as Hc.
    destruct (request_start _ _ _ _ _ _) as [s' [f|e]]; left; eauto 10.
  - unfold poll_action. destruct (wo_futures w !! reply) as [f|]; [|eauto].
    pose proof (request_poll_core (d_shared (wo_driver w)) (d_oneshots (wo_driver w)) f cancelled deadline) as Hc.
    destruct (request_poll _ _ _ _ _) as [[s f'] [|r]]; left; eauto 10.
  - unfold drop_action. destruct (wo_futures w !! reply) as [f|]; [|eauto].
    left. eexists _, _, _. split; [done|]. apply request_drop_core.
Qed.

Lemma act_lifecycle (w : World T) a : lifecycle w -> lifecycle (act w a).
Proof.
  intros Hw. destruct (act_shared w a) as [(s & fs & n & -> & Hc)|[->|[[pn ->]|[[tx ->]|(wk & settle & ->)]]]].
  - by apply lifecycle_core.
  - done.
  - simpl. unfold lifecycle in *. by destruct (wo_closure w) eqn:E; rewrite ?E.
  - done.
  - simpl. unfold lifecycle in Hw. destruct (wo_closure w) eqn:E; [by unfold lifecycle; rewrite E|].
    unfold loop_action. destruct (wakeups_ok _ _); [|by unfold lifecycle; rewrite E].
    unfold loop_turn. destruct (select _ _) as [b|]; [|by unfold lifecycle; rewrite E].
    destruct (on_branch _ b) as [d' [reason|]] eqn:Hb.
    + destruct (teardown d' reason settle) as [d'' c] eqn:Ht. unfold lifecycle. simpl.
      by eapply teardown_dead.
    + unfold lifecycle. simpl. eapply on_branch_live; [|exact Hb]. by rewrite arm_liveness_shared.
Qed.

(** ** Opening *)

Lemma register_all_core hs : forall s,
  core_eq s (foldl (fun s mh => (register_handler s mh.1 mh.2).1) s hs).
Proof.
  induction hs as [|mh hs IH]; intros s; simpl; [apply core_eq_refl|].
  etrans; [|apply IH]. apply set_handlers_core.
Qed.

Lemma check_option_Ok name o floor v :
  check_option name o floor = Ok v -> v = o /\ forall x, o = Some x -> floor <= x.
Proof.
  unfold check_option. destruct o as [x|]; [|by intros [= <-]].
  intros (y & [-> Hy]%check_at_least_Ok & [= <-])%result_bind_Ok. split; [done|]. by intros ? [= <-].
Qed.

(** What [Session::open] builds. *)
Record opened (port_max : option Z) (o : SessionOptions) (s : Shared) : Prop := {
  op_live : live_shared s;
  op_state : sh_state s = Handshaking;
  op_in_flight : sh_in_flight s = 0;
  op_queue : ch_queue (sh_commands s) = [];
  op_ceiling : local_max_frame_bytes (sh_cfg s) = narrow_ceiling (so_max_frame_bytes o) port_max;
  op_floor : 4096 <= local_max_frame_bytes (sh_cfg s);
  op_max_in_flight : cfg_max_in_flight (sh_cfg s) = so_max_in_flight o;
  op_in_flight_floor : 1 <= so_max_in_flight o;
  op_stream_keys : cfg_max_stream_keys (sh_cfg s) = so_max_stream_keys o;
  op_stream_floor : 1 <= so_max_stream_keys o;
  op_protocol : local_protocol (sh_cfg s) = so_protocol o;
  op_peer : local_peer (sh_cfg s) = so_peer o
}.

Lemma open_shared_opened port_max o s : open_shared port_max o = Ok s -> opened port_max o s.
Proof.
  unfold open_shared. intros (sc & [-> Hsc]%check_option_Ok & H)%result_bind_Ok.
  apply result_bind_Ok in H as (pc & [-> Hpc]%check_option_Ok & H).
  apply result_bind_Ok in H as (mi & [-> Hmi]%check_at_least_Ok & H).
  apply result_bind_Ok in H as (mk & [-> Hmk]%check_at_least_Ok & H). injection H as <-.
  match goal with |- opened _ _ (foldl ?f ?s ?l) => pose proof (register_all_core l s) as Hc;
    set (s0 := s) in *; set (s1 := foldl f s0 l) in * end.
  change (core_eq s0 s1) in Hc.
  assert (live_shared s0) as Hl by (split; [done|done|by left]).
  assert (Hq : ch_queue (sh_commands s1) = []).
  { clear. subst s1. change (ch_queue (sh_commands s0)) with (@nil Command).
    assert (Hgo : forall l s, ch_queue (sh_commands (foldl (fun s mh => (register_handler s mh.1 mh.2).1) s l))
      = ch_queue (sh_commands s)) by (induction l as [|x l IH]; intros s; simpl; [done|by rewrite IH]).
    by rewrite Hgo. }
  clearbody s1. pose proof (live_core s0 s1 Hc Hl) as Hl1. destruct Hc as [Hcfg Hst _ _ _ Hfl _ _ _].
  unfold MIN_ANNOUNCED_IN_FLIGHT, MIN_OPEN_STREAM_KEYS in *.
  split; rewrite ?Hcfg, ?Hst, ?Hfl; try done. simpl.
  unfold narrow_ceiling, MIN_MAX_FRAME_BYTES, MIN_ANNOUNCED_FRAME_BYTES in *.
  destruct (so_max_frame_bytes o) as [x|], port_max as [y|];
    try specialize (Hsc _ eq_refl); try specialize (Hpc _ eq_refl); unfold DEFAULT_MAX_FRAME_BYTES; lia.
Qed.

(** The world a session starts in: its loop about to run, or closed by a refused hello. *)
Lemma world_open_cases port_max tx o settle (w : World T) :
  world_open port_max tx o settle = Ok w ->
  (exists s tx', open_shared port_max o = Ok s /\ w = mkWorld (open_driver s tx' o) None ∅ 0%nat [] [] []) \/
  (exists d d' reason c, teardown d reason settle = (d', c) /\
     w = mkWorld (drop_driver d') (Some c) ∅ 0%nat [] [] [] /\
     ch_queue (sh_commands (d_shared d)) = [] /\ d_pending d = ∅ /\ d_oneshots d = ∅ /\
     d_tracking d = tracking_default /\
     exists s, open_shared port_max o = Ok s /\ sh_cfg (d_shared d) = sh_cfg s).
Proof.
  unfold world_open, session_open. intros (d & Hd & H)%result_bind_Ok. injection H as <-.
  apply result_bind_Ok in Hd as (s & Hs & [= <-]).
  pose proof (op_queue _ _ _ (open_shared_opened _ _ _ Hs)) as Hq.
  unfold start. simpl. destruct (assert_fits _ _ _) as [[]|e].
  - destruct (port_send tx _) as [tx' out]. destruct (refused_hello out) as [e|].
    + right. destruct (teardown _ _ _) as [d' c] eqn:Ht. eexists _, d', _, c. split; [exact Ht|].
      split; [done|]. simpl. repeat split; [|exists s; split; [done|]]; unfold settle_ready; by destruct (sh_ready s).
    + left. exists s, tx'. done.
  - right. destruct (teardown _ _ _) as [d' c] eqn:Ht. eexists _, d', _, c. split; [exact Ht|].
    split; [done|]. simpl. repeat split; [|exists s; split; [done|]]; unfold settle_ready; by destruct (sh_ready s).
Qed.

Lemma world_open_lifecycle port_max tx o settle (w : World T) :
  world_open port_max tx o settle = Ok w -> lifecycle w.
Proof.
  intros [(s & tx' & Hs & ->)|(d & d' & reason & c & Ht & -> & _)]%world_open_cases; unfold lifecycle; simpl.
  - by destruct (open_shared_opened _ _ _ Hs).
  - by eapply teardown_dead.
Qed.

(** ** Nothing is ever undone *)

Definition rank (st : SessionState) : Z :=
  match st with Handshaking => 0 | Ready => 1 | Closed => 2 end.

(** Later states of one session. *)
Record advances (s s' : Shared) : Prop := {
  adv_rank : rank (sh_state s) <= rank (sh_state s');
  adv_ready : forall r, sh_ready s = Some r -> sh_ready s' = Some r;
  adv_remote : forall r, sh_remote s = Some r -> sh_remote s' = Some r;
  adv_closure : forall c, sh_closure s = Some c -> sh_closure s' = Some c;
  adv_cfg : sh_cfg s' = sh_cfg s
}.

Global Instance advances_preorder : PreOrder advances.
Proof.
  split; [by intros s; split|]. intros a b c [? ? ? ? ?] [? ? ? ? ?].
  split; [lia|eauto..|congruence].
Qed.

Lemma core_advances s s' : core_eq s s' -> advances s s'.
Proof. intros [? Hs Hr Hd Hc ? _ _ _]. split; rewrite ?Hs, ?Hr, ?Hd, ?Hc; done. Qed.

Lemma in_flight_advances s n : advances s (set_in_flight s n).
Proof. by split. Qed.

Lemma on_branch_advances (d : Driver T) b :
  live_shared (d_shared d) -> advances (d_shared d) (d_shared (on_branch d b).1).
Proof.
  intros Hl. destruct b as [o| | |st|c|[[f|c]|]]; simpl; try reflexivity.
  - unfold on_handshake_timeout, settle_ready. simpl. destruct (sh_ready (d_shared d)) eqn:E; simpl; [reflexivity|].
    split; simpl; try done. by rewrite E.
  - unfold on_liveness_tick. case_match; reflexivity.
  - destruct (on_settled_shared (d_shared d) (join_task (d_tracking d) (settled_task st)) (d_writer d) st) as [n Hn].
    destruct (on_handler_settled _ _ _ _) as [[s tk] w]. simpl in *. subst. apply in_flight_advances.
  - rewrite on_command_shared. simpl. by split.
  - destruct f as [h|r|r|e|e|c| | |c]; simpl; try reflexivity.
    + unfold on_hello. case_bool_decide as Hst; simpl; [|reflexivity].
      destruct Hl as [Hc _ [(_ & Hr & Hd)|(Hs & _)]]; [|congruence].
      destruct (negotiate _ _); simpl; unfold settle_ready; simpl; rewrite Hd; split; simpl;
        rewrite ?Hst, ?Hr, ?Hd; (done || (simpl; lia)).
    + destruct (on_request_shared (d_shared d) (d_tracking d) (d_writer d) r) as [n Hn].
      destruct (on_request _ _ _ _) as [[s tk] w]. simpl in *. subst. apply in_flight_advances.
    + apply core_advances, fan_out_event_core.
    + apply core_advances, fan_out_pong_core.
Qed.

Lemma on_branch_closure (d : Driver T) b : sh_closure (d_shared (on_branch d b).1) = sh_closure (d_shared d).
Proof.
  destruct b as [o| | |st|c|[[f|c]|]]; simpl; try done.
  - unfold on_handshake_timeout, settle_ready. simpl. by case_match.
  - unfold on_liveness_tick. by case_match.
  - destruct (on_settled_shared (d_shared d) (join_task (d_tracking d) (settled_task st)) (d_writer d) st) as [n Hn].
    destruct (on_handler_settled _ _ _ _) as [[s tk] w]. simpl in *. by subst.
  - by rewrite on_command_shared.
  - destruct f as [h|r|r|e|e|c| | |c]; simpl; try done.
    + unfold on_hello, settle_ready. by repeat case_match; simplify_eq/=.
    + destruct (on_request_shared (d_shared d) (d_tracking d) (d_writer d) r) as [n Hn].
      destruct (on_request _ _ _ _) as [[s tk] w]. simpl in *. by subst.
    + apply fan_out_event_core.
    + apply fan_out_pong_core.
Qed.

Lemma teardown_advances (d : Driver T) reason settle :
  sh_closure (d_shared d) = None ->
  advances (d_shared d) (d_shared (drop_driver (teardown d reason settle).1)).
Proof.
  intros Hc. unfold teardown. destruct (closing reason) as [[[code text] error] port]. simpl.
  unfold settle_ready. simpl.
  destruct (sh_ready (d_shared d)) eqn:E; split; simpl; rewrite ?E, ?Hc; try done; destruct (sh_state _); simpl; lia.
Qed.

Lemma act_advances (w : World T) a :
  lifecycle w -> advances (d_shared (wo_driver w)) (d_shared (wo_driver (act w a))).
Proof.
  intros Hw. destruct (act_shared w a) as [(s & fs & n & -> & Hc)|[->|[[pn ->]|[[tx ->]|(wk & settle & ->)]]]].
  - by apply core_advances.
  - reflexivity.
  - simpl. by destruct (wo_closure w).
  - reflexivity.
  - simpl. unfold lifecycle in Hw. destruct (wo_closure w) eqn:E; [reflexivity|].
    unfold loop_action. destruct (wakeups_ok _ _); [|reflexivity].
    unfold loop_turn. destruct (select _ _) as [b|]; [|reflexivity].
    rewrite <- (arm_liveness_shared (wo_driver w)) in Hw.
    pose proof (on_branch_advances (arm_liveness (wo_driver w)) b Hw) as Hadv.
    rewrite arm_liveness_shared in Hadv.
    destruct (on_branch _ b) as [d' [reason|]] eqn:Hb; [|exact Hadv].
    assert (sh_closure (d_shared d') = None) as Hcl.
    { pose proof (on_branch_closure (arm_liveness (wo_driver w)) b) as H. rewrite Hb in H. simpl in H.
      rewrite H. apply Hw. }
    pose proof (teardown_advances d' reason settle Hcl) as Ht.
    destruct (teardown d' reason settle) as [d'' c]. simpl in *. by etrans.
Qed.
End driver.
