(* ===== verification/Outbound.v ===== *)
(** * What a session sends

    The commands its handles queue and the frames its driver enqueues: every request, response
    and event took the preflight of [assert_fits] against the limit in force, and a session never
    sends a second [hello] or a [close] frame of its own through the writer. *)

From S2P Require Import Prelude Json Wire Frame Validate Limits Serde FrameJson Ndjson NdjsonProps Port Session Dispatch DispatchProps Driver Handle System Lifecycle.
Local Open Scope Z_scope.

Section outbound.
Context {RT : RustText} {SJ : SerdeJson}.

(** Valid and within the ceiling this side may send. *)
Definition fits (s : Shared) (f : Frame) : Prop :=
  is_ok (encode_frame_bytes f (send_limit_bytes s)) = true.

Definition cancel_ok (id : string) : Prop := schema_valid (FCancel {| cancel_id := id |}).

Definition command_ok (s : Shared) (c : Command) : Prop :=
  match c with
  | CmdClose _ _ => True
  | CmdRequest f _ => (exists r, f = FReq r) /\ fits s f
  | CmdCancel id _ => cancel_ok id
  | CmdSend f => f = FPing \/ ((exists e, f = FEvt e) /\ fits s f)
  end.

(** Before the handshake completes no request and no event is queued. *)
Definition plain_command (c : Command) : Prop :=
  match c with
  | CmdRequest _ _ => False
  | CmdSend f => f = FPing
  | _ => True
  end.

(** [err] frames are the exception: [respond_error] enqueues them unchecked. *)
Definition frame_ok (s : Shared) (f : Frame) : Prop :=
  match f with
  | FErr _ | FPing | FPong => True
  | FCancel c => cancel_ok (cancel_id c)
  | FReq _ | FRes _ | FEvt _ => fits s f
  | FHello _ | FClose _ => False
  end.

Definition plain_frame (f : Frame) : Prop :=
  match f with FErr _ | FPing | FPong | FCancel _ => True | _ => False end.

Lemma fits_limit s s' f : send_limit_bytes s' = send_limit_bytes s -> fits s f -> fits s' f.
Proof. unfold fits. by intros ->. Qed.

Lemma command_ok_limit s s' c :
  send_limit_bytes s' = send_limit_bytes s -> command_ok s c -> command_ok s' c.
Proof. intros Hl. destruct c; simpl; unfold fits; rewrite ?Hl; done. Qed.

Lemma frame_ok_limit s s' f :
  send_limit_bytes s' = send_limit_bytes s -> frame_ok s f -> frame_ok s' f.
Proof. intros Hl. destruct f; simpl; unfold fits; rewrite ?Hl; done. Qed.

Lemma plain_frame_ok s f : plain_frame f -> (forall c, f = FCancel c -> cancel_ok (cancel_id c)) -> frame_ok s f.
Proof. destruct f; simpl; try done. intros _ H. by apply H. Qed.

Lemma core_limit s s' : core_eq s s' -> send_limit_bytes s' = send_limit_bytes s.
Proof. intros [Hc _ Hr _ _ _ _ _ _]. unfold send_limit_bytes. by rewrite Hc, Hr. Qed.

Lemma assert_fits_Ok s f what : assert_fits s f what = Ok tt <-> fits s f.
Proof.
  unfold assert_fits, fits. destruct (encode_frame_bytes f (send_limit_bytes s)); simpl; [done|].
  case_bool_decide; done.
Qed.

Lemma fits_valid s f : fits s f -> schema_valid f.
Proof.
  unfold fits. destruct (encode_frame_bytes f (send_limit_bytes s)) eqn:E; [|done].
  intros _. apply encode_frame_bytes_Ok in E as (_ & Hv & _). by apply validate_iff_schema.
Qed.

(** ** Calls on a handle *)

(** The commands one call queues. *)
Definition sends (s s' : Shared) (cs : list Command) : Prop :=
  core_eq s s' /\ ch_queue (sh_commands s') = ch_queue (sh_commands s) ++ cs /\
  Forall (command_ok s) cs /\ (sh_state s = Handshaking -> Forall plain_command cs).

Lemma sends_nothing s s' : core_eq s s' -> ch_queue (sh_commands s') = ch_queue (sh_commands s) -> sends s s' [].
Proof. intros Hc Hq. split; [done|]. rewrite app_nil_r. split; [done|]. split; [constructor|constructor]. Qed.

Lemma sends_command s c :
  command_ok s c -> (sh_state s = Handshaking -> plain_command c) ->
  exists cs, sends s (send_command s c).1 cs /\ cs = (if (send_command s c).2 then [c] else []).
Proof.
  intros Hok Hp. eexists. split; [|done]. pose proof (send_command_queue s c) as Hq.
  pose proof (send_command_core s c) as Hc. destruct (send_command s c) as [s' ok].
  destruct Hq as [_ Hq]. split; [done|]. split; [done|]. destruct ok; split; repeat constructor; auto.
Qed.

Lemma sends_core s s0 s1 cs : core_eq s s0 -> ch_queue (sh_commands s0) = ch_queue (sh_commands s) ->
  sends s0 s1 cs -> sends s s1 cs.
Proof.
  intros Hc Hq (Hc' & Hq' & Hok & Hp). split; [by etrans|]. split; [by rewrite Hq', Hq|].
  split; [|intros Hs; apply Hp; by rewrite (ce_state _ _ Hc)].
  eapply Forall_impl; [exact Hok|]. intros c. apply command_ok_limit. symmetry. by apply core_limit.
Qed.

Lemma emit_sends s e : exists cs, sends s (emit s e).1 cs.
Proof.
  unfold emit. case_bool_decide as Hst; simpl; [|by exists []; apply sends_nothing; auto with mango].
  destruct (_ && _); simpl; [by exists []; apply sends_nothing; auto with mango|].
  destruct (assert_fits _ _ _) as [[]|] eqn:Hf; simpl; [|by exists []; apply sends_nothing; auto with mango].
  apply assert_fits_Ok in Hf.
  destruct (sends_command s (CmdSend (event_frame e (default 0 (sh_event_sequences s !! stream_key e)))))
    as (cs & Hs & _); [right; split; [by eexists|done]|congruence|].
  exists cs. destruct (send_command _ _) as [s' ok]. destruct ok; simpl in *; [|done].
  destruct Hs as (Hc & Hq & Hok & Hp). split; [|done].
  etrans; [exact Hc|]. apply set_event_sequences_core.
Qed.

Lemma shared_op_sends {T} s (a : Action T) : exists cs, sends s (shared_op s a) cs.
Proof.
  destruct a; simpl; try (exists []; apply sends_nothing; [auto with mango; fail|done]).
  - exists []. apply sends_nothing; [apply guard_drop_core|]. unfold guard_drop. by repeat case_match.
  - destruct (sends_command s (CmdSend FPing)) as (cs & Hs & _); [by left|done|]. by exists cs.
  - destruct (sends_command s (CmdClose code reason)) as (cs & Hs & _); [done|done|]. by exists cs.
  - apply emit_sends.
Qed.

Definition is_cancel (c : Command) : Prop := match c with CmdCancel _ _ => True | _ => False end.

Lemma cancel_replies cs : Forall is_cancel cs -> queued_replies cs = [].
Proof. induction 1 as [|c cs Hc _ IH]; [done|]. by destruct c. Qed.

(** Only [emit] touches the stream counters. *)
Lemma request_start_seqs s remote method params timeout reply :
  sh_event_sequences (request_start s remote method params timeout reply).1 = sh_event_sequences s.
Proof.
  unfold request_start, next_request_id, send_command. by repeat (case_match; simplify_eq/=).
Qed.

Lemma request_poll_seqs s os f c dl :
  sh_event_sequences (request_poll s os f c dl).1.1 = sh_event_sequences s.
Proof. unfold request_poll, send_command. by repeat (case_match; simplify_eq/=). Qed.

Lemma request_drop_seqs s f : sh_event_sequences (request_drop s f) = sh_event_sequences s.
Proof. unfold request_drop, send_command. by repeat (case_match; simplify_eq/=). Qed.

Lemma request_start_sends s remote method params timeout reply s' r :
  sh_state s <> Handshaking ->
  request_start s remote method params timeout reply = (s', r) ->
  exists cs, sends s s' cs /\
    match r with
    | Ok f => cancel_ok (rf_id f) /\ rf_reply f = reply /\ rf_armed f = true /\
              exists req, cs = [CmdRequest (FReq req) reply] /\ rf_id f = req_id req
    | Err _ => cs = []
    end.
Proof.
  intros Hst. unfold request_start.
  destruct (_ && _); [intros [= <- <-]; exists []; split; [by apply sends_nothing; auto with mango|done]|].
  case_bool_decide; [intros [= <- <-]; exists []; split; [by apply sends_nothing; auto with mango|done]|].
  simpl. set (s0 := set_request_sequence s _). set (req := Build_Request _ _ _).
  assert (core_eq s s0) as Hc0 by apply set_request_sequence_core.
  destruct (assert_fits s0 (FReq req) _) as [[]|] eqn:Hf.
  2:{ intros [= <- <-]. exists []. split; [by apply sends_nothing|done]. }
  apply assert_fits_Ok in Hf.
  destruct (sends_command s0 (CmdRequest (FReq req) reply)) as (cs & Hs & Hcs); [split; [by eexists|done]|done|].
  pose proof (fits_valid s0 (FReq req) Hf) as [Hid _].
  destruct (send_command s0 _) as [s1 ok]. simpl in *.
  destruct ok; intros [= <- <-]; exists cs; (split; [by eapply sends_core|]); subst cs; [|done].
  split; [exact Hid|]. split; [done|]. split; [done|]. by exists req.
Qed.

Lemma request_poll_sends s os f c dl s' f' r :
  sh_state s <> Handshaking -> cancel_ok (rf_id f) ->
  request_poll s os f c dl = (s', f', r) ->
  (exists cs, sends s s' cs /\ Forall is_cancel cs) /\ rf_id f' = rf_id f /\ rf_reply f' = rf_reply f.
Proof.
  intros Hst Hid. unfold request_poll.
  assert (Hcancel : forall s0 b, core_eq s s0 ->
    exists cs, sends s0 (send_command s0 (CmdCancel (rf_id f) b)).1 cs /\ Forall is_cancel cs).
  { intros s0 b Hc0. destruct (sends_command s0 (CmdCancel (rf_id f) b)) as (cs & Hs & Hcs); [done|done|].
    exists cs. split; [done|]. subst cs. destruct (send_command _ _).2; by repeat constructor. }
  destruct (reply_poll s os f).
  2:{ intros [= <- <- <-]. split; [|done]. exists []. split; [by apply sends_nothing; auto with mango|constructor]. }
  set (b := c && negb (rf_cancel_sent f)).
  assert (exists cs, sends s (if b then (send_command s (CmdCancel (rf_id f) true)).1 else s) cs /\
    Forall is_cancel cs) as (cs1 & Hs1 & Hr1).
  { destruct b; [apply Hcancel, core_eq_refl|]. exists []. split; [by apply sends_nothing; auto with mango|constructor]. }
  set (s1 := if b then _ else s) in *. simpl.
  destruct (dl && _); intros [= <- <- <-]; (split; [|done]); [|by exists cs1].
  destruct Hs1 as (Hc1 & Hq1 & Hok1 & Hp1).
  destruct (Hcancel s1 false Hc1) as (cs2 & (Hc2 & Hq2 & Hok2 & _) & Hr2).
  exists (cs1 ++ cs2). split; [|by apply Forall_app].
  split; [by etrans|]. split; [by rewrite Hq2, Hq1, app_assoc|]. split; [|done].
  apply Forall_app. split; [done|]. eapply Forall_impl; [exact Hok2|]. intros x. apply command_ok_limit.
  symmetry. by apply core_limit.
Qed.

Lemma request_drop_sends s f :
  sh_state s <> Handshaking -> cancel_ok (rf_id f) ->
  exists cs, sends s (request_drop s f) cs /\ Forall is_cancel cs.
Proof.
  intros Hst Hid. unfold request_drop. destruct (rf_armed f).
  - destruct (sends_command s (CmdCancel (rf_id f) false)) as (cs & Hs & Hcs); [done|done|].
    exists cs. split; [done|]. subst cs. destruct (send_command _ _).2; by repeat constructor.
  - exists []. split; [by apply sends_nothing; auto with mango|constructor].
Qed.
End outbound.
