(* ===== verification/Responses.v ===== *)
(** * One turn of the loop, and the response guarantee

    What an iteration of the driver enqueues, how it keeps the request bookkeeping, and the
    world-level invariant that follows: every request the peer sends is answered exactly once,
    and everything sent but [err] frames took the preflight. *)

From S2P Require Import Prelude Json Wire Frame Validate Limits Serde FrameJson Ndjson NdjsonProps Port Session Dispatch DispatchProps Driver Handle System Lifecycle Outbound.
Local Open Scope Z_scope.

Fixpoint occurrences (id : string) (l : list string) : Z :=
  match l with
  | [] => 0
  | x :: l => (if bool_decide (x = id) then 1 else 0) + occurrences id l
  end.

Lemma occurrences_app id a b : occurrences id (a ++ b) = occurrences id a + occurrences id b.
Proof. induction a as [|x a IH]; simpl; [done|]. rewrite IH. lia. Qed.

Section turn.
Context {RT : RustText} {SJ : SerdeJson} {T : Type} {PT : PortTx T}.

Definition branch_routes (b : Branch) : list string :=
  match b with BInbound (Some (IFrame (FReq r))) => [req_id r] | _ => [] end.

(** What [select] guarantees of the branch it picks. *)
Definition branch_ok (d : Driver T) (b : Branch) : Prop :=
  match b with
  | BSettled st => is_Some (tk_tasks (d_tracking d) !! settled_task st)
  | BCommand c => exists rest, ch_queue (sh_commands (d_shared d)) = c :: rest
  | _ => True
  end.

Lemma select_ok (d : Driver T) wk b :
  wakeups_ok d wk = true -> select d wk = Some b -> branch_ok d b.
Proof.
  unfold select, wakeups_ok. intros Hw. destruct (w_report _); [by intros [= <-]|].
  destruct (w_gone _); [by intros [= <-]|]. destruct (_ && _); [by intros [= <-]|].
  destruct (wk_tick wk && _); [by intros [= <-]|].
  destruct (bool_decide (tk_tasks (d_tracking d) = ∅)); [|destruct (wk_settled wk) as [st|]].
  2:{ intros [= <-]. simpl. by bools. }
  all: unfold ch_recv; destruct (sh_commands (d_shared d)) as [q r sd] eqn:Hc; simpl;
    destruct q as [|c q]; simpl; [|intros [= <-]; simpl; rewrite Hc; simpl; by eexists];
    destruct sd; simpl; destruct (wk_inbound wk); intros [= <-]; done.
Qed.

Lemma wakeups_ok_arm (d : Driver T) wk : wakeups_ok (arm_liveness d) wk = wakeups_ok d wk.
Proof. unfold arm_liveness, wakeups_ok. by repeat case_match. Qed.

Lemma arm_liveness_fields (d : Driver T) :
  d_tracking (arm_liveness d) = d_tracking d /\ d_writer (arm_liveness d) = d_writer d /\
  d_pending (arm_liveness d) = d_pending d /\ d_oneshots (arm_liveness d) = d_oneshots d.
Proof. unfold arm_liveness. by repeat case_match. Qed.

(** The effect of one iteration on the bookkeeping and the writer. *)
Record turn (d d' : Driver T) (routed : list string) : Prop := {
  tn_tracking : tracking_ok (d_shared d') (d_tracking d');
  tn_out : exists out, w_queue (d_writer d') = w_queue (d_writer d) ++ out /\
    Forall (frame_ok (d_shared d)) out /\
    (sh_state (d_shared d) = Handshaking -> Forall plain_frame out) /\
    forall id, occurrences id routed + is_active (d_tracking d) id =
               answers id out + is_active (d_tracking d') id;
  tn_commands : exists pre, ch_queue (sh_commands (d_shared d)) = pre ++ ch_queue (sh_commands (d_shared d'));
  tn_state : sh_state (d_shared d') = Handshaking -> sh_state (d_shared d) = Handshaking;
  tn_tasks : sh_state (d_shared d) = Handshaking -> tk_tasks (d_tracking d) = ∅ ->
    tk_tasks (d_tracking d') = ∅;
  tn_limit : sh_state (d_shared d) = Handshaking \/
    send_limit_bytes (d_shared d') = send_limit_bytes (d_shared d)
}.

(** Iterations that leave requests alone: the queue grows by [out], the tracking is unchanged. *)
Lemma turn_plain (d d' : Driver T) out :
  tracking_ok (d_shared d) (d_tracking d) ->
  d_tracking d' = d_tracking d ->
  core_eq (d_shared d) (d_shared d') \/ d_shared d' = d_shared d ->
  ch_queue (sh_commands (d_shared d')) = ch_queue (sh_commands (d_shared d)) ->
  w_queue (d_writer d') = w_queue (d_writer d) ++ out ->
  Forall (frame_ok (d_shared d)) out -> (sh_state (d_shared d) = Handshaking -> Forall plain_frame out) ->
  (forall id, answers id out = 0) ->
  turn d d' [].
Proof.
  intros Htk Ht Hc Hq Hw Hok Hp Ha.
  assert (core_eq (d_shared d) (d_shared d')) as Hc' by (destruct Hc as [?| ->]; [done|apply core_eq_refl]).
  split.
  - rewrite Ht. eapply tracking_ok_shared; [apply Hc'|apply Hc'|done].
  - exists out. split; [done|]. split; [done|]. split; [done|]. intros id. simpl. rewrite Ha, Ht. lia.
  - exists []. by rewrite Hq.
  - intros Hs. by rewrite <- (ce_state _ _ Hc').
  - intros _ He. by rewrite Ht.
  - right. by apply core_limit.
Qed.

Lemma answers_none id f : response_id f = None -> answers id [f] = 0.
Proof. intros H. simpl. by rewrite H. Qed.

Lemma on_hello_turn (d : Driver T) h :
  tracking_ok (d_shared d) (d_tracking d) -> turn d (set_shared d (on_hello (d_shared d) h).1) [].
Proof.
  intros Htk. unfold on_hello. case_bool_decide as Hst; simpl.
  2:{ eapply (turn_plain _ _ []); auto with mango; simpl; by rewrite ?app_nil_r. }
  destruct (negotiate _ _); simpl; unfold settle_ready; simpl; destruct (sh_ready (d_shared d)); split; simpl;
    auto; try (by eapply tracking_ok_shared; [| |exact Htk]);
    try (exists []; rewrite app_nil_r; split; [done|]; split; [constructor|]; split; [constructor|]; intros; simpl; lia);
    try (by exists []).
Qed.

Lemma on_request_turn (d : Driver T) r :
  live_shared (d_shared d) ->
  tracking_ok (d_shared d) (d_tracking d) -> turn d (on_frame d (FReq r)).1 [req_id r].
Proof.
  intros Hlive Htk. simpl.
  destruct (on_request (d_shared d) (d_tracking d) (d_writer d) r) as [[s tk] w] eqn:E.
  destruct (on_request_step _ _ _ _ _ _ _ Htk E) as (Htk' & out & -> & Hacc & Hs & Herr). simpl.
  assert (Hplain : Forall plain_frame out).
  { eapply Forall_impl; [exact Herr|]. by intros f [e ->]. }
  split; simpl; auto.
  - exists out. split; [done|]. split; [eapply Forall_impl; [exact Herr|]; by intros f [e ->]|].
    split; [done|]. intros id. rewrite Z.add_0_r, <- Hacc. lia.
  - exists []. rewrite Hs. done.
  - rewrite Hs. done.
  - intros Hst. unfold on_request in E. rewrite Hst in E.
    rewrite bool_decide_false in E by done. by injection E as _ <- _.
  - right. by rewrite Hs.
Qed.

Lemma on_settled_turn (d : Driver T) st :
  tracking_ok (d_shared d) (d_tracking d) -> is_Some (tk_tasks (d_tracking d) !! settled_task st) ->
  (sh_state (d_shared d) = Handshaking -> tk_tasks (d_tracking d) = ∅) ->
  turn d (on_branch d (BSettled st)).1 [].
Proof.
  intros Htk Htask Hquiet. simpl.
  destruct (on_handler_settled _ _ _ _) as [[s tk] w] eqn:E.
  destruct (on_settled_step _ _ _ _ _ _ _ Htk Htask E) as (Htk' & f & -> & Hresp & Hacc & Hs & Hok).
  assert (Hbusy : sh_state (d_shared d) <> Handshaking).
  { intros Hst. destruct Htask as [x Hx]. by rewrite (Hquiet Hst) in Hx. }
  split; simpl; auto; try done.
  - exists [f]. split; [done|]. split; [|split; [done|]].
    + constructor; [|constructor]. destruct Hok as [(id & e & ->)|Hok]; [done|].
      by destruct f; destruct Hresp as [? ?].
    + intros id. simpl. specialize (Hacc id). simpl in Hacc. lia.
  - exists []. by rewrite Hs.
  - by rewrite Hs.
  - right. by rewrite Hs.
Qed.

Lemma on_command_turn (d : Driver T) c rest :
  tracking_ok (d_shared d) (d_tracking d) -> ch_queue (sh_commands (d_shared d)) = c :: rest ->
  command_ok (d_shared d) c -> (sh_state (d_shared d) = Handshaking -> plain_command c) ->
  turn d (on_branch d (BCommand c)).1 [].
Proof.
  intros Htk Hq Hok Hp. simpl. set (d0 := set_shared d _).
  assert (Hrest : ch_queue (sh_commands (d_shared d0)) = rest).
  { simpl. unfold ch_recv. by rewrite Hq. }
  assert (Hout : exists out, w_queue (d_writer (on_command d0 c).1) = w_queue (d_writer d) ++ out /\
    Forall (frame_ok (d_shared d)) out /\ (sh_state (d_shared d) = Handshaking -> Forall plain_frame out) /\
    (forall id, answers id out = 0) /\ d_tracking (on_command d0 c).1 = d_tracking d).
  { destruct c as [code reason|f reply|id forget|f]; simpl in *.
    - exists []. rewrite app_nil_r. done.
    - destruct Hok as [[r ->] Hf]. exists [FReq r]. simpl. split; [done|].
      split; [by repeat constructor|]. split; [intros Hst; by apply Hp in Hst|done].
    - exists [FCancel {| cancel_id := id |}]. destruct forget; simpl; (split; [done|]);
        (split; [constructor; [exact Hok|constructor]|]); split; try done; by repeat constructor.
    - exists [f]. split; [done|]. destruct Hok as [->|[[e ->] Hf]].
      + split; [by repeat constructor|]. split; [by repeat constructor|done].
      + split; [by repeat constructor|]. split; [intros Hst; by apply Hp in Hst|done]. }
  destruct Hout as (out & Hw & Hfo & Hpl & Ha & Ht).
  pose proof (on_command_shared d0 c) as Hs.
  split; rewrite ?Hs, ?Ht; auto.
  - eapply tracking_ok_shared; [| |exact Htk]; done.
  - exists out. split; [done|]. split; [done|]. split; [done|]. intros id. rewrite Ha. simpl. lia.
  - exists [c]. by rewrite Hrest.
Qed.

Lemma on_frame_turn (d : Driver T) f :
  live_shared (d_shared d) -> tracking_ok (d_shared d) (d_tracking d) ->
  turn d (on_frame d f).1 (branch_routes (BInbound (Some (IFrame f)))).
Proof.
  intros Hl Htk. destruct f as [h|r|r|e|e|c| | |c].
  - pose proof (on_hello_turn d h Htk) as H. simpl. by destruct (on_hello (d_shared d) h).
  - by apply on_request_turn.
  - eapply (turn_plain _ _ []); auto; simpl; by rewrite ?app_nil_r.
  - eapply (turn_plain _ _ []); auto; simpl; by rewrite ?app_nil_r.
  - eapply (turn_plain _ _ []); auto; simpl; rewrite ?app_nil_r; auto with mango.
    unfold fan_out_event. by repeat case_match.
  - simpl. unfold on_cancel. destruct (tk_active (d_tracking d) !! cancel_id c) as [a|] eqn:Ha.
    + destruct Htk as [? ? ? ? ? ?]. split; simpl; auto; [by split| |by exists []].
      exists []. rewrite app_nil_r. split; [done|]. split; [constructor|]. split; [constructor|].
      intros id. simpl. unfold is_active. simpl. lia.
    + eapply (turn_plain _ _ []); auto; simpl; by rewrite ?app_nil_r.
  - eapply (turn_plain _ _ [FPong]); auto; simpl; try done; by repeat constructor.
  - eapply (turn_plain _ _ []); auto; simpl; rewrite ?app_nil_r; auto with mango.
    unfold fan_out_pong. by repeat case_match.
  - eapply (turn_plain _ _ []); auto; simpl; by rewrite ?app_nil_r.
Qed.

(** Every branch the loop can take. *)
Lemma on_branch_turn (d : Driver T) b :
  live_shared (d_shared d) -> tracking_ok (d_shared d) (d_tracking d) -> branch_ok d b ->
  Forall (command_ok (d_shared d)) (ch_queue (sh_commands (d_shared d))) ->
  (sh_state (d_shared d) = Handshaking ->
     tk_tasks (d_tracking d) = ∅ /\ Forall plain_command (ch_queue (sh_commands (d_shared d)))) ->
  turn d (on_branch d b).1 (branch_routes b).
Proof.
  intros Hl Htk Hb Hcmd Hhs.
  assert (Hsame : turn d d []) by (eapply (turn_plain _ _ []); auto; by rewrite app_nil_r).
  destruct b as [o| | |st|c|[[f|cl]|]]; try exact Hsame.
  - simpl. unfold on_handshake_timeout, settle_ready. destruct (sh_ready (d_shared d)); [by destruct d|].
    destruct Htk as [? ? ? ? ? ?]. split; simpl; auto; [by split| |by exists []].
    exists []. rewrite app_nil_r. split; [done|]. split; [constructor|]. split; [constructor|]. intros; simpl; lia.
  - simpl. unfold on_liveness_tick. destruct (d_awaiting_pong d); [exact Hsame|].
    eapply (turn_plain _ _ [FPing]); auto; simpl; try done; by repeat constructor.
  - apply on_settled_turn; auto. intros Hst. by apply Hhs.
  - destruct Hb as [rest Hq]. apply (on_command_turn d c rest); auto.
    + rewrite Hq in Hcmd. by apply Forall_cons in Hcmd as [? _].
    + intros Hst. destruct (Hhs Hst) as [_ Hp]. rewrite Hq in Hp. by apply Forall_cons in Hp as [? _].
  - by apply on_frame_turn.
Qed.
End turn.

(** ** The calls on handles, at the level of the world *)

Section world.
Context {RT : RustText} {SJ : SerdeJson} {T : Type} {PT : PortTx T}.

Abbreviation shared w := (@d_shared T (@wo_driver T w)).
Abbreviation queue w := (ch_queue (sh_commands (shared w))).

(** What one call does: it queues [cs], and either leaves the awaited calls as they were (a
    poll or a drop changes at most the one it is about) or adds the one it started. *)
Record call (a : Action T) (w w' : World T) (s : Shared) (fs : gmap Reply RequestFuture) (n : Reply)
    (cs : list Command) : Prop := {
  ca_world : w' = set_futures (with_shared w s) fs n;
  ca_sends : sends (shared w) s cs;
  ca_futures :
    (n = wo_next_reply w /\ queued_replies cs = [] /\
     forall r f, fs !! r = Some f -> exists f0, wo_futures w !! r = Some f0 /\ rf_id f = rf_id f0 /\ rf_reply f = rf_reply f0) \/
    (n = S (wo_next_reply w) /\ queued_replies cs = [wo_next_reply w] /\
     sh_state (shared w) = Ready /\
     exists f, fs = <[wo_next_reply w := f]> (wo_futures w) /\ cancel_ok (rf_id f) /\ rf_reply f = wo_next_reply w);
  ca_events :
    s = shared_op (shared w) a \/
    (Forall (fun c => match c with CmdSend _ => False | _ => True end) cs /\
     sh_event_sequences s = sh_event_sequences (shared w))
}.

Lemma lifecycle_ready w remote :
  lifecycle w -> ready (shared w) = Polled (Ok remote) -> sh_state (shared w) <> Handshaking.
Proof.
  unfold lifecycle, ready. intros Hl Hr. destruct (wo_closure w).
  - destruct Hl as [_ -> _ _ _]. done.
  - destruct Hl as [_ _ [(_ & _ & Hd)|(-> & _)]]; [by rewrite Hd in Hr|done].
Qed.

Lemma shared_op_replies s (a : Action T) cs : sends s (shared_op s a) cs -> queued_replies cs = [].
Proof.
  intros (_ & Hq & _). destruct a; simpl in Hq;
    try (apply (f_equal length) in Hq; rewrite length_app in Hq; destruct cs; [done|simpl in Hq; lia]).
  - unfold guard_drop in Hq. assert (cs = []) as ->; [|done].
    repeat case_match; simpl in Hq; apply (f_equal length) in Hq; rewrite length_app in Hq; destruct cs; (done || (simpl in Hq; lia)).
  - unfold ping in Hq. pose proof (send_command_queue s (CmdSend FPing)) as H.
    destruct (send_command s _) as [s' []]; destruct H as [_ H]; simpl in Hq; rewrite H in Hq;
      apply app_inv_head in Hq; by subst.
  - unfold close_now in Hq. pose proof (send_command_queue s (CmdClose code reason)) as H.
    destruct (send_command s _) as [s' []]; destruct H as [_ H]; simpl in Hq; rewrite H in Hq;
      apply app_inv_head in Hq; by subst.
  - unfold emit in Hq. assert (Hnil : ch_queue (sh_commands s) = ch_queue (sh_commands s) ++ cs -> queued_replies cs = []).
    { intros H. apply (f_equal length) in H. rewrite length_app in H. destruct cs; [done|simpl in H; lia]. }
    destruct (negb _); [auto|]. destruct (_ && _); [auto|]. destruct (assert_fits _ _ _); [|auto].
    pose proof (send_command_queue s (CmdSend (event_frame e (default 0 (sh_event_sequences s !! stream_key e))))) as H.
    destruct (send_command s _) as [s' []]; destruct H as [_ H]; simpl in Hq; rewrite H in Hq;
      apply app_inv_head in Hq; by subst.
Qed.

Lemma cancel_no_send cs :
  Forall is_cancel cs -> Forall (fun c => match c with CmdSend _ => False | _ => True end) cs.
Proof. intros H. eapply Forall_impl; [exact H|]. by intros []. Qed.

(** Every action is a call, a turn of the writer or a turn of the loop, a change of the port, or does
    nothing. *)
Lemma act_call w a :
  lifecycle w -> (forall r f, wo_futures w !! r = Some f -> cancel_ok (rf_id f)) ->
  (sh_state (shared w) = Handshaking -> wo_futures w = ∅) ->
  (exists s fs n cs, call a w (act w a) s fs n cs) \/
  act w a = w \/ (exists panics, a = AWriter panics) \/ (exists tx, a = APort tx) \/ exists wk settle, a = ALoop wk settle.
Proof.
  intros Hl Hfut Hhs.
  assert (Hnot : forall r f, wo_futures w !! r = Some f -> sh_state (shared w) <> Handshaking).
  { intros r f Hf Hst. by rewrite (Hhs Hst) in Hf. }
  assert (Hshared : act w a = with_shared w (shared_op (shared w) a) ->
    exists s fs n cs, call a w (act w a) s fs n cs).
  { intros Ha. destruct (shared_op_sends (shared w) a) as [cs Hcs].
    exists (shared_op (shared w) a), (wo_futures w), (wo_next_reply w), cs. split; [by rewrite Ha|done| |by left].
    left. split; [done|]. split; [by eapply shared_op_replies|]. intros r f Hf. by exists f. }
  destruct a; simpl; eauto 12.
  - unfold request_action. destruct (check_method _); [|eauto]. destruct (ready (shared w)) as [|[remote|]] eqn:Hr; eauto.
    pose proof (lifecycle_ready w remote Hl Hr) as Hst.
    pose proof (request_start_seqs (shared w) remote method params timeout (wo_next_reply w)) as Hseq.
    destruct (request_start _ _ _ _ _ _) as [s' r] eqn:E. simpl in Hseq.
    destruct (request_start_sends _ _ _ _ _ _ _ _ Hst E) as (cs & Hcs & Hr').
    left. destruct r as [f|e].
    + destruct Hr' as (Hid & Hrep & _ & req & -> & _). eexists _, _, _, _.
      split; [done|exact Hcs| |right; split; [by repeat constructor|done]]. right.
      split; [done|]. split; [done|]. split; [|by exists f].
      destruct (sh_state (shared w)) eqn:Hst'; [done|done|].
      unfold request_start in E. rewrite Hst' in E. rewrite (bool_decide_true (Closed = Closed)) in E by done.
      by destruct (_ && _).
    + subst cs. eexists _, (wo_futures w), (wo_next_reply w), [].
      split; [done|exact Hcs| |right; split; [constructor|done]]. left.
      split; [done|]. split; [done|]. intros r f Hf. by exists f.
  - unfold poll_action. destruct (wo_futures w !! reply) as [f|] eqn:Hf; [|eauto]. left.
    pose proof (request_poll_seqs (shared w) (d_oneshots (wo_driver w)) f cancelled deadline) as Hseq.
    destruct (request_poll _ _ _ _ _) as [[s f'] r] eqn:E. simpl in Hseq.
    destruct (request_poll_sends _ _ _ _ _ _ _ _ (Hnot _ _ Hf) (Hfut _ _ Hf) E) as ((cs & Hcs & Hr) & Hid & Hrep).
    destruct r; eexists _, _, _, _; (split; [done|exact Hcs| |by right; split; [apply cancel_no_send|]]); left;
      (split; [done|]); (split; [by apply cancel_replies|]).
    + intros x g Hg. apply lookup_insert_Some in Hg as [[<- <-]|[_ Hg]]; [by exists f|by exists g].
    + intros x g Hg. apply lookup_delete_Some in Hg as [_ Hg]. by exists g.
  - unfold drop_action. destruct (wo_futures w !! reply) as [f|] eqn:Hf; [|eauto]. left.
    destruct (request_drop_sends (shared w) f (Hnot _ _ Hf) (Hfut _ _ Hf)) as (cs & Hcs & Hr).
    eexists _, _, _, _. split; [done|exact Hcs| |right; split; [by apply cancel_no_send|apply request_drop_seqs]].
    left. split; [done|]. split; [by apply cancel_replies|].
    intros x g Hg. apply lookup_delete_Some in Hg as [_ Hg]. by exists g.
Qed.

(** ** The traffic invariant *)

Record traffic_ok (w : World T) : Prop := {
  tr_commands : Forall (command_ok (shared w)) (queue w);
  tr_frames : Forall (frame_ok (shared w)) (wo_enqueued w);
  tr_futures : forall r f, wo_futures w !! r = Some f -> cancel_ok (rf_id f);
  tr_handshake : sh_state (shared w) = Handshaking ->
    Forall plain_command (queue w) /\ Forall plain_frame (wo_enqueued w) /\ wo_futures w = ∅ /\
    tk_tasks (d_tracking (wo_driver w)) = ∅;
  tr_tracking : wo_closure w = None -> tracking_ok (shared w) (d_tracking (wo_driver w));
  tr_account : wo_closure w = None -> forall id,
    occurrences id (wo_routed w) = answers id (wo_enqueued w) + is_active (d_tracking (wo_driver w)) id;
  tr_at_most : forall id, answers id (wo_enqueued w) <= occurrences id (wo_routed w)
}.

Lemma call_traffic a w w' s fs n cs : lifecycle w -> traffic_ok w -> call a w w' s fs n cs -> traffic_ok w'.
Proof.
  intros Hl [Hcmd Hfr Hfut Hhs Htk Hacc Hat] [-> (Hc & Hq & Hok & Hp) Hfs _].
  assert (Hlim : send_limit_bytes s = send_limit_bytes (shared w)) by (by apply core_limit).
  split; simpl; auto.
  - rewrite Hq. apply Forall_app. split; (eapply Forall_impl; [eassumption|]); intros c; by apply command_ok_limit.
  - eapply Forall_impl; [exact Hfr|]. intros f. by apply frame_ok_limit.
  - intros r f Hf. destruct Hfs as [(_ & _ & Hold)|(_ & _ & _ & g & -> & Hg & _)].
    + destruct (Hold r f Hf) as (f0 & Hf0 & -> & _). by eapply Hfut.
    + apply lookup_insert_Some in Hf as [[<- <-]|[_ Hf]]; [done|by eapply Hfut].
  - rewrite (ce_state _ _ Hc). intros Hst. destruct (Hhs Hst) as (H1 & H2 & H3 & H4).
    rewrite Hq. split; [apply Forall_app; auto|]. split; [done|]. split; [|done].
    destruct Hfs as [(_ & _ & Hold)|(_ & _ & Hr & _)]; [|congruence].
    apply map_empty. intros r. destruct (fs !! r) eqn:Hf; [|done].
    destruct (Hold _ _ Hf) as (f0 & Hf0 & _). by rewrite H3 in Hf0.
  - intros Hcl. eapply tracking_ok_shared; [apply Hc|apply Hc|auto].
Qed.

Lemma answers_nonneg id fs : 0 <= answers id fs.
Proof. induction fs; simpl; [lia|]. case_bool_decide; lia. Qed.

(** After a turn, and after a teardown, what was true of the log stays true. *)
Lemma turn_traffic w (d' : Driver T) routed :
  lifecycle w -> traffic_ok w -> wo_closure w = None ->
  turn (wo_driver w) d' routed ->
  let enq := wo_enqueued w ++ appended (w_queue (d_writer (wo_driver w))) (w_queue (d_writer d')) in
  Forall (frame_ok (d_shared d')) enq /\
  Forall (command_ok (d_shared d')) (ch_queue (sh_commands (d_shared d'))) /\
  (sh_state (d_shared d') = Handshaking ->
     Forall plain_command (ch_queue (sh_commands (d_shared d'))) /\ Forall plain_frame enq) /\
  (forall id, occurrences id (wo_routed w ++ routed) = answers id enq + is_active (d_tracking d') id).
Proof.
  intros Hl [Hcmd Hfr Hfut Hhs Htk Hacc Hat] Hcl [Htk' (out & Hq & Hok & Hp & Ha) [pre Hpre] Hst Htasks Hlim] enq.
  assert (enq = wo_enqueued w ++ out) as -> by (unfold enq; by rewrite Hq, appended_spec).
  assert (Hsuffix : forall P : Command -> Prop, Forall P (queue w) -> Forall P (ch_queue (sh_commands (d_shared d')))).
  { intros P HP. rewrite Hpre in HP. by apply Forall_app in HP as [_ ?]. }
  split; [|split; [|split]].
  - apply Forall_app. destruct Hlim as [Hs|Hlim].
    + destruct (Hhs Hs) as (_ & H2 & _ & _).
      assert (Hup : forall fs, Forall (frame_ok (shared w)) fs -> Forall plain_frame fs -> Forall (frame_ok (d_shared d')) fs).
      { intros fs H1 H2'. apply Forall_forall. intros f Hf. pose proof (proj1 (Forall_forall _ _) H1 f Hf).
        pose proof (proj1 (Forall_forall _ _) H2' f Hf). by destruct f. }
      split; apply Hup; auto.
    + split; (eapply Forall_impl; [eassumption|]); intros f; by apply frame_ok_limit.
  - destruct Hlim as [Hs|Hlim].
    + destruct (Hhs Hs) as (H1 & _). apply Hsuffix in H1. apply Hsuffix in Hcmd.
      apply Forall_forall. intros c Hc. pose proof (proj1 (Forall_forall _ _) H1 c Hc) as Hpc.
      pose proof (proj1 (Forall_forall _ _) Hcmd c Hc). destruct c; simpl in *; auto; done.
    + eapply Forall_impl; [by apply Hsuffix|]. intros c. by apply command_ok_limit.
  - intros Hs. specialize (Hst Hs). destruct (Hhs Hst) as (H1 & H2 & _). split; [by apply Hsuffix|].
    apply Forall_app. auto.
  - intros id. rewrite occurrences_app, answers_app, Hacc by done. specialize (Ha id). lia.
Qed.

Lemma teardown_limit (d : Driver T) reason settle :
  send_limit_bytes (d_shared (drop_driver (teardown d reason settle).1)) = send_limit_bytes (d_shared d).
Proof.
  unfold teardown. destruct (closing reason) as [[[code text] error] port]. simpl.
  unfold settle_ready. simpl. by destruct (sh_ready (d_shared d)).
Qed.

Lemma is_active_nonneg tk id : 0 <= is_active tk id.
Proof. unfold is_active. case_bool_decide; lia. Qed.

(** One iteration, as the world sees it. *)
Lemma loop_cases w wk settle :
  loop_action w wk settle = w \/
  exists b d' t, select (arm_liveness (wo_driver w)) wk = Some b /\ branch_ok (arm_liveness (wo_driver w)) b /\
    on_branch (arm_liveness (wo_driver w)) b = (d', t) /\ routed_by (wo_driver w) wk = branch_routes b /\
    loop_action w wk settle =
      let routed := wo_routed w ++ branch_routes b in
      let enqueued := wo_enqueued w ++ appended (w_queue (d_writer (wo_driver w))) (w_queue (d_writer d')) in
      match t with
      | None => mkWorld d' None (wo_futures w) (wo_next_reply w) routed enqueued (wo_commands w)
      | Some reason =>
          mkWorld (drop_driver (teardown d' reason settle).1) (Some (teardown d' reason settle).2) (wo_futures w)
            (wo_next_reply w) routed enqueued (wo_commands w)
      end.
Proof.
  unfold loop_action. destruct (wakeups_ok (wo_driver w) wk) eqn:Hw; [|by left].
  unfold loop_turn. destruct (select _ _) as [b|] eqn:Hs; [|by left]. right.
  destruct (on_branch _ b) as [d' t] eqn:Hb. exists b, d', t. split; [done|].
  split; [eapply select_ok; [|exact Hs]; by rewrite wakeups_ok_arm|]. split; [done|].
  assert (routed_by (wo_driver w) wk = branch_routes b) as Hr.
  { unfold routed_by. rewrite Hs. destruct b as [| | | | |[[[]|]|]]; done. }
  split; [done|]. rewrite Hr. destruct t; [|done]. by destruct (teardown d' t settle).
Qed.

Lemma loop_traffic w wk settle :
  lifecycle w -> traffic_ok w -> wo_closure w = None -> traffic_ok (loop_action w wk settle).
Proof.
  intros Hl Hok Hcl. destruct (loop_cases w wk settle) as [->|(b & d' & t & _ & Hb & E & _ & ->)]; [done|].
  set (d0 := arm_liveness (wo_driver w)) in *.
  destruct (arm_liveness_fields (wo_driver w)) as (Ht0 & Hw0 & _ & _). fold d0 in Ht0, Hw0.
  assert (d_shared d0 = shared w) as Hs0 by apply arm_liveness_shared.
  assert (live_shared (shared w)) as Hlive by (unfold lifecycle in Hl; by rewrite Hcl in Hl).
  assert (turn (wo_driver w) d' (branch_routes b)) as Hturn.
  { pose proof Hok as [Hcmd _ _ Hhs Htk _ _].
    assert (turn d0 (on_branch d0 b).1 (branch_routes b)) as H.
    { apply on_branch_turn; rewrite ?Hs0, ?Ht0; auto. intros Hst. destruct (Hhs Hst) as (? & _ & _ & ?). done. }
    rewrite E in H. destruct H. simpl in *. split; rewrite <- ?Hs0, <- ?Ht0, <- ?Hw0; done. }
  destruct (turn_traffic w d' (branch_routes b) Hl Hok Hcl Hturn) as (Hfr & Hcmd & Hhs & Hacc).
  cbv zeta. destruct t as [reason|].
  - pose proof (teardown_limit d' reason settle) as Hlim.
    destruct (teardown d' reason settle) as [d'' c] eqn:Ht. cbn [fst snd] in Hlim |- *.
    destruct (teardown_dead d' reason settle d'' c Ht) as [_ Hst _ _ Hq].
    split; cbn [wo_driver wo_closure wo_futures wo_routed wo_enqueued]; try done.
    + eapply Forall_impl; [exact Hfr|]. intros f. by apply frame_ok_limit.
    + apply Hok.
    + by rewrite Hst.
    + intros id. rewrite Hacc. pose proof (is_active_nonneg (d_tracking d') id). lia.
  - split; simpl; auto.
    + apply Hok.
    + intros Hst. destruct (Hhs Hst) as [? ?]. pose proof (tn_state _ _ _ Hturn Hst) as Hst0.
      destruct (tr_handshake w Hok Hst0) as (_ & _ & ? & ?). split; [done|]. split; [done|]. split; [done|].
      by apply (tn_tasks _ _ _ Hturn).
    + intros _. apply Hturn.
    + intros id. rewrite Hacc. pose proof (is_active_nonneg (d_tracking d') id). lia.
Qed.

Lemma act_traffic w a : lifecycle w -> traffic_ok w -> traffic_ok (act w a).
Proof.
  intros Hl Hok. destruct (act_call w a Hl) as [(s & fs & n & cs & Hca)|[->|[[pn ->]|[[tx ->]|(wk & settle & ->)]]]].
  - apply Hok.
  - intros Hst. by destruct (tr_handshake w Hok Hst) as (_ & _ & ? & _).
  - by eapply call_traffic.
  - done.
  - simpl. destruct (wo_closure w) eqn:Hcl; [done|]. destruct Hok. split; simpl; auto.
  - destruct Hok. split; simpl; auto.
  - simpl. destruct (wo_closure w) eqn:Hcl; [done|]. by apply loop_traffic.
Qed.

Lemma open_traffic port_max tx o settle w : world_open port_max tx o settle = Ok w -> traffic_ok w.
Proof.
  intros [(s & tx' & Hs & ->)|(d & d' & reason & c & Ht & -> & Hrest)]%world_open_cases.
  - destruct (open_shared_opened _ _ _ Hs) as [Hl Hst Hf Hq _ _ Hm Hm1 _ _ _ _].
    split; cbn [wo_driver wo_closure wo_futures wo_routed wo_enqueued open_driver d_shared d_tracking].
    + rewrite Hq. constructor.
    + constructor.
    + intros r f Hr. by rewrite lookup_empty in Hr.
    + intros _. rewrite Hq. by repeat split; constructor.
    + intros _. apply tracking_default_ok; [done|]. by rewrite Hm.
    + intros _ id. unfold is_active. simpl. by rewrite lookup_empty.
    + done.
  - destruct (teardown_dead d reason settle d' c Ht) as [_ Hst _ _ Hq].
    split; cbn [wo_driver wo_closure wo_futures wo_routed wo_enqueued]; done.
Qed.

(** Both invariants, of every world a session can reach. *)
Lemma reachable_ok port_max tx o settle w0 acts :
  world_open port_max tx o settle = Ok w0 ->
  lifecycle (run_actions w0 acts) /\ traffic_ok (run_actions w0 acts).
Proof.
  intros Ho. apply (run_actions_ind (fun w => lifecycle w /\ traffic_ok w)).
  - split; [by eapply world_open_lifecycle|by eapply open_traffic].
  - intros w a [Hl Hok]. split; [by apply act_lifecycle|by apply act_traffic].
Qed.

(** A frame of at most what this side and the peer announced; a peer that announced nothing takes
    16 MiB. *)
Definition within_limits (s : Shared) (f : Frame) : Prop :=
  exists b, to_vec f = Ok b /\ len b <= local_max_frame_bytes (sh_cfg s) /\
    match r ← sh_remote s; l ← rp_limits r; max_frame_bytes l with
    | Some announced => len b <= announced
    | None => len b <= 16 * 1024 * 1024
    end.

Lemma fits_within s f : fits s f -> schema_valid f /\ within_limits s f.
Proof.
  intros H. split; [by eapply fits_valid|]. unfold fits in H.
  destruct (encode_frame_bytes f _) as [b|] eqn:E; [|done].
  apply encode_frame_bytes_Ok in E as (_ & _ & Hb & Hlen). exists b. split; [done|].
  unfold send_limit_bytes in Hlen. split; [lia|].
  destruct (r ← sh_remote s; l ← rp_limits r; max_frame_bytes l); unfold usize_of_u64, DEFAULT_MAX_FRAME_BYTES in Hlen; lia.
Qed.

(** ** Properties *)

(** C1 (response guarantee, spec section 6).  In every run of a session, however handles, handlers,
    writer and peer interleave: for each request id, the requests the driver has routed are
    exactly the answers it has enqueued plus the one it is still working on; and never more
    answers than requests, not even when the session closes in between. *)
Theorem response_guarantee (port_max : option Z) (tx : T) (o : SessionOptions) (settle : gset nat)
    (w0 : World T) (acts : list (Action T)) (id : string) :
  world_open port_max tx o settle = Ok w0 ->
  let w := run_actions w0 acts in
  answers id (wo_enqueued w) <= occurrences id (wo_routed w) /\
  (wo_closure w = None ->
   occurrences id (wo_routed w) = answers id (wo_enqueued w) + is_active (d_tracking (wo_driver w)) id).
Proof.
  intros Ho w. destruct (reachable_ok _ _ _ _ _ acts Ho) as [_ [_ _ _ _ _ Hacc Hat]].
  split; [apply Hat|]. intros Hcl. by apply Hacc.
Qed.

(** C27 (bookkeeping).  While a session runs, its task set, its active map and its reverse lookup
    name the same requests, one task each; the in-flight counter is their number and never
    exceeds the announced ceiling. *)
Theorem tracking_invariant (port_max : option Z) (tx : T) (o : SessionOptions) (settle : gset nat)
    (w0 : World T) (acts : list (Action T)) :
  world_open port_max tx o settle = Ok w0 ->
  let w := run_actions w0 acts in
  wo_closure w = None ->
  tracking_ok (d_shared (wo_driver w)) (d_tracking (wo_driver w)) /\
  0 <= sh_in_flight (d_shared (wo_driver w)) <= cfg_max_in_flight (sh_cfg (d_shared (wo_driver w))).
Proof.
  intros Ho w Hcl. destruct (reachable_ok _ _ _ _ _ acts Ho) as [_ [_ _ _ _ Htk _ _]].
  specialize (Htk Hcl). fold w in Htk. split; [done|]. destruct Htk as [_ _ _ -> ? _]. lia.
Qed.

(** C29 (what goes out).  Every request, response and event a session enqueues is schema-valid and
    within the lower of both announced frame limits, every cancel names a valid id, and the
    writer never carries a [hello] or a [close]; only [err] frames escape the check. *)
Theorem outbound_preflight (port_max : option Z) (tx : T) (o : SessionOptions) (settle : gset nat)
    (w0 : World T) (acts : list (Action T)) :
  world_open port_max tx o settle = Ok w0 ->
  let w := run_actions w0 acts in
  Forall (fun f =>
    match f with
    | FErr _ => True
    | FHello _ | FClose _ => False
    | FPing | FPong | FCancel _ => schema_valid f
    | FReq _ | FRes _ | FEvt _ =>
        schema_valid f /\ within_limits (d_shared (wo_driver w)) f
    end) (wo_enqueued w).
Proof.
  intros Ho w. destruct (reachable_ok _ _ _ _ _ acts Ho) as [_ [_ Hfr _ _ _ _ _]]. fold w in Hfr.
  eapply Forall_impl; [exact Hfr|]. intros f Hf.
  pose proof (fits_within (d_shared (wo_driver w)) f) as Hfit.
  destruct f; simpl in Hf; auto; done.
Qed.
End world.
