(* ===== verification/Replies.v ===== *)
(** * Outbound calls

    Where the reply of a call lives: in the command queue, in the pending map, or settled.  Each
    reply is in exactly one place, so a call is settled at most once, and once the session is
    closed every call has its answer. *)

From S2P Require Import Prelude Json Wire Frame Validate Limits Serde FrameJson Ndjson NdjsonProps Port Session Dispatch DispatchProps Driver Handle System Lifecycle Outbound Responses.
Local Open Scope Z_scope.

Definition pending_replies (p : gmap string PendingRequest) : list Reply :=
  map (fun kv => pr_reply kv.2) (map_to_list p).

Definition settled (os : Oneshots) : list Reply := map fst (map_to_list os).

Lemma elem_of_settled r os : r ∈ settled os <-> is_Some (os !! r).
Proof.
  unfold settled. rewrite list_elem_of_fmap. split.
  - intros ([r' v] & -> & H). apply elem_of_map_to_list in H. by eexists.
  - intros [v H]. exists (r, v). split; [done|]. by apply elem_of_map_to_list.
Qed.

Lemma settled_insert r v os : os !! r = None -> settled (<[r := v]> os) ≡ₚ r :: settled os.
Proof. intros H. unfold settled. by rewrite (map_to_list_insert _ _ _ H). Qed.

Lemma pending_insert id req p : p !! id = None ->
  pending_replies (<[id := req]> p) ≡ₚ pr_reply req :: pending_replies p.
Proof. intros H. unfold pending_replies. by rewrite (map_to_list_insert _ _ _ H). Qed.

Lemma pending_delete id req p : p !! id = Some req ->
  pending_replies p ≡ₚ pr_reply req :: pending_replies (delete id p).
Proof. intros H. unfold pending_replies. by rewrite <- (map_to_list_delete p id req H). Qed.

(** Moving one reply from the pending map to its outcome. *)
Lemma settle_one id req p os v :
  p !! id = Some req -> NoDup (pending_replies p ++ settled os) ->
  os !! pr_reply req = None /\
  pending_replies (delete id p) ++ settled (<[pr_reply req := v]> os) ≡ₚ pending_replies p ++ settled os.
Proof.
  intros Hp Hnd. pose proof (pending_delete id req p Hp) as Hd. rewrite Hd in Hnd.
  cbn [app] in Hnd. apply NoDup_cons in Hnd as [Hnot _].
  assert (os !! pr_reply req = None) as Hos.
  { apply eq_None_not_Some. intros Hs. apply Hnot, elem_of_app. right. by apply elem_of_settled. }
  split; [done|]. rewrite settled_insert, Hd by done. by rewrite <- Permutation_middle.
Qed.

(** Everything still pending fails at teardown. *)
Lemma fail_pending_settled code reason p os :
  NoDup (pending_replies p ++ settled os) ->
  settled (fail_pending code reason p os) ≡ₚ pending_replies p ++ settled os /\
  (forall r v, os !! r = Some v -> fail_pending code reason p os !! r = Some v).
Proof.
  unfold fail_pending, pending_replies. rewrite map_fold_foldr.
  induction (map_to_list p) as [|[id req] l IH]; intros Hnd; simpl in *; [done|].
  apply NoDup_cons in Hnd as [Hnot Hnd]. destruct (IH Hnd) as [Hperm Hkeep].
  assert (foldr (uncurry (fun id request os => <[pr_reply request :=
      OSent (Err (closed_request_error code reason id (pr_method request)))]> os)) os l !! pr_reply req = None) as Hnone.
  { apply eq_None_not_Some. intros Hs. apply Hnot. rewrite <- Hperm. by apply elem_of_settled. }
  split.
  - rewrite settled_insert by done. by rewrite Hperm.
  - intros r v Hr. rewrite lookup_insert_ne; [by apply Hkeep|]. intros <-. apply Hkeep in Hr.
    discriminate (eq_trans (eq_sym Hr) Hnone).
Qed.

Lemma drop_queued_settled q os :
  NoDup (q ++ settled os) ->
  settled (foldr (fun r os => <[r := ODropped]> os) os q) ≡ₚ q ++ settled os /\
  (forall r v, os !! r = Some v -> foldr (fun r os => <[r := ODropped]> os) os q !! r = Some v).
Proof.
  induction q as [|x q IH]; intros Hnd; simpl in *; [done|].
  apply NoDup_cons in Hnd as [Hnot Hnd]. destruct (IH Hnd) as [Hperm Hkeep].
  assert (foldr (fun r os => <[r := ODropped]> os) os q !! x = None) as Hnone.
  { apply eq_None_not_Some. intros Hs. apply Hnot. rewrite <- Hperm. by apply elem_of_settled. }
  split.
  - rewrite settled_insert by done. by rewrite Hperm.
  - intros r v Hr. rewrite lookup_insert_ne; [by apply Hkeep|]. intros <-. apply Hkeep in Hr.
    discriminate (eq_trans (eq_sym Hr) Hnone).
Qed.

Section replies.
Context {RT : RustText} {SJ : SerdeJson} {T : Type} {PT : PortTx T}.

(** All replies a driver knows about, wherever they are. *)
Definition replies (d : Driver T) : list Reply :=
  queued_replies (ch_queue (sh_commands (d_shared d))) ++ pending_replies (d_pending d) ++ settled (d_oneshots d).

(** A step that only moves replies forward: same replies, and no outcome is overwritten. *)
Definition moves (d d' : Driver T) : Prop :=
  replies d' ≡ₚ replies d /\ forall r v, d_oneshots d !! r = Some v -> d_oneshots d' !! r = Some v.

Lemma moves_refl d d' :
  ch_queue (sh_commands (d_shared d')) = ch_queue (sh_commands (d_shared d)) ->
  d_pending d' = d_pending d -> d_oneshots d' = d_oneshots d -> moves d d'.
Proof. intros Hq Hp Ho. unfold moves, replies. by rewrite Hq, Hp, Ho. Qed.

Lemma on_response_moves (d : Driver T) id r :
  NoDup (replies d) -> moves d (set_pending d (on_response (d_pending d) (d_oneshots d) id r)).
Proof.
  intros Hnd. unfold on_response. destruct (d_pending d !! id) as [req|] eqn:Hp; [|by apply moves_refl].
  unfold replies in Hnd. apply NoDup_app in Hnd as (_ & _ & Hnd).
  destruct (settle_one id req (d_pending d) (d_oneshots d) (OSent r) Hp Hnd) as [Hnone Hperm].
  split; [unfold replies; simpl; by rewrite Hperm|]. simpl. intros x v Hx.
  rewrite lookup_insert_ne; [done|]. intros <-. discriminate (eq_trans (eq_sym Hx) Hnone).
Qed.

Lemma forget_moves (d : Driver T) id :
  NoDup (replies d) -> moves d (set_pending d (forget_pending (d_pending d) (d_oneshots d) id)).
Proof.
  intros Hnd. unfold forget_pending. destruct (d_pending d !! id) as [req|] eqn:Hp; [|by apply moves_refl].
  unfold replies in Hnd. apply NoDup_app in Hnd as (_ & _ & Hnd).
  destruct (settle_one id req (d_pending d) (d_oneshots d) ODropped Hp Hnd) as [Hnone Hperm].
  split; [unfold replies; simpl; by rewrite Hperm|]. simpl. intros x v Hx.
  rewrite lookup_insert_ne; [done|]. intros <-. discriminate (eq_trans (eq_sym Hx) Hnone).
Qed.

Lemma forget_lookup p (os : Oneshots) id : (forget_pending p os id).1 !! id = None.
Proof. unfold forget_pending. destruct (p !! id) eqn:E; simpl; [apply lookup_delete_eq|done]. Qed.

Lemma on_command_moves (d : Driver T) c rest :
  NoDup (replies d) -> ch_queue (sh_commands (d_shared d)) = c :: rest ->
  moves d (on_branch d (BCommand c)).1.
Proof.
  intros Hnd Hq. simpl. set (d0 := set_shared d _).
  assert (Hrest : ch_queue (sh_commands (d_shared d0)) = rest) by (simpl; unfold ch_recv; by rewrite Hq).
  assert (Hos : d_oneshots d0 = d_oneshots d) by done. assert (Hpd : d_pending d0 = d_pending d) by done.
  clearbody d0.
  destruct c as [code reason|f reply|id forget|f]; cbn [on_command fst].
  - unfold moves, replies. rewrite Hrest, Hq, Hos, Hpd. done.
  - assert (Hnd' : NoDup (reply :: replies d0)).
    { unfold replies in *. rewrite Hrest, Hos, Hpd. rewrite Hq in Hnd. done. }
    assert (Hperm : replies d ≡ₚ reply :: replies d0).
    { unfold replies. rewrite Hrest, Hos, Hpd, Hq. done. }
    apply NoDup_cons in Hnd' as [Hnot Hnd0].
    assert (Hnone : d_oneshots d !! reply = None).
    { apply eq_None_not_Some. intros Hs. apply Hnot. unfold replies. rewrite !elem_of_app, elem_of_settled, Hos. auto. }
    assert (Hgen : forall d1, replies d1 ≡ₚ reply :: replies d0 ->
      (forall r v, d_oneshots d !! r = Some v -> d_oneshots d1 !! r = Some v) ->
      moves d (set_writer d1 (enqueue (d_writer d1) f))).
    { intros d1 H1 H2. split; [|done]. rewrite Hperm. exact H1. }
    apply Hgen.
    + destruct f; unfold replies; simpl; rewrite ?Hrest;
        try (rewrite settled_insert by (by rewrite Hos); by rewrite <- !Permutation_middle).
      rewrite pending_insert by apply forget_lookup. simpl.
      pose proof (forget_moves d0 (req_id request) Hnd0) as [Hm _]. unfold replies in Hm. simpl in Hm.
      rewrite <- Permutation_middle. apply Permutation_skip. rewrite Hrest in Hm. exact Hm.
    + intros r v Hr. destruct f; simpl; try (rewrite lookup_insert_ne, Hos by
        (intros <-; discriminate (eq_trans (eq_sym Hr) Hnone)); done).
      pose proof (forget_moves d0 (req_id request) Hnd0) as [_ Hk]. apply Hk. by rewrite Hos.
  - assert (Hnd0 : NoDup (replies d0)).
    { unfold replies in *. rewrite Hrest, Hos, Hpd. rewrite Hq in Hnd. done. }
    assert (Hperm : replies d0 = replies d) by (unfold replies; by rewrite Hrest, Hos, Hpd, Hq).
    destruct forget.
    + unfold moves, replies. simpl. rewrite Hrest, Hq, Hos, Hpd. done.
    + pose proof (forget_moves d0 id Hnd0) as [Hm Hk]. unfold moves. rewrite <- Hperm, <- Hos. done.
  - unfold moves, replies. simpl. rewrite Hrest, Hq, Hos, Hpd. done.
Qed.

Lemma on_branch_moves (d : Driver T) b : NoDup (replies d) -> branch_ok d b -> moves d (on_branch d b).1.
Proof.
  intros Hnd Hb. destruct b as [o| | |st|c|[[f|cl]|]]; try (by apply moves_refl).
  - simpl. unfold on_handshake_timeout, settle_ready. simpl. apply moves_refl; simpl; by repeat case_match.
  - simpl. unfold on_liveness_tick. apply moves_refl; by repeat case_match.
  - simpl. destruct (on_settled_shared (d_shared d) (join_task (d_tracking d) (settled_task st)) (d_writer d) st) as [n Hn].
    destruct (on_handler_settled _ _ _ _) as [[s tk] w]. simpl in Hn. subst. by apply moves_refl.
  - destruct Hb as [rest Hq]. by eapply on_command_moves.
  - simpl. destruct f as [h|r|r|e|e|c| | |c]; simpl; try (by apply moves_refl); try (by apply on_response_moves).
    + unfold on_hello, settle_ready. apply moves_refl; by repeat case_match; simplify_eq/=.
    + destruct (on_request_shared (d_shared d) (d_tracking d) (d_writer d) r) as [n Hn].
      destruct (on_request _ _ _ _) as [[s tk] w]. simpl in Hn. subst. by apply moves_refl.
    + apply moves_refl; simpl; try done. unfold fan_out_event. by repeat case_match.
    + apply moves_refl; simpl; try done. unfold fan_out_pong. by repeat case_match.
Qed.

(** Teardown and the end of [run] settle whatever is left. *)
Lemma teardown_moves (d : Driver T) reason settle :
  NoDup (replies d) ->
  moves d (drop_driver (teardown d reason settle).1) /\
  queued_replies (ch_queue (sh_commands (d_shared (drop_driver (teardown d reason settle).1)))) = [] /\
  pending_replies (d_pending (drop_driver (teardown d reason settle).1)) = [].
Proof.
  intros Hnd. unfold teardown. destruct (closing reason) as [[[code text] error] port]. simpl.
  split; [|done]. unfold moves, replies. simpl.
  set (os := fail_pending code text (d_pending d) (d_oneshots d)).
  assert (Hq : sh_commands (settle_ready (set_inner (d_shared d) Closed (sh_remote (d_shared d)))
    (Err (closed_early_error code text))) = sh_commands (d_shared d)) by (unfold settle_ready; by case_match).
  rewrite Hq. unfold replies in Hnd.
  assert (NoDup (pending_replies (d_pending d) ++ settled (d_oneshots d))) as Hnd'
    by (by apply NoDup_app in Hnd as (_ & _ & ?)).
  destruct (fail_pending_settled code text (d_pending d) (d_oneshots d) Hnd') as [Hp Hk]. fold os in Hp, Hk.
  rewrite <- Hp in Hnd.
  destruct (drop_queued_settled _ os Hnd) as [Hp' Hk']. split.
  - change (pending_replies ∅) with (@nil Reply). simpl. rewrite Hp', Hp. done.
  - intros r v Hr. by apply Hk', Hk.
Qed.

(** ** Worlds *)

(** Every reply ever handed out is somewhere, once. *)
Record replies_ok (w : World T) : Prop := {
  ro_all : replies (wo_driver w) ≡ₚ seq 0 (wo_next_reply w);
  ro_futures : forall r f, wo_futures w !! r = Some f -> rf_reply f = r /\ (r < wo_next_reply w)%nat;
  ro_closed : is_Some (wo_closure w) ->
    queued_replies (ch_queue (sh_commands (d_shared (wo_driver w)))) = [] /\
    pending_replies (d_pending (wo_driver w)) = []
}.

Lemma replies_nodup w : replies_ok w -> NoDup (replies (wo_driver w)).
Proof. intros [H _ _]. rewrite H. apply NoDup_seq. Qed.

Definition keeps (w w' : World T) : Prop :=
  forall r v, d_oneshots (wo_driver w) !! r = Some v -> d_oneshots (wo_driver w') !! r = Some v.

Lemma call_replies a w w' s fs n cs :
  lifecycle w -> replies_ok w -> call a w w' s fs n cs -> replies_ok w' /\ keeps w w'.
Proof.
  intros Hl Hro [-> (Hc & Hq & _ & _) Hfs _]. pose proof Hro as [Hall Hf Hcl]. split; [|by intros r v].
  assert (Hqr : queued_replies (ch_queue (sh_commands s)) =
    queued_replies (ch_queue (sh_commands (d_shared (wo_driver w)))) ++ queued_replies cs).
  { rewrite Hq. unfold queued_replies. apply omap_app. }
  split; simpl.
  - unfold replies in *. simpl. rewrite Hqr.
    destruct Hfs as [(-> & -> & _)|(-> & -> & _)]; [by rewrite app_nil_r|].
    rewrite seq_S, <- Hall, <- !app_assoc. apply Permutation_app_head.
    rewrite Permutation_app_comm. by rewrite <- app_assoc.
  - intros r f Hr. destruct Hfs as [(-> & _ & Hold)|(-> & _ & _ & g & -> & _ & Hg)].
    + destruct (Hold r f Hr) as (f0 & Hf0 & _ & ->). by apply Hf.
    + apply lookup_insert_Some in Hr as [[<- <-]|[_ Hr]]; [split; [done|lia]|].
      destruct (Hf r f Hr). split; [done|lia].
  - intros [c Hcl']. destruct Hcl as [Hq0 Hp0]; [by eexists|].
    unfold lifecycle in Hl. rewrite Hcl' in Hl. destruct Hl as [_ _ _ Hr Hqe].
    rewrite (ce_dead _ _ Hc Hr), Hqe. done.
Qed.

Lemma loop_replies w wk settle :
  lifecycle w -> replies_ok w -> wo_closure w = None ->
  replies_ok (loop_action w wk settle) /\ keeps w (loop_action w wk settle).
Proof.
  intros Hl Hro Hcl.
  destruct (loop_cases w wk settle) as [->|(b & d' & t & _ & Hb & E & _ & ->)]; [split; [done|by intros r v]|].
  pose proof (replies_nodup w Hro) as Hnd. pose proof Hro as [Hall Hf _].
  set (d0 := arm_liveness (wo_driver w)) in *.
  destruct (arm_liveness_fields (wo_driver w)) as (_ & _ & Hp0 & Ho0). fold d0 in Hp0, Ho0.
  assert (replies d0 = replies (wo_driver w)) as Hr0.
  { unfold replies. unfold d0 at 1. by rewrite arm_liveness_shared, Hp0, Ho0. }
  rewrite <- Hr0 in Hnd. destruct (on_branch_moves d0 b Hnd Hb) as [Hm Hk]. rewrite E in Hm, Hk. simpl in Hm, Hk.
  rewrite Hr0, Hall in Hm. rewrite Ho0 in Hk. cbv zeta. destruct t as [reason|].
  - assert (NoDup (replies d')) as Hnd' by (rewrite Hm; apply NoDup_seq).
    destruct (teardown_moves d' reason settle Hnd') as ([Hm' Hk'] & Hq & Hp).
    split; [split; cbn [wo_driver wo_closure wo_futures wo_next_reply]; [by rewrite Hm'|done|done]|].
    intros r v Hr. cbn [wo_driver]. by apply Hk', Hk.
  - split; [split; cbn [wo_driver wo_closure wo_futures wo_next_reply]; [done|done|by intros []]|].
    intros r v Hr. cbn [wo_driver]. by apply Hk.
Qed.

Lemma act_replies w a :
  lifecycle w -> traffic_ok w -> replies_ok w -> replies_ok (act w a) /\ keeps w (act w a).
Proof.
  intros Hl Hok Hro. destruct (act_call w a Hl) as [(s & fs & n & cs & Hca)|[->|[[pn ->]|[[tx ->]|(wk & settle & ->)]]]].
  - apply Hok.
  - intros Hst. by destruct (tr_handshake w Hok Hst) as (_ & _ & ? & _).
  - by eapply call_replies.
  - split; [done|by intros r v].
  - simpl. destruct (wo_closure w) eqn:Hcl; [split; [done|by intros r v]|]. destruct Hro as [? ? ?]. split; [split; simpl; auto; by intros []|by intros r v].
  - destruct Hro as [? ? ?]. split; [split; simpl; auto|by intros r v].
  - simpl. destruct (wo_closure w) eqn:Hcl; [split; [done|by intros r v]|]. by apply loop_replies.
Qed.

Lemma open_replies port_max tx o settle w : world_open port_max tx o settle = Ok w -> replies_ok w.
Proof.
  intros [(s & tx' & Hs & ->)|(d & d' & reason & c & Ht & -> & Hq & Hp & Ho & _)]%world_open_cases.
  - pose proof (op_queue _ _ _ (open_shared_opened _ _ _ Hs)) as Hq.
    split; cbn [wo_driver wo_closure wo_futures wo_next_reply].
    + unfold replies. simpl. by rewrite Hq.
    + intros r f Hr. by rewrite lookup_empty in Hr.
    + by intros [].
  - assert (replies d = []) as Hr by (unfold replies; by rewrite Hq, Hp, Ho).
    destruct (teardown_moves d reason settle) as ([Hm _] & Hq' & Hp'); [rewrite Hr; constructor|].
    rewrite Ht in *. cbn [fst] in *. split; cbn [wo_driver wo_closure wo_futures wo_next_reply].
    + by rewrite Hm, Hr.
    + intros r f Hf. by rewrite lookup_empty in Hf.
    + done.
Qed.

Lemma reachable_replies port_max tx o settle w0 acts :
  world_open port_max tx o settle = Ok w0 ->
  lifecycle (run_actions w0 acts) /\ traffic_ok (run_actions w0 acts) /\ replies_ok (run_actions w0 acts).
Proof.
  intros Ho. apply (run_actions_ind (fun w => lifecycle w /\ traffic_ok w /\ replies_ok w)).
  - split; [by eapply world_open_lifecycle|]. split; [by eapply open_traffic|by eapply open_replies].
  - intros w a (Hl & Hok & Hro). split; [by apply act_lifecycle|]. split; [by apply act_traffic|].
    by apply act_replies.
Qed.

(** ** Properties *)

(** C14 (no call hangs).  Once a session has closed, however it closed and whatever was in flight,
    every call still being awaited resolves at its next poll, without sending anything. *)
Theorem no_call_hangs (port_max : option Z) (tx : T) (o : SessionOptions) (settle : gset nat)
    (w0 : World T) (acts : list (Action T)) (r : Reply) (f : RequestFuture) (cancelled deadline : bool) :
  world_open port_max tx o settle = Ok w0 ->
  let w := run_actions w0 acts in
  is_Some (wo_closure w) ->
  wo_futures w !! r = Some f ->
  exists outcome,
    request_poll (d_shared (wo_driver w)) (d_oneshots (wo_driver w)) f cancelled deadline =
    (d_shared (wo_driver w), disarm f (rf_cancel_sent f) false, Polled outcome).
Proof.
  intros Ho w Hcl Hf. destruct (reachable_replies _ _ _ _ _ acts Ho) as (_ & _ & [Hall Hfut Hclosed]).
  fold w in Hall, Hfut, Hclosed. destruct (Hfut r f Hf) as [Hr Hlt]. destruct (Hclosed Hcl) as [Hq Hp].
  assert (r ∈ replies (wo_driver w)) as Hin by (rewrite Hall; apply elem_of_seq; lia).
  unfold replies in Hin. rewrite Hq, Hp in Hin. simpl in Hin. apply elem_of_settled in Hin as [v Hv].
  unfold request_poll, reply_poll. rewrite Hr, Hv. destruct v; eauto.
Qed.

(** Settled once.  A reply that has been settled keeps its outcome for ever: no later frame,
    cancel, timeout or teardown replaces it. *)
Theorem answered_once (port_max : option Z) (tx : T) (o : SessionOptions) (settle : gset nat)
    (w0 : World T) (acts more : list (Action T)) (r : Reply) (v : oneshot) :
  world_open port_max tx o settle = Ok w0 ->
  d_oneshots (wo_driver (run_actions w0 acts)) !! r = Some v ->
  d_oneshots (wo_driver (run_actions w0 (acts ++ more))) !! r = Some v.
Proof.
  intros Ho Hv. unfold run_actions. rewrite foldl_app.
  change (d_oneshots (wo_driver (run_actions (run_actions w0 acts) more)) !! r = Some v).
  pose proof (reachable_replies _ _ _ _ _ acts Ho) as Hok.
  refine (proj2 (run_actions_ind (fun w => (lifecycle w /\ traffic_ok w /\ replies_ok w) /\
    d_oneshots (wo_driver w) !! r = Some v) _ more (conj Hok Hv) _)).
  intros w a [(Hl & Ht & Hr) Hw]. destruct (act_replies w a Hl Ht Hr) as [Hr' Hk].
  split; [|by apply Hk]. split; [by apply act_lifecycle|]. split; [by apply act_traffic|done].
Qed.

(** Correlation.  A [res] or [err] settles exactly the call whose id it carries, with exactly
    its payload; every other call stays as it was, and an id nobody awaits changes nothing. *)
Theorem response_correlates (d : Driver T) (id : string) (f : Frame) (outcome : result Value RemoteError) :
  f = FRes {| res_id := id; res_result := match outcome with Ok v => v | Err _ => Null end |} /\ is_ok outcome = true \/
  (exists p, f = FErr {| err_id := id; err_error := p |} /\ outcome = Err (remote_of_payload p)) ->
  let '(d', t) := on_frame d f in
  t = None /\
  (forall req, d_pending d !! id = Some req -> d_oneshots d' !! pr_reply req = Some (OSent outcome)) /\
  (forall r, (forall req, d_pending d !! id = Some req -> r <> pr_reply req) -> d_oneshots d' !! r = d_oneshots d !! r) /\
  d_pending d' = delete id (d_pending d) /\ d_writer d' = d_writer d.
Proof.
  intros Hf.
  assert (on_frame d f = (set_pending d (on_response (d_pending d) (d_oneshots d) id outcome), None)) as ->.
  { destruct Hf as [[-> Ho]|(p & -> & ->)]; [|done]. by destruct outcome. }
  split; [done|]. unfold on_response. destruct (d_pending d !! id) as [req|] eqn:Hp; simpl.
  - split; [intros ? [= <-]; apply lookup_insert_eq|]. split; [|done].
    intros r Hr. apply lookup_insert_ne. symmetry. by apply Hr.
  - split; [done|]. split; [done|]. split; [|done]. by rewrite delete_id.
Qed.
End replies.
