(* ===== verification/Streams.v ===== *)
(** * Event streams

    The sequence numbers of the events a session emits: per stream key they count from 0 without
    a gap and start over after an [end], in the order the frames reach the writer, and the number
    of open keys stays within its ceiling. *)

From S2P Require Import Prelude Json Wire Frame Validate Limits Serde FrameJson Ndjson NdjsonProps Port Session Dispatch DispatchProps Driver Handle System Lifecycle Outbound Responses.
Local Open Scope Z_scope.

Definition event_key (e : Event) : string := default (evt_topic e) (evt_stream_id e).

(** The number the next event of a key must carry after the events [es]. *)
Definition next_seq (key : string) (es : list Event) : Z :=
  foldl (fun n e => if bool_decide (event_key e = key)
                    then match evt_end e with Some _ => 0 | None => evt_seq e + 1 end
                    else n) 0 es.

(** Every event carries the number its predecessors ask for. *)
Definition numbered (es : list Event) : Prop :=
  forall pre e post, es = pre ++ e :: post -> evt_seq e = next_seq (event_key e) pre.

Definition event_of (f : Frame) : list Event := match f with FEvt e => [e] | _ => [] end.
Definition frame_events (fs : list Frame) : list Event := concat (map event_of fs).
Definition command_event (c : Command) : list Event :=
  match c with CmdSend f | CmdRequest f _ => event_of f | _ => [] end.
Definition command_events (cs : list Command) : list Event := concat (map command_event cs).

Lemma frame_events_app a b : frame_events (a ++ b) = frame_events a ++ frame_events b.
Proof. unfold frame_events. by rewrite map_app, concat_app. Qed.

Lemma command_events_app a b : command_events (a ++ b) = command_events a ++ command_events b.
Proof. unfold command_events. by rewrite map_app, concat_app. Qed.

Lemma next_seq_snoc key es e :
  next_seq key (es ++ [e]) =
  if bool_decide (event_key e = key)
  then match evt_end e with Some _ => 0 | None => evt_seq e + 1 end else next_seq key es.
Proof. unfold next_seq. by rewrite foldl_app. Qed.

Lemma numbered_snoc es e : numbered es -> evt_seq e = next_seq (event_key e) es -> numbered (es ++ [e]).
Proof.
  intros Hn He pre e' post H. destruct (decide (post = [])) as [->|Hne].
  - apply app_inj_tail in H as [-> ->]. done.
  - destruct (exists_last Hne) as (post' & x & ->). rewrite app_comm_cons, app_assoc in H.
    apply app_inj_tail in H as [-> _]. by eapply Hn.
Qed.

Lemma numbered_prefix es rest : numbered (es ++ rest) -> numbered es.
Proof. intros Hn pre e post ->. eapply Hn. by rewrite <- app_assoc. Qed.

Section streams.
Context {RT : RustText} {SJ : SerdeJson}.

(** What one call does to the counters and the command queue. *)
Inductive stream_step (s s' : Shared) (cs : list Command) : Prop :=
| step_quiet : sh_event_sequences s' = sh_event_sequences s -> command_events cs = [] -> stream_step s s' cs
| step_emit (e : EventInput) :
    sh_state s = Ready ->
    let key := stream_key e in
    let seq := default 0 (sh_event_sequences s !! key) in
    cs = [CmdSend (event_frame e seq)] ->
    sh_event_sequences s' =
      (if ei_end e then delete key (sh_event_sequences s) else <[key := seq + 1]> (sh_event_sequences s)) ->
    (is_Some (sh_event_sequences s !! key) \/
     Z.of_nat (size (sh_event_sequences s)) < cfg_max_stream_keys (sh_cfg s)) ->
    stream_step s s' cs.

Lemma queue_same {A} (q cs : list A) : q = q ++ cs -> cs = [].
Proof. intros H. apply (f_equal length) in H. rewrite length_app in H. destruct cs; simpl in *; [done|lia]. Qed.

Lemma send_quiet s c cs :
  ch_queue (sh_commands (send_command s c).1) = ch_queue (sh_commands s) ++ cs -> command_event c = [] ->
  stream_step s (send_command s c).1 cs.
Proof.
  intros Hq Hc. pose proof (send_command_queue s c) as H.
  assert (sh_event_sequences (send_command s c).1 = sh_event_sequences s) as Hs.
  { unfold send_command. by destruct (ch_send _ _). }
  destruct (send_command s c) as [s' ok]. destruct H as [_ H]. simpl in *. rewrite H in Hq.
  apply app_inv_head in Hq as <-. left; [done|]. unfold command_events. destruct ok; simpl; by rewrite ?Hc.
Qed.

Lemma emit_stream s e cs :
  ch_queue (sh_commands (emit s e).1) = ch_queue (sh_commands s) ++ cs -> stream_step s (emit s e).1 cs.
Proof.
  unfold emit. intros Hq. case_bool_decide as Hst; simpl in *; [|apply queue_same in Hq as ->; by left].
  destruct (negb _ && _) eqn:Hlim; simpl in *; [apply queue_same in Hq as ->; by left|].
  destruct (assert_fits _ _ _); simpl in *; [|apply queue_same in Hq as ->; by left].
  pose proof (send_command_queue s (CmdSend (event_frame e (default 0 (sh_event_sequences s !! stream_key e))))) as H.
  destruct (send_command s _) as [s' ok] eqn:Es. destruct H as [_ H].
  destruct ok; simpl in *; rewrite H in Hq; apply app_inv_head in Hq as <-.
  - apply (step_emit _ _ _ e); try done. apply andb_false_iff in Hlim as [Hlim|Hlim]; bools; auto.
  - left; [|done]. unfold send_command in Es. destruct (ch_send _ _). by injection Es as <- _.
Qed.

Lemma shared_op_stream {T} s (a : Action T) cs :
  ch_queue (sh_commands (shared_op s a)) = ch_queue (sh_commands s) ++ cs -> stream_step s (shared_op s a) cs.
Proof.
  intros Hq. destruct a; simpl in *; try (apply queue_same in Hq as ->; by left).
  - assert (sh_event_sequences (guard_drop s g) = sh_event_sequences s /\ sh_commands (guard_drop s g) = sh_commands s)
      as [Hs Hc] by (unfold guard_drop; by repeat case_match).
    rewrite Hc in Hq. apply queue_same in Hq as ->. by left.
  - by apply send_quiet.
  - by apply send_quiet.
  - by apply emit_stream.
Qed.

End streams.

Section turns.
Context {RT : RustText} {SJ : SerdeJson} {T : Type} {PT : PortTx T}.

(** A turn passes events on in order and leaves the counters alone. *)
Definition passes_events (d d' : Driver T) : Prop :=
  (exists out, w_queue (d_writer d') = w_queue (d_writer d) ++ out /\
    frame_events out ++ command_events (ch_queue (sh_commands (d_shared d'))) =
    command_events (ch_queue (sh_commands (d_shared d)))) /\
  sh_event_sequences (d_shared d') = sh_event_sequences (d_shared d) /\
  sh_cfg (d_shared d') = sh_cfg (d_shared d).

Lemma passes_nothing (d d' : Driver T) out :
  w_queue (d_writer d') = w_queue (d_writer d) ++ out -> frame_events out = [] ->
  ch_queue (sh_commands (d_shared d')) = ch_queue (sh_commands (d_shared d)) ->
  sh_event_sequences (d_shared d') = sh_event_sequences (d_shared d) ->
  sh_cfg (d_shared d') = sh_cfg (d_shared d) -> passes_events d d'.
Proof. intros Hw Ho Hq Hs Hc. split; [|done]. exists out. by rewrite Ho, Hq. Qed.

Lemma on_branch_events (d : Driver T) b :
  tracking_ok (d_shared d) (d_tracking d) -> branch_ok d b -> passes_events d (on_branch d b).1.
Proof.
  intros Htk Hb. destruct b as [o| | |st|c|[[f|cl]|]];
    try (eapply (passes_nothing _ _ []); by rewrite ?app_nil_r).
  - simpl. unfold on_handshake_timeout, settle_ready. destruct (sh_ready (d_shared d));
      eapply (passes_nothing _ _ []); by rewrite ?app_nil_r.
  - simpl. unfold on_liveness_tick. destruct (d_awaiting_pong d).
    + eapply (passes_nothing _ _ []); by rewrite ?app_nil_r.
    + by eapply (passes_nothing _ _ [FPing]).
  - simpl. destruct (on_handler_settled _ _ _ _) as [[s tk] w] eqn:E.
    destruct (on_settled_step _ _ _ _ _ _ _ Htk Hb E) as (_ & f & -> & [id Hr] & _ & -> & _).
    eapply (passes_nothing _ _ [f]); try done. by destruct f.
  - destruct Hb as [rest Hq]. cbn [on_branch]. set (d0 := set_shared d _).
    assert (Hrest : ch_queue (sh_commands (d_shared d0)) = rest) by (simpl; unfold ch_recv; by rewrite Hq).
    assert (Hd0 : w_queue (d_writer d0) = w_queue (d_writer d) /\
      sh_event_sequences (d_shared d0) = sh_event_sequences (d_shared d) /\ sh_cfg (d_shared d0) = sh_cfg (d_shared d)) by done.
    clearbody d0. destruct Hd0 as (Hw & Hs & Hc).
    unfold passes_events. rewrite on_command_shared, Hrest, Hs, Hc, Hq. split; [|done].
    destruct c as [code reason|f reply|id forget|f]; simpl.
    + exists []. by rewrite Hw, app_nil_r.
    + exists [f]. split; [destruct f; simpl; by rewrite Hw|]. unfold frame_events, command_events. simpl.
      by rewrite app_nil_r.
    + exists [FCancel {| cancel_id := id |}]. split; [|done]. destruct forget; simpl; by rewrite Hw.
    + exists [f]. split; [by rewrite Hw|]. unfold frame_events, command_events. simpl. by rewrite app_nil_r.
  - simpl. destruct f as [h|r|r|e|e|c| | |c]; simpl; try (eapply (passes_nothing _ _ []); by rewrite ?app_nil_r).
    + unfold on_hello, settle_ready. repeat case_match; simplify_eq/=; eapply (passes_nothing _ _ []); by rewrite ?app_nil_r.
    + destruct (on_request _ _ _ _) as [[s tk] w] eqn:E.
      destruct (on_request_step _ _ _ _ _ _ _ Htk E) as (_ & out & -> & _ & -> & Herr).
      eapply (passes_nothing _ _ out); try done. unfold frame_events. clear E.
      induction Herr as [|f out [e ->] _ IH]; [done|exact IH].
    + eapply (passes_nothing _ _ []); simpl; rewrite ?app_nil_r; try done; unfold fan_out_event; by repeat case_match.
    + by eapply (passes_nothing _ _ [FPong]).
    + eapply (passes_nothing _ _ []); simpl; rewrite ?app_nil_r; try done; unfold fan_out_pong; by repeat case_match.
Qed.

Abbreviation shared w := (@d_shared T (@wo_driver T w)).
Abbreviation queue w := (ch_queue (sh_commands (shared w))).

(** What the counters say, what the log says, and what has reached the writer. *)
Record streams_ok (w : World T) : Prop := {
  st_numbered : numbered (command_events (wo_commands w));
  st_counters : wo_closure w = None -> forall key,
    next_seq key (command_events (wo_commands w)) = default 0 (sh_event_sequences (shared w) !! key);
  st_bound : Z.of_nat (size (sh_event_sequences (shared w))) <= cfg_max_stream_keys (sh_cfg (shared w));
  st_wire : wo_closure w = None ->
    frame_events (wo_enqueued w) ++ command_events (queue w) = command_events (wo_commands w);
  st_prefix : exists rest, frame_events (wo_enqueued w) ++ rest = command_events (wo_commands w)
}.

Lemma call_stream a w w' s fs n cs : call a w w' s fs n cs -> stream_step (shared w) s cs.
Proof.
  intros [_ (_ & Hq & Hcs & _) _ [->|[Hplain Hseq]]]; [by apply shared_op_stream|].
  left; [done|]. unfold command_events. clear Hq Hseq. induction Hplain as [|c cs Hc _ IH]; [done|].
  apply Forall_cons in Hcs as [Hok Hcs]. simpl. rewrite (IH Hcs), app_nil_r.
  destruct c; simpl in *; try done. by destruct Hok as [[r ->] _].
Qed.

Lemma event_frame_key e seq :
  event_of (event_frame e seq) =
    [{| evt_topic := ei_topic e; evt_seq := seq; evt_stream_id := ei_stream_id e;
        evt_payload := ei_payload e; evt_end := if ei_end e then Some TheEnd else None |}].
Proof. done. Qed.

Lemma call_streams a w w' s fs n cs :
  lifecycle w -> streams_ok w -> call a w w' s fs n cs -> streams_ok w'.
Proof.
  intros Hl [Hnum Hcnt Hb Hw Hpre] Hca. pose proof (call_stream _ _ _ _ _ _ _ Hca) as Hstep.
  destruct Hca as [-> (Hc & Hq & _ & _) _ _].
  assert (Happ : wo_commands w ++ appended (queue w) (ch_queue (sh_commands s)) = wo_commands w ++ cs)
    by (by rewrite Hq, appended_spec).
  assert (Hev : command_events (wo_commands w ++ cs) = command_events (wo_commands w) ++ command_events cs)
    by apply command_events_app.
  split; cbn [set_futures with_shared wo_commands wo_closure wo_driver wo_enqueued set_shared d_shared];
    rewrite ?Happ, ?Hev, ?(ce_cfg _ _ Hc), ?Hq, ?command_events_app.
  - destruct Hstep as [_ ->|e Hst key seq -> _ _]; [by rewrite app_nil_r|].
    unfold command_events at 2. simpl. apply numbered_snoc; [done|]. simpl. symmetry. apply Hcnt.
    unfold lifecycle in Hl. destruct (wo_closure w); [|done]. destruct Hl. congruence.
  - intros Hcl k. destruct Hstep as [-> ->|e Hst key seq -> -> _]; [rewrite app_nil_r; by apply Hcnt|].
    unfold command_events at 2. simpl. rewrite next_seq_snoc. simpl.
    change (event_key {| evt_topic := ei_topic e; evt_seq := seq; evt_stream_id := ei_stream_id e;
      evt_payload := ei_payload e; evt_end := if ei_end e then Some TheEnd else None |}) with key.
    destruct (decide (key = k)) as [<-|Hne].
    + rewrite bool_decide_true by done. destruct (ei_end e); [by rewrite lookup_delete_eq|by rewrite lookup_insert_eq].
    + rewrite bool_decide_false by done. rewrite Hcnt by done.
      destruct (ei_end e); [by rewrite lookup_delete_ne|by rewrite lookup_insert_ne].
  - destruct Hstep as [-> _|e Hst key seq _ -> Hroom]; [done|]. destruct (ei_end e).
    + rewrite map_size_delete. case_match; simpl; lia.
    + rewrite map_size_insert. destruct (sh_event_sequences (shared w) !! key) eqn:E; [done|].
      destruct Hroom as [[x Hx]|Hroom]; [congruence|lia].
  - intros Hcl. rewrite app_assoc, Hw by done. done.
  - destruct Hpre as [rest Hrest]. exists (rest ++ command_events cs). by rewrite app_assoc, Hrest.
Qed.

Lemma teardown_cfg (d : Driver T) reason settle :
  sh_cfg (d_shared (drop_driver (teardown d reason settle).1)) = sh_cfg (d_shared d) /\
  sh_event_sequences (d_shared (drop_driver (teardown d reason settle).1)) = ∅.
Proof.
  unfold teardown. destruct (closing reason) as [[[code text] error] port]. simpl.
  unfold settle_ready. simpl. by destruct (sh_ready (d_shared d)).
Qed.

Lemma loop_streams w wk settle :
  lifecycle w -> traffic_ok w -> streams_ok w -> wo_closure w = None -> streams_ok (loop_action w wk settle).
Proof.
  intros Hl Hok [Hnum Hcnt Hb Hw Hpre] Hcl.
  destruct (loop_cases w wk settle) as [->|(b & d' & t & _ & Hbr & E & _ & ->)]; [done|].
  set (d0 := arm_liveness (wo_driver w)) in *.
  destruct (arm_liveness_fields (wo_driver w)) as (Ht0 & Hw0 & _ & _). fold d0 in Ht0, Hw0.
  assert (d_shared d0 = shared w) as Hs0 by apply arm_liveness_shared.
  assert (tracking_ok (d_shared d0) (d_tracking d0)) as Htk by (rewrite Hs0, Ht0; by apply Hok).
  destruct (on_branch_events d0 b Htk Hbr) as ((out & Hq & Hev) & Hseq & Hcfg).
  rewrite E in Hq, Hev, Hseq, Hcfg. cbn [fst] in *. rewrite Hs0 in Hev, Hseq, Hcfg. rewrite Hw0 in Hq.
  assert (Hwire : frame_events (wo_enqueued w ++ out) ++ command_events (ch_queue (sh_commands (d_shared d'))) =
    command_events (wo_commands w)).
  { rewrite frame_events_app, <- app_assoc, Hev. by apply Hw. }
  cbv zeta. rewrite Hq, appended_spec. destruct t as [reason|].
  - destruct (teardown_cfg d' reason settle) as [Hc' He'].
    split; cbn [wo_commands wo_closure wo_driver wo_enqueued]; try done.
    + rewrite He', Hc', Hcfg, map_size_empty.
      pose proof (Nat2Z.is_nonneg (size (sh_event_sequences (shared w)))). lia.
    + eexists. exact Hwire.
  - split; cbn [wo_commands wo_closure wo_driver wo_enqueued]; rewrite ?Hseq, ?Hcfg; auto. by eexists.
Qed.

Lemma act_streams w a : lifecycle w -> traffic_ok w -> streams_ok w -> streams_ok (act w a).
Proof.
  intros Hl Hok Hst. destruct (act_call w a Hl) as [(s & fs & n & cs & Hca)|[->|[[pn ->]|[[tx ->]|(wk & settle & ->)]]]].
  - apply Hok.
  - intros H. by destruct (tr_handshake w Hok H) as (_ & _ & ? & _).
  - by eapply call_streams.
  - done.
  - simpl. destruct (wo_closure w) eqn:Hcl; [done|]. destruct Hst. split; simpl; auto.
  - destruct Hst. split; simpl; auto.
  - simpl. destruct (wo_closure w) eqn:Hcl; [done|]. by apply loop_streams.
Qed.

Lemma open_shared_sequences port_max o s : open_shared port_max o = Ok s -> sh_event_sequences s = ∅.
Proof.
  unfold open_shared. intros (sc & _ & H)%result_bind_Ok.
  apply result_bind_Ok in H as (pc & _ & H). apply result_bind_Ok in H as (mi & _ & H).
  apply result_bind_Ok in H as (mk & _ & H). injection H as <-.
  match goal with |- sh_event_sequences (foldl _ ?s0 _) = _ => generalize (eq_refl (sh_event_sequences s0)); generalize s0 at 1 3 end.
  induction (so_handlers o) as [|x l IH]; intros s0 Hs0; simpl; [done|]. by apply IH.
Qed.

Lemma open_streams port_max tx o settle w : world_open port_max tx o settle = Ok w -> streams_ok w.
Proof.
  intros [(s & tx' & Hs & ->)|(d & d' & reason & c & Ht & -> & Hq & _ & _ & _ & s & Hs & Hcfg)]%world_open_cases.
  - destruct (open_shared_opened _ _ _ Hs) as [_ _ _ Hq _ _ _ _ Hk Hk1 _ _].
    pose proof (open_shared_sequences _ _ _ Hs) as He.
    split; cbn [wo_commands wo_closure wo_driver wo_enqueued open_driver d_shared]; rewrite ?He, ?Hq.
    + by intros [] ? ?.
    + intros _ key. by rewrite lookup_empty.
    + rewrite Hk, map_size_empty. lia.
    + done.
    + by exists [].
  - destruct (teardown_cfg d reason settle) as [Hc He]. rewrite Ht in Hc, He. cbn [fst] in Hc, He.
    split; cbn [wo_commands wo_closure wo_driver wo_enqueued]; try done.
    + by intros [] ? ?.
    + destruct (open_shared_opened _ _ _ Hs) as [_ _ _ _ _ _ _ _ Hk Hk1 _ _].
      rewrite He, Hc, Hcfg, Hk, map_size_empty. lia.
    + by exists [].
Qed.

(** ** Properties *)


(** [emit].  Every outcome of one call, in the order of the code: nothing happens before the
    handshake; a new key past the ceiling is refused; a frame that fails the preflight is refused;
    otherwise the event is queued with the next number of its key.  A refusal spends no number and
    no key. *)
Theorem emit_outcomes (s : Shared) (e : EventInput) :
  let key := stream_key e in
  let seq := default 0 (sh_event_sequences s !! key) in
  let full := negb (bool_decide (is_Some (sh_event_sequences s !! key))) &&
              (cfg_max_stream_keys (sh_cfg s) <=? Z.of_nat (size (sh_event_sequences s))) in
  match emit s e with
  | (s', Ok true) =>
      sh_state s = Ready /\ full = false /\ fits s (event_frame e seq) /\
      ch_queue (sh_commands s') = ch_queue (sh_commands s) ++ [CmdSend (event_frame e seq)] /\
      sh_event_sequences s' !! key = (if ei_end e then None else Some (seq + 1)) /\
      (forall k, k <> key -> sh_event_sequences s' !! k = sh_event_sequences s !! k)
  | (s', Ok false) =>
      (sh_state s <> Ready \/ ch_receiver (sh_commands s) = false) /\
      sh_event_sequences s' = sh_event_sequences s /\ ch_queue (sh_commands s') = ch_queue (sh_commands s)
  | (s', Err error) =>
      s' = s /\ sh_state s = Ready /\
      (full = true /\ error = stream_key_error key (cfg_max_stream_keys (sh_cfg s)) \/
       full = false /\ ~ fits s (event_frame e seq) /\
       assert_fits s (event_frame e seq) ("Event " +:+ quoted (ei_topic e)) = Err error)
  end.
Proof.
  cbv zeta. unfold emit. case_bool_decide as Hst; simpl; [|by auto].
  destruct (negb _ && _) eqn:Hfull; [by auto|].
  destruct (assert_fits s _ _) as [[]|error] eqn:Hfit.
  2:{ split; [done|]. split; [done|]. right. split; [done|]. split; [|done].
      intros Hf. rewrite <- (assert_fits_Ok _ _ ("Event " +:+ quoted (ei_topic e))) in Hf. congruence. }
  apply assert_fits_Ok in Hfit.
  set (c := CmdSend _). pose proof (send_command_queue s c) as Hq.
  assert (sh_event_sequences (send_command s c).1 = sh_event_sequences s) as Hs.
  { unfold send_command. by destruct (ch_send _ _). }
  destruct (send_command s c) as [s' ok]. simpl in Hs. destruct Hq as [-> Hq].
  destruct (ch_receiver (sh_commands s)); simpl.
  - split; [done|]. split; [done|]. split; [done|]. split; [done|].
    destruct (ei_end e); simpl.
    + split; [apply lookup_delete_eq|]. intros k Hk. by rewrite lookup_delete_ne.
    + split; [apply lookup_insert_eq|]. intros k Hk. by rewrite lookup_insert_ne.
  - rewrite Hq, app_nil_r. auto.
Qed.
End turns.
