(* ===== verification/Closing.v ===== *)
(** * Teardown, step by step

    [session/teardown.rs] awaits the writer task and the handlers' grace, and other threads run
    between any two of its statements.  [Driver.teardown] takes it as one action; here it is a
    machine that takes one statement at a time, with the calls of any number of handles, the writer
    task and the peer in between.

    A call that looks at the state and then acts may be overtaken: [request_with] and [emit] are cut
    at that point, and the second half may come at any time. *)

From S2P Require Import Prelude Json Wire Frame Validate Limits Serde FrameJson Ndjson NdjsonProps Port Session Dispatch DispatchProps Driver Handle System Lifecycle Outbound Responses Replies.
Local Open Scope Z_scope.

(** Which statement comes next, in the numbering of the source's comments. *)
Inductive Stage : Type :=
| Flip        (* 2: the state *)
| Flush       (* 3: the writer, then the port *)
| FailReady   (* 4 *)
| FailPending (* 5: one request per turn of the loop *)
| CancelAll   (* 6 *)
| ClearSequences | ClearEvents | ClearPongs (* 7 *)
| Grace       (* 8: one joined task per turn of the loop *)
| Publish     (* 9 *)
| Return      (* the end of [run] *)
| Returned.

Global Instance Stage_eq_dec : EqDecision Stage.
Proof. solve_decision. Defined.

(** What the driver's task does next; where the code has a choice, which. *)
Inductive Move : Type :=
| MNext                   (* the statement of this stage, if it can run *)
| MFail (id : string)     (* [pending.drain()] yields this request *)
| MJoin (task : nat)      (* [join_next] yields this handler task *)
| MGraceOver.             (* the grace period has elapsed and no task is ready *)

Record Closing (T : Type) : Type := mkClosing
  { cl_world : World T; cl_reason : Teardown; cl_stage : Stage }.
Arguments mkClosing {T}.
Arguments cl_world {T} c.
Arguments cl_reason {T} c.
Arguments cl_stage {T} c.

(** One thing that may happen while a session closes. *)
Inductive Occurrence (T : Type) : Type :=
| EMove (m : Move)
| ECall (a : Action T)
| ELateRequest (method : string) (params : Value) (timeout : option Duration)
| ELateEmit (e : EventInput).
Arguments EMove {T} m.
Arguments ECall {T} a.
Arguments ELateRequest {T} method params timeout.
Arguments ELateEmit {T} e.

Section closing.
Context {RT : RustText} {SJ : SerdeJson} {T : Type} {PT : PortTx T}.

(** ** The second halves *)

(** [request_with] from the id on. *)
Definition request_send (s : Shared) (method : string) (params : Value) (timeout : option Duration) (reply : Reply) :
    Shared * result RequestFuture RemoteError :=
  let '(s, id) := next_request_id s in
  let frame := FReq {| req_id := id; req_method := method; req_params := params |} in
  match assert_fits s frame ("Request " +:+ quoted method) with
  | Err error => (s, Err error)
  | Ok _ =>
      let '(s, ok) := send_command s (CmdRequest frame reply) in
      if ok then
        (s, Ok {| rf_id := id; rf_method := method; rf_reply := reply; rf_timeout := timeout;
                  rf_cancel_sent := false; rf_armed := true |})
      else (s, Err (driver_gone_error method))
  end.

Lemma request_start_split s remote method params timeout reply :
  request_start s remote method params timeout reply =
  if is_reserved_method_name method && negb (is_defined_reserved_method method (rp_effective_minor remote))
  then (s, Err (undefined_minor_error method (rp_effective_minor remote)))
  else if bool_decide (sh_state s = Closed) then (s, Err (unavailable s method))
  else request_send s method params timeout reply.
Proof. done. Qed.

(** [emit] from the lock on the sequences on. *)
Definition emit_send (s : Shared) (e : EventInput) : Shared * result bool RemoteError :=
  let key := stream_key e in
  let sequences := sh_event_sequences s in
  let limit := cfg_max_stream_keys (sh_cfg s) in
  if negb (bool_decide (is_Some (sequences !! key))) && (limit <=? Z.of_nat (size sequences)) then
    (s, Err (stream_key_error key limit))
  else
    let seq := default 0 (sequences !! key) in
    let frame := event_frame e seq in
    match assert_fits s frame ("Event " +:+ quoted (ei_topic e)) with
    | Err error => (s, Err error)
    | Ok _ =>
        let '(s, ok) := send_command s (CmdSend frame) in
        if negb ok then (s, Ok false)
        else
          (set_event_sequences s
             (if ei_end e then delete key sequences else <[key := seq + 1]> sequences), Ok true)
    end.

Lemma emit_split s e :
  emit s e = if negb (bool_decide (sh_state s = Ready)) then (s, Ok false) else emit_send s e.
Proof. done. Qed.

(** ** The machine *)

Definition set_world_driver (w : World T) (d : Driver T) : World T :=
  mkWorld d (wo_closure w) (wo_futures w) (wo_next_reply w) (wo_routed w) (wo_enqueued w) (wo_commands w).

Definition set_tracking (d : Driver T) (tk : RequestTracking) : Driver T :=
  set_dispatch d (d_shared d) tk (d_writer d).

Definition closure_of (reason : Teardown) (unfinished : Z) : SessionClosure :=
  let '(code, reason_text, error, _) := closing reason in
  {| sc_code := code; sc_reason := reason_text; sc_fatal := is_fatal_close_code code; sc_error := error;
     sc_unfinished_handlers := unfinished |}.

(** The writer when [shut_down] has returned: the task is over, its queue sent or lost with it. *)
Definition shut_writer (reason : Teardown) (wr : Writer T) : Writer T :=
  let '(code, reason_text, _, close_port) := closing reason in
  {| w_tx := if negb (w_gone wr) && close_port then port_close (w_tx wr) code reason_text else w_tx wr;
     w_queue := []; w_report := w_report wr; w_gone := w_gone wr |}.

(** The driver after a statement, and the stage it leads to; [None] when it cannot run. *)
Definition teardown_step (d : Driver T) (reason : Teardown) (st : Stage) (m : Move) : option (Driver T * Stage) :=
  let '(code, reason_text, error, close_port) := closing reason in
  let s := d_shared d in
  let tk := d_tracking d in
  match st, m with
  | Flip, MNext => Some (set_shared d (set_inner s Closed (sh_remote s)), Flush)
  | Flush, MNext =>
      if w_gone (d_writer d) || bool_decide (w_queue (d_writer d) = [])
      then Some (set_writer d (shut_writer reason (d_writer d)), FailReady) else None
  | FailReady, MNext => Some (set_shared d (settle_ready s (Err (closed_early_error code reason_text))), FailPending)
  | FailPending, MFail id =>
      match d_pending d !! id with
      | Some request =>
          let error := closed_request_error code reason_text id (pr_method request) in
          Some (set_pending d (delete id (d_pending d), <[pr_reply request := OSent (Err error)]> (d_oneshots d)), FailPending)
      | None => None
      end
  | FailPending, MNext => if bool_decide (d_pending d = ∅) then Some (d, CancelAll) else None
  | CancelAll, MNext =>
      Some (set_tracking d (mkTracking (tk_tasks tk) ∅ (tk_by_task_id tk) (active_tokens tk ∪ tk_cancelled tk) (tk_next tk)),
            ClearSequences)
  | ClearSequences, MNext => Some (set_shared d (set_event_sequences s ∅), ClearEvents)
  | ClearEvents, MNext =>
      Some (set_shared d (set_event_subs s [] (clear_subs (sh_event_subscribers s) (sh_event_channels s)) (sh_next_channel s)),
            ClearPongs)
  | ClearPongs, MNext =>
      Some (set_shared d (set_pong_subs s [] (clear_subs (sh_pong_subscribers s) (sh_pong_channels s)) (sh_next_channel s)),
            Grace)
  | Grace, MJoin t =>
      match tk_tasks tk !! t with
      | Some _ =>
          Some (set_tracking d (mkTracking (delete t (tk_tasks tk)) (tk_active tk) (tk_by_task_id tk) (tk_cancelled tk) (tk_next tk)),
                Grace)
      | None => None
      end
  | Grace, MNext => if bool_decide (tk_tasks tk = ∅) then Some (d, Publish) else None
  | Grace, MGraceOver => Some (d, Publish)
  | Publish, MNext => Some (set_shared d (set_closure s (Some (closure_of reason (Z.of_nat (size (tk_tasks tk)))))), Return)
  | Return, MNext => Some (drop_driver d, Returned)
  | _, _ => None
  end.

(** [run] has returned once the driver is dropped. *)
Definition move (c : Closing T) (m : Move) : Closing T :=
  let w := cl_world c in
  match teardown_step (wo_driver w) (cl_reason c) (cl_stage c) m with
  | None => c
  | Some (d, st) =>
      let closure := if bool_decide (st = Returned) then sh_closure (d_shared d) else wo_closure w in
      mkClosing (mkWorld d closure (wo_futures w) (wo_next_reply w) (wo_routed w) (wo_enqueued w) (wo_commands w))
        (cl_reason c) st
  end.

Definition late_request (w : World T) (method : string) (params : Value) (timeout : option Duration) : World T :=
  let reply := wo_next_reply w in
  let '(s', r) := request_send (d_shared (wo_driver w)) method params timeout reply in
  let w := with_shared w s' in
  match r with
  | Ok f => set_futures w (<[reply := f]> (wo_futures w)) (S reply)
  | Err _ => w
  end.

(** The writer task runs until [shut_down] has seen its end; the driver's loop is over. *)
Definition runs (st : Stage) (a : Action T) : bool :=
  match a with
  | AWriter _ => bool_decide (st = Flip) || bool_decide (st = Flush)
  | ALoop _ _ => false
  | _ => true
  end.

Definition happen (c : Closing T) (e : Occurrence T) : Closing T :=
  match e with
  | EMove m => move c m
  | ECall a => if runs (cl_stage c) a then mkClosing (act (cl_world c) a) (cl_reason c) (cl_stage c) else c
  | ELateRequest method params timeout =>
      mkClosing (late_request (cl_world c) method params timeout) (cl_reason c) (cl_stage c)
  | ELateEmit e =>
      mkClosing (with_shared (cl_world c) (emit_send (d_shared (wo_driver (cl_world c))) e).1) (cl_reason c) (cl_stage c)
  end.

Definition happens (c : Closing T) (es : list (Occurrence T)) : Closing T := foldl happen c es.

(** The turn of the loop that ends it. *)
Definition begin_teardown (w : World T) (wk : Wakeups) : option (Closing T) :=
  let d := wo_driver w in
  match wo_closure w with
  | Some _ => None
  | None =>
      if wakeups_ok d wk then
        match loop_turn d wk with
        | Some (d', Some reason) =>
            Some (mkClosing (mkWorld d' None (wo_futures w) (wo_next_reply w) (wo_routed w ++ routed_by d wk)
              (wo_enqueued w ++ appended (w_queue (d_writer d)) (w_queue (d_writer d'))) (wo_commands w)) reason Flip)
        | _ => None
        end
      else None
  end.

(** The atomic action is this turn, and then [teardown] at once. *)
Lemma loop_begins w wk settle c :
  begin_teardown w wk = Some c ->
  act w (ALoop wk settle) =
    let '(d, closure) := teardown (wo_driver (cl_world c)) (cl_reason c) settle in
    mkWorld (drop_driver d) (Some closure) (wo_futures (cl_world c)) (wo_next_reply (cl_world c)) (wo_routed (cl_world c))
      (wo_enqueued (cl_world c)) (wo_commands (cl_world c)).
Proof.
  unfold begin_teardown. cbn [act]. destruct (wo_closure w); [done|]. unfold loop_action.
  destruct (wakeups_ok _ _); [|done]. destruct (loop_turn _ _) as [[d' [reason|]]|]; [|done|done]. by intros [= <-].
Qed.
End closing.
