(* ===== verification/ClosingProps.v ===== *)
(** * What closing guarantees, whoever interferes

    The steps of [Closing.v] with nobody in between are [Driver.teardown].  In every interleaving
    the driver gets through them, the closure is published after everything else is done, and no
    call is left waiting. *)

From S2P Require Import Prelude Json Wire Frame Validate Limits Serde FrameJson Ndjson NdjsonProps Port Session Dispatch DispatchProps Driver Handle System Lifecycle Outbound Responses Replies Closing.
Local Open Scope Z_scope.

(** ** One step is the sum of its statements *)

(** Distinct pending requests have distinct replies. *)
Lemma pending_distinct p i j a b :
  NoDup (pending_replies p) -> p !! i = Some a -> p !! j = Some b -> i <> j -> pr_reply a <> pr_reply b.
Proof.
  intros Hnd Hi Hj Hij Heq. rewrite (pending_delete i a p Hi) in Hnd. apply NoDup_cons in Hnd as [Hnot _]. apply Hnot.
  unfold pending_replies. rewrite Heq. apply list_elem_of_fmap. exists (j, b). split; [done|].
  apply elem_of_map_to_list. by rewrite lookup_delete_ne.
Qed.

(** The order in which [drain] yields the requests does not matter. *)
Lemma fail_one code text p os id req :
  NoDup (pending_replies p) -> p !! id = Some req ->
  fail_pending code text p os =
  fail_pending code text (delete id p)
    (<[pr_reply req := OSent (Err (closed_request_error code text id (pr_method req)))]> os).
Proof.
  intros Hnd Hid. unfold fail_pending. set (f := fun id request (os : Oneshots) => _).
  rewrite (map_fold_delete_L f os id req p); [|intros j1 j2 z1 z2 y Hj H1 H2; subst f; simpl|done].
  - symmetry. apply (map_fold_comm_acc_strong (=) f (f id req)); [solve_proper|].
    intros j z y Hj. subst f. simpl. apply insert_insert_ne. apply lookup_delete_Some in Hj as [Hne Hj].
    by eapply (pending_distinct p j id).
  - apply insert_insert_ne. by eapply (pending_distinct p j1 j2).
Qed.

Section steps.
Context {RT : RustText} {SJ : SerdeJson} {T : Type} {PT : PortTx T}.

Lemma happens_app (c : Closing T) es es' : happens c (es ++ es') = happens (happens c es) es'.
Proof. apply foldl_app. Qed.

Lemma happens_nil (c : Closing T) : happens c [] = c.
Proof. done. Qed.

Lemma happens_move (c : Closing T) m es : happens c (EMove m :: es) = happens (move c m) es.
Proof. done. Qed.

(** A move that does not return leaves the rest of the world alone. *)
Lemma move_step (w : World T) reason st0 m d st :
  teardown_step (wo_driver w) reason st0 m = Some (d, st) -> st <> Returned ->
  move (mkClosing w reason st0) m = mkClosing (set_world_driver w d) reason st.
Proof. intros H Hst. unfold move. cbn [cl_world cl_reason cl_stage]. rewrite H. by rewrite bool_decide_false. Qed.

(** The writer task sends what is queued, one frame a turn. *)
Lemma writer_drains (w : World T) reason n :
  wo_closure w = None -> w_gone (d_writer (wo_driver w)) = false -> n = length (w_queue (d_writer (wo_driver w))) ->
  exists report,
    happens (mkClosing w reason Flush) (repeat (ECall (AWriter false)) n) =
    mkClosing (set_world_driver w (set_writer (wo_driver w)
      {| w_tx := foldl (fun tx f => (port_send tx f).1) (w_tx (d_writer (wo_driver w))) (w_queue (d_writer (wo_driver w)));
         w_queue := []; w_report := report; w_gone := false |})) reason Flush.
Proof.
  revert w. induction n as [|n IH]; intros w Hcl Hg Hn.
  - exists (w_report (d_writer (wo_driver w))). destruct w as [d cl fs nr ro en co]. destruct d as [s p tk wr os a b l aw].
    destruct wr as [tx [|] rp g]; simpl in *; [by subst|done].
  - destruct w as [d cl fs nr ro en co]. simpl in Hcl. subst cl. destruct d as [s p tk wr os a b l aw].
    destruct wr as [tx [|f q] rp g]; simpl in *; [done|]. subst g. injection Hn as Hn.
    unfold happens. cbn [repeat foldl]. cbn [happen runs cl_stage cl_world cl_reason act wo_closure wo_driver d_writer writer_turn w_queue w_gone w_tx].
    destruct (port_send tx f) as [tx' o] eqn:E. cbn [fst].
    match goal with |- context [foldl happen (mkClosing ?w0 _ _) _] => specialize (IH w0 eq_refl eq_refl Hn) as [report IH] end.
    exists report. unfold happens in IH. by rewrite IH.
Qed.

(** [drain()] yielding the requests in any order. *)
Lemma drains (ids : list string) : forall (w : World T) reason,
  NoDup (pending_replies (d_pending (wo_driver w))) -> NoDup ids ->
  (forall id, id ∈ ids <-> is_Some (d_pending (wo_driver w) !! id)) ->
  happens (mkClosing w reason FailPending) (map (fun id => EMove (MFail id)) ids) =
  mkClosing (set_world_driver w (set_pending (wo_driver w)
    (∅, fail_pending (closing reason).1.1.1 (closing reason).1.1.2 (d_pending (wo_driver w)) (d_oneshots (wo_driver w)))))
    reason FailPending.
Proof.
  induction ids as [|id ids IH]; intros w reason Hnd Hids Hdom.
  - assert (Hp : d_pending (wo_driver w) = ∅).
    { apply map_empty. intros i. apply eq_None_not_Some. intros Hi. apply Hdom in Hi. by apply not_elem_of_nil in Hi. }
    rewrite Hp. destruct w as [[] ? ? ? ? ? ?]. simpl in *. by subst.
  - apply NoDup_cons in Hids as [Hnot Hids].
    destruct (proj1 (Hdom id)) as [req Hreq]; [by left|].
    unfold happens. cbn [map foldl happen move cl_world cl_stage cl_reason]. unfold move, teardown_step. cbn [cl_world cl_stage cl_reason].
    destruct (closing reason) as [[[code text] error] port] eqn:Ec. rewrite Hreq. rewrite bool_decide_false by done.
    match goal with |- foldl happen (mkClosing ?w0 _ _) _ = _ => specialize (IH w0 reason) end.
    cbn [wo_driver d_pending set_pending fst snd] in IH. unfold happens in IH. rewrite Ec in IH. rewrite IH.
    + rewrite (fail_one _ _ _ _ id req Hnd Hreq). done.
    + rewrite (pending_delete id req _ Hreq) in Hnd. by apply NoDup_cons in Hnd as [_ ?].
    + done.
    + intros i. destruct (decide (i = id)) as [->|Hne].
      * rewrite lookup_delete_eq. split; [done|by intros []].
      * rewrite lookup_delete_ne by done. rewrite <- Hdom, elem_of_cons. naive_solver.
Qed.

(** [join_next] yielding tasks in any order. *)
Lemma joins (ts : list nat) : forall (w : World T) reason,
  NoDup ts -> (forall t, t ∈ ts -> is_Some (tk_tasks (d_tracking (wo_driver w)) !! t)) ->
  let tk := d_tracking (wo_driver w) in
  happens (mkClosing w reason Grace) (map (fun t => EMove (MJoin t)) ts) =
  mkClosing (set_world_driver w (set_tracking (wo_driver w)
    (mkTracking (filter (fun kv => kv.1 ∉ (list_to_set ts : gset nat)) (tk_tasks tk)) (tk_active tk) (tk_by_task_id tk) (tk_cancelled tk) (tk_next tk))))
    reason Grace.
Proof.
  induction ts as [|t ts IH]; intros w reason Hts Hin tk.
  - rewrite map_filter_id by (intros; set_solver). destruct w as [[] ? ? ? ? ? ?]. subst tk. simpl. by destruct d_tracking.
  - apply NoDup_cons in Hts as [Hnot Hts]. destruct (Hin t) as [call Hcall]; [by left|].
    unfold happens. cbn [map foldl happen move cl_world cl_stage cl_reason]. unfold move, teardown_step. cbn [cl_world cl_stage cl_reason].
    destruct (closing reason) as [[[code text] error] port] eqn:Ec. rewrite Hcall. rewrite bool_decide_false by done.
    match goal with |- foldl happen (mkClosing ?w0 _ _) _ = _ => specialize (IH w0 reason Hts) end.
    unfold happens in IH. rewrite IH; clear IH.
    + subst tk. simpl. unfold set_world_driver, set_tracking, set_dispatch. simpl. do 4 f_equal.
      apply map_eq. intros i. apply option_eq. intros x. rewrite !map_lookup_filter_Some, lookup_delete_Some.
      cbn [fst]. set_unfold. naive_solver.
    + intros t' Ht'. cbn [wo_driver d_tracking set_tracking set_dispatch tk_tasks]. rewrite lookup_delete_ne; [|by intros ->].
      apply Hin. by right.
Qed.

(** The statements of a teardown nobody interferes with: the writer sends its queue, [drain] yields
    [ids], the tasks [ts] are joined before the grace is over. *)
Definition alone (d : Driver T) (ids : list string) (ts : list nat) : list (Occurrence T) :=
  [EMove MNext] ++ repeat (ECall (AWriter false)) (length (w_queue (d_writer d))) ++ [EMove MNext; EMove MNext] ++
  map (fun id => EMove (MFail id)) ids ++ repeat (EMove MNext) 5 ++
  map (fun t => EMove (MJoin t)) ts ++ [EMove MGraceOver; EMove MNext; EMove MNext].

(** A world but for what its writer would have reported: the receiver of that report is gone. *)
Definition with_report (w : World T) (report : option SendOutcome) : World T :=
  let wr := d_writer (wo_driver w) in
  set_world_driver w (set_writer (wo_driver w)
    {| w_tx := w_tx wr; w_queue := w_queue wr; w_report := report; w_gone := w_gone wr |}).

(** The flush, whether or not the task is still there. *)
Lemma flushes (w : World T) reason :
  wo_closure w = None ->
  exists report,
    happens (mkClosing w reason Flush) (repeat (ECall (AWriter false)) (length (w_queue (d_writer (wo_driver w)))) ++ [EMove MNext]) =
    mkClosing (set_world_driver w (set_writer (wo_driver w)
      {| w_tx := match shut_down (d_writer (wo_driver w)) with
                 | Some tx => if (closing reason).2 then port_close tx (closing reason).1.1.1 (closing reason).1.1.2 else tx
                 | None => w_tx (d_writer (wo_driver w))
                 end;
         w_queue := []; w_report := report; w_gone := w_gone (d_writer (wo_driver w)) |})) reason FailReady.
Proof.
  intros Hcl. rewrite happens_app. destruct (w_gone (d_writer (wo_driver w))) eqn:Hg.
  - exists (w_report (d_writer (wo_driver w))).
    assert (Hno : forall n, happens (mkClosing w reason Flush) (repeat (ECall (AWriter false)) n) = mkClosing w reason Flush).
    { induction n as [|n IH]; [done|]. unfold happens. cbn [repeat foldl happen runs cl_stage cl_world cl_reason act].
      destruct w as [d cl fs nr ro en co]. destruct d as [s p tk [tx q rp g] os a b l aw]. simpl in *. subst.
      destruct q; exact IH. }
    rewrite Hno. unfold happens. cbn [foldl happen]. unfold move, teardown_step, shut_down, shut_writer. cbn [cl_stage cl_world cl_reason].
    destruct (closing reason) as [[[code text] error] port]. by rewrite Hg.
  - destruct (writer_drains w reason _ Hcl Hg eq_refl) as [report Hw]. exists report. rewrite Hw.
    unfold happens. cbn [foldl happen]. unfold move, teardown_step, shut_down, shut_writer. cbn [cl_stage cl_world cl_reason].
    destruct (closing reason) as [[[code text] error] port]. by rewrite Hg.
Qed.

(** The statements with nothing to wait for. *)
Lemma step_flip (d : Driver T) reason :
  teardown_step d reason Flip MNext = Some (set_shared d (set_inner (d_shared d) Closed (sh_remote (d_shared d))), Flush).
Proof. unfold teardown_step. by destruct (closing reason) as [[[]]]. Qed.

Lemma step_ready (d : Driver T) reason :
  teardown_step d reason FailReady MNext =
  Some (set_shared d (settle_ready (d_shared d) (Err (closed_early_error (closing reason).1.1.1 (closing reason).1.1.2))), FailPending).
Proof. unfold teardown_step. by destruct (closing reason) as [[[]]]. Qed.

Lemma step_fail (d : Driver T) reason id req :
  d_pending d !! id = Some req ->
  teardown_step d reason FailPending (MFail id) =
  Some (set_pending d (delete id (d_pending d),
    <[pr_reply req := OSent (Err (closed_request_error (closing reason).1.1.1 (closing reason).1.1.2 id (pr_method req)))]> (d_oneshots d)),
    FailPending).
Proof. intros Hid. unfold teardown_step. destruct (closing reason) as [[[]]]. cbn [fst snd]. by rewrite Hid. Qed.

Lemma step_drained (d : Driver T) reason : d_pending d = ∅ -> teardown_step d reason FailPending MNext = Some (d, CancelAll).
Proof. intros Hp. unfold teardown_step. rewrite Hp. by destruct (closing reason) as [[[]]]. Qed.

Lemma step_cancel (d : Driver T) reason :
  let tk := d_tracking d in
  teardown_step d reason CancelAll MNext =
  Some (set_tracking d (mkTracking (tk_tasks tk) ∅ (tk_by_task_id tk) (active_tokens tk ∪ tk_cancelled tk) (tk_next tk)), ClearSequences).
Proof. unfold teardown_step. by destruct (closing reason) as [[[]]]. Qed.

Lemma step_sequences (d : Driver T) reason :
  teardown_step d reason ClearSequences MNext = Some (set_shared d (set_event_sequences (d_shared d) ∅), ClearEvents).
Proof. unfold teardown_step. by destruct (closing reason) as [[[]]]. Qed.

Lemma step_events (d : Driver T) reason :
  let s := d_shared d in
  teardown_step d reason ClearEvents MNext =
  Some (set_shared d (set_event_subs s [] (clear_subs (sh_event_subscribers s) (sh_event_channels s)) (sh_next_channel s)), ClearPongs).
Proof. unfold teardown_step. by destruct (closing reason) as [[[]]]. Qed.

Lemma step_pongs (d : Driver T) reason :
  let s := d_shared d in
  teardown_step d reason ClearPongs MNext =
  Some (set_shared d (set_pong_subs s [] (clear_subs (sh_pong_subscribers s) (sh_pong_channels s)) (sh_next_channel s)), Grace).
Proof. unfold teardown_step. by destruct (closing reason) as [[[]]]. Qed.

Lemma step_grace_over (d : Driver T) reason : teardown_step d reason Grace MGraceOver = Some (d, Publish).
Proof. unfold teardown_step. by destruct (closing reason) as [[[]]]. Qed.

Lemma step_publish (d : Driver T) reason :
  teardown_step d reason Publish MNext =
  Some (set_shared d (set_closure (d_shared d) (Some (closure_of reason (Z.of_nat (size (tk_tasks (d_tracking d))))))), Return).
Proof. unfold teardown_step. by destruct (closing reason) as [[[]]]. Qed.

Lemma step_return (d : Driver T) reason : teardown_step d reason Return MNext = Some (drop_driver d, Returned).
Proof. unfold teardown_step. by destruct (closing reason) as [[[]]]. Qed.

(** From the last pending request to the grace. *)
Lemma settles_rest (w : World T) reason :
  d_pending (wo_driver w) = ∅ ->
  let d := wo_driver w in
  let s := d_shared d in
  let tk := d_tracking d in
  happens (mkClosing w reason FailPending) (repeat (EMove MNext) 5) =
  mkClosing (set_world_driver w
    (set_dispatch d
      (set_pong_subs (set_event_subs (set_event_sequences s ∅) [] (clear_subs (sh_event_subscribers s) (sh_event_channels s))
         (sh_next_channel s)) [] (clear_subs (sh_pong_subscribers s) (sh_pong_channels s)) (sh_next_channel s))
      (mkTracking (tk_tasks tk) ∅ (tk_by_task_id tk) (active_tokens tk ∪ tk_cancelled tk) (tk_next tk)) (d_writer d)))
    reason Grace.
Proof.
  intros Hp d s tk. cbn [repeat]. do 5 rewrite happens_move. rewrite happens_nil.
  rewrite (move_step _ _ _ _ _ _ (step_drained _ _ Hp)) by done. rewrite (move_step _ _ _ _ _ _ (step_cancel _ _)) by done.
  rewrite (move_step _ _ _ _ _ _ (step_sequences _ _)) by done. rewrite (move_step _ _ _ _ _ _ (step_events _ _)) by done.
  by rewrite (move_step _ _ _ _ _ _ (step_pongs _ _)).
Qed.

(** From the end of the grace to the end of [run]. *)
Lemma returns (w : World T) reason :
  let d := wo_driver w in
  let closure := closure_of reason (Z.of_nat (size (tk_tasks (d_tracking d)))) in
  happens (mkClosing w reason Grace) [EMove MGraceOver; EMove MNext; EMove MNext] =
  mkClosing (mkWorld (drop_driver (set_shared d (set_closure (d_shared d) (Some closure)))) (Some closure) (wo_futures w)
    (wo_next_reply w) (wo_routed w) (wo_enqueued w) (wo_commands w)) reason Returned.
Proof.
  intros d closure. do 3 rewrite happens_move. rewrite happens_nil.
  rewrite (move_step _ _ _ _ _ _ (step_grace_over _ _)) by done. rewrite (move_step _ _ _ _ _ _ (step_publish _ _)) by done.
  unfold move. cbn [cl_world cl_reason cl_stage]. by rewrite step_return.
Qed.

Lemma alone_is_teardown (w : World T) reason ids ts :
  wo_closure w = None -> NoDup (pending_replies (d_pending (wo_driver w))) ->
  NoDup ids -> (forall id, id ∈ ids <-> is_Some (d_pending (wo_driver w) !! id)) ->
  NoDup ts -> (forall t, t ∈ ts -> is_Some (tk_tasks (d_tracking (wo_driver w)) !! t)) ->
  exists report,
    happens (mkClosing w reason Flip) (alone (wo_driver w) ids ts) =
    mkClosing (with_report
      (let '(d, closure) := teardown (wo_driver w) reason (list_to_set ts) in
       mkWorld (drop_driver d) (Some closure) (wo_futures w) (wo_next_reply w) (wo_routed w) (wo_enqueued w) (wo_commands w))
      report) reason Returned.
Proof.
  intros Hcl Hnd Hids Hdom Hts Hin. unfold alone.
  destruct (closing reason) as [[[code text] error] port] eqn:Ec.
  rewrite happens_app. change (happens (mkClosing w reason Flip) [EMove MNext]) with (move (mkClosing w reason Flip) MNext).
  rewrite (move_step _ _ _ _ _ _ (step_flip _ _)) by done. set (w1 := set_world_driver w _).
  change (w_queue (d_writer (wo_driver w))) with (w_queue (d_writer (wo_driver w1))).
  change [EMove MNext; EMove MNext] with ([EMove MNext] ++ [EMove (T := T) MNext]). rewrite <- !app_assoc.
  rewrite (app_assoc (repeat _ _)), happens_app. destruct (flushes w1 reason) as [report ->]; [done|]. exists report.
  rewrite happens_app, happens_move, happens_nil.
  rewrite (move_step _ _ _ _ _ _ (step_ready _ _)) by done.
  rewrite happens_app. rewrite drains; [|done..]. cbn [cl_world cl_reason].
  rewrite happens_app, settles_rest by done.
  rewrite happens_app. rewrite joins; [|done..]. rewrite returns.
  unfold with_report, teardown, closure_of. cbn [wo_driver set_world_driver]. rewrite Ec. reflexivity.
Qed.
End steps.

(** ** Subscriptions *)

(** A subscription's stream goes on exactly as long as its sender is in the list. *)
Definition subscribed {A} (subs : list nat) (chs : gmap nat (channel A)) : Prop :=
  forall n ch, chs !! n = Some ch -> ch_senders ch = true -> n ∈ subs.

Definition subs_ok (s : Shared) : Prop :=
  subscribed (sh_event_subscribers s) (sh_event_channels s) /\ subscribed (sh_pong_subscribers s) (sh_pong_channels s).

Lemma fan_out_subscribed {A} (item : A) subs : forall chs (P : nat -> Prop),
  (forall n ch, chs !! n = Some ch -> ch_senders ch = true -> P n \/ n ∈ subs) ->
  forall n ch, (fan_out item subs chs).2 !! n = Some ch -> ch_senders ch = true -> P n \/ n ∈ (fan_out item subs chs).1.
Proof.
  induction subs as [|c subs IH]; intros chs P H; [done|]. cbn [fan_out].
  destruct (chs !! c) as [ch|] eqn:Ec.
  - destruct (ch_send ch item) as [ch' ok].
    destruct (fan_out item subs _) as [kept chs'] eqn:E. intros n x Hn Hx. cbn [fst snd] in *.
    specialize (IH (<[c:=if ok then ch' else drop_senders ch']> chs) (fun m => P m \/ ok = true /\ m = c)). rewrite E in IH. cbn [fst snd] in IH.
    destruct (IH) with (n := n) (ch := x) as [[?|[-> ->]]|Hk]; [|done|done|by left|right; by left|right; destruct ok; [by right|done]].
    intros m y Hm Hy. apply lookup_insert_Some in Hm as [[<- <-]|[Hne Hm]].
    + destruct ok; [left; by right|done].
    + destruct (H m y Hm Hy) as [?|[->|?]%elem_of_cons]; [by left; left|done|by right].
  - apply IH. intros m y Hm Hy. destruct (H m y Hm Hy) as [?|[->|?]%elem_of_cons]; [by left|congruence|by right].
Qed.

(** [clear()] ends every stream there was. *)
Lemma clear_subs_ended {A} subs (chs : gmap nat (channel A)) n ch :
  subscribed subs chs -> clear_subs subs chs !! n = Some ch -> ch_senders ch = false.
Proof.
  intros Hs. assert (Hgo : forall l, clear_subs l chs !! n = Some ch ->
    exists ch0, chs !! n = Some ch0 /\ (ch = ch0 /\ n ∉ l \/ ch_senders ch = false)).
  { induction l as [|c l IH] in ch |- *; cbn [clear_subs foldr]; [intros H; exists ch; split; [done|]; left; split; [done|apply not_elem_of_nil]|].
    fold (clear_subs l chs). intros H. destruct (decide (c = n)) as [->|Hne].
    - rewrite lookup_alter_eq in H. destruct (clear_subs l chs !! n) as [ch1|] eqn:E1; [|done]. injection H as <-.
      destruct (IH _ eq_refl) as (ch0 & H0 & _). exists ch0. split; [done|]. by right.
    - rewrite lookup_alter_ne in H by done. destruct (IH _ H) as (ch0 & H0 & [[-> Hn]|Hf]); exists ch0; (split; [done|]); [left|by right].
      split; [done|]. rewrite elem_of_cons. naive_solver. }
  intros H. destruct (Hgo subs H) as (ch0 & H0 & [[-> Hn]|Hf]); [|done].
  destruct (ch_senders ch0) eqn:E; [|done]. destruct Hn. by eapply Hs.
Qed.

(** What a call does to the subscriptions: nothing, or one more. *)
Inductive subs_step (s s' : Shared) : Prop :=
| subs_same :
    sh_event_subscribers s' = sh_event_subscribers s -> sh_event_channels s' = sh_event_channels s ->
    sh_pong_subscribers s' = sh_pong_subscribers s -> sh_pong_channels s' = sh_pong_channels s ->
    sh_next_channel s' = sh_next_channel s -> subs_step s s'
| subs_event : s' = (subscribe_events s).1 -> subs_step s s'
| subs_pong : s' = (subscribe_pongs s).1 -> subs_step s s'.

Lemma subs_step_refl s : subs_step s s.
Proof. by constructor. Qed.

Lemma subs_step_ok s s' : subs_step s s' -> subs_ok s -> subs_ok s'.
Proof.
  assert (Hadd : forall A subs (chs : gmap nat (channel A)) c, subscribed subs chs -> subscribed (subs ++ [c]) (<[c := unbounded_channel]> chs)).
  { intros A subs chs c H n ch Hn Hc. apply lookup_insert_Some in Hn as [[<- _]|[_ Hn]]; apply elem_of_app; [right; by left|left; by eapply H]. }
  intros [H1 H2 H3 H4 _| -> | ->] [Hev Hpo]; unfold subs_ok; [by rewrite H1, H2, H3, H4|split; [by apply Hadd|done]|split; [done|by apply Hadd]].
Qed.

(** An older subscription is not reopened. *)
Lemma subs_step_older s s' n :
  subs_step s s' -> (n < sh_next_channel s)%nat ->
  sh_event_channels s' !! n = sh_event_channels s !! n /\ sh_pong_channels s' !! n = sh_pong_channels s !! n /\
  (n < sh_next_channel s')%nat.
Proof.
  intros [_ H2 _ H4 H5| -> | ->] Hn; [by rewrite H2, H4, H5|..]; cbn;
    (split; [by rewrite ?lookup_insert_ne by lia|split; [by rewrite ?lookup_insert_ne by lia|lia]]).
Qed.

(** ** What a call does *)

(** A call on the shared state: the driver's part is left alone, and it queues requests with the
    replies [rs]. *)
Record quiet (s s' : Shared) (rs : list Reply) : Prop := {
  qu_core : core_eq s s';
  qu_replies : queued_replies (ch_queue (sh_commands s')) = queued_replies (ch_queue (sh_commands s)) ++ rs;
  qu_subs : subs_step s s'
}.

Lemma quiet_refl s : quiet s s [].
Proof. split; [apply core_eq_refl|by rewrite app_nil_r|apply subs_step_refl]. Qed.

(** A change of what only handles look at. *)
Lemma quiet_same s s' : core_eq s s' -> sh_commands s' = sh_commands s -> subs_step s s' -> quiet s s' [].
Proof. intros Hc Hq Hs. split; [done|by rewrite Hq, app_nil_r|done]. Qed.

Lemma quiet_send s c :
  quiet s (send_command s c).1
    (if ch_receiver (sh_commands s) then match c with CmdRequest _ reply => [reply] | _ => [] end else []).
Proof.
  split; [apply send_command_core| |by unfold send_command; destruct (ch_send _ _); constructor].
  pose proof (send_command_queue s c) as Hq. destruct (send_command s c) as [s' ok]. destruct Hq as [-> Hq]. simpl.
  rewrite Hq. unfold queued_replies. rewrite omap_app. by destruct (ch_receiver _), c.
Qed.

Lemma quiet_send_plain s c : (forall f r, c <> CmdRequest f r) -> quiet s (send_command s c).1 [].
Proof. intros Hc. pose proof (quiet_send s c) as H. destruct (ch_receiver _); [|done]. destruct c; naive_solver. Qed.

(** Two changes, at most one of which queues or subscribes. *)
Lemma quiet_after s s1 s' rs : core_eq s s1 -> sh_commands s1 = sh_commands s ->
  sh_event_subscribers s1 = sh_event_subscribers s -> sh_event_channels s1 = sh_event_channels s ->
  sh_pong_subscribers s1 = sh_pong_subscribers s -> sh_pong_channels s1 = sh_pong_channels s ->
  sh_next_channel s1 = sh_next_channel s ->
  quiet s1 s' rs -> subs_step s s' -> quiet s s' rs.
Proof. intros Hc Hq ? ? ? ? ? [Hc' Hr' _] Hs. split; [by etrans|by rewrite Hr', Hq|done]. Qed.

(** The reply a request queued, if it did. *)
Definition sent_reply {A E} (r : result A E) (reply : Reply) : list Reply :=
  match r with Ok _ => [reply] | Err _ => [] end.

Section calls.
Context {RT : RustText} {SJ : SerdeJson} {T : Type} {PT : PortTx T}.

Lemma quiet_emit_send s e : quiet s (emit_send s e).1 [].
Proof.
  unfold emit_send. destruct (_ && _); [apply quiet_refl|]. destruct (assert_fits _ _ _); [|apply quiet_refl].
  set (c := CmdSend _). pose proof (quiet_send_plain s c ltac:(done)) as [Hc Hr Hs].
  destruct (send_command s c) as [s1 ok] eqn:E. simpl in *. destruct ok; [|by split].
  assert (Hs1 : s1 = set_commands s (sh_commands s1)) by (unfold send_command in E; destruct (ch_send _ _); by injection E as <- _).
  split; [etrans; [exact Hc|apply set_event_sequences_core]|exact Hr|]. rewrite Hs1. by constructor.
Qed.

Lemma quiet_request_send s method params timeout reply :
  let r := request_send s method params timeout reply in
  quiet s r.1 (sent_reply r.2 reply) /\
  match r.2 with Ok f => rf_reply f = reply | Err _ => True end.
Proof.
  unfold request_send. cbn [next_request_id]. set (s0 := set_request_sequence s _).
  assert (H0 : quiet s s0 []) by (apply quiet_same; [apply set_request_sequence_core|done|by constructor]).
  destruct (assert_fits s0 _ _); [|done]. set (c := CmdRequest _ _).
  pose proof (quiet_send s0 c) as [Hc Hr Hs]. pose proof (send_command_queue s0 c) as Hok.
  destruct (send_command s0 c) as [s1 ok] eqn:E. destruct Hok as [Hok _]. simpl in *. rewrite <- Hok in Hr.
  assert (Hs1 : s1 = set_commands s0 (sh_commands s1)) by (unfold send_command in E; destruct (ch_send _ _); by injection E as <- _).
  assert (quiet s s1 (if ok then [reply] else [])) as Hq.
  { split; [etrans; [apply H0|exact Hc]|exact Hr|]. rewrite Hs1. by constructor. }
  by destruct ok.
Qed.

Lemma quiet_shared_op s (a : Action T) : quiet s (shared_op s a) [].
Proof.
  destruct a; try apply quiet_refl; cbn [shared_op].
  - apply quiet_same; [apply set_handlers_core|done|by constructor].
  - apply quiet_same; [apply guard_drop_core|unfold guard_drop; by repeat case_match|].
    unfold guard_drop; repeat case_match; by constructor.
  - apply quiet_same; [apply set_event_subs_core|done|by apply subs_event].
  - apply quiet_same; [apply set_pong_subs_core|done|by apply subs_pong].
  - by apply quiet_send_plain.
  - by apply quiet_send_plain.
  - rewrite emit_split. case_bool_decide; simpl; [apply quiet_emit_send|apply quiet_refl].
Qed.

Lemma quiet_trans s s1 s2 rs :
  quiet s s1 [] -> quiet s1 s2 rs ->
  (sh_event_subscribers s1, sh_event_channels s1, sh_pong_subscribers s1, sh_pong_channels s1, sh_next_channel s1) =
  (sh_event_subscribers s, sh_event_channels s, sh_pong_subscribers s, sh_pong_channels s, sh_next_channel s) ->
  (sh_event_subscribers s2, sh_event_channels s2, sh_pong_subscribers s2, sh_pong_channels s2, sh_next_channel s2) =
  (sh_event_subscribers s1, sh_event_channels s1, sh_pong_subscribers s1, sh_pong_channels s1, sh_next_channel s1) ->
  quiet s s2 rs.
Proof.
  intros [Hc Hr _] [Hc' Hr' _] H1 H2. split; [by etrans|by rewrite Hr', Hr, app_nil_r|].
  injection H1; injection H2; intros. constructor; congruence.
Qed.

Lemma quiet_request_poll s os f c dl : quiet s (request_poll s os f c dl).1.1 [].
Proof.
  assert (Hsub : forall s c, let s1 := (send_command s c).1 in
    (sh_event_subscribers s1, sh_event_channels s1, sh_pong_subscribers s1, sh_pong_channels s1, sh_next_channel s1) =
    (sh_event_subscribers s, sh_event_channels s, sh_pong_subscribers s, sh_pong_channels s, sh_next_channel s))
    by (intros s0 c0; unfold send_command; by destruct (ch_send _ _)).
  unfold request_poll. destruct (reply_poll s os f); [|apply quiet_refl].
  destruct (c && _); destruct (dl && _); simpl; try apply quiet_refl; try (by apply quiet_send_plain).
  eapply (quiet_trans _ (send_command s (CmdCancel (rf_id f) true)).1); [by apply quiet_send_plain|by apply quiet_send_plain|apply Hsub|apply Hsub].
Qed.

Lemma quiet_request_drop s f : quiet s (request_drop s f) [].
Proof. unfold request_drop. destruct (rf_armed f); [by apply quiet_send_plain|apply quiet_refl]. Qed.

(** What anything but the driver's own task does to a session. *)
Record called (w w' : World T) : Prop := {
  cd_shared : exists rs, quiet (d_shared (wo_driver w)) (d_shared (wo_driver w')) rs /\
    (rs = [] /\ wo_next_reply w' = wo_next_reply w \/ rs = [wo_next_reply w] /\ wo_next_reply w' = S (wo_next_reply w));
  cd_pending : d_pending (wo_driver w') = d_pending (wo_driver w);
  cd_tracking : d_tracking (wo_driver w') = d_tracking (wo_driver w);
  cd_oneshots : d_oneshots (wo_driver w') = d_oneshots (wo_driver w);
  cd_queue : (length (w_queue (d_writer (wo_driver w'))) <= length (w_queue (d_writer (wo_driver w))))%nat;
  cd_futures : forall r f, wo_futures w' !! r = Some f ->
    rf_reply f = r /\ r = wo_next_reply w /\ wo_next_reply w' = S (wo_next_reply w) \/
    exists f0, wo_futures w !! r = Some f0 /\ rf_reply f = rf_reply f0;
  cd_closure : wo_closure w' = wo_closure w
}.

Lemma called_refl (w : World T) : called w w.
Proof. split; try done; [exists []; split; [apply quiet_refl|by left]|right; by exists f]. Qed.

Lemma called_shared (w : World T) s : quiet (d_shared (wo_driver w)) s [] -> called w (with_shared w s).
Proof. intros H. split; try done; [exists []; split; [done|by left]|right; by exists f]. Qed.

(** A request that got as far as its oneshot. *)
Lemma called_request (w : World T) s (r : result RequestFuture RemoteError) :
  quiet (d_shared (wo_driver w)) s (sent_reply r (wo_next_reply w)) ->
  match r with Ok f => rf_reply f = wo_next_reply w | Err _ => True end ->
  called w
    (match r with
     | Ok f => set_futures (with_shared w s) (<[wo_next_reply w := f]> (wo_futures (with_shared w s))) (S (wo_next_reply w))
     | Err _ => with_shared w s
     end).
Proof.
  intros Hq Hr. destruct r as [f|e]; [|by apply called_shared].
  split; try done; [exists [wo_next_reply w]; split; [done|by right]|].
  intros r f0 Hf. cbn in Hf. apply lookup_insert_Some in Hf as [[<- <-]|[_ Hf]]; [by left|right; by exists f0].
Qed.

Lemma called_late_request (w : World T) method params timeout : called w (late_request w method params timeout).
Proof.
  unfold late_request. pose proof (quiet_request_send (d_shared (wo_driver w)) method params timeout (wo_next_reply w)) as [Hq Hr].
  destruct (request_send _ _ _ _ _) as [s r]. by apply (called_request w s r).
Qed.

Lemma called_act (w : World T) a : (forall wk settle, a <> ALoop wk settle) -> called w (act w a).
Proof.
  intros Ha. destruct a; try (apply called_shared, quiet_shared_op); cbn [act].
  - unfold request_action. destruct (check_method method); [|apply called_refl].
    destruct (ready _) as [|[remote|]]; try apply called_refl. rewrite request_start_split.
    destruct (_ && _); [apply called_shared, quiet_refl|]. case_bool_decide; [apply called_shared, quiet_refl|].
    pose proof (quiet_request_send (d_shared (wo_driver w)) method params timeout (wo_next_reply w)) as [Hq Hr].
    destruct (request_send _ _ _ _ _) as [s r]. by apply (called_request w s r).
  - unfold poll_action. destruct (wo_futures w !! reply) as [f|] eqn:Ef; [|apply called_refl].
    pose proof (quiet_request_poll (d_shared (wo_driver w)) (d_oneshots (wo_driver w)) f cancelled deadline) as Hq.
    assert (Hf' : rf_reply (request_poll (d_shared (wo_driver w)) (d_oneshots (wo_driver w)) f cancelled deadline).1.2 = rf_reply f)
      by (unfold request_poll; by repeat case_match).
    destruct (request_poll _ _ _ _ _) as [[s f'] [|r]]; cbn [fst snd] in *;
      (split; try done; [exists []; split; [done|by left]|]); cbn; intros r0 f0 Hr0.
    + apply lookup_insert_Some in Hr0 as [[<- <-]|[_ Hr0]]; right; [by exists f|by exists f0].
    + apply lookup_delete_Some in Hr0 as [_ Hr0]. right. by exists f0.
  - unfold drop_action. destruct (wo_futures w !! reply) as [f|] eqn:Ef; [|apply called_refl].
    split; try done; [exists []; split; [apply quiet_request_drop|by left]|]. cbn. intros r0 f0 Hr0.
    apply lookup_delete_Some in Hr0 as [_ Hr0]. right. by exists f0.
  - destruct (wo_closure w) eqn:E; [apply called_refl|]. split; try done; cbn; [exists []; split; [apply quiet_refl|by left]| |right; by exists f].
    destruct (d_writer (wo_driver w)) as [tx [|f q] rp []]; unfold writer_turn; simpl; try lia. destruct panics; simpl; [lia|]. destruct (port_send tx f). simpl. lia.
  - by destruct (Ha wk settle).
  - split; try done; cbn; [exists []; split; [apply quiet_refl|by left]|right; by exists f].
Qed.
End calls.

(** ** The invariant *)

Definition rank (st : Stage) : nat :=
  match st with
  | Flip => 0 | Flush => 1 | FailReady => 2 | FailPending => 3 | CancelAll => 4 | ClearSequences => 5
  | ClearEvents => 6 | ClearPongs => 7 | Grace => 8 | Publish => 9 | Return => 10 | Returned => 11
  end.

Section invariant.
Context {RT : RustText} {SJ : SerdeJson} {T : Type} {PT : PortTx T}.
Implicit Types (c : Closing T) (w : World T) (d : Driver T).

Definition shared_in c : Shared := d_shared (wo_driver (cl_world c)).

(** The statement of [st] has run. *)
Definition past (st : Stage) c : Prop := (rank st < rank (cl_stage c))%nat.

(** Every stream below [n] has ended. *)
Definition ended {A} (chs : gmap nat (channel A)) (n : nat) : Prop :=
  forall i ch, (i < n)%nat -> chs !! i = Some ch -> ch_senders ch = false.

(** The requests [p] awaiting an answer, the active requests [tk] and the [n] subscriptions are those
    teardown began with. *)
Record closing_ok (reason : Teardown) (p : gmap string PendingRequest) (tk : RequestTracking) (n : nat) c : Prop := {
  co_reason : cl_reason c = reason;
  co_replies : replies (wo_driver (cl_world c)) ≡ₚ seq 0 (wo_next_reply (cl_world c));
  co_futures : forall r f, wo_futures (cl_world c) !! r = Some f -> rf_reply f = r /\ (r < wo_next_reply (cl_world c))%nat;
  co_receiver : ch_receiver (sh_commands (shared_in c)) = negb (bool_decide (cl_stage c = Returned));
  co_dropped : past Return c -> ch_queue (sh_commands (shared_in c)) = [];
  co_state : past Flip c -> sh_state (shared_in c) = Closed;
  co_queue : past Flush c -> w_queue (d_writer (wo_driver (cl_world c))) = [];
  co_ready : past FailReady c -> is_Some (sh_ready (shared_in c));
  co_pending : past FailPending c -> d_pending (wo_driver (cl_world c)) = ∅;
  co_failed : forall id req, p !! id = Some req ->
    d_pending (wo_driver (cl_world c)) !! id = Some req \/
    d_oneshots (wo_driver (cl_world c)) !! pr_reply req =
      Some (OSent (Err (closed_request_error (closing reason).1.1.1 (closing reason).1.1.2 id (pr_method req))));
  co_active : ~ past CancelAll c -> d_tracking (wo_driver (cl_world c)) = tk;
  co_cancelled : past CancelAll c -> active_tokens tk ⊆ tk_cancelled (d_tracking (wo_driver (cl_world c)));
  co_subs : subs_ok (shared_in c);
  co_channels : (n <= sh_next_channel (shared_in c))%nat;
  co_events : past ClearEvents c -> ended (sh_event_channels (shared_in c)) n;
  co_pongs : past ClearPongs c -> ended (sh_pong_channels (shared_in c)) n;
  co_unpublished : ~ past Publish c -> sh_closure (shared_in c) = None;
  co_published : past Publish c -> exists k, sh_closure (shared_in c) = Some (closure_of reason k) /\ 0 <= k;
  co_running : cl_stage c <> Returned -> wo_closure (cl_world c) = None;
  co_returned : cl_stage c = Returned -> wo_closure (cl_world c) = sh_closure (shared_in c)
}.

End invariant.

(** Facts that a stage decides. *)
Ltac stages := unfold past, shared_in in *; cbn [cl_stage cl_world cl_reason rank wo_driver wo_closure wo_futures wo_next_reply] in *.
Ltac stage_done :=
  cbn in *; intros; first
    [ done | lia
    | match goal with H : _ |- _ => solve [apply H; first [done | lia]] end ].

Section preserved.
Context {RT : RustText} {SJ : SerdeJson} {T : Type} {PT : PortTx T}.
Implicit Types (c : Closing T) (w : World T) (d : Driver T).

Lemma called_replies w w' :
  called w w' -> replies (wo_driver w) ≡ₚ seq 0 (wo_next_reply w) ->
  replies (wo_driver w') ≡ₚ seq 0 (wo_next_reply w').
Proof.
  intros [(rs & [_ Hr _] & Hn) Hp _ Ho _ _ _] H. unfold replies in *. rewrite Hr, Hp, Ho.
  destruct Hn as [[-> ->]|[-> ->]]; [by rewrite app_nil_r|].
  rewrite seq_S, <- H, <- !app_assoc. apply Permutation_app_head. rewrite Permutation_app_comm. by rewrite <- app_assoc.
Qed.

(** Nothing a caller does gets in the way. *)
Lemma called_closing reason p tk n c w' :
  called (cl_world c) w' -> closing_ok reason p tk n c -> closing_ok reason p tk n (mkClosing w' (cl_reason c) (cl_stage c)).
Proof.
  intros Hcall [Hreason Hrep Hfut Hrecv Hdrop Hst Hq Hrd Hpd Hfa Hac Hca Hsu Hch Hev Hpo Hun Hpu Hru Hre].
  pose proof (called_replies _ _ Hcall Hrep) as Hrep'.
  destruct Hcall as [(rs & [Hcore Hrs Hsub] & Hn) Hp Htk Ho Hqu Hf Hcl]. unfold shared_in, past in *.
  set (s := d_shared (wo_driver (cl_world c))) in *. set (s' := d_shared (wo_driver w')) in *.
  assert (Hold : forall i, (i < n)%nat -> sh_event_channels s' !! i = sh_event_channels s !! i /\
    sh_pong_channels s' !! i = sh_pong_channels s !! i) by (intros i Hi; destruct (subs_step_older s s' i Hsub); [lia|naive_solver]).
  split; cbn [cl_world cl_reason cl_stage]; rewrite ?Hp, ?Htk, ?Hcl, ?Ho; unfold shared_in, past; cbn [cl_world cl_reason cl_stage]; fold s'; try done.
  - intros r f Hr. destruct (Hf r f Hr) as [(<- & -> & ->)|(f0 & Hf0 & ->)]; [split; [done|lia]|].
    destruct (Hfut r f0 Hf0). split; [done|]. destruct Hn as [[_ ->]|[_ ->]]; lia.
  - by rewrite (ce_receiver _ _ Hcore).
  - intros Hpast. rewrite (ce_dead _ _ Hcore); [by apply Hdrop|]. rewrite Hrecv. rewrite bool_decide_true; [done|].
    destruct (cl_stage c); simpl in Hpast; try lia. done.
  - rewrite (ce_state _ _ Hcore). done.
  - intros Hpast. specialize (Hq Hpast). rewrite Hq in Hqu. destruct (w_queue _); [done|simpl in Hqu; lia].
  - rewrite (ce_ready _ _ Hcore). done.
  - by eapply subs_step_ok.
  - destruct (decide (n = 0)%nat) as [->|Hn0]; [lia|]. destruct (subs_step_older s s' (n - 1) Hsub) as (_ & _ & ?); lia.
  - intros Hpast i ch Hi. rewrite (proj1 (Hold i Hi)). by apply Hev.
  - intros Hpast i ch Hi. rewrite (proj2 (Hold i Hi)). by apply Hpo.
  - rewrite (ce_closure _ _ Hcore). done.
  - rewrite (ce_closure _ _ Hcore). done.
  - rewrite (ce_closure _ _ Hcore). done.
Qed.

Lemma settle_ready_some s o : is_Some (sh_ready (settle_ready s o)).
Proof. unfold settle_ready. destruct (sh_ready s) eqn:E; [by rewrite E|by eexists]. Qed.

Lemma settle_ready_fields s o :
  sh_state (settle_ready s o) = sh_state s /\ sh_commands (settle_ready s o) = sh_commands s /\
  sh_closure (settle_ready s o) = sh_closure s /\ sh_event_subscribers (settle_ready s o) = sh_event_subscribers s /\
  sh_pong_subscribers (settle_ready s o) = sh_pong_subscribers s /\ sh_event_channels (settle_ready s o) = sh_event_channels s /\
  sh_pong_channels (settle_ready s o) = sh_pong_channels s /\ sh_next_channel (settle_ready s o) = sh_next_channel s.
Proof. unfold settle_ready. by destruct (sh_ready s). Qed.

Lemma move_ok reason p tk n c m : closing_ok reason p tk n c -> closing_ok reason p tk n (move c m).
Proof.
  intros Hok. unfold move. destruct (teardown_step _ _ _ m) as [[d' st']|] eqn:E; [|done]. unfold teardown_step in E.
  destruct c as [w reason' st]. destruct w as [d cl fs nr ro en co]. pose proof (co_reason _ _ _ _ _ Hok) as Hr. cbn in Hr. subst reason'.
  cbn [cl_world cl_reason cl_stage wo_driver] in E.
  destruct (closing reason) as [[[code text] error] port] eqn:Ec.
  destruct Hok as [_ Hrep Hfut Hrecv Hdrop Hst Hq Hrd Hpd Hfa Hac Hca Hsu Hch Hev Hpo Hun Hpu Hru Hre].
  destruct st, m; try discriminate E; stages.
  - injection E as <- <-. split; stages; try stage_done.
  - destruct (_ || _) eqn:Eq; [|done]. injection E as <- <-. split; stages; try stage_done.
    cbn. unfold shut_writer. by rewrite Ec.
  - injection E as <- <-. destruct (settle_ready_fields (d_shared d) (Err (closed_early_error code text))) as (F1 & F2 & F3 & F4 & F5 & F6 & F7 & F8).
    split; stages; cbn [d_shared set_shared d_writer d_pending d_tracking]; unfold replies, subs_ok in *; cbn [d_shared set_shared d_pending d_oneshots]; rewrite ?F1, ?F2, ?F3, ?F4, ?F5, ?F6, ?F7, ?F8; try stage_done.
    intros _. apply settle_ready_some.
  - case_bool_decide; [|done]. injection E as <- <-. split; stages; try stage_done.
  - destruct (d_pending d !! id) as [request|] eqn:Hid; [|done]. injection E as <- <-.
    assert (Hnd : NoDup (pending_replies (d_pending d) ++ settled (d_oneshots d))).
    { assert (NoDup (replies d)) as Hnd by (rewrite Hrep; apply NoDup_seq). unfold replies in Hnd. by apply NoDup_app in Hnd as (_ & _ & ?). }
    destruct (settle_one id request (d_pending d) (d_oneshots d) (OSent (Err (closed_request_error code text id (pr_method request)))) Hid Hnd) as [Hnone Hp].
    split; stages; try stage_done; unfold replies in *; cbn.
    + by rewrite Hp.
    + intros i req Hi. rewrite Ec in *. cbn in *. destruct (Hfa i req Hi) as [Hpi|Ho].
      * destruct (decide (i = id)) as [->|Hne]; [right|left; by rewrite lookup_delete_ne].
        rewrite Hid in Hpi. injection Hpi as <-. by rewrite lookup_insert_eq.
      * right. rewrite lookup_insert_ne; [done|]. intros He. rewrite He in Hnone. congruence.
  - injection E as <- <-. split; stages; try stage_done. intros _. cbn. rewrite (Hac ltac:(lia)). apply union_subseteq_l.
  - injection E as <- <-. split; stages; try stage_done.
  - injection E as <- <-. destruct Hsu as [Hev0 Hpo0]. split; stages; try stage_done.
    + split; [|done]. intros i ch Hi Hc. cbn in Hi. pose proof (clear_subs_ended _ _ _ _ Hev0 Hi). congruence.
    + intros _ i ch _ Hi. by eapply clear_subs_ended.
  - injection E as <- <-. destruct Hsu as [Hev0 Hpo0]. split; stages; try stage_done.
    + split; [done|]. intros i ch Hi Hc. cbn in Hi. pose proof (clear_subs_ended _ _ _ _ Hpo0 Hi). congruence.
    + intros _ i ch _ Hi. by eapply clear_subs_ended.
  - case_bool_decide; [|done]. injection E as <- <-. split; stages; try stage_done.
  - destruct (tk_tasks (d_tracking d) !! task); [|done]. injection E as <- <-. split; stages; try stage_done.
  - injection E as <- <-. split; stages; try stage_done.
  - injection E as <- <-. split; stages; try stage_done. intros _. eexists. split; [done|lia].
  - injection E as <- <-. assert (Hnd : NoDup (replies d)) by (rewrite Hrep; apply NoDup_seq). unfold replies in *.
    assert (Hp0 : d_pending d = ∅) by (apply Hpd; lia). rewrite Hp0 in *. change (pending_replies ∅) with (@nil Reply) in *. cbn [app] in *.
    split; stages; try stage_done. unfold replies. cbn. change (pending_replies ∅) with (@nil Reply). cbn [app].
    + by rewrite (proj1 (drop_queued_settled _ _ Hnd)).
    + intros i req Hi. destruct (Hfa i req Hi) as [Hpi|Ho]; [by rewrite lookup_empty in Hpi|right].
      by apply (proj2 (drop_queued_settled _ _ Hnd)).
Qed.
End preserved.

(** ** Every session *)

Section sessions.
Context {RT : RustText} {SJ : SerdeJson} {T : Type} {PT : PortTx T}.
Implicit Types (c : Closing T) (w : World T) (d : Driver T).

Lemma subs_ok_same s s' :
  (sh_event_subscribers s', sh_event_channels s', sh_pong_subscribers s', sh_pong_channels s') =
  (sh_event_subscribers s, sh_event_channels s, sh_pong_subscribers s, sh_pong_channels s) -> subs_ok s -> subs_ok s'.
Proof. unfold subs_ok. intros [= -> -> -> ->]. done. Qed.

Lemma settle_ready_subs s o : subs_ok s -> subs_ok (settle_ready s o).
Proof. apply subs_ok_same. unfold settle_ready. by destruct (sh_ready s). Qed.

Lemma fan_out_subs {A} (item : A) subs chs :
  subscribed subs chs -> subscribed (fan_out item subs chs).1 (fan_out item subs chs).2.
Proof.
  intros H n ch Hn Hc. destruct (fan_out_subscribed item subs chs (fun _ => False)) with (n := n) (ch := ch); [|done|done|done|done].
  intros m x Hm Hx. right. by eapply H.
Qed.

Lemma on_branch_subs d b : subs_ok (d_shared d) -> subs_ok (d_shared (on_branch d b).1).
Proof.
  intros H. destruct b as [o| | |st|cmd|[[f|cl]|]]; cbn [on_branch fst]; try done.
  - unfold on_handshake_timeout. by apply settle_ready_subs.
  - unfold on_liveness_tick. by destruct (d_awaiting_pong d).
  - destruct (on_settled_shared (d_shared d) (join_task (d_tracking d) (settled_task st)) (d_writer d) st) as [k Hk].
    destruct (on_handler_settled _ _ _ _) as [[s tk] w]. cbn in *. by rewrite Hk.
  - rewrite on_command_shared. done.
  - destruct f as [h|r|r|e|e|x| | |x]; cbn [on_frame]; try done.
    + unfold on_hello. destruct (negb _); [done|]. destruct (negotiate _ _); cbn; by apply settle_ready_subs.
    + destruct (on_request_shared (d_shared d) (d_tracking d) (d_writer d) r) as [k Hk].
      destruct (on_request _ _ _ _) as [[s tk] w]. cbn in *. by rewrite Hk.
    + cbn. unfold fan_out_event. case_bool_decide; [|done]. destruct H as [He Hp]. pose proof (fan_out_subs e _ _ He) as He'.
      destruct (fan_out _ _ _). by split.
    + cbn. unfold fan_out_pong. destruct H as [He Hp]. pose proof (fan_out_subs tt _ _ Hp) as Hp'.
      destruct (fan_out _ _ _). by split.
Qed.

(** The turn that ends the loop neither publishes a closure nor drops the receiver. *)
Lemma on_branch_open d b : live_shared (d_shared d) ->
  ch_receiver (sh_commands (d_shared (on_branch d b).1)) = true /\ sh_closure (d_shared (on_branch d b).1) = None.
Proof.
  intros Hl. destruct (on_branch d b) as [d' [reason|]] eqn:E; [|destruct (on_branch_live d d' b Hl E); by split].
  destruct Hl as [Hc Hr _]. destruct b as [o| | |st|cmd|[[f|cl]|]]; cbn in E; try (injection E as <- _; by split).
  - injection E as <- _. unfold settle_ready. cbn. by destruct (sh_ready (d_shared d)).
  - unfold on_liveness_tick in E. destruct (d_awaiting_pong d); [|done]. injection E as <- _. by split.
  - destruct (on_handler_settled _ _ _ _) as [[s tk] w]. done.
  - destruct cmd as [code text|f reply|id forget|f]; try done. injection E as <- _. cbn. unfold ch_recv. by destruct (ch_queue _).
  - destruct f as [h|r|r|e|e|x| | |x]; cbn in E; try done; try (injection E as <- _; by split).
    + destruct (on_hello (d_shared d) h) as [s t] eqn:Eh. injection E as <- ->. cbn. unfold on_hello in Eh.
      destruct (negb _); [injection Eh as <- _; by split|]. destruct (negotiate _ _); [done|]. injection Eh as <- _.
      unfold settle_ready. by destruct (sh_ready (d_shared d)).
    + destruct (on_request _ _ _ _) as [[s tk] w]. done.
Qed.

Lemma teardown_subs d reason settle : subs_ok (d_shared d) -> subs_ok (d_shared (drop_driver (teardown d reason settle).1)).
Proof.
  intros [He Hp]. unfold teardown. destruct (closing reason) as [[[code text] error] port].
  set (s := settle_ready _ _). assert (subs_ok s) as [He' Hp'] by (by apply settle_ready_subs).
  split; intros n ch Hn Hc; cbn in Hn;
    [pose proof (clear_subs_ended _ _ _ _ He' Hn)|pose proof (clear_subs_ended _ _ _ _ Hp' Hn)]; congruence.
Qed.

Lemma act_subs w a : subs_ok (d_shared (wo_driver w)) -> subs_ok (d_shared (wo_driver (act w a))).
Proof.
  intros H. assert ((exists wk settle, a = ALoop wk settle) \/ forall wk settle, a <> ALoop wk settle) as [(wk & settle & ->)|Ha]
    by (destruct a; naive_solver).
  - cbn [act]. destruct (wo_closure w); [done|].
    destruct (loop_cases w wk settle) as [->|(b & d' & t & _ & _ & E & _ & ->)]; [done|].
    pose proof (on_branch_subs (arm_liveness (wo_driver w)) b) as Hb. rewrite arm_liveness_shared, E in Hb. specialize (Hb H).
    destruct t as [reason|]; [|done]. by apply teardown_subs.
  - destruct (called_act w a) as [(rs & [_ _ Hs] & _) _ _ _ _ _ _]; [done|]. by eapply subs_step_ok.
Qed.

Lemma open_subs port_max tx o settle w : world_open port_max tx o settle = Ok w -> subs_ok (d_shared (wo_driver w)).
Proof.
  unfold world_open, session_open. intros (d & Hd & H)%result_bind_Ok. injection H as <-.
  apply result_bind_Ok in Hd as (s & Hs & [= <-]).
  assert (subs_ok s) as Hok.
  { unfold open_shared in Hs. apply result_bind_Ok in Hs as (? & _ & Hs). apply result_bind_Ok in Hs as (? & _ & Hs).
    apply result_bind_Ok in Hs as (? & _ & Hs). apply result_bind_Ok in Hs as (? & _ & Hs). injection Hs as <-.
    match goal with |- subs_ok (foldl _ ?s0 _) => assert (subs_ok s0) as H0 by (by split; intros n ch Hn; cbn in Hn; rewrite lookup_empty in Hn); revert H0; generalize s0 end.
    induction (so_handlers o) as [|mh hs IH]; intros s0 H0; [done|]. by apply IH. }
  assert (subs_ok (d_shared (start (open_driver s tx o)).1)) as Hst.
  { unfold start. destruct (assert_fits _ _ _); [|by apply settle_ready_subs].
    destruct (port_send _ _) as [tx' outcome]. destruct (refused_hello outcome); [by apply settle_ready_subs|done]. }
  destruct (start _) as [d [reason|]]; [|done]. pose proof (teardown_subs d reason settle Hst) as Ht.
  by destruct (teardown d reason settle).
Qed.

Lemma reachable_subs port_max tx o settle w0 acts :
  world_open port_max tx o settle = Ok w0 -> subs_ok (d_shared (wo_driver (run_actions w0 acts))).
Proof.
  intros Ho. apply (run_actions_ind (fun w => subs_ok (d_shared (wo_driver w)))); [by eapply open_subs|]. intros w a. apply act_subs.
Qed.

(** The loop of a closed session does not turn: what is left is calls. *)
Lemma called_closed w a : is_Some (wo_closure w) -> called w (act w a).
Proof.
  intros [closure Hc]. destruct a; try (by apply called_act). cbn [act]. rewrite Hc. apply called_refl.
Qed.

Lemma happen_ok reason p tk n c e : closing_ok reason p tk n c -> closing_ok reason p tk n (happen c e).
Proof.
  intros Hok. destruct e as [m|a|method params timeout|e]; cbn [happen].
  - by apply move_ok.
  - destruct (runs _ a) eqn:Er; [|done]. apply called_closing; [|done]. apply called_act. by intros wk settle ->.
  - apply called_closing; [apply called_late_request|done].
  - apply called_closing; [apply called_shared, quiet_emit_send|done].
Qed.

Lemma happens_ok reason p tk n es : forall c, closing_ok reason p tk n c -> closing_ok reason p tk n (happens c es).
Proof. induction es as [|e es IH]; intros c Hc; [done|]. by apply IH, happen_ok. Qed.

(** What the last turn of a session's loop leaves behind. *)
Lemma begin_ok port_max tx o settle w0 acts wk c :
  world_open port_max tx o settle = Ok w0 -> begin_teardown (run_actions w0 acts) wk = Some c ->
  cl_stage c = Flip /\
  closing_ok (cl_reason c) (d_pending (wo_driver (cl_world c))) (d_tracking (wo_driver (cl_world c)))
    (sh_next_channel (shared_in c)) c.
Proof.
  intros Ho. set (w := run_actions w0 acts). destruct (reachable_replies _ _ _ _ _ acts Ho) as (Hl & _ & Hro). fold w in Hl, Hro.
  pose proof (reachable_subs _ _ _ _ _ acts Ho) as Hs. fold w in Hs. pose proof (replies_nodup w Hro) as Hnd. destruct Hro as [Hall Hfut _].
  unfold begin_teardown. unfold lifecycle in Hl. destruct (wo_closure w) eqn:Hcl; [done|]. destruct (wakeups_ok _ _) eqn:Hw; [|done].
  unfold loop_turn. destruct (select _ wk) as [b|] eqn:Hb; [|done]. rewrite <- wakeups_ok_arm in Hw.
  pose proof (select_ok _ _ _ Hw Hb) as Hbok. set (d0 := arm_liveness (wo_driver w)) in *.
  assert (Hr0 : replies d0 = replies (wo_driver w)).
  { destruct (arm_liveness_fields (wo_driver w)) as (_ & _ & Hp0 & Ho0). unfold replies, d0. by rewrite arm_liveness_shared, Hp0, Ho0. }
  assert (Hsh0 : d_shared d0 = d_shared (wo_driver w)) by apply arm_liveness_shared.
  rewrite <- Hr0 in Hnd. destruct (on_branch_moves d0 b Hnd Hbok) as [Hm _]. pose proof (on_branch_subs d0 b) as Hsub.
  rewrite Hsh0 in Hsub. specialize (Hsub Hs).
  assert (Hlive : ch_receiver (sh_commands (d_shared (on_branch d0 b).1)) = true /\ sh_closure (d_shared (on_branch d0 b).1) = None).
  { apply on_branch_open. by rewrite Hsh0. }
  destruct (on_branch d0 b) as [d' [reason|]]; [|done]. intros [= <-]. split; [done|]. cbn [fst] in *. destruct Hlive as [Hrecv Hclo].
  split; stages; try stage_done; [by rewrite Hm, Hr0|intros id req Hid; by left].
Qed.

(** ** The driver gets there *)

(** What the driver's own task does next when it is polled.  Where it awaits somebody else, the writer
    in [Flush] and its handlers in [Grace], it goes on only if that is over: a send that completes is
    [ECall (AWriter _)] of the schedule, the grace timer that fires is [EMove MGraceOver]. *)
Definition due c : Occurrence T :=
  match cl_stage c, map_to_list (d_pending (wo_driver (cl_world c))) with
  | FailPending, (id, _) :: _ => EMove (MFail id)
  | _, _ => EMove MNext
  end.

(** The frames that stand between the driver and the end of [shut_down]. *)
Definition blocked c : nat :=
  let wr := d_writer (wo_driver (cl_world c)) in
  if (rank (cl_stage c) <=? 1)%nat && negb (w_gone wr) then length (w_queue wr) else 0.

(** An upper bound on the driver's turns: the statements left and the requests pending. *)
Definition turns_left c : nat :=
  (11 - rank (cl_stage c)) + (if (rank (cl_stage c) <=? 3)%nat then size (d_pending (wo_driver (cl_world c))) else 0).

Definition is_send (e : option (Occurrence T)) : bool :=
  match e with Some (ECall (AWriter _)) => true | _ => false end.

(** A schedule: the driver's turn, or anything anybody else does. *)
Definition scheduled (schedule : list (option (Occurrence T))) c : Closing T :=
  foldl (fun c e => happen c (match e with Some e => e | None => due c end)) c schedule.

Definition driver_turns (schedule : list (option (Occurrence T))) : nat := length (filter (fun e => e = None) schedule).
Definition sends_done (schedule : list (option (Occurrence T))) : nat := length (filter (fun e => is_send e = true) schedule).

Lemma scheduled_app s1 s2 c : scheduled (s1 ++ s2) c = scheduled s2 (scheduled s1 c).
Proof. apply foldl_app. Qed.

Lemma move_left c m :
  (rank (cl_stage c) <= rank (cl_stage (move c m)))%nat /\ (turns_left (move c m) <= turns_left c)%nat /\
  (blocked (move c m) <= blocked c)%nat.
Proof.
  unfold move. destruct (teardown_step _ _ _ m) as [[d' st']|] eqn:E; [|done]. unfold teardown_step in E.
  destruct c as [[d cl fs nr ro en co] reason st]. cbn [cl_world cl_reason cl_stage wo_driver] in *.
  destruct (closing reason) as [[[code text] error] port].
  destruct st, m; try discriminate E; unfold turns_left, blocked; cbn [cl_stage cl_world wo_driver];
    repeat match type of E with context [if ?b then _ else _] => destruct b eqn:? end; try discriminate E;
    try (destruct (d_pending d !! id) as [request|] eqn:Hid; [|discriminate E]);
    try (destruct (tk_tasks (d_tracking d) !! task); [|discriminate E]);
    injection E as <- <-; cbn; try (split_and!; lia).
  rewrite map_size_delete_Some by (by eexists). split_and!; lia.
Qed.

(** Only a turn of the writer touches its queue. *)
Lemma act_writer (w : World T) a :
  (forall panics, a <> AWriter panics) -> (forall wk settle, a <> ALoop wk settle) ->
  w_queue (d_writer (wo_driver (act w a))) = w_queue (d_writer (wo_driver w)) /\
  w_gone (d_writer (wo_driver (act w a))) = w_gone (d_writer (wo_driver w)).
Proof.
  intros Hw Hl. destruct a; cbn [act]; try done; try (by destruct (Hw panics)); try (by destruct (Hl wk settle)).
  - unfold request_action. by repeat case_match.
  - unfold poll_action. by repeat case_match.
  - unfold drop_action. by repeat case_match.
Qed.

Lemma writer_or_not (a : Action T) : (exists panics, a = AWriter panics) \/ forall panics, a <> AWriter panics.
Proof. destruct a; first [by right|left; by eexists]. Qed.

Lemma late_request_writer (w : World T) method params timeout :
  d_writer (wo_driver (late_request w method params timeout)) = d_writer (wo_driver w).
Proof. unfold late_request. by repeat case_match. Qed.

Lemma writer_turn_length (wr : Writer T) panics :
  w_gone wr = false -> w_gone (writer_turn wr panics) = true \/
  (w_gone (writer_turn wr panics) = false /\ length (w_queue (writer_turn wr panics)) = pred (length (w_queue wr)))%nat.
Proof.
  destruct wr as [tx [|f q] rp g]; unfold writer_turn; cbn; intros ->; [by right|].
  destruct panics; [by left|right]. by destruct (port_send tx f).
Qed.

Lemma writer_turn_gone (wr : Writer T) panics : w_gone wr = true -> writer_turn wr panics = wr.
Proof. destruct wr as [tx [|f q] rp g]; unfold writer_turn; cbn; by intros ->. Qed.

Lemma happen_left c e :
  (rank (cl_stage c) <= rank (cl_stage (happen c e)))%nat /\ (turns_left (happen c e) <= turns_left c)%nat /\
  (blocked (happen c e) <= blocked c)%nat.
Proof.
  assert (Hcall : forall w', called (cl_world c) w' ->
    (w_gone (d_writer (wo_driver (cl_world c))) = true -> w_gone (d_writer (wo_driver w')) = true) ->
    let c' := mkClosing w' (cl_reason c) (cl_stage c) in
    (rank (cl_stage c) <= rank (cl_stage c'))%nat /\ (turns_left c' <= turns_left c)%nat /\ (blocked c' <= blocked c)%nat).
  { intros w' [_ Hp _ _ Hq _ _] Hg. unfold turns_left, blocked. cbn [cl_world cl_stage]. rewrite Hp. split_and!; [lia..|].
    destruct (_ <=? 1)%nat; cbn [andb]; [|lia]. destruct (w_gone (d_writer (wo_driver (cl_world c)))); [by rewrite Hg|].
    destruct (w_gone _); cbn; lia. }
  destruct e as [m|a|method params timeout|e]; cbn [happen].
  - apply move_left.
  - destruct (runs _ a) eqn:Er; [|done].
    assert (Hl : forall wk settle, a <> ALoop wk settle) by (by intros wk settle ->). apply Hcall; [by apply called_act|].
    intros Hg. destruct (writer_or_not a) as [[panics ->]|Hw]; [|by rewrite (proj2 (act_writer _ _ Hw Hl))].
    cbn [act]. destruct (wo_closure (cl_world c)); [done|]. cbn. by rewrite writer_turn_gone.
  - apply Hcall; [apply called_late_request|]. by rewrite late_request_writer.
  - apply Hcall; [apply called_shared, quiet_emit_send|done].
Qed.

Lemma scheduled_left schedule : forall c,
  (rank (cl_stage c) <= rank (cl_stage (scheduled schedule c)))%nat /\ (turns_left (scheduled schedule c) <= turns_left c)%nat /\
  (blocked (scheduled schedule c) <= blocked c)%nat.
Proof.
  induction schedule as [|e schedule IH]; intros c; [done|]. cbn [scheduled foldl].
  set (e' := match e with Some e => e | None => due c end). destruct (happen_left c e') as (H1 & H2 & H3).
  destruct (IH (happen c e')) as (H4 & H5 & H6). unfold scheduled in *. split_and!; lia.
Qed.

Lemma scheduled_ok reason p tk n schedule : forall c, closing_ok reason p tk n c -> closing_ok reason p tk n (scheduled schedule c).
Proof. induction schedule as [|e schedule IH]; intros c Hok; [done|]. cbn [scheduled foldl]. by apply IH, happen_ok. Qed.

Lemma send_progress reason p tk n c panics :
  closing_ok reason p tk n c -> (blocked (happen c (ECall (AWriter panics))) <= pred (blocked c))%nat.
Proof.
  intros Hok. pose proof (co_running _ _ _ _ _ Hok) as Hrun. clear Hok.
  destruct c as [[d cl fs nr ro en co] reason' st]. cbn in Hrun. cbn [happen runs cl_stage]. unfold blocked.
  destruct (rank st <=? 1)%nat eqn:Hst.
  - rewrite Hrun by (by intros ->). assert (Hr : bool_decide (st = Flip) || bool_decide (st = Flush) = true)
      by (destruct st; try done; cbn in Hst; lia). rewrite Hr. cbn [cl_stage cl_world act wo_closure wo_driver set_writer d_writer]. rewrite Hst.
    cbn [andb]. destruct (w_gone (d_writer d)) eqn:Hg; [by rewrite writer_turn_gone, Hg|].
    destruct (writer_turn_length (d_writer d) panics Hg) as [->|[-> ->]]; cbn; lia.
  - destruct (_ || _); cbn [cl_stage]; rewrite Hst; cbn; lia.
Qed.

Lemma sends_unblock reason p tk n schedule : forall c,
  closing_ok reason p tk n c -> (blocked c <= sends_done schedule)%nat -> blocked (scheduled schedule c) = 0%nat.
Proof.
  induction schedule as [|e schedule IH]; intros c Hok Hn; [unfold sends_done in Hn; cbn in *; lia|].
  cbn [scheduled foldl]. apply IH; [by apply happen_ok|]. unfold sends_done in *. rewrite filter_cons in Hn.
  destruct (is_send e) eqn:He.
  - rewrite decide_True in Hn by done. cbn [length] in Hn. destruct e as [[|[]| |]|]; try discriminate He.
    pose proof (send_progress _ _ _ _ _ panics Hok). lia.
  - rewrite decide_False in Hn by done. destruct (happen_left c (match e with Some e => e | None => due c end)) as (_ & _ & Hb). lia.
Qed.

Lemma due_progress reason p tk n c :
  closing_ok reason p tk n c -> blocked c = 0%nat -> cl_stage c <> Grace -> cl_stage c <> Returned ->
  (turns_left (happen c (due c)) < turns_left c)%nat.
Proof.
  intros Hok Hblock Hg Hst. pose proof (co_running _ _ _ _ _ Hok Hst) as Hcl. clear Hok.
  destruct c as [[d cl fs nr ro en co] reason' st]. cbn in Hcl, Hst, Hg. subst cl. unfold due. cbn [cl_stage cl_world wo_driver].
  assert (Hgo : forall m d' st', teardown_step d reason' st m = Some (d', st') ->
    turns_left (happen (mkClosing (mkWorld d None fs nr ro en co) reason' st) (EMove m)) = turns_left (mkClosing (mkWorld d' None fs nr ro en co) reason' st')).
  { intros m d' st' Hm. cbn [happen]. unfold move. cbn [cl_world cl_reason cl_stage wo_driver]. by rewrite Hm. }
  destruct st; try done.
  - erewrite Hgo by apply step_flip. unfold turns_left. cbn. lia.
  - assert (Eq : w_gone (d_writer d) || bool_decide (w_queue (d_writer d) = []) = true).
    { unfold blocked in Hblock. cbn in Hblock. destruct (w_gone (d_writer d)); [done|]. cbn in *. by rewrite (nil_length_inv _ Hblock). }
    erewrite Hgo; [|unfold teardown_step; destruct (closing reason') as [[[]]]; by rewrite Eq]. unfold turns_left. cbn. lia.
  - erewrite Hgo by apply step_ready. unfold turns_left. cbn. lia.
  - destruct (map_to_list (d_pending d)) as [|[id req] l] eqn:El.
    + apply map_to_list_empty_iff in El. erewrite Hgo by (by apply step_drained). unfold turns_left. cbn. lia.
    + assert (Hid : d_pending d !! id = Some req) by (apply elem_of_map_to_list; rewrite El; by left).
      rewrite (Hgo _ _ _ (step_fail _ _ _ _ Hid)).
      unfold turns_left. cbn. rewrite map_size_delete_Some by (by eexists).
      assert (size (d_pending d) <> 0)%nat; [|lia]. intros H0%map_size_empty_inv. rewrite H0, lookup_empty in Hid. done.
  - erewrite Hgo by apply step_cancel. unfold turns_left. cbn. lia.
  - erewrite Hgo by apply step_sequences. unfold turns_left. cbn. lia.
  - erewrite Hgo by apply step_events. unfold turns_left. cbn. lia.
  - erewrite Hgo by apply step_pongs. unfold turns_left. cbn. lia.
  - erewrite Hgo by apply step_publish. unfold turns_left. cbn. lia.
  - cbn [happen]. unfold move. cbn [cl_world cl_reason cl_stage wo_driver]. rewrite step_return. unfold turns_left. cbn. lia.
Qed.

(** Unblocked, the driver's own turns take it to the grace period, and from there to the end. *)
Lemma scheduled_reaches reason p tk n (t : nat) schedule : forall c,
  closing_ok reason p tk n c -> blocked c = 0%nat -> (t = 8 \/ t = 11 /\ 9 <= rank (cl_stage c))%nat ->
  (turns_left c <= driver_turns schedule + (11 - t))%nat -> (t <= rank (cl_stage (scheduled schedule c)))%nat.
Proof.
  induction schedule as [|e schedule IH]; intros c Hok Hb Ht Hn; [unfold turns_left, driver_turns in Hn; cbn in *; lia|].
  set (e' := match e with Some e => e | None => due c end). destruct (happen_left c e') as (H1 & H2 & H3).
  destruct (decide (t <= rank (cl_stage c))%nat) as [Hle|Hgt]; [pose proof (proj1 (scheduled_left (e :: schedule) c)); lia|].
  cbn [scheduled foldl]. fold e'. apply IH; [by apply happen_ok|lia|lia|]. unfold driver_turns in *. rewrite filter_cons in Hn. destruct e as [e|].
  - rewrite decide_False in Hn by done. lia.
  - rewrite decide_True in Hn by done. cbn [length] in Hn.
    enough (turns_left (happen c e') < turns_left c)%nat by lia. eapply due_progress; [done..| |]; intros Hs; rewrite Hs in *; cbn in *; lia.
Qed.

Lemma grace_expires c : (8 <= rank (cl_stage c))%nat -> (9 <= rank (cl_stage (happen c (EMove MGraceOver))))%nat.
Proof.
  intros Hr. destruct (decide (cl_stage c = Grace)) as [Hg|Hg].
  - cbn [happen]. unfold move. rewrite Hg. rewrite step_grace_over. cbn. lia.
  - assert (rank (cl_stage c) <> 8)%nat by (destruct (cl_stage c); try done; cbn; lia).
    pose proof (proj1 (happen_left c (EMove MGraceOver))). lia.
Qed.

(** Enough sends, enough turns, the timer, two more turns. *)
Lemma scheduled_returns reason p tk n c sends own expiry last :
  closing_ok reason p tk n c -> cl_stage c = Flip ->
  (length (w_queue (d_writer (wo_driver (cl_world c)))) <= sends_done sends)%nat ->
  (8 + size (d_pending (wo_driver (cl_world c))) <= driver_turns own)%nat ->
  Some (EMove MGraceOver) ∈ expiry -> (2 <= driver_turns last)%nat ->
  cl_stage (scheduled (sends ++ own ++ expiry ++ last) c) = Returned.
Proof.
  intros Hok Hst Hsends Hown Hexp Hlast. apply list_elem_of_split in Hexp as (e1 & e2 & ->).
  rewrite !scheduled_app. pose proof (scheduled_ok _ _ _ _ sends _ Hok) as Hok1.
  assert (Hb1 : blocked (scheduled sends c) = 0%nat).
  { eapply sends_unblock; [done|]. unfold blocked. rewrite Hst. destruct (_ && _); [done|lia]. }
  assert (H8 : (8 <= rank (cl_stage (scheduled own (scheduled sends c))))%nat).
  { eapply scheduled_reaches; [done|done|by left|]. destruct (scheduled_left sends c) as (_ & Hl & _).
    unfold turns_left in Hl at 2. rewrite Hst in Hl. cbn in Hl. lia. }
  pose proof (scheduled_ok _ _ _ _ own _ Hok1) as Hok2. destruct (scheduled_left own (scheduled sends c)) as (_ & _ & Hb2).
  set (c2 := scheduled own (scheduled sends c)) in *. clearbody c2. destruct (scheduled_left e1 c2) as (Hr3 & _ & Hb3).
  pose proof (scheduled_ok _ _ _ _ e1 _ Hok2) as Hok3. set (c3 := scheduled e1 c2) in *. clearbody c3.
  change (scheduled (Some (EMove MGraceOver) :: e2) c3) with (scheduled e2 (happen c3 (EMove MGraceOver))).
  pose proof (grace_expires c3 ltac:(lia)) as H9. destruct (happen_left c3 (EMove MGraceOver)) as (_ & _ & Hb4).
  pose proof (happen_ok _ _ _ _ _ (EMove MGraceOver) Hok3) as Hok4. set (c4 := happen c3 (EMove MGraceOver)) in *. clearbody c4.
  destruct (scheduled_left e2 c4) as (Hr5 & _ & Hb5). pose proof (scheduled_ok _ _ _ _ e2 _ Hok4) as Hok5.
  set (c5 := scheduled e2 c4) in *. clearbody c5.
  assert (H11 : (11 <= rank (cl_stage (scheduled last c5)))%nat).
  { eapply scheduled_reaches; [done|lia|right; lia|]. unfold turns_left. destruct (_ <=? 3)%nat eqn:E3; [apply Nat.leb_le in E3|]; lia. }
  destruct (cl_stage (scheduled last c5)); cbn in H11; first [done|lia].
Qed.

(** A send that does not complete: the driver stays in [Flush], and what it would do next is not done. *)
Record held (p : gmap string PendingRequest) c : Prop := {
  he_stage : (rank (cl_stage c) <= 1)%nat;
  he_writer : w_gone (d_writer (wo_driver (cl_world c))) = false;
  he_queue : w_queue (d_writer (wo_driver (cl_world c))) <> [];
  he_pending : d_pending (wo_driver (cl_world c)) = p
}.

Lemma held_happen p c e : held p c -> is_send (Some e) = false -> held p (happen c e).
Proof.
  intros [Hs Hg Hq Hp] He. destruct e as [m|a|method params timeout|e]; cbn [happen].
  - unfold move. destruct (teardown_step _ _ _ m) as [[d' st']|] eqn:E; [|done]. unfold teardown_step in E.
    destruct (closing _) as [[[code text] error] port]. destruct (cl_stage c) eqn:Hst, m; try discriminate E; cbn in Hs; try lia.
    + injection E as <- <-. split; cbn; [lia|done..].
    + rewrite Hg, bool_decide_false in E by done. discriminate E.
  - destruct (runs _ a) eqn:Er; [|done].
    assert (Hl : forall wk settle, a <> ALoop wk settle) by (by intros wk settle ->).
    assert (Hw : forall panics, a <> AWriter panics) by (by intros panics ->).
    destruct (act_writer (cl_world c) a Hw Hl) as [H1 H2]. destruct (called_act (cl_world c) a Hl) as [_ Hp' _ _ _ _ _].
    split; cbn [cl_stage cl_world]; [done|congruence..].
  - split; cbn [cl_stage cl_world]; rewrite ?late_request_writer; [done..|]. by rewrite (cd_pending _ _ (called_late_request _ _ _ _)).
  - by split.
Qed.

Lemma held_scheduled p schedule : forall c, held p c -> sends_done schedule = 0%nat -> held p (scheduled schedule c).
Proof.
  induction schedule as [|e schedule IH]; intros c Hc Hn; [done|]. unfold sends_done in Hn. rewrite filter_cons in Hn.
  destruct (is_send e) eqn:He; [by rewrite decide_True in Hn by done|]. rewrite decide_False in Hn by done.
  cbn [scheduled foldl]. apply IH; [|exact Hn]. apply held_happen; [done|]. destruct e; [done|]. unfold due. by repeat case_match.
Qed.

(** ** Properties *)

(** Everything [begin_teardown] started from is in [closing_ok]. *)
Lemma begun_ok port_max tx o settle w0 acts wk c0 es :
  world_open port_max tx o settle = Ok w0 ->
  begin_teardown (run_actions w0 acts) wk = Some c0 ->
  closing_ok (cl_reason c0) (d_pending (wo_driver (cl_world c0))) (d_tracking (wo_driver (cl_world c0)))
    (sh_next_channel (shared_in c0)) (happens c0 es).
Proof. intros Ho Hb. apply happens_ok. by eapply begin_ok. Qed.

(** With nothing pending and nothing queued, whatever is awaited has its answer. *)
Lemma settled_poll reason p tk n c r f cancelled deadline :
  closing_ok reason p tk n c -> cl_stage c = Returned -> wo_futures (cl_world c) !! r = Some f ->
  exists outcome,
    request_poll (shared_in c) (d_oneshots (wo_driver (cl_world c))) f cancelled deadline =
    (shared_in c, disarm f (rf_cancel_sent f) false, Polled outcome).
Proof.
  intros Hok Hst Hf. destruct (co_futures _ _ _ _ _ Hok r f Hf) as [Hr Hlt].
  assert (Hin : r ∈ replies (wo_driver (cl_world c))) by (rewrite (co_replies _ _ _ _ _ Hok); apply elem_of_seq; lia).
  assert (Hpast : forall st, st <> Returned -> past st c) by (intros st Hne; unfold past; rewrite Hst; destruct st; cbn; first [done|lia]).
  unfold replies in Hin. rewrite (co_pending _ _ _ _ _ Hok) in Hin by by apply Hpast.
  change (d_shared (wo_driver (cl_world c))) with (shared_in c) in Hin. rewrite (co_dropped _ _ _ _ _ Hok) in Hin by by apply Hpast.
  simpl in Hin. apply elem_of_settled in Hin as [v Hv]. unfold request_poll, reply_poll. rewrite Hr, Hv. destruct v; eauto.
Qed.

(** C11 (closing under interference).  Whatever other threads, the writer and the peer do between two
    statements of teardown, a published closure means that everything before it is done: the state is
    [Closed], [ready] is settled, the writer's queue is empty, no request is pending and each that was
    has its error, every active handler's token is cancelled, and every stream opened before has ended;
    and once [run] has returned, every call still awaited, the late ones too, resolves at its next poll. *)
Theorem closing_races (port_max : option Z) (tx : T) (o : SessionOptions) (settle : gset nat) (w0 : World T)
    (acts : list (Action T)) (wk : Wakeups) (c0 : Closing T) (es : list (Occurrence T)) :
  world_open port_max tx o settle = Ok w0 ->
  begin_teardown (run_actions w0 acts) wk = Some c0 ->
  let c := happens c0 es in
  let d0 := wo_driver (cl_world c0) in
  let d := wo_driver (cl_world c) in
  let s := d_shared d in
  let '(code, text, _, _) := closing (cl_reason c0) in
  (forall closure, sh_closure s = Some closure ->
    (exists k, 0 <= k /\ closure = closure_of (cl_reason c0) k) /\
    sh_state s = Closed /\ is_Some (sh_ready s) /\ w_queue (d_writer d) = [] /\ d_pending d = ∅ /\
    (forall id req, d_pending d0 !! id = Some req ->
      d_oneshots d !! pr_reply req = Some (OSent (Err (closed_request_error code text id (pr_method req))))) /\
    active_tokens (d_tracking d0) ⊆ tk_cancelled (d_tracking d) /\
    ended (sh_event_channels s) (sh_next_channel (d_shared d0)) /\
    ended (sh_pong_channels s) (sh_next_channel (d_shared d0))) /\
  (forall closure, wo_closure (cl_world c) = Some closure ->
    sh_closure s = Some closure /\
    forall r f cancelled deadline, wo_futures (cl_world c) !! r = Some f ->
      exists outcome,
        request_poll s (d_oneshots d) f cancelled deadline = (s, disarm f (rf_cancel_sent f) false, Polled outcome)).
Proof.
  intros Ho Hb. pose proof (begun_ok _ _ _ _ _ acts wk c0 es Ho Hb) as Hok. cbv zeta.
  destruct (closing (cl_reason c0)) as [[[code text] error] port] eqn:Ec. split; intros closure Hcl.
  - assert (Hpub : past Publish (happens c0 es)).
    { destruct (decide (rank Publish < rank (cl_stage (happens c0 es)))%nat) as [|Hn]; [done|]. pose proof (co_unpublished _ _ _ _ _ Hok Hn). unfold shared_in in *; congruence. }
    assert (Hpast : forall st, (rank st <= rank Publish)%nat -> past st (happens c0 es)) by (unfold past in *; lia).
    destruct Hok as [_ _ _ _ _ Hst Hq Hrd Hpd Hfa _ Hca _ _ Hev Hpo _ Hpu _ _]. destruct (Hpu Hpub) as (k & Hk & Hk0).
    rewrite Ec in Hfa. split; [exists k; split; [done|unfold shared_in in Hk; congruence]|].
    split_and!; try (by first [apply Hst|apply Hrd|apply Hq|apply Hpd|apply Hca|apply Hev|apply Hpo]; apply Hpast; cbn; lia).
    intros id req Hid. destruct (Hfa id req Hid) as [Hp|]; [|done]. rewrite Hpd, lookup_empty in Hp by (apply Hpast; cbn; lia). done.
  - assert (Hst : cl_stage (happens c0 es) = Returned).
    { destruct (decide (cl_stage (happens c0 es) = Returned)) as [|Hn]; [done|]. pose proof (co_running _ _ _ _ _ Hok Hn). congruence. }
    split; [rewrite <- Hcl; symmetry; exact (co_returned _ _ _ _ _ Hok Hst)|].
    intros r f cancelled deadline Hf. by eapply settled_poll.
Qed.


(** C13 (one action, many steps).  Undisturbed, the statements one after the other leave exactly the
    session the single action of the other files leaves, whatever order the pending requests and the
    finished handlers come in; only the report nobody can receive any more may differ. *)
Theorem teardown_is_its_steps (port_max : option Z) (tx : T) (o : SessionOptions) (settle : gset nat) (w0 : World T)
    (acts : list (Action T)) (wk : Wakeups) (c0 : Closing T) (ids : list string) (ts : list nat) :
  world_open port_max tx o settle = Ok w0 ->
  begin_teardown (run_actions w0 acts) wk = Some c0 ->
  NoDup ids -> (forall id, id ∈ ids <-> is_Some (d_pending (wo_driver (cl_world c0)) !! id)) ->
  NoDup ts -> (forall t, t ∈ ts -> is_Some (tk_tasks (d_tracking (wo_driver (cl_world c0))) !! t)) ->
  exists report,
    happens c0 (alone (wo_driver (cl_world c0)) ids ts) =
    mkClosing (with_report (act (run_actions w0 acts) (ALoop wk (list_to_set ts))) report) (cl_reason c0) Returned.
Proof.
  intros Ho Hb Hids Hdom Hts Hin. destruct (begin_ok _ _ _ _ _ _ _ _ Ho Hb) as [Hst Hok].
  assert (Hcl : wo_closure (cl_world c0) = None) by (apply (co_running _ _ _ _ _ Hok); by rewrite Hst).
  assert (Hnd : NoDup (pending_replies (d_pending (wo_driver (cl_world c0))))).
  { assert (Hall : NoDup (replies (wo_driver (cl_world c0)))) by (rewrite (co_replies _ _ _ _ _ Hok); apply NoDup_seq).
    unfold replies in Hall. rewrite !NoDup_app in Hall. naive_solver. }
  rewrite (loop_begins _ _ _ _ Hb). destruct (alone_is_teardown _ (cl_reason c0) ids ts Hcl Hnd Hids Hdom Hts Hin) as [report Hall].
  exists report. rewrite <- Hall. f_equal. destruct c0. cbn in Hst. by rewrite Hst.
Qed.

(** A late subscription never ends.  [events] and [pongs] on a session that has already closed
    hand out a stream that is neither fed nor ended: its [recv] stays pending whatever happens next. *)
Theorem late_subscription_never_ends w (more : list (Action T)) :
  is_Some (wo_closure w) ->
  let s := d_shared (wo_driver w) in
  (exists ch, sh_event_channels (d_shared (wo_driver (run_actions (act w ASubscribeEvents) more))) !! (subscribe_events s).2 = Some ch /\
    ch_recv ch = (ch, Pending)) /\
  (exists ch, sh_pong_channels (d_shared (wo_driver (run_actions (act w ASubscribePongs) more))) !! (subscribe_pongs s).2 = Some ch /\
    ch_recv ch = (ch, Pending)).
Proof.
  intros Hcl s.
  assert (Hkeep : forall w' n, is_Some (wo_closure w') -> (n < sh_next_channel (d_shared (wo_driver w')))%nat ->
    let w'' := run_actions w' more in
    sh_event_channels (d_shared (wo_driver w'')) !! n = sh_event_channels (d_shared (wo_driver w')) !! n /\
    sh_pong_channels (d_shared (wo_driver w'')) !! n = sh_pong_channels (d_shared (wo_driver w')) !! n).
  { intros w' n Hc Hlt. cbv zeta. revert w' Hc Hlt. induction more as [|a more IH]; intros w' Hc Hlt; [done|].
    cbn [run_actions foldl]. assert (Hcall : called w' (act w' a)) by by apply called_closed.
    destruct (cd_shared _ _ Hcall) as (rs & Hq & _). destruct (subs_step_older _ _ n (qu_subs _ _ _ Hq) Hlt) as (He & Hp & Hlt').
    rewrite <- He, <- Hp. apply IH; [by rewrite (cd_closure _ _ Hcall)|done]. }
  split; exists unbounded_channel; (split; [|done]).
  - rewrite (proj1 (Hkeep (act w ASubscribeEvents) (sh_next_channel s) Hcl (Nat.lt_succ_diag_r _))). apply lookup_insert_eq.
  - rewrite (proj2 (Hkeep (act w ASubscribePongs) (sh_next_channel s) Hcl (Nat.lt_succ_diag_r _))). apply lookup_insert_eq.
Qed.
End sessions.
