(* ===== verification/Handshake.v ===== *)
(** * Handshake, liveness and closing

    What two sessions agree on when their hellos cross, how a session dies of silence, which branch
    of the loop goes first, and what everyone is told when it ends. *)

From S2P Require Import Prelude Json Wire Frame Validate Limits Serde FrameJson Ndjson NdjsonProps Port Session Dispatch DispatchProps Driver Handle System Lifecycle Outbound Responses.
Local Open Scope Z_scope.

(** ** Two hellos *)

(** The announced ceilings of an opened session, as its peer reads them. *)
Lemma hello_limits_frame s :
  4096 <= local_max_frame_bytes (sh_cfg s) <= u64_max ->
  match l ← hello_limits (build_hello s); max_frame_bytes l with
  | Some b => usize_of_u64 b | None => DEFAULT_MAX_FRAME_BYTES end =
  Z.min (local_max_frame_bytes (sh_cfg s)) DEFAULT_MAX_FRAME_BYTES.
Proof.
  intros Hb. unfold build_hello. simpl.
  assert (Hu : usize_of_u64 (local_max_frame_bytes (sh_cfg s)) = local_max_frame_bytes (sh_cfg s))
    by (unfold usize_of_u64, usize_max; lia).
  case_bool_decide as E; unfold limits_default in *.
  - injection E as E1 _. simpl. destruct (Z.ltb_spec (local_max_frame_bytes (sh_cfg s)) DEFAULT_MAX_FRAME_BYTES); [done|lia].
  - simpl. destruct (Z.ltb_spec (local_max_frame_bytes (sh_cfg s)) DEFAULT_MAX_FRAME_BYTES); simpl; rewrite ?Hu; lia.
Qed.

Lemma hello_limits_in_flight s :
  1 <= cfg_max_in_flight (sh_cfg s) <= u64_max ->
  match l ← hello_limits (build_hello s); max_in_flight l with
  | Some b => usize_of_u64 b | None => DEFAULT_MAX_IN_FLIGHT end = cfg_max_in_flight (sh_cfg s).
Proof.
  intros Hb. unfold build_hello. simpl.
  assert (Hu : usize_of_u64 (cfg_max_in_flight (sh_cfg s)) = cfg_max_in_flight (sh_cfg s))
    by (unfold usize_of_u64, usize_max; lia).
  case_bool_decide as E; unfold limits_default in *.
  - injection E as _ E1. simpl. destruct (Z.eqb_spec (cfg_max_in_flight (sh_cfg s)) DEFAULT_MAX_IN_FLIGHT); [done|done].
  - simpl. destruct (Z.eqb_spec (cfg_max_in_flight (sh_cfg s)) DEFAULT_MAX_IN_FLIGHT); simpl; [done|]. by rewrite ?Hu.
Qed.

(** The values the Rust types allow: both ceilings are [usize]. *)
Definition ceilings_typed (s : Shared) : Prop :=
  local_max_frame_bytes (sh_cfg s) <= u64_max /\ cfg_max_in_flight (sh_cfg s) <= u64_max.

(** A session that hears the hello of [y] while it is handshaking. *)
Record greeted (s y s' : Shared) (m : Z) : Prop := {
  gr_state : sh_state s' = Ready;
  gr_peer : exists r, sh_remote s' = Some r /\ sh_ready s' = Some (Ok r) /\
    rp_effective_minor r = m /\ rp_peer r = local_peer (sh_cfg y);
  gr_limit : send_limit_bytes s' = Z.min (local_max_frame_bytes (sh_cfg s))
    (Z.min (local_max_frame_bytes (sh_cfg y)) DEFAULT_MAX_FRAME_BYTES);
  gr_in_flight : remote_max_in_flight s' = cfg_max_in_flight (sh_cfg y)
}.

Lemma on_hello_cases s y s' t :
  sh_state s = Handshaking -> sh_ready s = None -> ceilings_typed y ->
  4096 <= local_max_frame_bytes (sh_cfg y) -> 1 <= cfg_max_in_flight (sh_cfg y) ->
  on_hello s (build_hello y) = (s', t) ->
  match negotiate (local_protocol (sh_cfg s)) (local_protocol (sh_cfg y)) with
  | Compatible m => t = None /\ greeted s y s' m
  | Mismatch code =>
      t = Some (TLocal code (Some "protocol version unsupported")) /\
      exists e, sh_ready s' = Some (Err e) /\ re_code e = codes.PROTOCOL_MISMATCH
  end.
Proof.
  intros Hs Hr [Hf Hi] Hf1 Hi1. unfold on_hello. rewrite Hs, bool_decide_true by done. cbn [negb].
  change (hello_protocol (build_hello y)) with (local_protocol (sh_cfg y)).
  destruct (negotiate _ _) as [m|code].
  - unfold settle_ready at 1. cbn [set_inner sh_ready]. rewrite Hr. intros [= <- <-]. split; [done|].
    pose proof (hello_limits_frame y ltac:(lia)) as Lf. pose proof (hello_limits_in_flight y ltac:(lia)) as Li.
    split; [done|by eexists| |].
    + unfold send_limit_bytes. cbn [set_ready set_inner sh_remote sh_cfg]. f_equal. exact Lf.
    + exact Li.
  - unfold settle_ready. rewrite Hr. intros [= <- <-]. split; [done|]. by eexists.
Qed.

(** Handshake, spec section 5.  Two sessions that receive each other's hello agree.  With the
    same major both become ready, with the same effective minor and the same frame limit, the lowest
    of both ceilings and the default, and each knows exactly how many requests the other will hold.
    With different majors both fail [ready] with [PROTOCOL_MISMATCH] and close with the fatal 4426. *)
Theorem handshake_agreement (pa pb : option Z) (oa ob : SessionOptions) (a b a' b' : Shared) (ta tb : option Teardown) :
  open_shared pa oa = Ok a -> open_shared pb ob = Ok b ->
  ceilings_typed a -> ceilings_typed b ->
  on_hello a (build_hello b) = (a', ta) -> on_hello b (build_hello a) = (b', tb) ->
  (major (so_protocol oa) = major (so_protocol ob) /\ ta = None /\ tb = None /\
   sh_state a' = Ready /\ sh_state b' = Ready /\
   (exists ra rb, sh_remote a' = Some ra /\ sh_remote b' = Some rb /\
      sh_ready a' = Some (Ok ra) /\ sh_ready b' = Some (Ok rb) /\
      rp_effective_minor ra = rp_effective_minor rb /\
      rp_effective_minor ra = Z.min (minor (so_protocol oa)) (minor (so_protocol ob)) /\
      rp_peer ra = so_peer ob /\ rp_peer rb = so_peer oa) /\
   send_limit_bytes a' = send_limit_bytes b' /\
   send_limit_bytes a' <= local_max_frame_bytes (sh_cfg b) /\
   send_limit_bytes b' <= local_max_frame_bytes (sh_cfg a) /\
   remote_max_in_flight a' = so_max_in_flight ob /\ remote_max_in_flight b' = so_max_in_flight oa) \/
  (major (so_protocol oa) <> major (so_protocol ob) /\
   ta = Some (TLocal 4426 (Some "protocol version unsupported")) /\ tb = ta /\
   (exists ea eb, sh_ready a' = Some (Err ea) /\ sh_ready b' = Some (Err eb) /\
      re_code ea = codes.PROTOCOL_MISMATCH /\ re_code eb = codes.PROTOCOL_MISMATCH)).
Proof.
  intros Ha Hb Ta Tb Hha Hhb.
  destruct (open_shared_opened _ _ _ Ha) as [[_ _ Pa] Sa _ _ _ Fa Ia Ia1 _ _ Va Na].
  destruct (open_shared_opened _ _ _ Hb) as [[_ _ Pb] Sb _ _ _ Fb Ib Ib1 _ _ Vb Nb].
  destruct Pa as [(_ & _ & Da)|(? & _)]; [|congruence]. destruct Pb as [(_ & _ & Db)|(? & _)]; [|congruence].
  pose proof (on_hello_cases a b a' ta Sa Da Tb Fb ltac:(by rewrite Ib) Hha) as Ea.
  pose proof (on_hello_cases b a b' tb Sb Db Ta Fa ltac:(by rewrite Ia) Hhb) as Eb.
  rewrite (negotiate_comm (local_protocol (sh_cfg b))), Va, Vb in Eb. rewrite Va, Vb in Ea.
  unfold negotiate in Ea, Eb.
  destruct (Z.eqb_spec (major (so_protocol oa)) (major (so_protocol ob))) as [Hm|Hm]; cbn [negb] in Ea, Eb.
  - left. destruct Ea as [-> [Ga (ra & Ra & Da' & Ma & Pa') La Fla]].
    destruct Eb as [-> [Gb (rb & Rb & Db' & Mb & Pb') Lb Flb]].
    split; [done|]. split; [done|]. split; [done|]. split; [done|]. split; [done|].
    split; [exists ra, rb; rewrite Ma, Mb, Pa', Pb'; done|].
    rewrite La, Lb, Fla, Flb, Ia, Ib. split; [lia|]. split; [lia|]. split; [lia|done].
  - right. destruct Ea as [-> (ea & Ra & Ca)], Eb as [-> (eb & Rb & Cb)].
    split; [done|]. split; [done|]. split; [done|]. by exists ea, eb.
Qed.

(** Hello.  The hello an opened session builds is schema-valid exactly when its peer labels and
    role are, its major is positive, and its request ceiling is one the schema can announce: the
    frame ceiling never is the reason a hello is refused. *)
Lemma hello_valid_iff (port_max : option Z) (o : SessionOptions) (s : Shared) :
  open_shared port_max o = Ok s ->
  schema_valid (FHello (build_hello s)) <->
  1 <= major (so_protocol o) /\ label_ok (peer_name (so_peer o)) /\ label_ok (peer_version (so_peer o)) /\
  role_ok (peer_role (so_peer o)) /\ (so_max_in_flight o = 256 \/ so_max_in_flight o <= 2147483647).
Proof.
  intros Ho. destruct (open_shared_opened _ _ _ Ho) as [_ _ _ _ _ Hf Hi Hi1 _ _ Hv Hp].
  unfold build_hello. simpl. rewrite Hv, Hp, Hi in *.
  set (lim := Build_Limits _ _).
  assert (Hlim : (forall l, (if bool_decide (lim = limits_default) then None else Some lim) = Some l ->
      opt_in (max_frame_bytes l) 4096 2147483647 /\ opt_in (max_in_flight l) 1 2147483647) <->
    (so_max_in_flight o = 256 \/ so_max_in_flight o <= 2147483647)).
  { split.
    - intros H. destruct (Z.eqb_spec (so_max_in_flight o) 256) as [|Hne]; [by left|right].
      case_bool_decide as E.
      + exfalso. apply (f_equal max_in_flight) in E. unfold lim in E. simpl in E.
        unfold DEFAULT_MAX_IN_FLIGHT in E. by rewrite (proj2 (Z.eqb_neq _ _) Hne) in E.
      + destruct (H _ eq_refl) as [_ H2]. unfold lim, opt_in in H2. simpl in H2. unfold DEFAULT_MAX_IN_FLIGHT in H2.
        rewrite (proj2 (Z.eqb_neq _ _) Hne) in H2. destruct (H2 _ eq_refl). done.
    - intros H l Hl. case_bool_decide; [done|]. injection Hl as <-. unfold lim, opt_in. simpl.
      unfold DEFAULT_MAX_FRAME_BYTES, DEFAULT_MAX_IN_FLIGHT. split; intros v.
      + destruct (Z.ltb_spec (local_max_frame_bytes (sh_cfg s)) (16 * 1024 * 1024)); [|done]. intros [= <-]. lia.
      + destruct (Z.eqb_spec (so_max_in_flight o) 256); [done|]. simpl. intros [= <-]. lia. }
  rewrite Hlim. done.
Qed.

Section properties.
Context {RT : RustText} {SJ : SerdeJson} {T : Type} {PT : PortTx T}.

(** C28 (life cycle).  At any point of any run a session is handshaking with neither peer nor
    outcome, or ready with the peer [ready()] reported, or closed with a published closure and a
    settled [ready()]; and as the run goes on the state never goes back, and a peer, a [ready()]
    outcome and a closure, once set, never change. *)
Theorem session_lifecycle (port_max : option Z) (tx : T) (o : SessionOptions) (settle : gset nat)
    (w0 : World T) (acts more : list (Action T)) :
  world_open port_max tx o settle = Ok w0 ->
  let s := d_shared (wo_driver (run_actions w0 acts)) in
  let s' := d_shared (wo_driver (run_actions w0 (acts ++ more))) in
  (sh_state s = Handshaking /\ sh_remote s = None /\ sh_ready s = None /\ sh_closure s = None \/
   sh_state s = Ready /\ sh_closure s = None /\ (exists r, sh_remote s = Some r /\ sh_ready s = Some (Ok r)) \/
   sh_state s = Closed /\ is_Some (sh_closure s) /\ is_Some (sh_ready s)) /\
  rank (sh_state s) <= rank (sh_state s') /\
  (forall r, sh_remote s = Some r -> sh_remote s' = Some r) /\
  (forall r, sh_ready s = Some r -> sh_ready s' = Some r) /\
  (forall c, sh_closure s = Some c -> sh_closure s' = Some c).
Proof.
  intros Ho s s'.
  assert (lifecycle (run_actions w0 acts)) as Hl.
  { apply run_actions_ind; [by eapply world_open_lifecycle|]. intros w a. apply act_lifecycle. }
  assert (lifecycle (run_actions w0 (acts ++ more)) /\ advances s s') as [_ [Hr H1 H2 H3 _]].
  { unfold s', run_actions. rewrite foldl_app.
    apply (run_actions_ind (fun w => lifecycle w /\ advances s (d_shared (wo_driver w)))).
    - split; [done|reflexivity].
    - intros w a [Hw Ha]. split; [by apply act_lifecycle|]. etrans; [exact Ha|]. by apply act_advances. }
  split; [|done]. unfold lifecycle in Hl. destruct (wo_closure _).
  - destruct Hl. right. right. eauto.
  - destruct Hl as [? _ [(? & ? & ?)|(? & ?)]]; [by left|right; by left].
Qed.

(** ** Which branch goes first *)

(** No starvation by the peer.  The loop reads an inbound item only when no send failure is
    reported, no deadline or liveness tick is due, no handler has settled and no command is
    queued; and when any of those is there, what the peer sends does not influence the choice. *)
Theorem inbound_goes_last (d : Driver T) (wk : Wakeups) :
  let control := {| wk_sleep := wk_sleep wk; wk_tick := wk_tick wk;
                    wk_settled := wk_settled wk; wk_inbound := Pending |} in
  (forall b, select d control = Some b -> select d wk = Some b /\ forall i, b <> BInbound i) /\
  (select d control = None ->
     w_report (d_writer d) = None /\ w_gone (d_writer d) = false /\
     (wk_sleep wk && bool_decide (sh_state (d_shared d) = Handshaking)) = false /\
     (wk_tick wk && d_liveness d) = false /\
     (tk_tasks (d_tracking d) = ∅ \/ wk_settled wk = None) /\
     ch_queue (sh_commands (d_shared d)) = [] /\
     select d wk = match wk_inbound wk with Polled i => Some (BInbound i) | Pending => None end).
Proof.
  cbv zeta. unfold select. simpl.
  destruct (w_report (d_writer d)); [split; [by intros b [= <-]|done]|].
  destruct (w_gone (d_writer d)); [split; [by intros b [= <-]|done]|].
  destruct (wk_sleep wk && _); [split; [by intros b [= <-]|done]|].
  destruct (wk_tick wk && _); [split; [by intros b [= <-]|done]|].
  case_bool_decide as Ht; [|destruct (wk_settled wk) as [st|]; [split; [by intros b [= <-]|done]|]];
    unfold ch_recv; destruct (ch_queue (sh_commands (d_shared d))) as [|c q]; simpl;
    try (split; [by intros b [= <-]|done]);
    destruct (ch_senders (sh_commands (d_shared d))); (split; [done|]); intros _; auto 10.
Qed.

(** ** Liveness *)

Definition is_pong (b : Branch) : bool :=
  match b with BInbound (Some (IFrame FPong)) => true | _ => false end.
Definition is_tick (b : Branch) : bool := match b with BLivenessTick => true | _ => false end.

(** The loop taking these branches one after the other, without breaking. *)
Fixpoint run_branches (d : Driver T) (bs : list Branch) : option (Driver T) :=
  match bs with
  | [] => Some d
  | b :: bs => match on_branch d b with (d', None) => run_branches d' bs | (_, Some _) => None end
  end.

Lemma awaiting_step (d : Driver T) b :
  is_tick b = false -> d_awaiting_pong (on_branch d b).1 = (negb (is_pong b) && d_awaiting_pong d).
Proof.
  intros Hb. destruct b as [o| | |st|c|[[f|cl]|]]; simpl; try done.
  - by destruct (on_handler_settled _ _ _ _) as [[s tk] w].
  - destruct c as [|[]| |]; simpl; try done. by destruct forget.
  - destruct f; simpl; try done; [by destruct (on_hello _ _)|by destruct (on_request _ _ _ _) as [[s tk] w]].
Qed.

Lemma awaiting_run bs : forall d d' : Driver T,
  Forall (fun b => is_tick b = false) bs -> run_branches d bs = Some d' ->
  d_awaiting_pong d' = (negb (existsb is_pong bs) && d_awaiting_pong d).
Proof.
  induction bs as [|b bs IH]; intros d d' Ht H; simpl in *; [by injection H as <-|].
  apply Forall_cons in Ht as [Hb Ht]. pose proof (awaiting_step d b Hb) as Hs.
  destruct (on_branch d b) as [d1 [r|]]; [done|]. simpl in Hs. rewrite (IH _ _ Ht H), Hs.
  by destruct (is_pong b), (existsb is_pong bs), (d_awaiting_pong d).
Qed.

(** Liveness, spec section 9.  A tick that finds no ping outstanding sends exactly one; if no
    [pong] arrives before the next tick, whatever else happens in between, that tick closes the
    session with 4000; if one does, that tick pings again.  No tick is taken before the session is
    ready. *)
Theorem liveness_rule (d d1 d2 : Driver T) (bs : list Branch) (t : option Teardown) :
  d_awaiting_pong d = false ->
  on_branch d BLivenessTick = (d1, t) ->
  Forall (fun b => is_tick b = false) bs ->
  run_branches d1 bs = Some d2 ->
  t = None /\ w_queue (d_writer d1) = w_queue (d_writer d) ++ [FPing] /\
  on_branch d2 BLivenessTick =
    (if existsb is_pong bs
     then (set_writer (set_awaiting d2 true) (enqueue (d_writer d2) FPing), None)
     else (d2, Some (TLocal 4000 (Some "liveness timeout")))) /\
  (forall wk, d_liveness d = false -> sh_state (d_shared d) <> Ready ->
     select (arm_liveness d) wk <> Some BLivenessTick).
Proof.
  simpl. unfold on_liveness_tick. intros Ha E Hb Hrun. rewrite Ha in E. injection E as <- <-.
  split; [done|]. split; [done|]. split.
  - rewrite (awaiting_run _ _ _ Hb Hrun). simpl. by destruct (existsb is_pong bs).
  - intros wk Hl Hst. unfold arm_liveness. rewrite Hl, bool_decide_false by done. simpl. unfold select.
    rewrite Hl, andb_false_r.
    repeat match goal with |- context [match ?x with _ => _ end] => destruct x end; congruence.
Qed.

(** ** Closing *)

Lemma active_tokens_spec tk t :
  t ∈ active_tokens tk <-> exists id a, tk_active tk !! id = Some a /\ ar_cancel a = t.
Proof.
  unfold active_tokens. rewrite elem_of_list_to_set, list_elem_of_fmap. split.
  - intros ([id a] & -> & H). apply elem_of_map_to_list in H. by exists id, a.
  - intros (id & a & H & <-). exists (id, a). split; [done|]. by apply elem_of_map_to_list.
Qed.

(** Teardown.  Whatever ends a session: its closure carries the code and reason of the cause
    ([4000] when the link just vanished) and is fatal exactly for the fatal codes; the port is told
    only when this side decided, after the queue was flushed, and not at all once the writer task
    panicked; [ready()] keeps an outcome it had and
    otherwise fails, as a mismatch exactly for 4426; every token of an active request is cancelled;
    and the unfinished handlers are those still running after the grace period. *)
Theorem teardown_spec (d : Driver T) (cause : Teardown) (settle : gset nat) :
  let '(d', closure) := teardown d cause settle in
  let '(code, reason, error, local) := closing cause in
  sc_code closure = code /\ sc_reason closure = reason /\ sc_error closure = error /\
  sc_fatal closure = is_fatal_close_code code /\
  (local = true <-> exists c r, cause = TLocal c r) /\
  w_tx (d_writer d') =
    (let flushed := foldl (fun tx f => (port_send tx f).1) (w_tx (d_writer d)) (w_queue (d_writer d)) in
     if w_gone (d_writer d) then w_tx (d_writer d)
     else if local then port_close flushed code reason else flushed) /\
  sh_closure (d_shared d') = Some closure /\ sh_state (d_shared d') = Closed /\
  sh_ready (d_shared d') =
    (match sh_ready (d_shared d) with
     | Some outcome => Some outcome
     | None => Some (Err (closed_early_error code reason))
     end) /\
  (re_code (closed_early_error code reason) = codes.PROTOCOL_MISMATCH <-> code = 4426) /\
  (forall id a, tk_active (d_tracking d) !! id = Some a -> ar_cancel a ∈ tk_cancelled (d_tracking d')) /\
  sc_unfinished_handlers closure = Z.of_nat (size (tk_tasks (d_tracking d'))) /\
  (forall t, is_Some (tk_tasks (d_tracking d') !! t) <-> is_Some (tk_tasks (d_tracking d) !! t) /\ t ∉ settle) /\
  tk_tasks (d_tracking (drop_driver d')) = ∅.
Proof.
  unfold teardown. destruct (closing cause) as [[[code reason] error] local] eqn:Hc. simpl.
  do 4 (split; [done|]). split.
  { destruct cause as [c r|c r|[c r|e c]]; simpl in Hc; simplify_eq; split; try done; [by eexists _, _| | |];
      by intros (? & ? & ?). }
  split; [unfold shut_down; by destruct (w_gone _)|]. split; [done|]. split; [unfold settle_ready; simpl; by case_match|].
  split; [unfold settle_ready; simpl; destruct (sh_ready (d_shared d)) eqn:E; simpl; by rewrite ?E|].
  split.
  { unfold closed_early_error. simpl. change 4426 with close_codes.PROTOCOL_MISMATCH.
    destruct (Z.eqb_spec code close_codes.PROTOCOL_MISMATCH); split; done. }
  split; [intros id a Ha; apply elem_of_union; left; apply active_tokens_spec; by exists id, a|].
  split; [done|]. split; [|done]. intros t. split.
  - intros [h Hh]. apply map_lookup_filter_Some in Hh as [Hh Hn]. split; [by eexists|done].
  - intros [[h Hh] Hn]. exists h. apply map_lookup_filter_Some. done.
Qed.

(** Requests that die with the session.  At teardown every outbound request still waiting is
    answered, with [UNAVAILABLE] naming its method, its id and the close code. *)
Theorem teardown_fails_pending (d : Driver T) (cause : Teardown) (settle : gset nat) (id : string) (req : PendingRequest) :
  NoDup (map (fun kv => pr_reply kv.2) (map_to_list (d_pending d))) ->
  d_pending d !! id = Some req ->
  exists e, d_oneshots (teardown d cause settle).1 !! pr_reply req = Some (OSent (Err e)) /\
    re_code e = codes.UNAVAILABLE /\
    exists details, re_details e = Some details /\
      map_get "method" details = Some (VString (pr_method req)) /\
      map_get "id" details = Some (VString id) /\
      map_get "close_code" details = Some (from_u64 (sc_code (teardown d cause settle).2)).
Proof.
  intros Hnd Hp. unfold teardown. destruct (closing cause) as [[[code reason] error] local]. simpl.
  exists (closed_request_error code reason id (pr_method req)). split; [|split; [done|by eexists]].
  unfold fail_pending. rewrite map_fold_foldr. apply elem_of_map_to_list in Hp.
  induction (map_to_list (d_pending d)) as [|[i r] l IH]; [by inversion Hp|].
  simpl in *. apply NoDup_cons in Hnd as [Hnot Hnd].
  apply elem_of_cons in Hp as [[= <- <-]|Hp]; [apply lookup_insert_eq|].
  rewrite lookup_insert_ne; [by apply IH|]. intros E. apply Hnot. rewrite E.
  apply list_elem_of_fmap. by exists (id, req).
Qed.

(** [err] frames.  Whatever error a handler returns is enqueued as it is: no validation and
    no size check, unlike every other frame, so a handler can make its session send a frame the
    schema refuses. *)
Theorem handler_error_unchecked (s : Shared) (tk : RequestTracking) (w : Writer T) (t : nat) (id : string)
    (a : ActiveRequest) (e : RemoteError) :
  tk_by_task_id tk !! t = Some id -> tk_active tk !! id = Some a ->
  (on_handler_settled s tk w (Ok (t, Err e))).2 = enqueue w (error_frame id e) /\
  (re_message e = "" -> ~ schema_valid (error_frame id e)).
Proof.
  intros Ht Ha. unfold on_handler_settled. simpl. rewrite Ht. simpl. rewrite Ha. split; [done|].
  intros Hm (_ & _ & Hlen). simpl in Hlen. rewrite Hm in Hlen. vm_compute in Hlen. by destruct Hlen.
Qed.
End properties.
