(* ===== verification/Requests.v ===== *)
(** * Calls and registrations

    The ids a session gives its requests, the outcomes of one call, and the guard that keeps a
    handler registered. *)

From S2P Require Import Prelude Json Wire Frame Validate Limits Serde FrameJson Ndjson NdjsonProps Port Session Dispatch DispatchProps Driver Handle System Lifecycle Outbound Responses.
Local Open Scope Z_scope.

Definition request_ids (cs : list Command) : list string :=
  omap (fun c => match c with CmdRequest (FReq r) _ => Some (req_id r) | _ => None end) cs.

(** The id the [n]-th request of a session gets. *)
Definition nth_id (cfg : Config) (n : Z) : string := request_id_prefix cfg +:+ "-" +:+ show_Z n.

Lemma nth_id_inj cfg m n : nth_id cfg m = nth_id cfg n -> m = n.
Proof. unfold nth_id, show_Z. intros H. apply (inj _) in H. apply (inj _) in H. by apply (inj pretty) in H. Qed.

Lemma no_replies_no_ids cs : queued_replies cs = [] -> request_ids cs = [].
Proof.
  unfold queued_replies, request_ids. induction cs as [|c cs IH]; [done|]. simpl. destruct c; simpl; auto. done.
Qed.

Section requests.
Context {RT : RustText} {SJ : SerdeJson} {T : Type} {PT : PortTx T}.

Abbreviation shared w := (@d_shared T (@wo_driver T w)).

Lemma shared_op_sequence s (a : Action T) : sh_request_sequence (shared_op s a) = sh_request_sequence s.
Proof.
  destruct a; simpl; try done; unfold guard_drop, ping, close_now, emit, send_command;
    by repeat (case_match; simplify_eq/=).
Qed.

Lemma request_poll_sequence s os f c dl :
  sh_request_sequence (request_poll s os f c dl).1.1 = sh_request_sequence s.
Proof. unfold request_poll, send_command. by repeat (case_match; simplify_eq/=). Qed.

Lemma request_drop_sequence s f : sh_request_sequence (request_drop s f) = sh_request_sequence s.
Proof. unfold request_drop, send_command. by repeat (case_match; simplify_eq/=). Qed.

Lemma on_branch_sequence (d : Driver T) b :
  sh_request_sequence (d_shared (on_branch d b).1) = sh_request_sequence (d_shared d).
Proof.
  destruct b as [o| | |st|c|[[f|c]|]]; simpl; try done.
  - unfold on_handshake_timeout, settle_ready. simpl. by case_match.
  - unfold on_liveness_tick. by case_match.
  - destruct (on_settled_shared (d_shared d) (join_task (d_tracking d) (settled_task st)) (d_writer d) st) as [n Hn].
    destruct (on_handler_settled _ _ _ _) as [[s tk] w]. simpl in *. by subst.
  - by rewrite on_command_shared.
  - destruct f as [h|r|r|e|e|c| | |c]; simpl; try done.
    + unfold on_hello, settle_ready. by repeat case_match; simplify_eq/=.
    + destruct (on_request_shared (d_shared d) (d_tracking d) (d_writer d) r) as [n Hn].
      destruct (on_request _ _ _ _) as [[s tk] w]. simpl in *. by subst.
    + unfold fan_out_event. by repeat case_match.
    + unfold fan_out_pong. by repeat case_match.
Qed.

Lemma teardown_sequence (d : Driver T) reason settle :
  sh_request_sequence (d_shared (drop_driver (teardown d reason settle).1)) = sh_request_sequence (d_shared d).
Proof.
  unfold teardown. destruct (closing reason) as [[[code text] error] port]. simpl.
  unfold settle_ready. simpl. by destruct (sh_ready (d_shared d)).
Qed.

(** A started request takes the next number, whether or not it passes the preflight. *)
Lemma request_start_sequence s remote method params timeout reply s' r :
  request_start s remote method params timeout reply = (s', r) ->
  (sh_request_sequence s' = sh_request_sequence s /\ exists e, r = Err e) \/
  (sh_request_sequence s' = fetch_add_u64 (sh_request_sequence s) /\
   forall f, r = Ok f -> rf_id f = nth_id (sh_cfg s) (fetch_add_u64 (sh_request_sequence s))).
Proof.
  unfold request_start, send_command. intros H.
  destruct (_ && _); [injection H as <- <-; left; eauto|].
  destruct (bool_decide _); [injection H as <- <-; left; eauto|]. simpl in H. right.
  destruct (assert_fits _ _ _); [|by injection H as <- <-].
  destruct (ch_send _ _) as [ch []]; injection H as <- <-; (split; [done|]); [|done]. by intros f [= <-].
Qed.

Lemma ids_sent w s cs :
  sends (shared w) s cs ->
  request_ids (wo_commands (with_shared w s)) = request_ids (wo_commands w) ++ request_ids cs.
Proof. intros (_ & Hq & _). simpl. rewrite Hq, appended_spec. unfold request_ids. apply omap_app. Qed.

Lemma ids_unsent w s cs :
  sends (shared w) s cs -> queued_replies cs = [] ->
  request_ids (wo_commands (with_shared w s)) = request_ids (wo_commands w).
Proof. intros Hs Hr. by rewrite (ids_sent w s cs Hs), (no_replies_no_ids cs Hr), app_nil_r. Qed.

(** What an action does to the counter and to the ids queued so far. *)
Lemma act_ids (w : World T) a :
  lifecycle w -> traffic_ok w ->
  (sh_request_sequence (shared (act w a)) = sh_request_sequence (shared w) /\
   request_ids (wo_commands (act w a)) = request_ids (wo_commands w)) \/
  (sh_request_sequence (shared (act w a)) = fetch_add_u64 (sh_request_sequence (shared w)) /\
   (request_ids (wo_commands (act w a)) = request_ids (wo_commands w) \/
    request_ids (wo_commands (act w a)) =
      request_ids (wo_commands w) ++ [nth_id (sh_cfg (shared w)) (fetch_add_u64 (sh_request_sequence (shared w)))])).
Proof.
  intros Hl Hok.
  assert (Hnot : forall r f, wo_futures w !! r = Some f -> sh_state (shared w) <> Handshaking).
  { intros r f Hf Hst. destruct (tr_handshake w Hok Hst) as (_ & _ & He & _). by rewrite He in Hf. }
  assert (Hop : forall b, act w b = with_shared w (shared_op (shared w) b) ->
    sh_request_sequence (shared (act w b)) = sh_request_sequence (shared w) /\
    request_ids (wo_commands (act w b)) = request_ids (wo_commands w)).
  { intros b ->. split; [apply shared_op_sequence|]. destruct (shared_op_sends (shared w) b) as [cs Hs].
    eapply ids_unsent; [exact Hs|]. by eapply shared_op_replies. }
  destruct a; try (left; by apply Hop).
  - simpl. unfold request_action. destruct (check_method _); [|by left].
    destruct (ready (shared w)) as [|[remote|]] eqn:Hr; try by left.
    destruct (request_start _ _ _ _ _ _) as [s' r] eqn:E.
    destruct (request_start_sends _ _ _ _ _ _ _ _ (lifecycle_ready w remote Hl Hr) E) as (cs & Hs & Hcs).
    destruct (request_start_sequence _ _ _ _ _ _ _ _ E) as [[Hseq [e ->]]|[Hseq Hid]].
    + left. subst cs. split; [done|]. by eapply ids_unsent.
    + right. destruct r as [f|e].
      * destruct Hcs as (_ & _ & _ & req & -> & Hrid). split; [done|]. right.
        change (request_ids (wo_commands (with_shared w s')) =
          request_ids (wo_commands w) ++ [nth_id (sh_cfg (shared w)) (fetch_add_u64 (sh_request_sequence (shared w)))]).
        rewrite (ids_sent w s' _ Hs). simpl. by rewrite <- (Hid f eq_refl), Hrid.
      * subst cs. split; [done|]. left. by eapply ids_unsent.
  - left. simpl. unfold poll_action. destruct (wo_futures w !! reply) as [f|] eqn:Hf; [|done].
    pose proof (request_poll_sequence (shared w) (d_oneshots (wo_driver w)) f cancelled deadline) as Hseq.
    destruct (request_poll _ _ _ _ _) as [[s f'] r] eqn:E. simpl in Hseq.
    destruct (request_poll_sends _ _ _ _ _ _ _ _ (Hnot _ _ Hf) (tr_futures w Hok _ _ Hf) E) as ((cs & Hcs & Hr) & _).
    destruct r; (split; [done|]); eapply ids_unsent; [exact Hcs|by apply cancel_replies|exact Hcs|by apply cancel_replies].
  - left. simpl. unfold drop_action. destruct (wo_futures w !! reply) as [f|] eqn:Hf; [|done].
    destruct (request_drop_sends (shared w) f (Hnot _ _ Hf) (tr_futures w Hok _ _ Hf)) as (cs & Hcs & Hr).
    split; [apply request_drop_sequence|]. eapply ids_unsent; [exact Hcs|by apply cancel_replies].
  - left. simpl. by destruct (wo_closure w).
  - left. simpl. destruct (wo_closure w) eqn:Hcl; [done|].
    destruct (loop_cases w wk settle) as [->|(b & d' & t & _ & _ & E & _ & ->)]; [done|].
    pose proof (on_branch_sequence (arm_liveness (wo_driver w)) b) as Hb. rewrite E, arm_liveness_shared in Hb.
    cbv zeta. destruct t as [reason|]; cbn [wo_driver wo_commands]; [|done]. by rewrite teardown_sequence.
  - by left.
Qed.

(** [n] bounds how often the counter has been advanced. *)
Record ids_ok (w : World T) (n : Z) : Prop := {
  id_sequence : 0 <= sh_request_sequence (shared w) <= n;
  id_nodup : NoDup (request_ids (wo_commands w));
  id_range : forall id, id ∈ request_ids (wo_commands w) ->
    exists m, 1 <= m <= sh_request_sequence (shared w) /\ id = nth_id (sh_cfg (shared w)) m
}.

Lemma act_ids_ok w a n :
  lifecycle w -> traffic_ok w -> ids_ok w n -> n < u64_max -> ids_ok (act w a) (n + 1).
Proof.
  intros Hl Hok [Hs Hnd Hr] Hn. pose proof (adv_cfg _ _ (act_advances w a Hl)) as Hcfg.
  assert (Hf : fetch_add_u64 (sh_request_sequence (shared w)) = sh_request_sequence (shared w) + 1).
  { unfold fetch_add_u64. apply Z.mod_small. lia. }
  destruct (act_ids w a Hl Hok) as [[Hq Hi]|[Hq [Hi|Hi]]]; rewrite ?Hf in Hq; rewrite ?Hf in Hi;
    split; rewrite ?Hq, ?Hi, ?Hcfg; try lia; try done.
  - intros id Hid. destruct (Hr id Hid) as (m & Hm & ->). exists m. split; [lia|done].
  - apply NoDup_app. split; [done|]. split; [|apply NoDup_singleton].
    intros id Hid ->%list_elem_of_singleton. destruct (Hr _ Hid) as (m & Hm & E). apply nth_id_inj in E. lia.
  - intros id [Hid| ->%list_elem_of_singleton]%elem_of_app.
    + destruct (Hr id Hid) as (m & Hm & ->). exists m. split; [lia|done].
    + exists (sh_request_sequence (shared w) + 1). split; [lia|done].
Qed.

Lemma run_ids_ok acts : forall w n,
  lifecycle w -> traffic_ok w -> ids_ok w n -> n + Z.of_nat (length acts) <= u64_max ->
  ids_ok (run_actions w acts) (n + Z.of_nat (length acts)).
Proof.
  induction acts as [|a acts IH]; intros w n Hl Hok Hid Hn; simpl in *; [by rewrite Z.add_0_r|].
  replace (n + Z.of_nat (S (length acts))) with (n + 1 + Z.of_nat (length acts)) by lia.
  apply IH; [by apply act_lifecycle|by apply act_traffic| |lia]. apply act_ids_ok; auto. lia.
Qed.

Lemma open_ids port_max tx o settle w : world_open port_max tx o settle = Ok w ->
  wo_commands w = [] /\ sh_request_sequence (shared w) = 0.
Proof.
  assert (Hop : forall s, open_shared port_max o = Ok s -> sh_request_sequence s = 0).
  { unfold open_shared. intros s (sc & _ & H)%result_bind_Ok.
    apply result_bind_Ok in H as (pc & _ & H). apply result_bind_Ok in H as (mi & _ & H).
    apply result_bind_Ok in H as (mk & _ & H). injection H as <-.
    match goal with |- sh_request_sequence (foldl _ ?s0 _) = _ =>
      generalize (eq_refl (sh_request_sequence s0)); generalize s0 at 1 3 end.
    induction (so_handlers o) as [|x l IH]; intros s0 Hs0; simpl; [done|]. by apply IH. }
  unfold world_open, session_open. intros (d & Hd & H)%result_bind_Ok. injection H as <-.
  apply result_bind_Ok in Hd as (s & Hs & [= <-]). specialize (Hop s Hs).
  unfold start. simpl. destruct (assert_fits _ _ _) as [[]|e].
  - destruct (port_send tx _) as [tx' out]. destruct (refused_hello out) as [e|]; [|done].
    match goal with |- context [teardown ?d ?r ?st] => pose proof (teardown_sequence d r st) as Ht; destruct (teardown d r st) end.
    split; [done|]. cbn [wo_driver fst] in *. rewrite Ht. simpl. unfold settle_ready. by case_match.
  - match goal with |- context [teardown ?d ?r ?st] => pose proof (teardown_sequence d r st) as Ht; destruct (teardown d r st) end.
    split; [done|]. cbn [wo_driver fst] in *. rewrite Ht. simpl. unfold settle_ready. by case_match.
Qed.

(** ** Properties *)

(** C40 (request ids, spec section 6).  Over the whole life of a session no two of its requests carry
    the same id, whatever the prefix and however many callers race, as long as fewer than 2^64
    things happen; so a response can never settle another call. *)
Theorem request_ids_unique (port_max : option Z) (tx : T) (o : SessionOptions) (settle : gset nat)
    (w0 : World T) (acts : list (Action T)) :
  world_open port_max tx o settle = Ok w0 ->
  Z.of_nat (length acts) <= u64_max ->
  NoDup (request_ids (wo_commands (run_actions w0 acts))).
Proof.
  intros Ho Hn. destruct (open_ids _ _ _ _ _ Ho) as [Hc Hs].
  apply (run_ids_ok acts w0 0); [by eapply world_open_lifecycle|by eapply open_traffic| |lia].
  split; rewrite ?Hc, ?Hs; [lia|constructor|]. intros id Hid. by apply elem_of_nil in Hid.
Qed.

(** One poll of a call.  An answer that has arrived always wins over a cancel and a deadline that
    are due at the same time; a due cancel is sent once, keeps the call waiting for the peer's
    real answer and keeps its entry; a due deadline sends a cancel that releases the entry and
    fails with [TIMEOUT]; and a call that ended sends nothing when it is dropped. *)
Theorem request_poll_outcomes (s : Shared) (os : Oneshots) (f : RequestFuture) (cancelled deadline : bool) :
  ch_receiver (sh_commands s) = true -> rf_armed f = true ->
  let '(s', f', r) := request_poll s os f cancelled deadline in
  let cancels := (if cancelled && negb (rf_cancel_sent f) then [CmdCancel (rf_id f) true] else []) in
  match os !! rf_reply f with
  | Some (OSent answer) => s' = s /\ r = Polled answer /\ request_drop s' f' = s'
  | Some ODropped => s' = s /\ r = Polled (Err (unavailable s (rf_method f))) /\ request_drop s' f' = s'
  | None =>
      if deadline && bool_decide (is_Some (rf_timeout f)) then
        r = Polled (Err (timeout_error (rf_method f) (rf_timeout f))) /\ request_drop s' f' = s' /\
        ch_queue (sh_commands s') = ch_queue (sh_commands s) ++ cancels ++ [CmdCancel (rf_id f) false]
      else
        r = Pending /\ rf_armed f' = true /\ rf_cancel_sent f' = (rf_cancel_sent f || cancelled) /\
        ch_queue (sh_commands s') = ch_queue (sh_commands s) ++ cancels
  end.
Proof.
  intros Hr Ha. unfold request_poll, reply_poll, request_drop, send_command, ch_send.
  destruct (os !! rf_reply f) as [[a|]|]; simpl; [done|done|].
  destruct (cancelled && negb (rf_cancel_sent f)) eqn:Hc; simpl; rewrite ?Hr; simpl;
    destruct (deadline && _) eqn:Hd; simpl; rewrite ?Hr; simpl; rewrite ?app_nil_r, <- ?app_assoc;
    repeat split; try done; destruct cancelled, (rf_cancel_sent f); done.
Qed.

(** Handler guards.  Registering a method again replaces its handler, and dropping the guard
    of the earlier registration then removes nothing; dropping the guard of the registration in
    force removes it, unless it was persisted, and touches no other method. *)
Theorem stale_guard_harmless (s s1 s2 : Shared) (method : string) (h h' : Handler) (g g' : HandlerGuard) :
  0 <= sh_next_generation s < u64_max ->
  handle s method h = (s1, g) -> handle s1 method h' = (s2, g') ->
  guard_drop s2 g = s2 /\
  (exists generation, sh_handlers s2 !! method = Some (generation, h')) /\
  sh_handlers (guard_drop s2 g') !! method = None /\
  (forall m, m <> method -> sh_handlers (guard_drop s2 g') !! m = sh_handlers s !! m) /\
  guard_drop s2 (guard_persist g') = s2.
Proof.
  intros Hg. unfold handle, register_handler. intros [= <- <-] [= <- <-]. unfold guard_drop. simpl.
  rewrite lookup_insert_eq.
  assert (fetch_add_u64 (sh_next_generation s) = sh_next_generation s + 1) as Hf.
  { unfold fetch_add_u64. apply Z.mod_small. lia. }
  rewrite Hf, Z.eqb_refl. rewrite (proj2 (Z.eqb_neq (sh_next_generation s + 1) (sh_next_generation s))) by lia.
  split; [done|]. split; [by eexists|]. simpl. split; [apply lookup_delete_eq|]. split; [|done].
  intros m Hm. rewrite lookup_delete_ne, !lookup_insert_ne by done. done.
Qed.
End requests.
