(* ===== verification/Origins.v ===== *)
(** * Where a session's knowledge comes from

    Two more logs beside those of [System]: the frames a driver took from its port and the handler
    calls that settled.  Everything a session believes or sends is traced back to them: the peer it
    reports, the requests it routes, the handlers it runs, the results it sends and the answers it
    gives its callers. *)

From S2P Require Import Prelude Json Wire Frame Validate Limits Serde FrameJson Ndjson NdjsonProps Port Session Dispatch DispatchProps Driver Handle System Lifecycle Outbound Responses Replies.
Local Open Scope Z_scope.

(** The request a handler call runs. *)
Definition call_request (c : HandlerCall) : Request :=
  {| req_id := cc_id (hc_context c); req_method := cc_method (hc_context c); req_params := hc_params c |}.

(** The requests among frames and among commands. *)
Definition frame_requests (fs : list Frame) : list Request :=
  omap (fun f => match f with FReq r => Some r | _ => None end) fs.
Definition command_requests (cs : list Command) : list Request :=
  omap (fun c => match c with CmdRequest (FReq r) _ => Some r | _ => None end) cs.

(** The peer a hello announces to a session that speaks [local]. *)
Definition announced (h : Hello) (effective_minor : Z) : RemotePeer :=
  {| rp_peer := hello_peer h; rp_protocol := hello_protocol h; rp_capabilities := hello_capabilities h;
     rp_limits := hello_limits h; rp_effective_minor := effective_minor |}.

Section origins.
Context {RT : RustText} {SJ : SerdeJson} {T : Type} {PT : PortTx T}.

Abbreviation shared w := (@d_shared T (@wo_driver T w)).
Abbreviation queue d := (ch_queue (sh_commands (d_shared d))).

(** The branch an action of a running session takes, if it is a turn of the loop. *)
Definition taken (w : World T) (a : Action T) : option Branch :=
  match a, wo_closure w with
  | ALoop wk _, None =>
      if wakeups_ok (wo_driver w) wk then select (arm_liveness (wo_driver w)) wk else None
  | _, _ => None
  end.

Definition heard_in (w : World T) (a : Action T) : list Frame :=
  match taken w a with Some (BInbound (Some (IFrame f))) => [f] | _ => [] end.

Definition settled_in (w : World T) (a : Action T) : list (HandlerCall * HandlerOutcome) :=
  match taken w a with
  | Some (BSettled st) =>
      match tk_tasks (d_tracking (wo_driver w)) !! settled_task st with
      | Some c => [(c, settled_outcome st)]
      | None => []
      end
  | _ => []
  end.

Record Logged : Type := mkLogged
  { lg_world : World T; lg_heard : list Frame; lg_settled : list (HandlerCall * HandlerOutcome) }.

Definition log_act (l : Logged) (a : Action T) : Logged :=
  mkLogged (act (lg_world l) a) (lg_heard l ++ heard_in (lg_world l) a) (lg_settled l ++ settled_in (lg_world l) a).

Definition log_run (l : Logged) (acts : list (Action T)) : Logged := foldl log_act l acts.

Lemma log_run_world acts : forall l, lg_world (log_run l acts) = run_actions (lg_world l) acts.
Proof. induction acts as [|a acts IH]; intros l; [done|]. apply (IH (log_act l a)). Qed.

(** ** Calls of this session *)

(** [cmds] is what the handles queued, [heard] what the port delivered. *)
Record outgoing (closed : option SessionClosure) (d : Driver T) (cmds : list Command) (heard : list Frame) : Prop := {
  og_queue : forall c, c ∈ queue d -> c ∈ cmds;
  og_pending : forall id p, d_pending d !! id = Some p ->
    exists r, CmdRequest (FReq r) (pr_reply p) ∈ cmds /\ req_id r = id /\ req_method r = pr_method p;
  og_answered : forall reply v, d_oneshots d !! reply = Some (OSent (Ok v)) ->
    exists r, CmdRequest (FReq r) reply ∈ cmds /\ FRes {| res_id := req_id r; res_result := v |} ∈ heard;
  og_failed : forall reply e, d_oneshots d !! reply = Some (OSent (Err e)) ->
    (exists c r, closed = Some c /\ CmdRequest (FReq r) reply ∈ cmds /\
      e = closed_request_error (sc_code c) (sc_reason c) (req_id r) (req_method r)) \/
    exists r p, CmdRequest (FReq r) reply ∈ cmds /\ FErr {| err_id := req_id r; err_error := p |} ∈ heard /\
      e = remote_of_payload p
}.

(** Longer logs keep it. *)
Lemma outgoing_logs closed d cmds heard cmds' heard' :
  (forall c, c ∈ cmds -> c ∈ cmds') -> (forall f, f ∈ heard -> f ∈ heard') ->
  outgoing closed d cmds heard -> outgoing closed d cmds' heard'.
Proof.
  intros Hc Hh [Hq Hp Ha He]. split; [by auto| | |].
  - intros id p H. destruct (Hp id p H) as (r & Hr & Hid). eauto.
  - intros reply v H. destruct (Ha reply v H) as (r & Hr & Hf). eauto.
  - intros reply e H. destruct (He reply e H) as [(c & r & Hcl & Hr & Heq)|(r & p & Hr & Hf & Heq)]; [left; exists c, r; auto|right]. exists r, p. auto.
Qed.

(** The fields the invariant reads. *)
Lemma outgoing_fields closed d d' cmds heard :
  queue d' = queue d -> d_pending d' = d_pending d -> d_oneshots d' = d_oneshots d ->
  outgoing closed d cmds heard -> outgoing closed d' cmds heard.
Proof. intros Hq Hp Ho [? ? ? ?]. split; rewrite ?Hq, ?Hp, ?Ho; done. Qed.

(** A response from what was heard. *)
Lemma outgoing_response d cmds heard id outcome :
  outgoing None d cmds heard ->
  (match outcome with
   | Ok v => FRes {| res_id := id; res_result := v |} ∈ heard
   | Err e => exists p, FErr {| err_id := id; err_error := p |} ∈ heard /\ e = remote_of_payload p
   end) ->
  outgoing None (set_pending d (on_response (d_pending d) (d_oneshots d) id outcome)) cmds heard.
Proof.
  intros [Hq Hp Ha He] Hout. unfold on_response. destruct (d_pending d !! id) as [req|] eqn:Hid; [|by split].
  destruct (Hp id req Hid) as (r & Hr & <- & _). split; simpl; [done| | |].
  - intros i p H. apply lookup_delete_Some in H as [_ H]. eauto.
  - intros reply v H. apply lookup_insert_Some in H as [[<- [= ->]]|[_ H]]; [by exists r|eauto].
  - intros reply e H. apply lookup_insert_Some in H as [[<- [= ->]]|[_ H]]; [right|eauto].
    destruct Hout as (p & Hf & ->). by exists r, p.
Qed.

Lemma outgoing_forget d cmds heard id :
  outgoing None d cmds heard -> outgoing None (set_pending d (forget_pending (d_pending d) (d_oneshots d) id)) cmds heard.
Proof.
  intros [Hq Hp Ha He]. unfold forget_pending. destruct (d_pending d !! id) as [req|] eqn:Hid; [|by split].
  split; simpl; [done| | |].
  - intros i p H. apply lookup_delete_Some in H as [_ H]. eauto.
  - intros reply v H. apply lookup_insert_Some in H as [[_ [=]]|[_ H]]. eauto.
  - intros reply e H. apply lookup_insert_Some in H as [[_ [=]]|[_ H]]. eauto.
Qed.

Lemma outgoing_command d cmds heard c rest :
  outgoing None d cmds heard -> queue d = c :: rest -> outgoing None (on_branch d (BCommand c)).1 cmds heard.
Proof.
  intros Hd Hq. set (d1 := set_shared d (set_commands (d_shared d) (ch_recv (sh_commands (d_shared d))).1)).
  assert (Hd1 : outgoing None d1 cmds heard).
  { destruct Hd as [Hqu ? ? ?]. split; try done. intros c' Hc'. apply Hqu. unfold d1, ch_recv in Hc'. simpl in Hc'.
    rewrite Hq in *. by right. }
  assert (Hc : c ∈ cmds) by (apply Hd; rewrite Hq; by left).
  assert (Hw : forall d' f, outgoing None d' cmds heard -> outgoing None (set_writer d' (enqueue (d_writer d') f)) cmds heard).
  { intros d' f. by apply outgoing_fields. }
  cbn [on_branch]. fold d1. destruct c as [code reason|frame reply|id forget|frame]; simpl; [done| | |].
  - apply (Hw (match frame with FReq _ => _ | _ => _ end)).
    pose proof (outgoing_forget d1 cmds heard) as Hf.
    destruct frame as [h|r|r|e|e|k| | |k];
      try (destruct Hd1 as [? ? Ha He]; split; simpl; [done|done| |];
           intros x y H; apply lookup_insert_Some in H as [[_ [=]]|[_ H]]; eauto; fail).
    destruct (Hf (req_id r) Hd1) as [? Hp Ha He]. split; simpl in *; [done| |done|done].
    intros i p H. apply lookup_insert_Some in H as [[<- <-]|[_ H]]; [by exists r|by apply Hp].
  - destruct forget; [by apply (outgoing_fields None d1)|].
    apply (outgoing_fields None (set_pending d1 (forget_pending (d_pending d1) (d_oneshots d1) id))); try done.
    by apply outgoing_forget.
  - by apply (outgoing_fields None d1).
Qed.

Lemma outgoing_branch d cmds heard b :
  outgoing None d cmds heard -> branch_ok d b ->
  outgoing None (on_branch d b).1 cmds (heard ++ match b with BInbound (Some (IFrame f)) => [f] | _ => [] end).
Proof.
  intros Hd Hb. assert (Hl : forall extra, outgoing None d cmds (heard ++ extra)).
  { intros extra. eapply outgoing_logs; [| |exact Hd]; [done|]. intros f Hf. apply elem_of_app. by left. }
  assert (Hin : forall f, f ∈ heard ++ [f]) by (intros f; apply elem_of_app; right; by apply list_elem_of_singleton).
  destruct b as [o| | |st|c|[[f|cl]|]]; rewrite ?app_nil_r.
  - done.
  - simpl. unfold settle_ready. destruct (sh_ready _); by apply (outgoing_fields None d).
  - simpl. unfold on_liveness_tick. destruct (d_awaiting_pong d); [done|]. by apply (outgoing_fields None d).
  - simpl. pose proof (on_settled_shared (d_shared d) (join_task (d_tracking d) (settled_task st)) (d_writer d) st) as Hs.
    destruct (on_handler_settled _ _ _ _) as [[s tk] w]. simpl in *. destruct Hs as [n ->]. by apply (outgoing_fields None d).
  - destruct Hb as [rest Hq]. by eapply outgoing_command.
  - specialize (Hl [f]). specialize (Hin f). simpl. destruct f as [h|r|r|e|e|k| | |k]; simpl.
    + unfold on_hello, settle_ready. repeat case_match; simplify_eq/=; by apply (outgoing_fields None d).
    + pose proof (on_request_shared (d_shared d) (d_tracking d) (d_writer d) r) as Hs.
      destruct (on_request _ _ _ _) as [[s tk] w]. simpl in *. destruct Hs as [n ->]. by apply (outgoing_fields None d).
    + apply outgoing_response; [done|]. by destruct r.
    + apply outgoing_response; [done|]. destruct e as [i p]. by exists p.
    + unfold fan_out_event. repeat case_match; simplify_eq/=; by apply (outgoing_fields None d).
    + by apply (outgoing_fields None d).
    + by apply (outgoing_fields None d).
    + unfold fan_out_pong. case_match; simpl. by apply (outgoing_fields None d).
    + done.
  - done.
  - done.
Qed.

(** Teardown adds failures only. *)
Lemma fail_pending_ok code reason p os reply v :
  fail_pending code reason p os !! reply = Some (OSent (Ok v)) -> os !! reply = Some (OSent (Ok v)).
Proof.
  unfold fail_pending. induction p as [|id req p Hid Hfirst IH] using map_first_key_ind; [by rewrite map_fold_empty|].
  rewrite map_fold_insert_first_key by done. intros H. apply lookup_insert_Some in H as [[_ [=]]|[_ H]]. auto.
Qed.

Lemma fail_pending_err code reason p os reply e :
  fail_pending code reason p os !! reply = Some (OSent (Err e)) ->
  os !! reply = Some (OSent (Err e)) \/
  exists id req, p !! id = Some req /\ pr_reply req = reply /\ e = closed_request_error code reason id (pr_method req).
Proof.
  unfold fail_pending. induction p as [|id req p Hid Hfirst IH] using map_first_key_ind; [rewrite map_fold_empty; by left|].
  rewrite map_fold_insert_first_key by done. intros H. apply lookup_insert_Some in H as [[Hr [= <-]]|[_ H]].
  - right. exists id, req. by rewrite lookup_insert_eq.
  - destruct (IH H) as [?|(i & q & Hi & Hq & He)]; [by left|right]. exists i, q. split; [|done].
    rewrite lookup_insert_ne; [done|]. intros ->. by rewrite Hid in Hi.
Qed.

Lemma drop_queued_ok q (os : Oneshots) reply r :
  foldr (fun r os => <[r := ODropped]> os) os q !! reply = Some (OSent r) -> os !! reply = Some (OSent r).
Proof.
  induction q as [|x q IH]; [done|]. simpl. intros H. apply lookup_insert_Some in H as [[_ [=]]|[_ H]]. auto.
Qed.

Lemma outgoing_teardown d cmds heard reason settle :
  outgoing None d cmds heard -> outgoing (Some (teardown d reason settle).2) (drop_driver (teardown d reason settle).1) cmds heard.
Proof.
  intros [Hq Hp Ha He]. unfold teardown. destruct (closing reason) as [[[code why] error] close_port].
  split; simpl.
  - intros c Hc. by apply elem_of_nil in Hc.
  - intros id p H. by rewrite lookup_empty in H.
  - intros reply v H. apply drop_queued_ok, fail_pending_ok in H. eauto.
  - intros reply e H. apply drop_queued_ok, fail_pending_err in H as [H|(id & req & Hid & <- & ->)].
    + destruct (He reply e H) as [(c & r & [=] & _)|H']; by right.
    + left. destruct (Hp id req Hid) as (r & Hr & <- & <-). by eexists _, r.
Qed.

(** ** Requests of the peer *)

Record incoming (tk : RequestTracking) (enqueued heard : list Frame)
    (calls : list (HandlerCall * HandlerOutcome)) : Prop := {
  ic_tasks : forall t c, tk_tasks tk !! t = Some c ->
    tk_by_task_id tk !! t = Some (cc_id (hc_context c)) /\ FReq (call_request c) ∈ heard;
  ic_results : forall id v, FRes {| res_id := id; res_result := v |} ∈ enqueued ->
    exists c, (c, Ok v) ∈ calls /\ cc_id (hc_context c) = id;
  ic_calls : forall c o, (c, o) ∈ calls -> FReq (call_request c) ∈ heard
}.

Lemma incoming_logs tk enqueued enqueued' heard heard' calls calls' :
  (forall id v, FRes {| res_id := id; res_result := v |} ∈ enqueued' -> FRes {| res_id := id; res_result := v |} ∈ enqueued) ->
  (forall f, f ∈ heard -> f ∈ heard') -> calls' = calls ->
  incoming tk enqueued heard calls -> incoming tk enqueued' heard' calls'.
Proof.
  intros He Hh -> [Ht Hr Hc]. split; [|by eauto|by eauto]. intros t c H. destruct (Ht t c H). auto.
Qed.

(** Frames that are not results. *)
Definition no_result (f : Frame) : Prop := match f with FRes _ => False | _ => True end.

Lemma no_result_app id v enqueued out :
  Forall no_result out ->
  FRes {| res_id := id; res_result := v |} ∈ enqueued ++ out -> FRes {| res_id := id; res_result := v |} ∈ enqueued.
Proof. intros Ho [H|H]%elem_of_app; [done|]. rewrite Forall_forall in Ho. by apply Ho in H. Qed.

(** What a branch does to the requests being answered: it enqueues [out]. *)
Definition branch_calls (d : Driver T) (b : Branch) : list (HandlerCall * HandlerOutcome) :=
  match b with
  | BSettled st =>
      match tk_tasks (d_tracking d) !! settled_task st with
      | Some c => [(c, settled_outcome st)]
      | None => []
      end
  | _ => []
  end.

Definition branch_hears (b : Branch) : list Frame :=
  match b with BInbound (Some (IFrame f)) => [f] | _ => [] end.

Lemma elem_of_snoc {A} (l : list A) x : x ∈ l ++ [x].
Proof. apply elem_of_app. right. by apply list_elem_of_singleton. Qed.

Lemma incoming_plain (d d' : Driver T) b enqueued heard calls out :
  incoming (d_tracking d) enqueued heard calls -> tk_tasks (d_tracking d') = tk_tasks (d_tracking d) ->
  tk_by_task_id (d_tracking d') = tk_by_task_id (d_tracking d) -> branch_calls d b = [] -> Forall no_result out ->
  incoming (d_tracking d') (enqueued ++ out) (heard ++ branch_hears b) (calls ++ branch_calls d b).
Proof.
  intros Hd Ht Hb -> Ho. rewrite app_nil_r.
  assert (H : incoming (d_tracking d) (enqueued ++ out) (heard ++ branch_hears b) calls).
  { eapply incoming_logs; [| |done|exact Hd].
    - intros id v. by apply no_result_app.
    - intros f Hf. apply elem_of_app. by left. }
  destruct H. split; rewrite ?Ht, ?Hb; done.
Qed.

Lemma incoming_request (d : Driver T) r enqueued heard calls :
  incoming (d_tracking d) enqueued heard calls ->
  exists out, w_queue (d_writer (on_frame d (FReq r)).1) = w_queue (d_writer d) ++ out /\
    incoming (d_tracking (on_frame d (FReq r)).1) (enqueued ++ out) (heard ++ [FReq r]) calls.
Proof.
  intros Hd.
  assert (Hkeep : forall e, incoming (d_tracking d) (enqueued ++ [error_frame (req_id r) e]) (heard ++ [FReq r]) calls).
  { intros e. pose proof (incoming_plain d d (BInbound (Some (IFrame (FReq r)))) enqueued heard calls
      [error_frame (req_id r) e] Hd) as H. rewrite app_nil_r in H. apply H; [done|done|done|by repeat constructor]. }
  simpl. unfold on_request. destruct (if bool_decide _ then _ else _) as [remote|]; simpl; [|by eexists].
  destruct (_ <=? _); simpl; [by eexists|]. case_bool_decide as Hdup; simpl; [by eexists|].
  destruct (_ && _); simpl; [by eexists|]. destruct (sh_handlers _ !! _) as [[g h]|]; simpl; [|by eexists].
  exists []. rewrite !app_nil_r. split; [done|]. destruct Hd as [Ht Hr Hc]. split; simpl; [|done|].
  - intros t c Hl. apply lookup_insert_Some in Hl as [[<- <-]|[Hne Hl]].
    + simpl. rewrite lookup_insert_eq. split; [done|]. destruct r. apply elem_of_snoc.
    + rewrite lookup_insert_ne by done. destruct (Ht t c Hl) as [H1 H2]. split; [done|]. apply elem_of_app. by left.
  - intros c o H. apply elem_of_app. left. eauto.
Qed.

Lemma incoming_settled (d : Driver T) st enqueued heard calls :
  incoming (d_tracking d) enqueued heard calls -> is_Some (tk_tasks (d_tracking d) !! settled_task st) ->
  exists out, w_queue (d_writer (on_branch d (BSettled st)).1) = w_queue (d_writer d) ++ out /\
    incoming (d_tracking (on_branch d (BSettled st)).1) (enqueued ++ out) heard (calls ++ branch_calls d (BSettled st)).
Proof.
  intros [Ht Hr Hc] [c Hl]. destruct (Ht _ _ Hl) as [Hid Hreq]. cbn [branch_calls]. rewrite Hl.
  set (calls' := calls ++ [(c, settled_outcome st)]).
  assert (Hcalls : forall c' o, (c', o) ∈ calls' -> FReq (call_request c') ∈ heard).
  { intros c' o [H|[= -> ->]%list_elem_of_singleton]%elem_of_app; [by eauto|done]. }
  assert (Hold : forall out id v, Forall no_result out -> FRes {| res_id := id; res_result := v |} ∈ enqueued ++ out ->
    exists c', (c', Ok v) ∈ calls' /\ cc_id (hc_context c') = id).
  { intros out id v Ho H. apply no_result_app in H; [|done]. destruct (Hr id v H) as (c' & H1 & H2).
    exists c'. split; [|done]. apply elem_of_app. by left. }
  assert (Htasks : forall tk, tk_tasks tk = delete (settled_task st) (tk_tasks (d_tracking d)) ->
    tk_by_task_id tk = delete (settled_task st) (tk_by_task_id (d_tracking d)) ->
    forall t c', tk_tasks tk !! t = Some c' -> tk_by_task_id tk !! t = Some (cc_id (hc_context c')) /\ FReq (call_request c') ∈ heard).
  { intros tk -> -> t c' H. apply lookup_delete_Some in H as [Hne H]. rewrite lookup_delete_ne by done. by apply Ht. }
  cbn [on_branch]. unfold on_handler_settled. cbn [join_task tk_by_task_id]. rewrite Hid.
  match goal with |- context [match ?x with Some request => _ | None => _ end] => destruct x as [request|] end.
  - destruct (settled_outcome st) as [v|e] eqn:Ho; [unfold respond_result; destruct (assert_fits _ _ _)|]; eexists;
      (split; [reflexivity|]); (split; [by apply Htasks| |exact Hcalls]); intros id w H.
    + apply elem_of_app in H as [H|[= -> ->]%list_elem_of_singleton].
      * apply (Hold [] id w); [constructor|by rewrite app_nil_r].
      * exists c. split; [apply elem_of_snoc|done].
    + by eapply (Hold [error_frame _ _]); [repeat constructor|].
    + by eapply (Hold [error_frame _ _]); [repeat constructor|].
  - exists []. rewrite !app_nil_r. split; [done|]. split; [by apply Htasks| |exact Hcalls].
    intros id v H. apply (Hold [] id v); [constructor|by rewrite app_nil_r].
Qed.

Lemma incoming_branch (d : Driver T) b enqueued heard calls :
  incoming (d_tracking d) enqueued heard calls -> branch_ok d b -> Forall (command_ok (d_shared d)) (queue d) ->
  exists out, w_queue (d_writer (on_branch d b).1) = w_queue (d_writer d) ++ out /\
    incoming (d_tracking (on_branch d b).1) (enqueued ++ out) (heard ++ branch_hears b) (calls ++ branch_calls d b).
Proof.
  intros Hd Hb Hok.
  assert (Hplain : forall (d' : Driver T) out, d_tracking d' = d_tracking d -> branch_calls d b = [] -> Forall no_result out ->
    w_queue (d_writer d') = w_queue (d_writer d) ++ out ->
    exists out, w_queue (d_writer d') = w_queue (d_writer d) ++ out /\
      incoming (d_tracking d') (enqueued ++ out) (heard ++ branch_hears b) (calls ++ branch_calls d b)).
  { intros d' out Ht Hc Ho Hq. exists out. split; [done|]. by apply incoming_plain; rewrite ?Ht. }
  assert (Hnil : forall d' : Driver T, d_tracking d' = d_tracking d -> branch_calls d b = [] -> d_writer d' = d_writer d ->
    exists out, w_queue (d_writer d') = w_queue (d_writer d) ++ out /\
      incoming (d_tracking d') (enqueued ++ out) (heard ++ branch_hears b) (calls ++ branch_calls d b)).
  { intros d' Ht Hc Hw. apply (Hplain d' []); [done|done|constructor|by rewrite Hw, app_nil_r]. }
  destruct b as [o| | |st|c|[[f|cl]|]]; try (by apply Hnil).
  - cbn [on_branch]. unfold on_liveness_tick. destruct (d_awaiting_pong d); [by apply Hnil|].
    by apply (Hplain _ [FPing]); repeat constructor.
  - destruct (incoming_settled d st enqueued heard calls Hd Hb) as (out & Hq & Hi). exists out. by rewrite app_nil_r.
  - destruct Hb as [rest Hq]. rewrite Hq in Hok. apply Forall_cons in Hok as [Hc _].
    destruct c as [code reason|frame reply|id forget|frame]; simpl in Hc; [by apply Hnil| | |].
    + destruct Hc as [[r ->] _]. by apply (Hplain _ [FReq r]); repeat constructor.
    + by destruct forget; apply (Hplain _ [FCancel {| cancel_id := id |}]); repeat constructor.
    + destruct Hc as [->|[[e ->] _]]; [by apply (Hplain _ [FPing]); repeat constructor|].
      by apply (Hplain _ [FEvt e]); repeat constructor.
  - destruct f as [h|r|r|e|e|k| | |k]; try (by apply Hnil).
    + cbn [on_branch on_frame]. destruct (on_hello _ _). by apply Hnil.
    + destruct (incoming_request d r enqueued heard calls Hd) as (out & Hq & Hi). exists out. by rewrite app_nil_r.
    + exists []. split; [by rewrite app_nil_r|]. apply (incoming_plain d); simpl; unfold on_cancel; try case_match; done || constructor.
    + by apply (Hplain _ [FPong]); repeat constructor.
Qed.

(** ** Requests go out as they were queued *)

Lemma frame_requests_app fs gs : frame_requests (fs ++ gs) = frame_requests fs ++ frame_requests gs.
Proof. apply omap_app. Qed.

Lemma command_requests_app cs ds : command_requests (cs ++ ds) = command_requests cs ++ command_requests ds.
Proof. apply omap_app. Qed.

(** A turn moves requests from the command queue to the writer, in order. *)
Lemma requests_branch (d : Driver T) b :
  branch_ok d b -> Forall (command_ok (d_shared d)) (queue d) ->
  exists out, w_queue (d_writer (on_branch d b).1) = w_queue (d_writer d) ++ out /\
    frame_requests out ++ command_requests (queue (on_branch d b).1) = command_requests (queue d).
Proof.
  intros Hb Hok.
  assert (Hnil : forall d' : Driver T, d_writer d' = d_writer d -> sh_commands (d_shared d') = sh_commands (d_shared d) ->
    exists out, w_queue (d_writer d') = w_queue (d_writer d) ++ out /\
      frame_requests out ++ command_requests (queue d') = command_requests (queue d)).
  { intros d' -> ->. exists []. by rewrite app_nil_r. }
  destruct b as [o| | |st|c|[[f|cl]|]]; try (by apply Hnil).
  - cbn [on_branch]. unfold on_handshake_timeout, settle_ready. apply Hnil; [done|]. simpl. by case_match.
  - cbn [on_branch]. unfold on_liveness_tick. destruct (d_awaiting_pong d); [by apply Hnil|]. by exists [FPing].
  - cbn [on_branch]. unfold on_handler_settled, respond_result. repeat case_match; simplify_eq/=;
      try (by apply Hnil); (eexists; split; reflexivity).
  - destruct Hb as [rest Hq]. rewrite Hq in Hok. apply Forall_cons in Hok as [Hc _]. cbn [on_branch].
    rewrite on_command_shared. simpl. unfold ch_recv. rewrite Hq. simpl.
    destruct c as [code reason|frame reply|id forget|frame]; simpl in Hc.
    + exists []. by rewrite app_nil_r.
    + destruct Hc as [[r ->] _]. by exists [FReq r].
    + exists [FCancel {| cancel_id := id |}]. split; [by destruct forget|done].
    + exists [frame]. split; [done|]. by destruct Hc as [->|[[e ->] _]].
  - destruct f as [h|r|r|e|e|k| | |k]; try (by apply Hnil).
    + cbn [on_branch on_frame]. unfold on_hello, settle_ready. apply Hnil; repeat case_match; by simplify_eq/=.
    + cbn [on_branch on_frame]. unfold on_request. repeat case_match; simplify_eq/=;
        try (by apply Hnil); (eexists; split; reflexivity).
    + cbn [on_branch on_frame]. unfold fan_out_event. apply Hnil; repeat case_match; by simplify_eq/=.
    + by exists [FPong].
    + cbn [on_branch on_frame]. unfold fan_out_pong. apply Hnil; repeat case_match; by simplify_eq/=.
Qed.

(** ** The peer *)

Definition peer_of (s : Shared) (heard : list Frame) : Prop :=
  forall rp, sh_remote s = Some rp -> exists h minor, FHello h ∈ heard /\
    negotiate (local_protocol (sh_cfg s)) (hello_protocol h) = Compatible minor /\ rp = announced h minor.

Lemma peer_of_same s s' heard heard' :
  sh_remote s' = sh_remote s -> sh_cfg s' = sh_cfg s -> (forall f, f ∈ heard -> f ∈ heard') ->
  peer_of s heard -> peer_of s' heard'.
Proof.
  unfold peer_of. intros -> -> Hh H rp Hrp. destruct (H rp Hrp) as (h & minor & Hin & Hn & ->).
  exists h, minor. auto.
Qed.

Lemma peer_of_branch (d : Driver T) b heard :
  peer_of (d_shared d) heard -> peer_of (d_shared (on_branch d b).1) (heard ++ branch_hears b).
Proof.
  intros Hd. assert (Hsame : forall s, core_eq (d_shared d) s \/ (exists n, s = set_in_flight (d_shared d) n) ->
    peer_of s (heard ++ branch_hears b)).
  { intros s Hs. assert (sh_remote s = sh_remote (d_shared d) /\ sh_cfg s = sh_cfg (d_shared d)) as [Hr Hc].
    { destruct Hs as [Hc|[n ->]]; [|done]. split; apply Hc. }
    apply (peer_of_same (d_shared d) s heard); [done|done| |done]. intros f Hf. apply elem_of_app. by left. }
  assert (Hself : peer_of (d_shared d) (heard ++ branch_hears b)) by (apply Hsame; left; apply core_eq_refl).
  destruct b as [o| | |st|c|[[f|cl]|]]; try exact Hself.
  - simpl. unfold settle_ready. by destruct (sh_ready _).
  - cbn [on_branch]. unfold on_liveness_tick. by destruct (d_awaiting_pong d).
  - cbn [on_branch]. pose proof (on_settled_shared (d_shared d) (join_task (d_tracking d) (settled_task st)) (d_writer d) st) as Hs.
    destruct (on_handler_settled _ _ _ _) as [[s tk] w]. apply Hsame. by right.
  - cbn [on_branch]. rewrite on_command_shared. exact Hself.
  - cbn [on_branch]. destruct f as [h|r|r|e|e|k| | |k]; try exact Hself.
    + cbn [on_frame]. unfold on_hello. destruct (negb _); [exact Hself|].
      destruct (negotiate _ _) as [minor|code] eqn:Hn; unfold settle_ready; simpl.
      * intros rp Hrp. assert (Some rp = Some (announced h minor)) as [= ->] by (rewrite <- Hrp; by case_match).
        exists h, minor. split; [apply elem_of_snoc|]. split; [|done]. by case_match.
      * by case_match.
    + cbn [on_frame]. pose proof (on_request_shared (d_shared d) (d_tracking d) (d_writer d) r) as Hs.
      destruct (on_request _ _ _ _) as [[s tk] w]. apply Hsame. by right.
    + apply Hsame. left. apply fan_out_event_core.
    + apply Hsame. left. apply fan_out_pong_core.
Qed.

(** ** Every action *)

Record origins (l : Logged) : Prop := {
  or_outgoing : outgoing (wo_closure (lg_world l)) (wo_driver (lg_world l))
    (wo_commands (lg_world l)) (lg_heard l);
  or_incoming : incoming (d_tracking (wo_driver (lg_world l))) (wo_enqueued (lg_world l)) (lg_heard l) (lg_settled l);
  or_requests : exists rest,
    frame_requests (wo_enqueued (lg_world l)) ++ rest = command_requests (wo_commands (lg_world l)) /\
    (wo_closure (lg_world l) = None -> rest = command_requests (queue (wo_driver (lg_world l))));
  or_peer : peer_of (shared (lg_world l)) (lg_heard l);
  or_routed : wo_routed (lg_world l) = map req_id (frame_requests (lg_heard l))
}.

(** A turn of the loop as the branch it takes. *)
Lemma taken_branch w a b :
  taken w a = Some b ->
  exists wk settle, a = ALoop wk settle /\ wo_closure w = None /\ branch_ok (arm_liveness (wo_driver w)) b /\
    let '(d', t) := on_branch (arm_liveness (wo_driver w)) b in
    act w a =
      let routed := wo_routed w ++ branch_routes b in
      let enqueued := wo_enqueued w ++ appended (w_queue (d_writer (wo_driver w))) (w_queue (d_writer d')) in
      match t with
      | None => mkWorld d' None (wo_futures w) (wo_next_reply w) routed enqueued (wo_commands w)
      | Some reason =>
          mkWorld (drop_driver (teardown d' reason settle).1) (Some (teardown d' reason settle).2) (wo_futures w)
            (wo_next_reply w) routed enqueued (wo_commands w)
      end.
Proof.
  unfold taken. destruct a as [| | | | | | | | | | |wk settle|]; try done.
  destruct (wo_closure w) eqn:Hc; [done|]. destruct (wakeups_ok _ _) eqn:Hw; [|done]. intros Hs.
  exists wk, settle. split; [done|]. split; [done|].
  split; [eapply select_ok; [by rewrite wakeups_ok_arm|done]|].
  destruct (on_branch _ b) as [d' t] eqn:Hb. simpl. rewrite Hc. unfold loop_action. rewrite Hw. unfold loop_turn.
  rewrite Hs, Hb. assert (routed_by (wo_driver w) wk = branch_routes b) as -> by (unfold routed_by; by rewrite Hs).
  destruct t as [reason|]; [|done]. by destruct (teardown d' reason settle).
Qed.

Lemma taken_none w wk settle : taken w (ALoop wk settle) = None -> act w (ALoop wk settle) = w.
Proof.
  unfold taken. simpl. destruct (wo_closure w); [done|]. unfold loop_action. destruct (wakeups_ok _ _); [|done].
  unfold loop_turn. by intros ->.
Qed.

(** The logs of a branch. *)
Lemma taken_logs w a b :
  taken w a = Some b -> heard_in w a = branch_hears b /\ settled_in w a = branch_calls (arm_liveness (wo_driver w)) b.
Proof.
  intros H. unfold heard_in, settled_in, branch_hears, branch_calls. rewrite H.
  destruct (arm_liveness_fields (wo_driver w)) as (-> & _). done.
Qed.

Lemma origins_teardown (w : World T) d' reason settle heard calls :
  outgoing None d' (wo_commands w) heard -> peer_of (d_shared d') heard ->
  incoming (d_tracking d') (wo_enqueued w) heard calls ->
  outgoing (Some (teardown d' reason settle).2) (drop_driver (teardown d' reason settle).1) (wo_commands w) heard /\
  peer_of (d_shared (drop_driver (teardown d' reason settle).1)) heard /\
  incoming (d_tracking (drop_driver (teardown d' reason settle).1)) (wo_enqueued w) heard calls.
Proof.
  intros Ho Hp [_ Hr Hc]. split; [by apply outgoing_teardown|]. split.
  - apply (peer_of_same (d_shared d') _ heard); [| |done|done];
      unfold teardown; destruct (closing reason) as [[[code why] error] close_port]; simpl; unfold settle_ready; by case_match.
  - split; [|done|done]. intros t c H. unfold teardown in H.
    destruct (closing reason) as [[[code why] error] close_port]. simpl in H. by rewrite lookup_empty in H.
Qed.

Lemma branch_routes_heard b :
  branch_routes b = map req_id (frame_requests (branch_hears b)).
Proof. by destruct b as [o| | |st|c|[[[]|cl]|]]. Qed.

Lemma origins_branch l a b :
  traffic_ok (lg_world l) -> origins l -> taken (lg_world l) a = Some b -> origins (log_act l a).
Proof.
  destruct l as [w heard calls]. cbn [lg_world]. intros Hok [Ho Hi Hq Hp Hr] Hb.
  cbn [lg_world lg_heard lg_settled] in *. unfold log_act. cbn [lg_world lg_heard lg_settled].
  destruct (taken_logs w a b Hb) as [-> ->].
  destruct (taken_branch w a b Hb) as (wk & settle & -> & Hcl & Hbok & Hact).
  set (d := arm_liveness (wo_driver w)) in *.
  rewrite Hcl in Ho.
  destruct (arm_liveness_fields (wo_driver w)) as (Htk & Hw & Hpe & Hon).
  pose proof (arm_liveness_shared (wo_driver w)) as Hsh. fold d in Htk, Hw, Hpe, Hon, Hsh.
  pose proof (tr_commands w Hok) as Hcok.
  rewrite <- Hsh in Hcok, Hp. rewrite <- Htk in Hi. rewrite <- Hw in Hact.
  assert (Hod : outgoing None d (wo_commands w) heard).
  { by apply (outgoing_fields None (wo_driver w)); rewrite ?Hsh. }
  destruct (incoming_branch d b _ _ _ Hi Hbok Hcok) as (out & Hout & Hi').
  destruct (requests_branch d b Hbok Hcok) as (out' & Hout' & Hrq).
  rewrite Hout in Hout'. apply app_inv_head in Hout' as <-.
  pose proof (outgoing_branch d _ _ b Hod Hbok) as Ho'. pose proof (peer_of_branch d b heard Hp) as Hp'.
  assert (Hreqs : frame_requests (wo_enqueued w ++ out) ++ command_requests (queue (on_branch d b).1) =
    command_requests (wo_commands w)).
  { destruct Hq as (rest & Hq & Hrest). rewrite (Hrest Hcl), <- Hsh in Hq.
    by rewrite frame_requests_app, <- app_assoc, Hrq. }
  assert (Hrt : wo_routed w ++ branch_routes b = map req_id (frame_requests (heard ++ branch_hears b))).
  { by rewrite frame_requests_app, map_app, Hr, branch_routes_heard. }
  destruct (on_branch d b) as [d' t]. cbn [fst] in *. rewrite Hact, Hout, appended_spec. destruct t as [reason|].
  - destruct (origins_teardown (mkWorld d' None ∅ 0%nat [] (wo_enqueued w ++ out) (wo_commands w)) d' reason settle _ _ Ho' Hp' Hi')
      as (H1 & H2 & H3).
    split; cbn [lg_world lg_heard lg_settled wo_closure wo_driver wo_commands wo_enqueued wo_routed]; try done. by eexists.
  - split; cbn [lg_world lg_heard lg_settled wo_closure wo_driver wo_commands wo_enqueued wo_routed]; try done. by eexists.
Qed.

Lemma origins_call l a s fs n cs :
  origins l -> call a (lg_world l) (act (lg_world l) a) s fs n cs -> taken (lg_world l) a = None -> origins (log_act l a).
Proof.
  destruct l as [w heard calls]. cbn [lg_world]. intros [Ho Hi Hq Hp Hr] [Hw (Hc & Hqu & _) _ _] Ht.
  unfold log_act, heard_in, settled_in. cbn [lg_world lg_heard lg_settled] in *. rewrite Ht, Hw, !app_nil_r.
  assert (Hcm : wo_commands (with_shared w s) = wo_commands w ++ cs) by (simpl; by rewrite Hqu, appended_spec).
  split; cbn [lg_world lg_heard lg_settled wo_closure wo_driver wo_commands wo_enqueued wo_routed set_futures]; rewrite ?Hcm.
  - apply (outgoing_logs _ _ _ _ (wo_commands w ++ cs) heard) in Ho; [|intros c Hin; apply elem_of_app; by left|done].
    destruct Ho as [Hqq Hpe Ha He]. split; simpl; [|done|done|done].
    rewrite Hqu. intros c [Hin|Hin]%elem_of_app; [by apply Hqq|apply elem_of_app; by right].
  - done.
  - destruct Hq as (rest & Hq & Hrest). exists (rest ++ command_requests cs).
    change (wo_enqueued (with_shared w s)) with (wo_enqueued w). rewrite command_requests_app, app_assoc, Hq.
    split; [done|]. intros Hcl. simpl. by rewrite Hqu, command_requests_app, (Hrest Hcl).
  - by apply (peer_of_same (shared w) s heard); [apply Hc|apply Hc| |].
  - done.
Qed.

(** An action that is no turn of the loop and leaves the driver's books alone. *)
Lemma origins_quiet l w' :
  origins l -> wo_closure w' = wo_closure (lg_world l) -> d_shared (wo_driver w') = shared (lg_world l) ->
  d_pending (wo_driver w') = d_pending (wo_driver (lg_world l)) ->
  d_oneshots (wo_driver w') = d_oneshots (wo_driver (lg_world l)) ->
  d_tracking (wo_driver w') = d_tracking (wo_driver (lg_world l)) ->
  wo_commands w' = wo_commands (lg_world l) -> wo_enqueued w' = wo_enqueued (lg_world l) ->
  wo_routed w' = wo_routed (lg_world l) -> origins (mkLogged w' (lg_heard l) (lg_settled l)).
Proof.
  intros [Ho Hi Hq Hp Hr] Hcl Hs Hpe Hon Ht Hc He Hrt.
  split; cbn [lg_world lg_heard lg_settled]; rewrite ?Hcl, ?Hs, ?Ht, ?Hc, ?He, ?Hrt; try done.
  by apply (outgoing_fields _ (wo_driver (lg_world l))); rewrite ?Hs.
Qed.

Lemma log_act_origins l a :
  lifecycle (lg_world l) -> traffic_ok (lg_world l) -> origins l -> origins (log_act l a).
Proof.
  intros Hl Hok Ho. destruct (taken (lg_world l) a) as [b|] eqn:Ht; [by eapply origins_branch|].
  assert (Hlog : forall w', act (lg_world l) a = w' -> log_act l a = mkLogged w' (lg_heard l) (lg_settled l)).
  { intros w' <-. unfold log_act, heard_in, settled_in. by rewrite Ht, !app_nil_r. }
  destruct (act_call (lg_world l) a Hl) as [(s & fs & n & cs & Hca)|[Hw|[[pn ->]|[[tx ->]|(wk & settle & ->)]]]].
  - apply Hok.
  - intros Hst. by destruct (tr_handshake _ Hok Hst) as (_ & _ & ? & _).
  - by eapply origins_call.
  - rewrite (Hlog _ Hw). by apply origins_quiet.
  - rewrite (Hlog _ eq_refl). simpl. by destruct (wo_closure (lg_world l)) eqn:Hc; apply origins_quiet; rewrite ?Hc.
  - rewrite (Hlog _ eq_refl). by apply origins_quiet.
  - rewrite (Hlog _ (taken_none _ _ _ Ht)). by apply origins_quiet.
Qed.

(** A session starts without a peer. *)
Lemma world_open_remote port_max tx o settle w :
  world_open port_max tx o settle = Ok w -> sh_remote (shared w) = None.
Proof.
  unfold world_open, session_open. intros (d & Hd & H)%result_bind_Ok. injection H as <-.
  apply result_bind_Ok in Hd as (s & Hs & [= <-]).
  assert (Hr : sh_remote s = None).
  { destruct (open_shared_opened _ _ _ Hs) as [[_ _ [(_ & ? & _)|(Hst & _)]] Hst' _ _ _ _ _ _ _ _ _ _]; [done|congruence]. }
  unfold start. simpl. unfold settle_ready. repeat (case_match; simplify_eq/=); try done;
    unfold teardown in *; simplify_eq/=; unfold settle_ready; by repeat case_match.
Qed.

Lemma open_origins port_max tx o settle w :
  world_open port_max tx o settle = Ok w -> origins (mkLogged w [] []).
Proof.
  intros Hopen. pose proof (world_open_remote _ _ _ _ _ Hopen) as Hr.
  destruct (world_open_cases _ _ _ _ _ Hopen) as
    [(s & tx' & Hs & ->)|(d & d' & reason & c & Ht & -> & Hq & Hp & Ho & Htk & s & Hs & _)].
  - pose proof (op_queue _ _ _ (open_shared_opened _ _ _ Hs)) as Hqu.
    split; cbn [lg_world lg_heard lg_settled wo_closure wo_commands wo_enqueued wo_driver]; [|split| | |done].
    + split; simpl.
      * rewrite Hqu. by intros c Hc%elem_of_nil.
      * intros id p H. by rewrite lookup_empty in H.
      * intros reply v H. by rewrite lookup_empty in H.
      * intros reply e H. by rewrite lookup_empty in H.
    + intros t c H. simpl in H. by rewrite lookup_empty in H.
    + by intros id v H%elem_of_nil.
    + by intros c o' H%elem_of_nil.
    + exists []. split; [done|]. simpl. by rewrite Hqu.
    + intros rp Hrp. simpl in *. congruence.
  - assert (Hout : outgoing None d [] []).
    { split; rewrite ?Hq, ?Hp, ?Ho.
      - by intros x Hx%elem_of_nil.
      - intros id p H. by rewrite lookup_empty in H.
      - intros reply v H. by rewrite lookup_empty in H.
      - intros reply e H. by rewrite lookup_empty in H. }
    apply (outgoing_teardown d [] [] reason settle) in Hout. rewrite Ht in Hout.
    split; cbn [lg_world lg_heard lg_settled wo_closure wo_commands wo_enqueued wo_driver fst] in *; [done|split| | |done].
    + intros t x H. simpl in H. by rewrite lookup_empty in H.
    + by intros id v H%elem_of_nil.
    + by intros x o' H%elem_of_nil.
    + by exists [].
    + intros rp Hrp. congruence.
Qed.

(** All invariants of a run, with its logs. *)
Lemma reachable_origins port_max tx o settle w0 acts :
  world_open port_max tx o settle = Ok w0 ->
  let l := log_run (mkLogged w0 [] []) acts in
  lifecycle (lg_world l) /\ traffic_ok (lg_world l) /\ origins l.
Proof.
  intros Hopen. assert (Hgo : forall acts l, lifecycle (lg_world l) -> traffic_ok (lg_world l) -> origins l ->
    lifecycle (lg_world (log_run l acts)) /\ traffic_ok (lg_world (log_run l acts)) /\ origins (log_run l acts)).
  { clear. induction acts as [|a acts IH]; intros l Hl Ht Ho; [done|]. apply (IH (log_act l a)).
    - by apply act_lifecycle.
    - by apply act_traffic.
    - by apply log_act_origins. }
  apply Hgo; [by eapply world_open_lifecycle|by eapply open_traffic|by eapply open_origins].
Qed.
End origins.
Arguments Logged : clear implicits.
