(* ===== verification/Duplex.v ===== *)
(** * Two sessions

    Two sessions joined by the in-process pair of [port/pair.rs]: what one's writer hands to its send
    half is what the other's driver reads.  Each end is a session of [System] with the logs of
    [Origins]; the channel between them is the one inside the sender's port, so reading from it and
    hanging up are changes of the other end's port.

    An action names the side it happens on.  Every list of actions is a run: calls on any number of
    handles of either side, both writers, both drivers and any timing, in any order. *)

From S2P Require Import Prelude Json Wire Frame Validate Limits Serde FrameJson Ndjson NdjsonProps Port Session Dispatch DispatchProps Driver Handle System Lifecycle Outbound Responses Replies Origins.
Local Open Scope Z_scope.

Inductive Side : Type := SideA | SideB.

Global Instance Side_eq_dec : EqDecision Side.
Proof. solve_decision. Defined.

(** One end: its session, and whether its receive half has yielded its last item. *)
Record Endpoint : Type := mkEndpoint { ep_log : Logged MemoryPortTx; ep_terminal : bool }.

Record Duplex : Type := mkDuplex { dx_a : Endpoint; dx_b : Endpoint }.

(** [DCall] is a call on a handle of a side; [DLoop] a turn of its driver, with the timers that are
    due and the handler that has settled, the inbound item being the link's. *)
Inductive DuplexAction : Type :=
| DCall (s : Side) (a : Action MemoryPortTx)
| DWriter (s : Side)
| DLoop (s : Side) (sleep tick : bool) (settled : option Settled) (settle : gset nat).

Definition ep_world (e : Endpoint) : World MemoryPortTx := lg_world (ep_log e).
Definition ep_driver (e : Endpoint) : Driver MemoryPortTx := wo_driver (ep_world e).
Definition ep_shared (e : Endpoint) : Shared := d_shared (ep_driver e).
Definition ep_tx (e : Endpoint) : MemoryPortTx := w_tx (d_writer (ep_driver e)).
(** The channel this end sends on. *)
Definition ep_channel (e : Endpoint) : channel WireMessage := mt_sender (ep_tx e).

(** What the handles can do; the rest belongs to the tasks. *)
Definition is_call (a : Action MemoryPortTx) : bool :=
  match a with AWriter _ | ALoop _ _ | APort _ => false | _ => true end.

Section duplex.
Context {RT : RustText} {SJ : SerdeJson}.

Definition ep_act (e : Endpoint) (a : Action MemoryPortTx) : Endpoint :=
  mkEndpoint (log_act (ep_log e) a) (ep_terminal e).

Definition set_channel (e : Endpoint) (c : channel WireMessage) : Endpoint :=
  ep_act e (APort {| mt_max_frame_bytes := mt_max_frame_bytes (ep_tx e);
                     mt_validate_frames := mt_validate_frames (ep_tx e); mt_sender := c |}).

(** When [run] has returned, both halves of the port are dropped with the driver. *)
Definition hang_up (near far : Endpoint) : Endpoint * Endpoint :=
  match wo_closure (ep_world near) with
  | Some _ => (set_channel near (drop_senders (ep_channel near)), set_channel far (drop_receiver (ep_channel far)))
  | None => (near, far)
  end.

(** A turn of [near]'s driver.  The receive half is polled last, so it loses its item only when the
    branch that wins is the inbound one. *)
Definition loop_step (near far : Endpoint) (sleep tick : bool) (settled : option Settled) (settle : gset nat) :
    Endpoint * Endpoint :=
  let '(rx, item) := memory_recv {| mr_receiver := ep_channel far; mr_terminal := ep_terminal near |} in
  let a := ALoop {| wk_sleep := sleep; wk_tick := tick; wk_settled := settled; wk_inbound := item |} settle in
  match taken (ep_world near) a with
  | Some (BInbound _) =>
      hang_up (mkEndpoint (log_act (ep_log near) a) (mr_terminal rx)) (set_channel far (mr_receiver rx))
  | _ => hang_up (ep_act near a) far
  end.

Definition on_side (s : Side) (f : Endpoint -> Endpoint -> Endpoint * Endpoint) (x : Duplex) : Duplex :=
  match s with
  | SideA => let '(a, b) := f (dx_a x) (dx_b x) in mkDuplex a b
  | SideB => let '(b, a) := f (dx_b x) (dx_a x) in mkDuplex a b
  end.

Definition dx_act (x : Duplex) (a : DuplexAction) : Duplex :=
  match a with
  | DCall s a => on_side s (fun near far => (if is_call a then ep_act near a else near, far)) x
  | DWriter s => on_side s (fun near far => (ep_act near (AWriter false), far)) x
  | DLoop s sleep tick settled settle => on_side s (fun near far => loop_step near far sleep tick settled settle) x
  end.

Definition dx_run (x : Duplex) (acts : list DuplexAction) : Duplex := foldl dx_act x acts.

(** [port_pair_with], a session over each half, both up to their loops. *)
Definition duplex_open (options : MemoryPortOptions) (oa ob : SessionOptions) : panics Duplex :=
  let? halves := port_pair_with options in
  let? a := world_open (mo_max_frame_bytes options) halves.1 oa ∅ in
  let? b := world_open (mo_max_frame_bytes options) halves.1 ob ∅ in
  let x := mkDuplex (mkEndpoint (mkLogged a [] []) false) (mkEndpoint (mkLogged b [] []) false) in
  Ok (on_side SideB hang_up (on_side SideA hang_up x)).

Definition end_of (s : Side) (x : Duplex) : Endpoint := match s with SideA => dx_a x | SideB => dx_b x end.
Definition other (s : Side) : Side := match s with SideA => SideB | SideB => SideA end.
End duplex.
