(* ===== verification/DuplexProps.v ===== *)
(** * What two sessions promise each other

    The link loses nothing, invents nothing and keeps the order; from it and the origins of each
    session follow the properties of the pair: a call runs at most once and returns what the peer's
    handler returned for its own parameters, and both sides agree on who they are talking to. *)

From S2P Require Import Prelude Json Wire Frame Validate Limits Serde FrameJson Ndjson NdjsonProps Port Session Dispatch DispatchProps Driver Handle System Lifecycle Outbound Responses Replies Streams Requests Origins Duplex.
Local Open Scope Z_scope.

(** Everything an end has given to its writer since it opened, its hello first. *)
Definition spoken (e : Endpoint) : list Frame :=
  FHello (build_hello (ep_shared e)) :: wo_enqueued (ep_world e).

(** The link from [e] to [r]: what [r] has heard, then what is in the channel, then what is not sent
    yet, is what [e] has spoken. *)
Definition wire (e r : Endpoint) : Prop :=
  mt_validate_frames (ep_tx e) = false /\
  exists fs tail rest,
    ch_queue (ep_channel e) = map WFrame fs ++ tail /\
    (tail = [] \/ is_Some (wo_closure (ep_world e)) /\ exists code reason, tail = [WClose code reason]) /\
    lg_heard (ep_log r) ++ fs ++ rest = spoken e /\
    (wo_closure (ep_world e) = None -> ch_receiver (ep_channel e) = true -> rest = w_queue (d_writer (ep_driver e))).

Section props.
Context {RT : RustText} {SJ : SerdeJson}.

(** ** Sending *)

(** One frame through the send half of a plain pair. *)
Lemma plain_send t f :
  mt_validate_frames t = false ->
  mt_validate_frames (memory_send t f).1 = false /\
  if ch_receiver (mt_sender t)
  then ch_queue (mt_sender (memory_send t f).1) = ch_queue (mt_sender t) ++ [WFrame f] /\
       ch_receiver (mt_sender (memory_send t f).1) = true
  else (memory_send t f).1 = t.
Proof.
  intros Hv. unfold memory_send. rewrite Hv. unfold forward, ch_send. destruct t as [m v c]. simpl in *. subst v.
  by destruct (ch_receiver c).
Qed.

(** The queue flushed at the end. *)
Lemma plain_flush q : forall t,
  mt_validate_frames t = false ->
  let t' := foldl (fun t f => (memory_send t f).1) t q in
  mt_validate_frames t' = false /\
  if ch_receiver (mt_sender t)
  then ch_queue (mt_sender t') = ch_queue (mt_sender t) ++ map WFrame q /\ ch_receiver (mt_sender t') = true
  else t' = t.
Proof.
  induction q as [|f q IH]; intros t Hv; cbn [foldl map].
  - split; [done|]. rewrite app_nil_r. by destruct (ch_receiver (mt_sender t)).
  - destruct (plain_send t f Hv) as [Hv' Hs]. destruct (IH _ Hv') as [Hv'' Hq]. split; [done|].
    destruct (ch_receiver (mt_sender t)) eqn:Hr0; [|by rewrite Hs, Hr0 in Hq; rewrite Hs].
    destruct Hs as [Hs Hr]. rewrite Hr in Hq. destruct Hq as [Hq Hr']. by rewrite Hq, Hs, <- app_assoc.
Qed.

Lemma spoken_cfg e e' :
  sh_cfg (ep_shared e') = sh_cfg (ep_shared e) -> wo_enqueued (ep_world e') = wo_enqueued (ep_world e) ->
  spoken e' = spoken e.
Proof. unfold spoken, build_hello. by intros -> ->. Qed.

(** A step of the sender that leaves its port and its writer alone. *)
Lemma wire_sender e e' r :
  ep_tx e' = ep_tx e -> sh_cfg (ep_shared e') = sh_cfg (ep_shared e) ->
  wo_enqueued (ep_world e') = wo_enqueued (ep_world e) -> wo_closure (ep_world e') = wo_closure (ep_world e) ->
  w_queue (d_writer (ep_driver e')) = w_queue (d_writer (ep_driver e)) -> wire e r -> wire e' r.
Proof.
  intros Ht Hc He Hcl Hq (Hv & fs & tail & rest & H1 & H2 & H3 & H4). unfold wire, ep_channel in *.
  rewrite Ht, Hcl, Hq, (spoken_cfg e e') by done. eauto 10.
Qed.

(** A step of the receiver that hears nothing. *)
Lemma wire_receiver e r r' : lg_heard (ep_log r') = lg_heard (ep_log r) -> wire e r -> wire e r'.
Proof. unfold wire. by intros ->. Qed.

(** ** Steps of the sender *)

Lemma branch_port (d : Driver MemoryPortTx) b :
  w_tx (d_writer (on_branch d b).1) = w_tx (d_writer d) /\ w_gone (d_writer (on_branch d b).1) = w_gone (d_writer d).
Proof.
  destruct b as [o| | |st|c|[[f|cl]|]]; try done; cbn [on_branch].
  - unfold on_liveness_tick. by destruct (d_awaiting_pong d).
  - unfold on_handler_settled, respond_result. repeat case_match; by simplify_eq/=.
  - destruct c as [code reason|frame reply|id []|frame]; try done. by destruct frame.
  - destruct f as [h|r|r|e|e|k| | |k]; try done; cbn [on_frame].
    + by destruct (on_hello _ _).
    + unfold on_request. repeat case_match; by simplify_eq/=.
Qed.

Lemma arm_liveness_port (d : Driver MemoryPortTx) : d_writer (arm_liveness d) = d_writer d.
Proof. unfold arm_liveness. by repeat case_match. Qed.

(** A call on a handle touches neither. *)
Lemma call_port (w : World MemoryPortTx) a :
  is_call a = true ->
  d_writer (wo_driver (act w a)) = d_writer (wo_driver w) /\ wo_enqueued (act w a) = wo_enqueued w /\
  wo_closure (act w a) = wo_closure w.
Proof.
  intros Hc. destruct a; try done; simpl.
  - unfold request_action. by repeat case_match.
  - unfold poll_action. by repeat case_match.
  - unfold drop_action. by repeat case_match.
Qed.

Lemma wire_call e r a : lifecycle (ep_world e) -> is_call a = true -> wire e r -> wire (ep_act e a) r.
Proof.
  intros Hl Hc. destruct (call_port (ep_world e) a Hc) as (Hw & He & Hcl).
  apply wire_sender; try done; unfold ep_tx, ep_driver, ep_world in *; simpl; rewrite ?Hw; try done.
  apply (adv_cfg _ _ (act_advances (ep_world e) a Hl)).
Qed.

Lemma wire_writer e r : wire e r -> wire (ep_act e (AWriter false)) r.
Proof.
  intros (Hv & fs & tail & rest & H1 & H2 & H3 & H4).
  unfold wire, ep_channel, ep_tx, ep_driver, ep_act, spoken, ep_shared, ep_driver, ep_world, log_act in *.
  cbn [lg_world lg_heard ep_log act] in *. set (w := lg_world (ep_log e)) in *.
  destruct (wo_closure w) as [c|] eqn:Hcl; [rewrite Hcl; eauto 10|]. cbn [wo_driver wo_closure wo_enqueued d_shared d_writer set_writer].
  unfold writer_turn. destruct (w_queue (d_writer (wo_driver w))) as [|f q] eqn:Hq; [rewrite Hq; eauto 10|].
  destruct (w_gone (d_writer (wo_driver w))); [rewrite Hq; eauto 10|].
  destruct (plain_send (w_tx (d_writer (wo_driver w))) f Hv) as [Hv' Hs]. change port_send with memory_send.
  destruct (memory_send _ f) as [tx out]. cbn [fst w_tx w_queue] in *. split; [done|].
  destruct (ch_receiver (mt_sender (w_tx (d_writer (wo_driver w))))) eqn:Hr.
  - destruct Hs as [Hs Hr']. rewrite (H4 eq_refl eq_refl) in H3. destruct H2 as [->|[[? [=]] _]].
    exists (fs ++ [f]), [], q. rewrite Hs, H1, map_app, !app_nil_r, <- app_assoc. simpl. split; [done|]. auto.
  - subst tx. exists fs, tail, rest. rewrite Hr. repeat split; [done|done|done|]. by intros _ [=].
Qed.

(** The end of the sender's session: the queue is flushed behind what is in the channel, and at most
    a farewell follows. *)
Lemma teardown_port (d : Driver MemoryPortTx) reason settle fs :
  mt_validate_frames (w_tx (d_writer d)) = false -> ch_queue (mt_sender (w_tx (d_writer d))) = map WFrame fs ->
  let tx := w_tx (d_writer (drop_driver (teardown d reason settle).1)) in
  mt_validate_frames tx = false /\
  exists q tail rest, ch_queue (mt_sender tx) = map WFrame (fs ++ q) ++ tail /\
    (tail = [] \/ exists code why, tail = [WClose code why]) /\ w_queue (d_writer d) = q ++ rest /\
    (ch_receiver (mt_sender (w_tx (d_writer d))) = false -> q = []).
Proof.
  intros Hv Hq. unfold teardown. destruct (closing reason) as [[[code why] error] close_port]. simpl.
  unfold shut_down. destruct (w_gone (d_writer d)).
  { split; [done|]. exists [], [], (w_queue (d_writer d)). rewrite !app_nil_r. auto. }
  change port_send with memory_send. change port_close with memory_close.
  destruct (plain_flush (w_queue (d_writer d)) (w_tx (d_writer d)) Hv) as [Hv' Hf]. cbv zeta in Hv', Hf.
  set (tx := foldl _ _ _) in *.
  assert (Hflushed : exists q rest, ch_queue (mt_sender tx) = map WFrame (fs ++ q) /\ w_queue (d_writer d) = q ++ rest /\
    (ch_receiver (mt_sender (w_tx (d_writer d))) = false -> q = [])).
  { destruct (ch_receiver (mt_sender (w_tx (d_writer d)))).
    - destruct Hf as [Hf _]. exists (w_queue (d_writer d)), []. by rewrite Hf, Hq, map_app, app_nil_r.
    - exists [], (w_queue (d_writer d)). by rewrite Hf, Hq, app_nil_r. }
  destruct Hflushed as (q & rest & Ht & Hr & Hq0). destruct close_port; cycle 1.
  { split; [done|]. exists q, [], rest. rewrite app_nil_r. auto. }
  unfold memory_close, ch_send. destruct (ch_receiver (mt_sender tx)); simpl; (split; [done|]).
  - exists q, [WClose code why], rest. rewrite Ht. split; [done|]. split; [right; eauto|auto].
  - exists q, [], rest. rewrite app_nil_r. auto.
Qed.

Lemma wire_loop e r wk settle terminal :
  lifecycle (ep_world e) -> traffic_ok (ep_world e) -> wire e r ->
  wire (mkEndpoint (log_act (ep_log e) (ALoop wk settle)) terminal) r.
Proof.
  intros Hl Hok He. set (a := ALoop wk settle). destruct (taken (ep_world e) a) as [b|] eqn:Ht; cycle 1.
  { apply taken_none in Ht. unfold wire, spoken, ep_channel, ep_tx, ep_shared, ep_driver, ep_world, log_act in *.
    cbn [lg_world ep_log] in *. fold a in Ht. by rewrite Ht. }
  destruct (taken_branch _ _ _ Ht) as (wk' & settle' & _ & Hcl & Hb & Hact).
  pose proof (adv_cfg _ _ (act_advances (ep_world e) a Hl)) as Hcfg.
  set (d := arm_liveness (wo_driver (ep_world e))) in *.
  assert (Hd : d_writer d = d_writer (wo_driver (ep_world e))) by apply arm_liveness_port.
  destruct (branch_port d b) as [Htx _]. destruct (requests_branch d b Hb) as (out & Hout & _).
  { unfold d. rewrite arm_liveness_shared. apply Hok. }
  destruct He as (Hv & fs & tail & rest & H1 & H2 & H3 & H4).
  unfold wire, spoken, ep_channel, ep_tx, ep_shared, ep_driver, ep_world, log_act in *. cbn [lg_world ep_log] in *.
  destruct H2 as [->|[[? H2] _]]; [|congruence]. rewrite app_nil_r in H1.
  assert (Hh : forall enq, FHello (build_hello (d_shared (wo_driver (act (lg_world (ep_log e)) a)))) :: enq =
    FHello (build_hello (d_shared (wo_driver (lg_world (ep_log e))))) :: enq).
  { intros enq. unfold build_hello. by rewrite Hcfg. }
  rewrite Hh. destruct (on_branch d b) as [d' t]. cbn [fst] in *.
  rewrite Hact, <- Hd, Hout, appended_spec. rewrite <- Hd in Hv, H1, H4. rewrite <- Htx in Hv, H1. destruct t as [reason|].
  - destruct (teardown_port d' reason settle' fs Hv H1) as (Hv' & q & tl & rst & Hq & Htl & Hrest & Hq0).
    cbn [wo_driver wo_closure wo_enqueued]. split; [done|]. rewrite Hout in Hrest.
    destruct (decide (ch_receiver (mt_sender (w_tx (d_writer d))) = true)) as [Hr|Hr].
    + rewrite (H4 Hcl Hr) in H3. exists (fs ++ q), tl, rst. split; [done|]. split; [naive_solver|].
      split; [|done]. rewrite app_comm_cons, <- H3, <- !app_assoc. by rewrite <- Hrest.
    + assert (q = []) as -> by (apply Hq0; rewrite Htx; by destruct (ch_receiver _)).
      rewrite app_nil_r in Hq. exists fs, tl, (rest ++ out). split; [done|]. split; [naive_solver|].
      split; [|done]. by rewrite app_comm_cons, <- H3, <- !app_assoc.
  - cbn [wo_driver wo_closure wo_enqueued]. split; [done|]. exists fs, [], (rest ++ out). rewrite app_nil_r.
    split; [done|]. split; [by left|]. split; [by rewrite app_comm_cons, <- H3, <- !app_assoc|].
    intros _ Hr. rewrite Htx in Hr. by rewrite (H4 Hcl Hr), Hout.
Qed.

(** ** Steps of the link and of the receiver *)

(** A wire whose channel changed to [c], with what [r'] heard. *)
Lemma wire_channel e r c fs tail :
  (exists rest, mt_validate_frames (ep_tx e) = false /\
    (tail = [] \/ is_Some (wo_closure (ep_world e)) /\ exists code reason, tail = [WClose code reason]) /\
    lg_heard (ep_log r) ++ fs ++ rest = spoken e /\
    (wo_closure (ep_world e) = None -> ch_receiver c = true -> rest = w_queue (d_writer (ep_driver e)))) ->
  ch_queue c = map WFrame fs ++ tail -> wire (set_channel e c) r.
Proof. intros (rest & Hv & Ht & Hs & Hr) Hq. split; [done|]. exists fs, tail, rest. auto. Qed.

(** The inbound branch carries the item that was polled. *)
Lemma taken_inbound (w : World MemoryPortTx) wk settle i : taken w (ALoop wk settle) = Some (BInbound i) -> wk_inbound wk = Polled i.
Proof. unfold taken, select. intros H. by repeat (case_match; simplify_eq). Qed.

Lemma wire_receive e r rx wk settle i terminal :
  wire e r ->
  memory_recv {| mr_receiver := ep_channel e; mr_terminal := ep_terminal r |} = (rx, wk_inbound wk) ->
  taken (ep_world r) (ALoop wk settle) = Some (BInbound i) ->
  wire (set_channel e (mr_receiver rx)) (mkEndpoint (log_act (ep_log r) (ALoop wk settle)) terminal).
Proof.
  intros (Hv & fs & tail & rest & H1 & H2 & H3 & H4) Hrecv Ht.
  pose proof (taken_inbound _ _ _ _ Ht) as Hi. rewrite Hi in Hrecv.
  assert (Hheard : lg_heard (log_act (ep_log r) (ALoop wk settle)) = lg_heard (ep_log r) ++ branch_hears (BInbound i)).
  { unfold ep_world in Ht. unfold log_act. cbn [lg_heard]. by destruct (taken_logs _ _ _ Ht) as [-> _]. }
  unfold memory_recv in Hrecv. cbn [mr_terminal mr_receiver] in Hrecv. destruct (ep_terminal r).
  { injection Hrecv as <- <-. apply (wire_channel e _ _ fs tail); [|done]. exists rest. cbn [ep_log].
    rewrite Hheard, app_nil_r. auto. }
  unfold ch_recv in Hrecv. rewrite H1 in Hrecv. destruct fs as [|f fs]; cbn [map app] in Hrecv.
  - destruct tail as [|m tail]; [|destruct H2 as [|(Hcl & code & reason & [= -> ->])]; [done|]].
    + destruct (ch_senders (ep_channel e)); [done|]. injection Hrecv as <- <-.
      apply (wire_channel e _ _ [] []); [|exact H1]. exists rest. cbn [ep_log mr_receiver].
      rewrite Hheard, app_nil_r. auto.
    + injection Hrecv as <- <-. apply (wire_channel e _ _ [] []); [|done]. exists rest. cbn [ep_log mr_receiver].
      rewrite Hheard, app_nil_r. split; [done|]. split; [by left|]. split; [done|]. by destruct Hcl as [? ->].
  - injection Hrecv as <- <-. apply (wire_channel e _ _ fs tail); [|done]. exists rest. cbn [ep_log mr_receiver].
    rewrite Hheard, <- app_assoc. auto.
Qed.

Lemma wire_drop_senders e r : wire e r -> wire (set_channel e (drop_senders (ep_channel e))) r.
Proof.
  intros (Hv & fs & tail & rest & H1 & H2 & H3 & H4). apply (wire_channel e r _ fs tail); [|done].
  exists rest. auto.
Qed.

Lemma wire_drop_receiver e r : wire e r -> wire (set_channel e (drop_receiver (ep_channel e))) r.
Proof.
  intros (Hv & fs & tail & rest & H1 & H2 & H3 & H4). apply (wire_channel e r _ [] []); [|done].
  exists (fs ++ rest). split; [done|]. split; [by left|]. split; [done|]. by intros _ [=].
Qed.

Lemma heard_set_channel e c : lg_heard (ep_log (set_channel e c)) = lg_heard (ep_log e).
Proof. simpl. unfold heard_in. simpl. apply app_nil_r. Qed.

Lemma wire_hang_up near far near' far' :
  hang_up near far = (near', far') -> wire near far -> wire far near -> wire near' far' /\ wire far' near'.
Proof.
  unfold hang_up. intros H H1 H2. destruct (wo_closure (ep_world near)); injection H as <- <-; [|done]. split.
  - apply wire_receiver with far; [apply heard_set_channel|]. by apply wire_drop_senders.
  - apply wire_receiver with near; [apply heard_set_channel|]. by apply wire_drop_receiver.
Qed.

(** ** Both ends *)

Record ep_ok (e : Endpoint) (n : Z) : Prop := {
  eo_lifecycle : lifecycle (ep_world e);
  eo_traffic : traffic_ok (ep_world e);
  eo_origins : origins (ep_log e);
  eo_streams : streams_ok (ep_world e);
  eo_ids : ids_ok (ep_world e) n
}.

(** Whatever follows an action at an end leaves at most one more id behind. *)
Lemma log_act_ok e a n terminal :
  ep_ok e n -> n < u64_max -> ep_ok (mkEndpoint (log_act (ep_log e) a) terminal) (n + 1).
Proof.
  intros [Hl Ht Ho Hs Hi] Hn. split; unfold ep_world in *; cbn [ep_log log_act lg_world] in *.
  - by apply act_lifecycle.
  - by apply act_traffic.
  - by apply log_act_origins.
  - by apply act_streams.
  - by apply act_ids_ok.
Qed.

Lemma set_channel_ok e c n : ep_ok e n -> ep_ok (set_channel e c) n.
Proof.
  intros [Hl Ht Ho Hst [Hs Hd Hr]]. unfold set_channel, ep_act. split; unfold ep_world in *; cbn [ep_log log_act lg_world] in *.
  - by apply act_lifecycle.
  - by apply act_traffic.
  - by apply log_act_origins.
  - by apply act_streams.
  - by split.
Qed.

Lemma ep_ok_le e m n : m <= n -> ep_ok e m -> ep_ok e n.
Proof. intros Hmn [? ? ? ? [? ? ?]]. split; try done. split; try done. lia. Qed.

Record dx_ok (near far : Endpoint) (n : Z) : Prop := {
  do_near : ep_ok near n;
  do_far : ep_ok far n;
  do_out : wire near far;
  do_in : wire far near
}.

Lemma hang_up_ok near far n : dx_ok near far n -> let '(near', far') := hang_up near far in dx_ok near' far' n.
Proof.
  intros [Hn Hf Ho Hi]. destruct (hang_up near far) as [near' far'] eqn:H.
  destruct (wire_hang_up _ _ _ _ H Ho Hi) as [Ho' Hi']. unfold hang_up in H.
  destruct (wo_closure (ep_world near)); injection H as <- <-; split; auto using set_channel_ok.
Qed.

Lemma loop_step_ok near far n sleep tick st settle :
  dx_ok near far n -> n < u64_max ->
  let '(near', far') := loop_step near far sleep tick st settle in dx_ok near' far' (n + 1).
Proof.
  intros [Hn Hf Ho Hi] Hlt. unfold loop_step. destruct (memory_recv _) as [rx item] eqn:Hrecv.
  set (wk := {| wk_sleep := sleep; wk_tick := tick; wk_settled := st; wk_inbound := item |}).
  assert (Hf' : ep_ok far (n + 1)) by (apply (ep_ok_le far n); [lia|done]).
  assert (Hquiet : heard_in (ep_world near) (ALoop wk settle) = [] ->
    let '(near', far') := hang_up (ep_act near (ALoop wk settle)) far in dx_ok near' far' (n + 1)).
  { intros Hq. apply hang_up_ok. split; [by apply log_act_ok|done|by apply wire_loop; destruct Hn|].
    apply (wire_receiver _ near); [|done]. simpl. unfold ep_world in Hq. by rewrite Hq, app_nil_r. }
  destruct (taken (ep_world near) (ALoop wk settle)) as [b|] eqn:Ht; [|apply Hquiet; unfold heard_in; by rewrite Ht].
  destruct b as [o| | |st'|c|i]; try (apply Hquiet; unfold heard_in; by rewrite Ht).
  apply hang_up_ok. split; [by apply log_act_ok|by apply set_channel_ok| |].
  - apply (wire_receiver _ far); [apply heard_set_channel|]. by apply wire_loop; destruct Hn.
  - by eapply wire_receive.
Qed.

Lemma dx_ok_sym near far n : dx_ok near far n -> dx_ok far near n.
Proof. by intros [? ? ? ?]. Qed.

Lemma on_side_ok s f x m n :
  (forall near far, dx_ok near far m -> let '(near', far') := f near far in dx_ok near' far' n) ->
  dx_ok (dx_a x) (dx_b x) m -> dx_ok (dx_a (on_side s f x)) (dx_b (on_side s f x)) n.
Proof.
  intros Hf Hx. destruct s; simpl.
  - specialize (Hf _ _ Hx). by destruct (f (dx_a x) (dx_b x)).
  - specialize (Hf _ _ (dx_ok_sym _ _ _ Hx)). destruct (f (dx_b x) (dx_a x)). by apply dx_ok_sym.
Qed.

Lemma dx_act_ok x a n :
  dx_ok (dx_a x) (dx_b x) n -> n < u64_max -> dx_ok (dx_a (dx_act x a)) (dx_b (dx_act x a)) (n + 1).
Proof.
  intros Hx Hn. destruct a as [s a|s|s sleep tick st settle]; simpl; eapply on_side_ok; try exact Hx;
    intros near far Hd; [| |by apply loop_step_ok]; destruct Hd as [Hne Hfa Ho Hi].
  - assert (Hfa' : ep_ok far (n + 1)) by (apply (ep_ok_le far n); [lia|done]).
    destruct (is_call a) eqn:Hc; split; try done; [by apply log_act_ok|apply wire_call; by destruct Hne| |].
    + apply (wire_receiver _ near); [|done]. simpl. unfold heard_in. by destruct a; try done; rewrite app_nil_r.
    + apply (ep_ok_le near n); [lia|done].
  - split; [by apply log_act_ok|apply (ep_ok_le far n); [lia|done]|by apply wire_writer|].
    apply (wire_receiver _ near); [|done]. simpl. by rewrite app_nil_r.
Qed.

Lemma dx_run_ok acts : forall x n,
  dx_ok (dx_a x) (dx_b x) n -> n + Z.of_nat (length acts) <= u64_max ->
  dx_ok (dx_a (dx_run x acts)) (dx_b (dx_run x acts)) (n + Z.of_nat (length acts)).
Proof.
  induction acts as [|a acts IH]; intros x n Hx Hn; simpl in *; [by rewrite Z.add_0_r|].
  replace (n + Z.of_nat (S (length acts))) with (n + 1 + Z.of_nat (length acts)) by lia.
  apply (IH (dx_act x a)); [|lia]. apply dx_act_ok; [done|lia].
Qed.

(** The hello is the first thing on a fresh link. *)
Lemma wire_open port_max tx o w r :
  world_open port_max tx o ∅ = Ok w -> mt_validate_frames tx = false -> mt_sender tx = unbounded_channel ->
  lg_heard (ep_log r) = [] -> wire (mkEndpoint (mkLogged w [] []) false) r.
Proof.
  unfold world_open, session_open. intros (d & Hd & H)%result_bind_Ok Hv Hc Hr. injection H as <-.
  apply result_bind_Ok in Hd as (s & Hs & [= <-]). unfold start. simpl. destruct (assert_fits _ _ _) as [[]|e].
  - change port_send with memory_send. unfold memory_send. rewrite Hv. unfold forward. rewrite Hc. simpl.
    split; [done|]. exists [FHello (build_hello s)], [], []. rewrite Hr. simpl. auto.
  - match goal with |- context [teardown ?d ?r ?st] => pose proof (teardown_port d r st []) as Ht; destruct (teardown d r st) as [d' c] end.
    simpl in Ht. destruct Ht as (Hv' & q & tail & rest & Hq & Htl & Hrest & _); [done|by rewrite Hc|].
    split; [done|]. symmetry in Hrest. apply app_eq_nil in Hrest as [-> ->].
    exists [], tail, (spoken (mkEndpoint (mkLogged (mkWorld (drop_driver d') (Some c) ∅ 0%nat [] [] []) [] []) false)).
    rewrite Hr. split; [done|]. split; [|by simpl]. destruct Htl as [->|Htl]; [by left|right]. split; [by eexists|done].
Qed.

Lemma ep_open_ok port_max tx o w terminal :
  world_open port_max tx o ∅ = Ok w -> ep_ok (mkEndpoint (mkLogged w [] []) terminal) 0.
Proof.
  intros Ho. destruct (open_ids _ _ _ _ _ Ho) as [Hc Hs].
  split; unfold ep_world; simpl; [by eapply world_open_lifecycle|by eapply open_traffic|by eapply open_origins|by eapply open_streams|].
  split; rewrite ?Hc, ?Hs; [lia|constructor|]. intros id Hid. by apply elem_of_nil in Hid.
Qed.

Lemma duplex_open_ok options oa ob x :
  duplex_open options oa ob = Ok x -> mo_validate_frames options = false -> dx_ok (dx_a x) (dx_b x) 0.
Proof.
  unfold duplex_open. intros (halves & Hh & H)%result_bind_Ok Hv. apply result_bind_Ok in H as (a & Ha & H).
  apply result_bind_Ok in H as (b & Hb & H). unfold port_pair_with in Hh. apply result_bind_Ok in Hh as (m & _ & [= <-]).
  cbv zeta in H. match type of H with Ok ?y = Ok _ => assert (x = y) as -> by congruence end.
  apply on_side_ok with 0; [intros; by apply hang_up_ok|]. apply on_side_ok with 0; [intros; by apply hang_up_ok|]. simpl.
  split; [by eapply ep_open_ok|by eapply ep_open_ok|by eapply wire_open|by eapply wire_open].
Qed.

(** Everything the invariants say, at any point of a run of two sessions. *)
Lemma duplex_ok options oa ob x0 acts s :
  duplex_open options oa ob = Ok x0 -> mo_validate_frames options = false -> Z.of_nat (length acts) <= u64_max ->
  let x := dx_run x0 acts in dx_ok (end_of s x) (end_of (other s) x) (Z.of_nat (length acts)).
Proof.
  intros Ho Hv Hn. pose proof (dx_run_ok acts x0 0 (duplex_open_ok _ _ _ _ Ho Hv) Hn) as Hx.
  rewrite Z.add_0_l in Hx. destruct s; [done|by apply dx_ok_sym].
Qed.

(** ** What follows *)

Lemma wire_heard e r : wire e r -> exists rest, lg_heard (ep_log r) ++ rest = spoken e.
Proof. intros (_ & fs & tail & rest & _ & _ & H & _). by exists (fs ++ rest). Qed.

(** What an end heard beyond the hello, the other enqueued. *)
Lemma heard_enqueued e r f :
  wire e r -> f ∈ lg_heard (ep_log r) -> f = FHello (build_hello (ep_shared e)) \/ f ∈ wo_enqueued (ep_world e).
Proof.
  intros (rest & H)%wire_heard Hf. assert (Hs : f ∈ spoken e) by (rewrite <- H; apply elem_of_app; by left).
  by apply elem_of_cons in Hs.
Qed.

Lemma heard_hello e r h n :
  ep_ok e n -> wire e r -> FHello h ∈ lg_heard (ep_log r) -> h = build_hello (ep_shared e).
Proof.
  intros He Hw Hh. destruct (heard_enqueued _ _ _ Hw Hh) as [[= ->]|Hin]; [done|].
  pose proof (tr_frames _ (eo_traffic _ _ He)) as Hf. rewrite Forall_forall in Hf. by apply Hf in Hin.
Qed.

Lemma command_ids cs : request_ids cs = map req_id (command_requests cs).
Proof.
  unfold request_ids, command_requests. induction cs as [|c cs IH]; [done|].
  destruct c as [| [] | |]; simpl in *; first [exact IH|by f_equal].
Qed.

Lemma command_requests_in cs r : r ∈ command_requests cs <-> exists reply, CmdRequest (FReq r) reply ∈ cs.
Proof.
  unfold command_requests. rewrite list_elem_of_omap. split.
  - intros (c & Hc & H). destruct c as [|f reply| |]; [done| |done|done]. destruct f; simplify_eq/=. eauto.
  - intros [reply H]. by exists (CmdRequest (FReq r) reply).
Qed.

Lemma frame_requests_in fs r : r ∈ frame_requests fs <-> FReq r ∈ fs.
Proof.
  unfold frame_requests. rewrite list_elem_of_omap. split.
  - intros (f & Hf & H). by destruct f; simplify_eq/=.
  - intros H. by exists (FReq r).
Qed.

(** The requests an end heard are the first the other was asked to make. *)
Lemma heard_requests e r n :
  ep_ok e n -> wire e r ->
  exists rest, frame_requests (lg_heard (ep_log r)) ++ rest = command_requests (wo_commands (ep_world e)).
Proof.
  intros He (rest & H)%wire_heard. destruct (or_requests _ (eo_origins _ _ He)) as (more & Hm & _).
  apply (f_equal frame_requests) in H. rewrite frame_requests_app in H. unfold ep_world in *.
  exists (frame_requests rest ++ more). rewrite app_assoc, H. exact Hm.
Qed.

Lemma same_id (cs : list Command) r r' :
  NoDup (request_ids cs) -> r ∈ command_requests cs -> r' ∈ command_requests cs -> req_id r = req_id r' -> r = r'.
Proof.
  rewrite command_ids. intros Hnd Hr Hr' Hid.
  apply list_elem_of_lookup in Hr as [i Hi]. apply list_elem_of_lookup in Hr' as [j Hj].
  assert (i = j) as ->; [|congruence]. eapply NoDup_lookup; [exact Hnd| |]; rewrite list_lookup_fmap.
  - by rewrite Hi.
  - by rewrite Hj, Hid.
Qed.

(** ** Properties of a pair *)

(** Any run of two sessions over a plain in-process pair. *)
Section pair.
Context (options : MemoryPortOptions) (oa ob : SessionOptions) (x0 : Duplex) (acts : list DuplexAction) (s : Side).
Context (Hopen : duplex_open options oa ob = Ok x0) (Hplain : mo_validate_frames options = false)
  (Hsteps : Z.of_nat (length acts) <= u64_max).

Let x : Duplex := dx_run x0 acts.
Let near : Endpoint := end_of s x.
Let far : Endpoint := end_of (other s) x.

Lemma pair_ok : dx_ok near far (Z.of_nat (length acts)).
Proof. by apply (duplex_ok options oa ob). Qed.


(** C2 (calls, end to end).  When a poll of a call returns a value, the other side's handler for a
    request with exactly that method and those parameters returned that value, and the request is
    the one this call queued.  When it returns an error, that is the call's own timeout; the error the
    other side enqueued for the request this call queued; if the session has closed, the error that
    names its closure and that request's id and method; or the plain [UNAVAILABLE] of a reply that was
    dropped unanswered.  The pair is one that clones frames ([validate_frames] off, the default). *)
Theorem call_end_to_end (f : RequestFuture) (cancelled deadline : bool) (r : result Value RemoteError) :
  (request_poll (ep_shared near) (d_oneshots (ep_driver near)) f cancelled deadline).2 = Polled r ->
  match r with
  | Ok v => exists c, (c, Ok v) ∈ lg_settled (ep_log far) /\
      CmdRequest (FReq (call_request c)) (rf_reply f) ∈ wo_commands (ep_world near)
  | Err e =>
      e = timeout_error (rf_method f) (rf_timeout f) \/ e = unavailable (ep_shared near) (rf_method f) \/
      (exists c q, wo_closure (ep_world near) = Some c /\ CmdRequest (FReq q) (rf_reply f) ∈ wo_commands (ep_world near) /\
        e = closed_request_error (sc_code c) (sc_reason c) (req_id q) (req_method q)) \/
      exists q p, FErr {| err_id := req_id q; err_error := p |} ∈ wo_enqueued (ep_world far) /\
        CmdRequest (FReq q) (rf_reply f) ∈ wo_commands (ep_world near) /\ e = remote_of_payload p
  end.
Proof.
  destruct pair_ok as [Hn Hf Ho Hi]. pose proof (or_outgoing _ (eo_origins _ _ Hn)) as Hog.
  unfold request_poll, reply_poll. destruct (d_oneshots (ep_driver near) !! rf_reply f) as [[a|]|] eqn:Hos.
  - intros [= <-]. destruct a as [v|e].
    + destruct (og_answered _ _ _ _ Hog _ _ Hos) as (q & Hq & Hres).
      destruct (heard_enqueued _ _ _ Hi Hres) as [[=]|Henq].
      destruct (ic_results _ _ _ _ (or_incoming _ (eo_origins _ _ Hf)) _ _ Henq) as (c & Hc & Hid).
      pose proof (ic_calls _ _ _ _ (or_incoming _ (eo_origins _ _ Hf)) _ _ Hc) as Hreq.
      destruct (heard_requests _ _ _ Hn Ho) as (rest & Hrest).
      exists c. split; [done|]. assert (call_request c = q) as ->; [|done].
      apply (same_id (wo_commands (ep_world near))); [apply (eo_ids _ _ Hn)| | |done].
      * rewrite <- Hrest. apply elem_of_app. left. by apply frame_requests_in.
      * apply command_requests_in. by eexists.
    + destruct (og_failed _ _ _ _ Hog _ _ Hos) as [(c & q & Hcl & Hq & ->)|(q & p & Hq & Herr & ->)]; right; right.
      * left. by exists c, q.
      * right. exists q, p. destruct (heard_enqueued _ _ _ Hi Herr) as [[=]|Henq]. auto.
  - intros [= <-]. auto.
  - destruct (deadline && _); simpl; [|done]. intros [= <-]. by left.
Qed.

(** C9 (at most once, in order).  The requests a side routes are, in order, the first of those the
    other side's callers made, and no request is routed twice, although each side keeps only its
    active ids.  The pair clones frames; a session makes fewer than 2^64 requests. *)
Theorem requests_at_most_once :
  NoDup (wo_routed (ep_world far)) /\
  exists rest, wo_routed (ep_world far) ++ rest = request_ids (wo_commands (ep_world near)).
Proof.
  destruct pair_ok as [Hn Hf Ho Hi]. destruct (heard_requests _ _ _ Hn Ho) as (rest & Hrest).
  assert (H : wo_routed (ep_world far) ++ map req_id rest = request_ids (wo_commands (ep_world near))).
  { rewrite command_ids, <- Hrest, map_app. unfold ep_world. by rewrite (or_routed _ (eo_origins _ _ Hf)). }
  split; [|by exists (map req_id rest)].
  pose proof (id_nodup _ _ (eo_ids _ _ Hn)) as Hnd. rewrite <- H in Hnd. by apply NoDup_app in Hnd as [? _].
Qed.


End pair.
End props.
