(* ===== verification/Conformance.v ===== *)
(** * The conformance suite

    [testing.rs]: the cases every transport must pass, written against a [Fixture].  A case is a
    program over the operations a fixture offers on the pair it connected: an [await] is an
    operation whose answer may never come, an [assert!] or [expect] that fails panics.  The runner
    goes through the cases a fixture supports, bounds each, and checks its own list of names.

    The fixture is an interface: what a transport must provide is [Fixture], the cases and the
    runner are defined against it, and [InProcess] gives the one the crate ships. *)

From S2P Require Import Prelude Json Wire Frame Limits Ndjson Port Session Dispatch Driver Handle Duplex.
Local Open Scope Z_scope.

(** ** Options and handlers *)

Definition conformance_a : PeerInfo := {| peer_name := "conformance-a"; peer_version := "a.0"; peer_role := "hub" |}.
Definition conformance_b : PeerInfo := {| peer_name := "conformance-b"; peer_version := "b.0"; peer_role := "runtime" |}.

(** The four handlers, by number. *)
Definition echo_id : Handler := 0%nat.
Definition bulk_id : Handler := 1%nat.
Definition forever_id : Handler := 2%nat.
Definition refuse_id : Handler := 3%nat.

Definition conformance_options (peer : PeerInfo) : SessionOptions :=
  with_handler
    (with_handler
       (with_handler
          (with_handler (with_liveness_interval (session_options_new peer) None) "test.echo" echo_id)
          "test.bulk" bulk_id)
       "test.forever" forever_id)
    "test.refuse" refuse_id.

(** [Value::get], [as_u64] and [as_str]. *)
Definition value_get (v : Value) (key : string) : option Value :=
  match v with VObject m => map_get key m | _ => None end.
Definition as_u64 (v : Value) : option Z := match v with VNumber (PosInt n) => Some n | _ => None end.
Definition as_str (v : Value) : option string := match v with VString s => Some s | _ => None end.

(** ["x".repeat(n)]. *)
Definition x_repeat (n : Z) : string := N.iter (Z.to_N n) (String "x"%char) EmptyString.

Definition echo (params : Value) : HandlerOutcome := Ok params.

Definition bulk (params : Value) : HandlerOutcome :=
  match value_get params "bytes" ≫= as_u64 with
  | None =>
      Err (remote_error codes.INVALID_PARAMS
        ("Parameters of " +:+ quoted "test.bulk" +:+ " must be an object with a numeric " +:+ quoted "bytes" +:+ " member."))
  | Some bytes => Ok (VObject [("blob", VString (x_repeat (usize_of_u64 bytes)))])
  end.

(** Settles only once its token is cancelled. *)
Definition forever (cancelled : bool) : option HandlerOutcome :=
  if cancelled then Some (Err (remote_error codes.CANCELLED (quoted "test.forever" +:+ " was cancelled."))) else None.

Definition refuse (params : Value) : HandlerOutcome :=
  let code := default codes.INTERNAL (value_get params "code" ≫= as_str) in
  let message := default "refused" (value_get params "message" ≫= as_str) in
  Err (with_detail (remote_error code message) "echoed" (VBool true)).

(** What a handler task has come to. *)
Definition run_handler (c : HandlerCall) (cancelled : bool) : option HandlerOutcome :=
  if decide (hc_handler c = echo_id) then Some (echo (hc_params c))
  else if decide (hc_handler c = bulk_id) then Some (bulk (hc_params c))
  else if decide (hc_handler c = forever_id) then forever cancelled
  else Some (refuse (hc_params c)).

(** ** What a case asks of a fixture *)

(** [RequestOptions]; a token is a number the case chose. *)
Record RequestOptions : Type := { ro_cancel : option nat; ro_timeout : option Duration }.
Definition request_options_default : RequestOptions := {| ro_cancel := None; ro_timeout := None |}.

(** [OSpawn] starts a request of a side as a task of its own and [OJoin] awaits it; the subscriber
    calls return the number of the subscription. *)
Inductive Op : Type -> Type :=
| OConnect (a b : SessionOptions) : Op unit
| OConnectRaw (a : SessionOptions) : Op unit
| OWrite (line : string) : Op unit
| OReady (s : Side) : Op (result RemotePeer RemoteError)
| OState (s : Side) : Op SessionState
| OClosed (s : Side) : Op SessionClosure
| OClosure (s : Side) : Op (option SessionClosure)
| OSpawn (s : Side) (method : string) (params : Value) (o : RequestOptions) : Op nat
| OJoin (task : nat) : Op (result Value RemoteError)
| OCancel (token : nat) : Op unit
| OSettled : Op unit
| OEmit (s : Side) (e : EventInput) : Op (result bool RemoteError)
| OEvents (s : Side) : Op nat
| ORecvEvent (s : Side) (sub : nat) : Op (option Event)
| OPongs (s : Side) : Op nat
| ORecvPong (s : Side) (sub : nat) : Op (option unit)
| OPing (s : Side) : Op unit
| OCloseNow (s : Side) (code : Z) (reason : option string) : Op unit
| OSever : Op unit
| OClosePair : Op unit.

Inductive Case (A : Type) : Type :=
| Returns (a : A)
| Panics (why : string)
| Asks (B : Type) (op : Op B) (k : B -> Case A).
Arguments Returns {A} a.
Arguments Panics {A} why.
Arguments Asks {A B} op k.

Fixpoint case_bind {A B} (m : Case A) (f : A -> Case B) : Case B :=
  match m with
  | Returns a => f a
  | Panics why => Panics why
  | Asks op k => Asks op (fun b => case_bind (k b) f)
  end.

Declare Scope case_scope.
Delimit Scope case_scope with case.
Notation "'let!' x ':=' m 'in' k" := (case_bind m (fun x => k))
  (at level 10, x name, m at level 100, k at level 200) : case_scope.
Notation "m ';;!' k" := (case_bind m (fun _ => k)) (at level 100, k at level 200, right associativity) : case_scope.
Local Open Scope case_scope.

Definition ask {B} (op : Op B) : Case B := Asks op Returns.
Definition assert_ (b : bool) : Case unit := if b then Returns tt else Panics "assertion failed".
Definition assert_eq {A} `{EqDecision A} (left right : A) : Case unit := assert_ (bool_decide (left = right)).
Definition expect {A E} (r : result A E) (why : string) : Case A :=
  match r with Ok a => Returns a | Err _ => Panics why end.
Definition expect_err {A E} (r : result A E) (why : string) : Case E :=
  match r with Ok _ => Panics why | Err e => Returns e end.
Definition expect_some {A} (o : option A) (why : string) : Case A :=
  match o with Some a => Returns a | None => Panics why end.
(** A constructor that panics on a ceiling below its floor. *)
Definition built {A} (r : panics A) : Case A := expect r "an option below its floor".

Definition connect_default : Case unit := ask (OConnect (conformance_options conformance_a) (conformance_options conformance_b)).
Definition settled : Case unit := ask OSettled.
Definition close : Case unit := ask OClosePair.

(** [request_with(..).await] and [request(..).await]. *)
Definition request_with (s : Side) (method : string) (params : Value) (o : RequestOptions) : Case (result Value RemoteError) :=
  let! task := ask (OSpawn s method params o) in ask (OJoin task).
Definition request (s : Side) (method : string) (params : Value) : Case (result Value RemoteError) :=
  request_with s method params request_options_default.

Definition no_params : Value := VObject [].
Definition detail (e : RemoteError) (key : string) : option Value := re_details e ≫= map_get key.
Definition from_millis (ms : Z) : Duration := ms * 1000000.

(** ** The cases, in the order of the list *)

Definition CONFORMANCE_CASES : list string :=
  ["completes the handshake in both directions and exposes the peers";
   "negotiates the effective minor downward";
   "refuses a different major with 4426 on both sides";
   "round-trips a request and its result in both directions";
   "serves concurrent requests in both directions";
   "reports an unsupported method without ending the session";
   "carries a handler-chosen error code and its details";
   "refuses a request past the in-flight ceiling and stays open";
   "refuses a reserved rpc. method before it reaches the wire";
   "refuses rpc.discover below the minor that defines it";
   "delivers an event stream and its end marker in order";
   "numbers events per topic when no stream id is given";
   "refuses one stream key past the local ceiling";
   "answers a protocol ping with a pong in both directions";
   "cancels an in-flight request and reports it as cancelled";
   "times out a request locally and ignores the late answer";
   "fails in-flight requests with UNAVAILABLE when the connection drops";
   "propagates a close reason code to the peer";
   "refuses a result past the frame limit without ending the session";
   "honours the lower announced frame limit when sending";
   "keeps two concurrent oversized results from interleaving";
   "closes with 4426 when the peer sends a hello it cannot read";
   "ignores unknown envelope members"].

(** [tokio::join!] of the two [ready] calls, each of which has its value once it settles. *)
Definition both_ready (why_a why_b : string) : Case (RemotePeer * RemotePeer) :=
  let! from_a := ask (OReady SideA) in
  let! from_b := ask (OReady SideB) in
  let! from_a := expect from_a why_a in
  let! from_b := expect from_b why_b in
  Returns (from_a, from_b).

Definition completes_the_handshake_in_both_directions_and_exposes_the_peers : Case unit :=
  connect_default ;;!
  let! peers := both_ready "a's handshake succeeds" "b's handshake succeeds" in
  assert_eq (rp_peer peers.1) conformance_b ;;!
  assert_eq (rp_peer peers.2) conformance_a ;;!
  assert_eq (rp_effective_minor peers.1) (rp_effective_minor peers.2) ;;!
  let! state_a := ask (OState SideA) in
  assert_eq state_a Ready ;;!
  let! state_b := ask (OState SideB) in
  assert_eq state_b Ready ;;!
  close.

Definition negotiates_the_effective_minor_downward : Case unit :=
  ask (OConnect (with_protocol (conformance_options conformance_a) {| major := 1; minor := 3 |})
                (with_protocol (conformance_options conformance_b) {| major := 1; minor := 1 |})) ;;!
  let! peers := both_ready "compatible majors negotiate" "compatible majors negotiate" in
  assert_eq (rp_effective_minor peers.1) 1 ;;!
  assert_eq (rp_effective_minor peers.2) 1 ;;!
  assert_eq (rp_protocol peers.1) {| major := 1; minor := 1 |} ;;!
  assert_eq (rp_protocol peers.2) {| major := 1; minor := 3 |} ;;!
  close.

Definition refuses_a_different_major_with_4426_on_both_sides : Case unit :=
  ask (OConnect (with_protocol (conformance_options conformance_a) {| major := 2; minor := 0 |})
                (conformance_options conformance_b)) ;;!
  let! ready_a := ask (OReady SideA) in
  let! error_a := expect_err ready_a "a major mismatch refuses readiness" in
  assert_eq (re_code error_a) codes.PROTOCOL_MISMATCH ;;!
  let! ready_b := ask (OReady SideB) in
  let! error_b := expect_err ready_b "a major mismatch refuses readiness" in
  assert_eq (re_code error_b) codes.PROTOCOL_MISMATCH ;;!
  let! closure_a := ask (OClosed SideA) in
  let! closure_b := ask (OClosed SideB) in
  assert_eq (sc_code closure_a) close_codes.PROTOCOL_MISMATCH ;;!
  assert_eq (sc_code closure_b) close_codes.PROTOCOL_MISMATCH ;;!
  assert_ (sc_fatal closure_a) ;;!
  close.

Definition round_trips_a_request_and_its_result_in_both_directions : Case unit :=
  connect_default ;;!
  let params := VObject [("nested", VObject [("list", VArray [from_u64 1; from_u64 2; from_u64 3]);
                                             ("text", from_str "héllo · ünicode · 🥭")])] in
  let! echoed := request SideA "test.echo" params in
  let! echoed := expect echoed "test.echo succeeds" in
  assert_eq echoed params ;;!
  let! echoed_b := request SideB "test.echo" (VObject [("from", from_str "b")]) in
  let! echoed_b := expect echoed_b "test.echo succeeds" in
  assert_eq echoed_b (VObject [("from", from_str "b")]) ;;!
  close.

Definition serves_concurrent_requests_in_both_directions : Case unit :=
  connect_default ;;!
  let! t1 := ask (OSpawn SideA "test.echo" (from_u64 1) request_options_default) in
  let! t2 := ask (OSpawn SideB "test.echo" (from_u64 2) request_options_default) in
  let! t3 := ask (OSpawn SideA "test.echo" (from_u64 3) request_options_default) in
  let! t4 := ask (OSpawn SideB "test.echo" (from_u64 4) request_options_default) in
  let! r1 := ask (OJoin t1) in
  let! r2 := ask (OJoin t2) in
  let! r3 := ask (OJoin t3) in
  let! r4 := ask (OJoin t4) in
  let! v1 := expect r1 "succeeds" in
  assert_eq v1 (from_u64 1) ;;!
  let! v2 := expect r2 "succeeds" in
  assert_eq v2 (from_u64 2) ;;!
  let! v3 := expect r3 "succeeds" in
  assert_eq v3 (from_u64 3) ;;!
  let! v4 := expect r4 "succeeds" in
  assert_eq v4 (from_u64 4) ;;!
  close.

Definition reports_an_unsupported_method_without_ending_the_session : Case unit :=
  connect_default ;;!
  let! r := request SideA "test.absent" no_params in
  let! error := expect_err r "no handler is registered" in
  assert_eq (re_code error) codes.METHOD_UNSUPPORTED ;;!
  let! r := request SideA "test.echo" (VObject [("ok", VBool true)]) in
  let! ok := expect r "the session is still open" in
  assert_eq ok (VObject [("ok", VBool true)]) ;;!
  close.

Definition carries_a_handler_chosen_error_code_and_its_details : Case unit :=
  connect_default ;;!
  let! r := request SideA "test.refuse" (VObject [("code", from_str "APP_REFUSED"); ("message", from_str "no")]) in
  let! error := expect_err r "the handler refuses" in
  assert_eq (re_code error) "APP_REFUSED" ;;!
  assert_eq (re_message error) "no" ;;!
  assert_eq (detail error "echoed") (Some (VBool true)) ;;!
  close.

Definition refuses_a_request_past_the_in_flight_ceiling_and_stays_open : Case unit :=
  let! b := built (with_max_in_flight (conformance_options conformance_b) 1) in
  ask (OConnect (conformance_options conformance_a) b) ;;!
  let! held := ask (OSpawn SideA "test.forever" no_params {| ro_cancel := Some 0%nat; ro_timeout := None |}) in
  settled ;;!
  let! r := request SideA "test.echo" (VObject [("queued", VBool true)]) in
  let! refused := expect_err r "b is already holding its one slot" in
  assert_eq (re_code refused) codes.UNAVAILABLE ;;!
  let! _ := expect_some (re_details refused) "the refusal names its kind" in
  assert_eq (detail refused "kind") (Some (from_str "in_flight_limit")) ;;!
  assert_eq (detail refused "limit") (Some (from_u64 1)) ;;!
  ask (OCancel 0%nat) ;;!
  let! _ := ask (OJoin held) in
  settled ;;!
  let! r := request SideA "test.echo" (VObject [("queued", VBool true)]) in
  let! answer := expect r "the slot freed" in
  assert_eq answer (VObject [("queued", VBool true)]) ;;!
  close.

Definition refuses_a_reserved_rpc_method_before_it_reaches_the_wire : Case unit :=
  connect_default ;;!
  let! r := request SideA "rpc.nowhere" no_params in
  let! error := expect_err r "rpc. is reserved" in
  assert_eq (re_code error) codes.INVALID_REQUEST ;;!
  close.

Definition refuses_rpc_discover_below_the_minor_that_defines_it : Case unit :=
  ask (OConnect (conformance_options conformance_a)
                (with_protocol (conformance_options conformance_b) {| major := 1; minor := 0 |})) ;;!
  let! r := ask (OReady SideA) in
  let! remote := expect r "the handshake succeeds" in
  assert_eq (rp_effective_minor remote) 0 ;;!
  let! r := request SideA "rpc.discover" no_params in
  let! error := expect_err r "rpc.discover is defined from minor 1" in
  assert_eq (re_code error) codes.INVALID_REQUEST ;;!
  let! _ := expect_some (re_details error) "the refusal names the minor" in
  assert_eq (detail error "effectiveMinor") (Some (from_u64 0)) ;;!
  let! r := request SideA "test.echo" (VObject [("alive", VBool true)]) in
  let! answer := expect r "the session is unharmed" in
  assert_eq answer (VObject [("alive", VBool true)]) ;;!
  close.

(** [expect("emits")] and the [assert!] around it. *)
Definition emits (s : Side) (e : EventInput) : Case unit :=
  let! r := ask (OEmit s e) in
  let! sent := expect r "emits" in
  assert_ sent.

(** One round trip guarantees that every event emitted before it landed. *)
Definition barrier (s : Side) : Case unit :=
  let! r := request s "test.echo" no_params in
  let! _ := expect r "round trip barrier" in
  Returns tt.

Definition recv_event (s : Side) (sub : nat) : Case Event :=
  let! e := ask (ORecvEvent s sub) in expect_some e "the stream stays open".

Definition wait_ready : Case unit :=
  let! a := ask (OReady SideA) in
  let! _ := expect a "a is ready" in
  let! b := ask (OReady SideB) in
  let! _ := expect b "b is ready" in
  Returns tt.

Definition line_event (payload : Value) (last : bool) : EventInput :=
  {| ei_topic := "test.stream"; ei_payload := payload; ei_stream_id := Some "stream-1"; ei_end := last |}.

Definition delivers_an_event_stream_and_its_end_marker_in_order : Case unit :=
  connect_default ;;!
  wait_ready ;;!
  let! events := ask (OEvents SideA) in
  emits SideB (line_event (VObject [("line", from_str "first")]) false) ;;!
  emits SideB (line_event (VObject [("line", from_str "second")]) false) ;;!
  emits SideB (line_event (VObject [("line", from_str "last")]) true) ;;!
  barrier SideA ;;!
  let! first := recv_event SideA events in
  let! second := recv_event SideA events in
  let! last := recv_event SideA events in
  assert_eq (evt_seq first) 0 ;;!
  assert_eq (evt_payload first) (VObject [("line", from_str "first")]) ;;!
  assert_eq (evt_end first) None ;;!
  assert_eq (evt_seq second) 1 ;;!
  assert_eq (evt_payload second) (VObject [("line", from_str "second")]) ;;!
  assert_eq (evt_seq last) 2 ;;!
  assert_eq (evt_payload last) (VObject [("line", from_str "last")]) ;;!
  assert_ (bool_decide (is_Some (evt_end last))) ;;!
  emits SideB (line_event Null false) ;;!
  barrier SideA ;;!
  let! restarted := recv_event SideA events in
  assert_eq (evt_seq restarted) 0 ;;!
  close.

Definition heartbeat (at_ : Z) : EventInput :=
  {| ei_topic := "test.heartbeat"; ei_payload := VObject [("at", from_u64 at_)]; ei_stream_id := None; ei_end := false |}.

Definition numbers_events_per_topic_when_no_stream_id_is_given : Case unit :=
  connect_default ;;!
  wait_ready ;;!
  let! events := ask (OEvents SideB) in
  emits SideA (heartbeat 1) ;;!
  emits SideA (heartbeat 2) ;;!
  barrier SideB ;;!
  let! first := recv_event SideB events in
  let! second := recv_event SideB events in
  assert_eq (evt_seq first) 0 ;;!
  assert_eq (evt_seq second) 1 ;;!
  close.

Definition stream_event (stream : string) (last : bool) : EventInput :=
  {| ei_topic := "test.stream"; ei_payload := Null; ei_stream_id := Some stream; ei_end := last |}.

Definition refuses_one_stream_key_past_the_local_ceiling : Case unit :=
  let! a := built (with_max_stream_keys (conformance_options conformance_a) 2) in
  ask (OConnect a (conformance_options conformance_b)) ;;!
  wait_ready ;;!
  let! r := ask (OEmit SideA (stream_event "s-1" false)) in
  assert_eq r (Ok true) ;;!
  let! r := ask (OEmit SideA (stream_event "s-2" false)) in
  assert_eq r (Ok true) ;;!
  let! r := ask (OEmit SideA (stream_event "s-3" false)) in
  let! refused := expect_err r "a third key is one past the ceiling" in
  assert_eq (re_code refused) codes.UNAVAILABLE ;;!
  let! _ := expect_some (re_details refused) "the refusal names its kind" in
  assert_eq (detail refused "kind") (Some (from_str "stream_key_limit")) ;;!
  let! r := ask (OEmit SideA (stream_event "s-1" true)) in
  assert_eq r (Ok true) ;;!
  let! r := ask (OEmit SideA (stream_event "s-3" false)) in
  assert_eq r (Ok true) ;;!
  close.

Definition answers_a_protocol_ping_with_a_pong_in_both_directions : Case unit :=
  connect_default ;;!
  let! pongs_a := ask (OPongs SideA) in
  let! pongs_b := ask (OPongs SideB) in
  ask (OPing SideA) ;;!
  ask (OPing SideB) ;;!
  let! a := ask (ORecvPong SideA pongs_a) in
  let! _ := expect_some a "a receives a pong" in
  let! b := ask (ORecvPong SideB pongs_b) in
  let! _ := expect_some b "b receives a pong" in
  close.

Definition cancels_an_in_flight_request_and_reports_it_as_cancelled : Case unit :=
  connect_default ;;!
  let! pending := ask (OSpawn SideA "test.forever" no_params {| ro_cancel := Some 0%nat; ro_timeout := None |}) in
  settled ;;!
  ask (OCancel 0%nat) ;;!
  let! r := ask (OJoin pending) in
  let! error := expect_err r "the request was cancelled" in
  assert_eq (re_code error) codes.CANCELLED ;;!
  close.

Definition times_out_a_request_locally_and_ignores_the_late_answer : Case unit :=
  connect_default ;;!
  let! r := request_with SideA "test.forever" no_params {| ro_cancel := None; ro_timeout := Some (from_millis 50) |} in
  let! error := expect_err r "the local deadline passes" in
  assert_eq (re_code error) codes.TIMEOUT ;;!
  let! r := request SideA "test.echo" (VObject [("still", from_str "alive")]) in
  let! ok := expect r "the session is still open" in
  assert_eq ok (VObject [("still", from_str "alive")]) ;;!
  close.

Definition fails_in_flight_requests_with_unavailable_when_the_connection_drops : Case unit :=
  connect_default ;;!
  let! pending := ask (OSpawn SideA "test.forever" no_params request_options_default) in
  settled ;;!
  ask OSever ;;!
  let! r := ask (OJoin pending) in
  let! error := expect_err r "the connection dropped" in
  assert_eq (re_code error) codes.UNAVAILABLE ;;!
  let! state_a := ask (OState SideA) in
  assert_eq state_a Closed ;;!
  close.

Definition propagates_a_close_reason_code_to_the_peer : Case unit :=
  connect_default ;;!
  wait_ready ;;!
  ask (OCloseNow SideB close_codes.SUPERSEDED (Some "superseded by a newer connection")) ;;!
  let! closure := ask (OClosed SideA) in
  assert_eq (sc_code closure) close_codes.SUPERSEDED ;;!
  assert_ (sc_fatal closure) ;;!
  let! closure_b := ask (OClosure SideB) in
  let! closure_b := expect_some closure_b "b already recorded its own closure" in
  assert_eq (sc_code closure_b) close_codes.SUPERSEDED ;;!
  close.

Definition refuses_a_result_past_the_frame_limit_without_ending_the_session : Case unit :=
  connect_default ;;!
  let! r := request_with SideA "test.bulk" (VObject [("bytes", from_u64 (DEFAULT_MAX_FRAME_BYTES + 1))])
              {| ro_cancel := None; ro_timeout := Some (from_secs 30) |} in
  let! error := expect_err r "the result exceeds the frame limit" in
  assert_eq (re_code error) codes.FRAME_TOO_LARGE ;;!
  let! r := request SideA "test.echo" (VObject [("ok", VBool true)]) in
  let! ok := expect r "the session is still open" in
  assert_eq ok (VObject [("ok", VBool true)]) ;;!
  close.

Definition honours_the_lower_announced_frame_limit_when_sending : Case unit :=
  let! a := built (with_max_frame_bytes (conformance_options conformance_a) 4096) in
  ask (OConnect a (conformance_options conformance_b)) ;;!
  let! r := request SideA "test.bulk" (VObject [("bytes", from_u64 8192)]) in
  let! too_big := expect_err r "the result exceeds the announced ceiling" in
  assert_eq (re_code too_big) codes.FRAME_TOO_LARGE ;;!
  let! r := request SideA "test.bulk" (VObject [("bytes", from_u64 1024)]) in
  let! ok := expect r "within the announced ceiling" in
  assert_eq ok (VObject [("blob", VString (x_repeat 1024))]) ;;!
  close.

(** [str::len]. *)
Definition blob_len (v : Value) : option Z := option_map (fun s => Z.of_nat (String.length s)) (value_get v "blob" ≫= as_str).

Definition keeps_two_concurrent_oversized_results_from_interleaving : Case unit :=
  connect_default ;;!
  let size := 512 * 1024 in
  let long_timeout := {| ro_cancel := None; ro_timeout := Some (from_secs 30) |} in
  let! first := ask (OSpawn SideA "test.bulk" (VObject [("bytes", from_u64 size)]) long_timeout) in
  let! second := ask (OSpawn SideA "test.bulk" (VObject [("bytes", from_u64 (size + 1))]) long_timeout) in
  let! first := ask (OJoin first) in
  let! second := ask (OJoin second) in
  let! first := expect first "the first bulk result arrives" in
  let! second := expect second "the second bulk result arrives" in
  assert_eq (blob_len first) (Some size) ;;!
  assert_eq (blob_len second) (Some (size + 1)) ;;!
  close.

(** The lines are written with single quotes here. *)
Fixpoint double_quotes (s : string) : string :=
  match s with
  | EmptyString => EmptyString
  | String c rest => String (if Ascii.eqb c "'"%char then "034"%char else c) (double_quotes rest)
  end.

Definition closes_with_4426_when_the_peer_sends_a_hello_it_cannot_read : Case unit :=
  ask (OConnectRaw (conformance_options conformance_a)) ;;!
  ask (OWrite (double_quotes "{'type':'hello','protocolVersion':'1.0.1','runtimeVersion':'0.1.1','manifest':{}}")) ;;!
  let! r := ask (OReady SideA) in
  let! error := expect_err r "an unreadable hello refuses readiness" in
  assert_eq (re_code error) codes.PROTOCOL_MISMATCH ;;!
  let! closure := ask (OClosed SideA) in
  assert_eq (sc_code closure) close_codes.PROTOCOL_MISMATCH ;;!
  assert_ (sc_fatal closure) ;;!
  close.

Definition ignores_unknown_envelope_members : Case unit :=
  ask (OConnectRaw (conformance_options conformance_a)) ;;!
  ask (OWrite (double_quotes "{'type':'hello','protocol':{'major':1,'minor':0},'peer':{'name':'raw','version':'0','role':'tool'},'capabilities':{},'x-vendor':{'trace':1},'future':true}")) ;;!
  let! r := ask (OReady SideA) in
  let! remote := expect r "a well-formed hello with unknown members still succeeds" in
  assert_eq (peer_name (rp_peer remote)) "raw" ;;!
  let! pongs := ask (OPongs SideA) in
  ask (OWrite (double_quotes "{'type':'pong','x-at':1}")) ;;!
  let! pong := ask (ORecvPong SideA pongs) in
  let! _ := expect_some pong "the pong still arrives despite the unknown member" in
  close.

(** ** The runner *)

(** What a transport provides.  [fx_do] is one operation on the connection of the case at hand;
    [None] is an operation that does not resolve before the case's deadline. *)
Class Fixture : Type := {
  fx_conn : Type;
  fx_fresh : fx_conn;
  fx_chunked : bool;
  fx_supports_raw : bool;
  fx_do : forall B, Op B -> fx_conn -> fx_conn * option B
}.
Arguments fx_do {Fixture B} op c.

Inductive Failure : Type :=
| Failed (name why : string)
| TimedOut (name : string)
| Drifted (ran expected : list string).

Section runner.
Context {FX : Fixture}.

(** A case under [tokio::time::timeout]: what it panicked with, or that it did not resolve. *)
Fixpoint run_case (name : string) (c : Case unit) (conn : fx_conn) : result unit Failure :=
  match c with
  | Returns _ => Ok tt
  | Panics why => Err (Failed name why)
  | Asks op k =>
      let '(conn, answer) := fx_do op conn in
      match answer with
      | Some b => run_case name (k b) conn
      | None => Err (TimedOut name)
      end
  end.

(** [case!]. *)
Definition run_nth (ran : list string) (index : nat) (body : Case unit) : result (list string) Failure :=
  let name := nth index CONFORMANCE_CASES EmptyString in
  let? _ := run_case name body fx_fresh in
  Ok (ran ++ [name]).

Definition run_conformance_suite : result (list string) Failure :=
  let ran := [] in
  let? ran := run_nth ran 0 completes_the_handshake_in_both_directions_and_exposes_the_peers in
  let? ran := run_nth ran 1 negotiates_the_effective_minor_downward in
  let? ran := run_nth ran 2 refuses_a_different_major_with_4426_on_both_sides in
  let? ran := run_nth ran 3 round_trips_a_request_and_its_result_in_both_directions in
  let? ran := run_nth ran 4 serves_concurrent_requests_in_both_directions in
  let? ran := run_nth ran 5 reports_an_unsupported_method_without_ending_the_session in
  let? ran := run_nth ran 6 carries_a_handler_chosen_error_code_and_its_details in
  let? ran := run_nth ran 7 refuses_a_request_past_the_in_flight_ceiling_and_stays_open in
  let? ran := run_nth ran 8 refuses_a_reserved_rpc_method_before_it_reaches_the_wire in
  let? ran := run_nth ran 9 refuses_rpc_discover_below_the_minor_that_defines_it in
  let? ran := run_nth ran 10 delivers_an_event_stream_and_its_end_marker_in_order in
  let? ran := run_nth ran 11 numbers_events_per_topic_when_no_stream_id_is_given in
  let? ran := run_nth ran 12 refuses_one_stream_key_past_the_local_ceiling in
  let? ran := run_nth ran 13 answers_a_protocol_ping_with_a_pong_in_both_directions in
  let? ran := run_nth ran 14 cancels_an_in_flight_request_and_reports_it_as_cancelled in
  let? ran := run_nth ran 15 times_out_a_request_locally_and_ignores_the_late_answer in
  let? ran := run_nth ran 16 fails_in_flight_requests_with_unavailable_when_the_connection_drops in
  let? ran := run_nth ran 17 propagates_a_close_reason_code_to_the_peer in
  let? ran := run_nth ran 18 refuses_a_result_past_the_frame_limit_without_ending_the_session in
  let? ran := run_nth ran 19 honours_the_lower_announced_frame_limit_when_sending in
  let? ran := if fx_chunked then run_nth ran 20 keeps_two_concurrent_oversized_results_from_interleaving else Ok ran in
  let? ran :=
    if fx_supports_raw then
      let? ran := run_nth ran 21 closes_with_4426_when_the_peer_sends_a_hello_it_cannot_read in
      run_nth ran 22 ignores_unknown_envelope_members
    else Ok ran in
  let expected := take 20 CONFORMANCE_CASES in
  let expected := if fx_chunked then expected ++ [nth 20 CONFORMANCE_CASES EmptyString] else expected in
  let expected :=
    if fx_supports_raw
    then expected ++ [nth 21 CONFORMANCE_CASES EmptyString] ++ [nth 22 CONFORMANCE_CASES EmptyString] else expected in
  if decide (ran = expected) then Ok ran else Err (Drifted ran expected).

(** The cases a fixture supports, each with the program it runs. *)
Definition supported : list (nat * Case unit) :=
  [(0%nat, completes_the_handshake_in_both_directions_and_exposes_the_peers);
   (1%nat, negotiates_the_effective_minor_downward);
   (2%nat, refuses_a_different_major_with_4426_on_both_sides);
   (3%nat, round_trips_a_request_and_its_result_in_both_directions);
   (4%nat, serves_concurrent_requests_in_both_directions);
   (5%nat, reports_an_unsupported_method_without_ending_the_session);
   (6%nat, carries_a_handler_chosen_error_code_and_its_details);
   (7%nat, refuses_a_request_past_the_in_flight_ceiling_and_stays_open);
   (8%nat, refuses_a_reserved_rpc_method_before_it_reaches_the_wire);
   (9%nat, refuses_rpc_discover_below_the_minor_that_defines_it);
   (10%nat, delivers_an_event_stream_and_its_end_marker_in_order);
   (11%nat, numbers_events_per_topic_when_no_stream_id_is_given);
   (12%nat, refuses_one_stream_key_past_the_local_ceiling);
   (13%nat, answers_a_protocol_ping_with_a_pong_in_both_directions);
   (14%nat, cancels_an_in_flight_request_and_reports_it_as_cancelled);
   (15%nat, times_out_a_request_locally_and_ignores_the_late_answer);
   (16%nat, fails_in_flight_requests_with_unavailable_when_the_connection_drops);
   (17%nat, propagates_a_close_reason_code_to_the_peer);
   (18%nat, refuses_a_result_past_the_frame_limit_without_ending_the_session);
   (19%nat, honours_the_lower_announced_frame_limit_when_sending)] ++
  (if fx_chunked then [(20%nat, keeps_two_concurrent_oversized_results_from_interleaving)] else []) ++
  (if fx_supports_raw
   then [(21%nat, closes_with_4426_when_the_peer_sends_a_hello_it_cannot_read); (22%nat, ignores_unknown_envelope_members)]
   else []).

Definition case_name (i : nat) : string := nth i CONFORMANCE_CASES EmptyString.

(** The cases in order, up to the first that fails. *)
Fixpoint first_failure (cs : list (nat * Case unit)) : option Failure :=
  match cs with
  | [] => None
  | (i, body) :: rest =>
      match run_case (case_name i) body fx_fresh with
      | Ok _ => first_failure rest
      | Err e => Some e
      end
  end.

Lemma result_bind_assoc {A B C E} (r : result A E) (f : A -> result B E) (g : B -> result C E) :
  result_bind (result_bind r f) g = result_bind r (fun a => result_bind (f a) g).
Proof. by destruct r. Qed.

Lemma run_nth_spec {A} ran i body (k : list string -> result A Failure) :
  result_bind (run_nth ran i body) k =
  match run_case (case_name i) body fx_fresh with Ok _ => k (ran ++ [case_name i]) | Err e => Err e end.
Proof. unfold run_nth, case_name. by destruct (run_case _ body fx_fresh). Qed.

(** One case of the runner against one case of the list. *)
Lemma run_nth_first {A} ran i body rest (k : list string -> result A Failure) (z : result A Failure) :
  k (ran ++ [case_name i]) = match first_failure rest with None => z | Some e => Err e end ->
  result_bind (run_nth ran i body) k = match first_failure ((i, body) :: rest) with None => z | Some e => Err e end.
Proof. rewrite run_nth_spec. simpl. by destruct (run_case _ body fx_fresh). Qed.

(** The runner stops at the first case that fails, runs every supported case in the order of the
    list otherwise, and its self-check never fires: for every transport, the suite passes exactly
    when each supported case does, and then reports exactly the names of those. *)
Theorem suite_runs_supported :
  run_conformance_suite =
  match first_failure supported with
  | None => Ok (map (fun c => case_name c.1) supported)
  | Some e => Err e
  end.
Proof.
  unfold run_conformance_suite, supported. cbv zeta. do 20 (cbn [app]; apply run_nth_first).
  destruct fx_chunked, fx_supports_raw; cbn [app]; try apply run_nth_first; cbn [result_bind];
    rewrite ?result_bind_assoc; repeat apply run_nth_first; reflexivity.
Qed.
End runner.
