(* ===== verification/Harness.v ===== *)
(** * Fixtures over two sessions

    What the fixtures of the repository's conformance tests have in common: two sessions spawned on
    a runtime, requests as tasks, subscriptions, [sever] and [close].  What differs is the link, an
    interface here: [InProcess] and [NdjsonFixture] give one each.

    The runtime is one fair executor: in a round it polls the request tasks, then each side's writer
    and driver; a deadline passes only when nothing else has run for [quiet_rounds].  An [await] runs
    rounds until what it waits for is there. *)

From S2P Require Import Prelude Json Wire Frame Validate Limits Serde FrameJson Ndjson NdjsonProps Port Session Dispatch Driver Handle System Origins Duplex Conformance.
Local Open Scope Z_scope.

(** A link between two sessions, or between one and a peer that is written by hand, whose second
    side is then missing. *)
Class Link (P T : Type) : Type := {
  lk_open : SessionOptions -> SessionOptions -> panics P;
  lk_open_raw : SessionOptions -> option (panics P);
  lk_world : P -> Side -> option (World T);
  lk_call : P -> Side -> Action T -> P;
  lk_writer : P -> Side -> P;
  lk_driver : P -> Side -> option Settled -> gset nat -> P;
  lk_sever : P -> P;
  lk_write : P -> string -> P;
  lk_hang_up : P -> P
}.

(** A [request_with] future: before the handshake is known, in its [select!] loop, done. *)
Inductive CallTask : Type :=
| Starting (s : Side) (method : string) (params : Value) (o : RequestOptions)
| Waiting (s : Side) (reply : Reply) (o : RequestOptions)
| Finished (outcome : result Value RemoteError).

(** The pair, whether [b]'s driver was aborted, the request tasks, the cancelled tokens, and what
    each subscription has been read. *)
Record Net (P : Type) : Type := mkNet
  { nt_pair : P;
    nt_severed : bool;
    nt_callers : list CallTask;
    nt_cancelled : gset nat;
    nt_reads : list (Side * nat) }.
Arguments mkNet {P}.
Arguments nt_pair {P} n.
Arguments nt_severed {P} n.
Arguments nt_callers {P} n.
Arguments nt_cancelled {P} n.
Arguments nt_reads {P} n.

Definition with_pair {P} (n : Net P) (x : P) : Net P := mkNet x (nt_severed n) (nt_callers n) (nt_cancelled n) (nt_reads n).
Definition with_callers {P} (n : Net P) (cs : list CallTask) : Net P :=
  mkNet (nt_pair n) (nt_severed n) cs (nt_cancelled n) (nt_reads n).

Section harness.
Context {RT : RustText} {SJ : SerdeJson} {P T : Type} {LK : Link P T}.

Definition shared_of (x : P) (s : Side) : option Shared :=
  match lk_world x s with Some w => Some (d_shared (wo_driver w)) | None => None end.

(** ** Request tasks *)

Definition poll_caller (x : P) (cancelled : gset nat) (deadline : bool) (c : CallTask) : P * CallTask :=
  match c with
  | Starting s method params o =>
      match lk_world x s with
      | None => (x, c)
      | Some w =>
          match check_method method, ready (d_shared (wo_driver w)) with
          | Err e, _ => (x, Finished (Err e))
          | Ok _, Polled (Err e) => (x, Finished (Err e))
          | Ok _, Polled (Ok remote) =>
              let reply := wo_next_reply w in
              let outcome := (request_start (d_shared (wo_driver w)) remote method params (ro_timeout o) reply).2 in
              (lk_call x s (ARequest method params (ro_timeout o)),
               match outcome with Ok _ => Waiting s reply o | Err e => Finished (Err e) end)
          | Ok _, Pending => (x, c)
          end
      end
  | Waiting s reply o =>
      match lk_world x s with
      | None => (x, c)
      | Some w =>
          match wo_futures w !! reply with
          | None => (x, c)
          | Some f =>
              let due := match ro_cancel o with Some t => bool_decide (t ∈ cancelled) | None => false end in
              let outcome := (request_poll (d_shared (wo_driver w)) (d_oneshots (wo_driver w)) f due deadline).2 in
              (lk_call x s (APoll reply due deadline), match outcome with Polled r => Finished r | Pending => c end)
          end
      end
  | Finished _ => (x, c)
  end.

Fixpoint poll_callers (x : P) (cancelled : gset nat) (deadline : bool) (cs : list CallTask) : P * list CallTask :=
  match cs with
  | [] => (x, [])
  | c :: rest =>
      let '(x, c) := poll_caller x cancelled deadline c in
      let '(x, rest) := poll_callers x cancelled deadline rest in
      (x, c :: rest)
  end.

(** ** Rounds *)

(** The first handler task that has settled. *)
Definition settled_task_of (tk : RequestTracking) : option Settled :=
  head (omap (fun tc : nat * HandlerCall =>
    match run_handler tc.2 (bool_decide (cc_cancel (hc_context tc.2) ∈ tk_cancelled tk)) with
    | Some outcome => Some (Ok (tc.1, outcome))
    | None => None
    end) (map_to_list (tk_tasks tk))).

(** A side's writer and driver run once.  Cancelled at the end, every handler settles in time. *)
Definition turn_side (s : Side) (x : P) : P :=
  let x := lk_writer x s in
  match lk_world x s with
  | None => x
  | Some w =>
      let tk := d_tracking (wo_driver w) in
      lk_driver x s (settled_task_of tk) (dom (tk_tasks tk))
  end.

Definition round (deadline : bool) (n : Net P) : Net P :=
  let '(x, cs) := poll_callers (nt_pair n) (nt_cancelled n) deadline (nt_callers n) in
  let x := turn_side SideA x in
  let x := if nt_severed n then x else turn_side SideB x in
  with_callers (with_pair n x) cs.

(** Rounds until [p] answers. *)
Fixpoint until {B} (p : Net P -> option B) (fuel : nat) (n : Net P) : Net P * option B :=
  match p n with
  | Some b => (n, Some b)
  | None => match fuel with O => (n, None) | S fuel => until p fuel (round false n) end
  end.

(** Enough rounds for every case: the longest exchange is a cancel and its answer. *)
Definition quiet_rounds : nat := 12.

Definition await {B} (p : Net P -> option B) (n : Net P) : Net P * option B := until p quiet_rounds n.

(** With nothing left to run, the deadlines pass. *)
Definition await_or_deadline {B} (p : Net P -> option B) (n : Net P) : Net P * option B :=
  match await p n with
  | (n, None) => until p quiet_rounds (round true n)
  | r => r
  end.

(** ** The operations of a fixture *)

Definition polled {A} (p : poll A) : option A := match p with Polled a => Some a | Pending => None end.
Definition caller_outcome (task : nat) (n : Net P) : option (result Value RemoteError) :=
  match nt_callers n !! task with Some (Finished r) => Some r | _ => None end.

(** What is at a subscription's reading position; [Some None] is the end. *)
Definition next_item {A} (chs : gmap nat (channel A)) (s : Side) (sub : nat) (reads : list (Side * nat)) : option (option A) :=
  match chs !! sub with
  | None => None
  | Some ch =>
      match ch_queue ch !! length (filter (fun r => r = (s, sub)) reads) with
      | Some item => Some (Some item)
      | None => if ch_senders ch then None else Some None
      end
  end.

(** [EventStream::recv] and [PongStream::recv]. *)
Definition recv_item {A} (chs : Shared -> gmap nat (channel A)) (s : Side) (sub : nat) (n : Net P) : Net P * option (option A) :=
  let '(n, item) := await (fun n => sh ← shared_of (nt_pair n) s; next_item (chs sh) s sub (nt_reads n)) n in
  (mkNet (nt_pair n) (nt_severed n) (nt_callers n) (nt_cancelled n) (nt_reads n ++ [(s, sub)]), item).

Definition sever (n : Net P) : Net P := mkNet (lk_sever (nt_pair n)) true (nt_callers n) (nt_cancelled n) (nt_reads n).

(** A driver has returned, or was taken by [sever], or is not there. *)
Definition driver_done (n : Net P) (s : Side) : bool :=
  match lk_world (nt_pair n) s with
  | None => true
  | Some w => bool_decide (is_Some (wo_closure w)) || (bool_decide (s = SideB) && nt_severed n)
  end.

(** [close]: both told, a hand-written peer dropped, both drivers awaited. *)
Definition close_pair (n : Net P) : Net P * option unit :=
  let x := lk_call (nt_pair n) SideA (AClose close_codes.RELEASED None) in
  let x := lk_call x SideB (AClose close_codes.RELEASED None) in
  await (fun n => if driver_done n SideA && driver_done n SideB then Some tt else None) (with_pair n (lk_hang_up x)).

Definition on_net {B} (n : option (Net P)) (f : Net P -> Net P * option B) : option (Net P) * option B :=
  match n with
  | Some n => let '(n, b) := f n in (Some n, b)
  | None => (None, None)
  end.

Definition call_on (n : Net P) (s : Side) (a : Action T) : Net P := with_pair n (lk_call (nt_pair n) s a).

(** Something a handle computes from the shared state. *)
Definition reads_shared {B} (s : Side) (f : Shared -> B) (n : Net P) : option B := f <$> shared_of (nt_pair n) s.

Definition opened (r : panics P) : option (Net P) * option unit :=
  match r with
  | Ok x => (Some (mkNet x false [] ∅ []), Some tt)
  | Err _ => (None, None)
  end.

Definition fixture_do (B : Type) (op : Op B) (n : option (Net P)) : option (Net P) * option B :=
  match op in Op B return option (Net P) * option B with
  | OConnect a b => opened (lk_open a b)
  | OConnectRaw a => match lk_open_raw a with Some r => opened r | None => (n, None) end
  | OWrite line => on_net n (fun n => (with_pair n (lk_write (nt_pair n) line), Some tt))
  | OReady s => on_net n (await (fun n => reads_shared s ready n ≫= polled))
  | OState s => on_net n (fun n => (n, reads_shared s sh_state n))
  | OClosed s => on_net n (await (fun n => reads_shared s closed n ≫= polled))
  | OClosure s => on_net n (fun n => (n, reads_shared s sh_closure n))
  | OSpawn s method params o =>
      on_net n (fun n => (with_callers n (nt_callers n ++ [Starting s method params o]), Some (length (nt_callers n))))
  | OJoin task => on_net n (await_or_deadline (caller_outcome task))
  | OCancel token =>
      on_net n (fun n => (mkNet (nt_pair n) (nt_severed n) (nt_callers n) ({[token]} ∪ nt_cancelled n) (nt_reads n), Some tt))
  | OSettled => on_net n (fun n => (Nat.iter quiet_rounds (round false) n, Some tt))
  | OEmit s e => on_net n (fun n => (call_on n s (AEmit e), reads_shared s (fun sh => (emit sh e).2) n))
  | OEvents s => on_net n (fun n => (call_on n s ASubscribeEvents, reads_shared s (fun sh => (subscribe_events sh).2) n))
  | ORecvEvent s sub => on_net n (recv_item sh_event_channels s sub)
  | OPongs s => on_net n (fun n => (call_on n s ASubscribePongs, reads_shared s (fun sh => (subscribe_pongs sh).2) n))
  | ORecvPong s sub => on_net n (recv_item sh_pong_channels s sub)
  | OPing s => on_net n (fun n => (call_on n s APing, Some tt))
  | OCloseNow s code reason => on_net n (fun n => (call_on n s (AClose code reason), Some tt))
  | OSever => on_net n (fun n => (sever n, Some tt))
  | OClosePair => on_net n close_pair
  end.

(** A transport's fixture. *)
Definition link_fixture (chunked : bool) : Fixture :=
  {| fx_conn := option (Net P); fx_fresh := None; fx_chunked := chunked;
     fx_supports_raw := match lk_open_raw (conformance_options conformance_a) with Some _ => true | None => false end;
     fx_do := fixture_do |}.

Lemma run_asks {FX : Fixture} name {B} (op : Op B) k conn :
  run_case name (Asks op k) conn =
  let '(conn, answer) := fx_do op conn in
  match answer with Some b => run_case name (k b) conn | None => Err (TimedOut name) end.
Proof. done. Qed.

Lemma until_round {B} (p : Net P -> option B) fuel n : p n = None -> until p (S fuel) n = until p fuel (round false n).
Proof. intros H. simpl. by rewrite H. Qed.
End harness.
