(* ===== verification/BulkCase.v ===== *)
(** * The case of a result past the default limit

    The one case of the suite that cannot simply be run: its handler's result has more than 2^24
    bytes.  It is never built here: the handler's value is a variable of which only that it does not
    fit is known, and a session that settles such a value does what one that settles a refusal does.
    For any link, the case passes once the rounds around that one turn do. *)

From S2P Require Import Prelude Json Wire Frame Validate Limits Serde JsonText FrameJson Ndjson NdjsonProps Port Session Dispatch DispatchProps Driver Handle System Lifecycle Outbound Responses Origins Duplex Conformance Harness.
Local Open Scope Z_scope.

Definition past_the_limit : string := Eval vm_compute in case_name 18.

Definition bulk_params : Value := VObject [("bytes", from_u64 (DEFAULT_MAX_FRAME_BYTES + 1))].
Definition bulk_options : RequestOptions := {| ro_cancel := None; ro_timeout := Some (from_secs 30) |}.
Definition bulk_what : string := "The result of " +:+ quoted "test.bulk".

(** What follows the refused call. *)
Definition after_bulk (r : result Value RemoteError) : Case unit :=
  case_bind (expect_err r "the result exceeds the frame limit") (fun error =>
  case_bind (assert_eq (re_code error) codes.FRAME_TOO_LARGE) (fun _ =>
  case_bind (request SideA "test.echo" (VObject [("ok", VBool true)])) (fun r =>
  case_bind (expect r "the session is still open") (fun ok =>
  case_bind (assert_eq ok (VObject [("ok", VBool true)])) (fun _ => close))))).

Lemma past_the_limit_shape :
  refuses_a_result_past_the_frame_limit_without_ending_the_session =
  Asks (OConnect (conformance_options conformance_a) (conformance_options conformance_b)) (fun _ =>
  Asks (OSpawn SideA "test.bulk" bulk_params bulk_options) (fun task => Asks (OJoin task) after_bulk)).
Proof. reflexivity. Qed.

Definition bulk_size : Z := DEFAULT_MAX_FRAME_BYTES + 47.
Definition bulk_refusal : RemoteError :=
  with_detail
    (with_detail
       (remote_error codes.FRAME_TOO_LARGE
          (bulk_what +:+ " encodes to " +:+ show_Z bulk_size +:+ " bytes; the session limit is " +:+
           show_Z DEFAULT_MAX_FRAME_BYTES +:+ " bytes."))
       "bytes" (from_u64 bulk_size))
    "limit" (from_u64 DEFAULT_MAX_FRAME_BYTES).

(** A blob of [n] bytes prints as [n] bytes between its quotes. *)
Lemma x_repeat_text n : 0 <= n -> len (escape_all (to_bytes (x_repeat n))) = n.
Proof.
  intros Hn. unfold x_repeat. rewrite <- (Z2N.id n Hn) at 2. generalize (Z.to_N n) as m. clear.
  induction m as [|m IH] using N.peano_ind; [done|]. rewrite N.iter_succ, N2Z.inj_succ.
  unfold escape_all, len in *. simpl. lia.
Qed.

Definition blob (n : Z) : Value := VObject [("blob", VString (x_repeat n))].

Lemma blob_frame_size n :
  0 <= n -> len (print_value (frame_to_json (FRes {| res_id := "r-1"; res_result := blob n |}))) = n + 46.
Proof.
  intros Hn. pose proof (x_repeat_text n Hn) as Hx. unfold blob. revert Hx. generalize (x_repeat n) as s. intros s.
  unfold len. cbn. unfold print_string. do 6 (rewrite ?length_app; cbn).
  repeat match goal with |- context [length (escape ?c)] => change (length (escape c)) with 1%nat end. lia.
Qed.

Lemma blob_refused s :
  send_limit_bytes s = DEFAULT_MAX_FRAME_BYTES ->
  assert_fits s (FRes {| res_id := "r-1"; res_result := blob (DEFAULT_MAX_FRAME_BYTES + 1) |}) bulk_what = Err bulk_refusal.
Proof.
  intros Hs. unfold assert_fits, encode_frame_bytes. rewrite Hs.
  change (checked_at_least _ _ _) with (@Ok Z string DEFAULT_MAX_FRAME_BYTES).
  change (validate _) with (@Ok unit ValidationError tt).
  cbn [to_vec json_serde result_bind map_err]. rewrite blob_frame_size by done.
  change (DEFAULT_MAX_FRAME_BYTES <? _) with true. cbn [kind too_large codec_error].
  rewrite bool_decide_true by done. reflexivity.
Qed.

(** The handler's task, as the scheduler sees it. *)
Lemma bulk_settles tk c :
  tk_tasks tk = {[0%nat := c]} -> hc_handler c = bulk_id -> hc_params c = bulk_params ->
  settled_task_of tk = Some (Ok (0%nat, Ok (blob (DEFAULT_MAX_FRAME_BYTES + 1)))).
Proof.
  intros Ht Hh Hp. unfold settled_task_of. rewrite Ht, map_to_list_singleton. cbn [omap list_omap head fst snd].
  unfold run_handler. rewrite Hh, Hp. reflexivity.
Qed.

(** A settled result that does not fit leaves a session as a settled refusal does. *)
Lemma settled_refused {T} (d : Driver T) t id request v e :
  tk_by_task_id (d_tracking d) !! t = Some id -> tk_active (d_tracking d) !! id = Some request ->
  assert_fits (d_shared d) (FRes {| res_id := id; res_result := v |}) ("The result of " +:+ quoted (ar_method request)) = Err e ->
  on_branch d (BSettled (Ok (t, Ok v))) = on_branch d (BSettled (Ok (t, Err e))).
Proof.
  intros Ht Hid Hf. cbn [on_branch]. unfold on_handler_settled. simpl. rewrite Ht. simpl. rewrite Hid. simpl.
  unfold respond_result. change (assert_fits (set_in_flight ?s _)) with (assert_fits s). by rewrite Hf.
Qed.

Lemma act_same_branch {T} {PT : PortTx T} (w : World T) wk wk' settle b b' :
  taken w (ALoop wk settle) = Some b -> taken w (ALoop wk' settle) = Some b' ->
  on_branch (arm_liveness (wo_driver w)) b = on_branch (arm_liveness (wo_driver w)) b' ->
  branch_routes b = branch_routes b' -> act w (ALoop wk settle) = act w (ALoop wk' settle).
Proof.
  intros Hb Hb' Hs Hr. destruct (taken_branch _ _ _ Hb) as (? & ? & [= <- <-] & _ & _ & H).
  destruct (taken_branch _ _ _ Hb') as (? & ? & [= <- <-] & _ & _ & H'). rewrite Hs in H.
  destruct (on_branch _ b') as [d' t]. by rewrite H, H', Hr.
Qed.

(** ** The case over any link *)

Section bulk.
Context {P T : Type} {LK : Link P T} (chunked : bool).

Lemma until_iter {B} (p : Net P -> option B) k fuel : forall n,
  (forall j, (j < k)%nat -> p (Nat.iter j (round false) n) = None) ->
  until p (k + fuel) n = until p fuel (Nat.iter k (round false) n).
Proof.
  induction k as [|k IH]; intros n Hp; [done|]. cbn [Nat.add]. rewrite until_round by (apply (Hp 0%nat); lia).
  rewrite IH; [by rewrite Nat.iter_succ_r|]. intros j Hj. rewrite <- Nat.iter_succ_r. apply Hp. lia.
Qed.

(** The connection after the connect and the spawned request. *)
Definition asking : option (Net P) :=
  let conn := (fixture_do _ (OConnect (conformance_options conformance_a) (conformance_options conformance_b)) None).1 in
  (fixture_do _ (OSpawn SideA "test.bulk" bulk_params bulk_options) conn).1.

(** [k] rounds bring the request to the handler; the next, to [n'], sends the refusal. *)
Lemma past_the_limit_generic (k : nat) (n n' : Net P) :
  (k < quiet_rounds)%nat ->
  (let conn := fixture_do _ (OConnect (conformance_options conformance_a) (conformance_options conformance_b)) None in
   let task := fixture_do _ (OSpawn SideA "test.bulk" bulk_params bulk_options) conn.1 in
   (conn.2, task.2, option_map (Nat.iter k (round false)) task.1,
    map (fun j => option_map (fun n => caller_outcome 0 (Nat.iter j (round false) n)) task.1) (seq 0 (S k)))) =
  (Some tt, Some 0%nat, Some n, map (fun _ => Some None) (seq 0 (S k))) ->
  round false n = n' ->
  (let r := until (caller_outcome 0) (quiet_rounds - S k) n' in
   (r.2, @run_case (link_fixture chunked) past_the_limit (after_bulk (Err bulk_refusal)) (Some r.1)) =
   (Some (Err bulk_refusal), Ok tt)) ->
  @run_case (link_fixture chunked) past_the_limit refuses_a_result_past_the_frame_limit_without_ending_the_session None = Ok tt.
Proof.
  intros Hk Ha Hr Hrest. cbv zeta in Ha, Hrest. rewrite past_the_limit_shape, run_asks.
  change (@fx_do (link_fixture chunked)) with (@fixture_do _ _ P T LK).
  destruct (fixture_do _ (OConnect _ _) None) as [c0 r0]. cbn [fst snd] in Ha.
  destruct (fixture_do _ (OSpawn _ _ _ _) c0) as [c1 r1] eqn:E1. cbn [fst snd] in Ha.
  apply pair_equal_spec in Ha as [Ha Hpend]. apply pair_equal_spec in Ha as [Ha Hs].
  apply pair_equal_spec in Ha as [-> ->]. rewrite run_asks.
  change (@fx_do (link_fixture chunked)) with (@fixture_do _ _ P T LK). rewrite E1.
  destruct c1 as [n0|]; [|done]. cbn [option_map] in *. injection Hs as Hs.
  rewrite run_asks. change (@fx_do (link_fixture chunked)) with (@fixture_do _ _ P T LK).
  cbn [fixture_do on_net]. unfold await_or_deadline, await.
  replace quiet_rounds with (S k + (quiet_rounds - S k))%nat by lia. rewrite until_iter; cycle 1.
  { intros j Hj. assert (Hl : map (fun j => Some (caller_outcome 0 (Nat.iter j (round false) n0))) (seq 0 (S k)) !! j =
      map (fun _ => Some (@None (result Value RemoteError))) (seq 0 (S k)) !! j) by (by rewrite Hpend).
    rewrite !list_lookup_fmap, lookup_seq_lt in Hl by lia. simpl in Hl. by injection Hl. }
  rewrite Nat.iter_succ, Hs, Hr. destruct (until _ _ n') as [m r]. cbn [fst snd] in Hrest.
  apply pair_equal_spec in Hrest as [-> Hrest]. exact Hrest.
Qed.
End bulk.
