(* ===== verification/InProcess.v ===== *)
(** * The in-process fixture

    [tests/conformance.rs]: the fixture the crate ships, over [port_pair_with], and the suite run
    against it.  The link is the [Duplex], so what is proved of two sessions holds in every case. *)

From S2P Require Import Prelude Json Wire Frame Validate Limits Serde JsonText FrameJson Ndjson NdjsonProps Port Session Dispatch DispatchProps Driver Handle System Lifecycle Outbound Responses Origins Duplex Conformance Harness BulkCase.
Local Open Scope Z_scope.

(** [driver_b.abort()]: the driver is dropped where it stands, with its calls, its handler tasks and
    both halves of its port; nothing is torn down. *)
Definition abort_driver {T} (d : Driver T) : Driver T :=
  drop_driver (set_pending d (∅, map_fold (fun _ p os => <[pr_reply p := ODropped]> os) (d_oneshots d) (d_pending d))).

Definition abort_world {T} (w : World T) : World T :=
  mkWorld (abort_driver (wo_driver w)) (wo_closure w) (wo_futures w) (wo_next_reply w) (wo_routed w) (wo_enqueued w) (wo_commands w).

Definition abort (e : Endpoint) : Endpoint :=
  mkEndpoint (mkLogged (abort_world (ep_world e)) (lg_heard (ep_log e)) (lg_settled (ep_log e))) (ep_terminal e).

Definition sever_pair (x : Duplex) : Duplex :=
  let b := abort (dx_b x) in
  mkDuplex (set_channel (dx_a x) (drop_receiver (ep_channel (dx_a x)))) (set_channel b (drop_senders (ep_channel b))).

Definition duplex_link (validate_frames : bool) : Link Duplex MemoryPortTx :=
  {| lk_open := duplex_open {| mo_max_frame_bytes := None; mo_validate_frames := validate_frames |};
     lk_open_raw _ := None;
     lk_world x s := Some (ep_world (end_of s x));
     lk_call x s a := dx_act x (DCall s a);
     lk_writer x s := dx_act x (DWriter s);
     lk_driver x s settled settle := dx_act x (DLoop s false false settled settle);
     lk_sever := sever_pair;
     lk_write x _ := x;
     lk_hang_up x := x |}.

Definition InProcessFixture (validate_frames : bool) : Fixture := @link_fixture _ _ Duplex MemoryPortTx (duplex_link validate_frames) false.

(** ** The case of a result past the default limit *)

(** A round up to the turn of [b]'s driver. *)
Definition before_turn (validate_frames : bool) (n : Net Duplex) : Duplex * list CallTask :=
  let '(x, cs) := poll_callers (LK := duplex_link validate_frames) (nt_pair n) (nt_cancelled n) false (nt_callers n) in
  (dx_act (turn_side (LK := duplex_link validate_frames) SideA x) (DWriter SideB), cs).

(** The same turn with the refusal for an outcome, and the value in the log. *)
Definition refused_turn (x : Duplex) (v : Value) : Duplex :=
  let y := dx_act x (DLoop SideB false false (Some (Ok (0%nat, Err bulk_refusal))) {[0%nat]}) in
  let l := ep_log (dx_b y) in
  mkDuplex (dx_a y)
    (mkEndpoint (mkLogged (lg_world l) (lg_heard l) (map (fun co => (co.1, Ok v)) (lg_settled l))) (ep_terminal (dx_b y))).

(** A turn in which a handler settles and the session goes on. *)
Lemma settling_turn near far st settle rx item :
  memory_recv {| mr_receiver := ep_channel far; mr_terminal := ep_terminal near |} = (rx, item) ->
  let a := ALoop {| wk_sleep := false; wk_tick := false; wk_settled := Some st; wk_inbound := item |} settle in
  taken (ep_world near) a = Some (BSettled st) -> wo_closure (act (ep_world near) a) = None ->
  loop_step near far false false (Some st) settle = (ep_act near a, far).
Proof.
  intros Hr a Ht Hc. unfold loop_step. rewrite Hr. fold a. rewrite Ht. unfold hang_up, ep_world in *. simpl in *. by rewrite Hc.
Qed.

Lemma bulk_turn x v rx item c request :
  let w := ep_world (dx_b x) in
  let tk := d_tracking (arm_liveness (wo_driver w)) in
  let a o := ALoop {| wk_sleep := false; wk_tick := false; wk_settled := Some (Ok (0%nat, o)); wk_inbound := item |} {[0%nat]} in
  memory_recv {| mr_receiver := ep_channel (dx_a x); mr_terminal := ep_terminal (dx_b x) |} = (rx, item) ->
  (forall o, taken w (a o) = Some (BSettled (Ok (0%nat, o)))) ->
  tk_by_task_id tk !! 0%nat = Some "r-1" -> tk_active tk !! "r-1" = Some request -> tk_tasks tk !! 0%nat = Some c ->
  assert_fits (d_shared (arm_liveness (wo_driver w))) (FRes {| res_id := "r-1"; res_result := v |})
    ("The result of " +:+ quoted (ar_method request)) = Err bulk_refusal ->
  wo_closure (act w (a (Err bulk_refusal))) = None -> lg_settled (ep_log (dx_b x)) = [] ->
  dx_act x (DLoop SideB false false (Some (Ok (0%nat, Ok v))) {[0%nat]}) = refused_turn x v.
Proof.
  intros w tk a Hr Ht Hby Hact Htask Hf Hcl Hlog.
  assert (Ha : act w (a (Ok v)) = act w (a (Err bulk_refusal))).
  { eapply act_same_branch; [apply Ht|apply Ht|by eapply settled_refused|done]. }
  assert (Hl : forall o, log_act (ep_log (dx_b x)) (a o) =
    mkLogged (act w (a o)) (lg_heard (ep_log (dx_b x))) [(c, settled_outcome (Ok (0%nat, o)))]).
  { intros o. unfold log_act. destruct (taken_logs _ _ _ (Ht o)) as [Hh Hs]. unfold w, ep_world in *.
    rewrite Hh, Hs, Hlog. simpl. fold tk. rewrite app_nil_r. by rewrite Htask. }
  assert (Hstep : forall o : result Value RemoteError, wo_closure (act w (a o)) = None ->
    loop_step (dx_b x) (dx_a x) false false (Some (Ok (0%nat, o))) {[0%nat]} = (ep_act (dx_b x) (a o), dx_a x)).
  { intros o Ho. exact (settling_turn _ _ _ _ _ _ Hr (Ht o) Ho). }
  unfold refused_turn, dx_act, on_side. cbv beta iota.
  rewrite (Hstep (Ok v)), (Hstep (Err bulk_refusal)) by (by rewrite ?Ha).
  unfold ep_act. rewrite (Hl (Ok v)), (Hl (Err bulk_refusal)), Ha. done.
Qed.

(** The round from [n] in which the refusal is sent instead of the result. *)
Lemma refused_round validate_frames n x cs c request rx item :
  before_turn validate_frames n = (x, cs) -> nt_severed n = false ->
  let w := ep_world (dx_b x) in
  let a o := ALoop {| wk_sleep := false; wk_tick := false; wk_settled := Some (Ok (0%nat, o)); wk_inbound := item |} {[0%nat]} in
  arm_liveness (wo_driver w) = wo_driver w ->
  tk_tasks (d_tracking (wo_driver w)) = {[0%nat := c]} -> hc_handler c = bulk_id -> hc_params c = bulk_params ->
  memory_recv {| mr_receiver := ep_channel (dx_a x); mr_terminal := ep_terminal (dx_b x) |} = (rx, item) ->
  (forall o, taken w (a o) = Some (BSettled (Ok (0%nat, o)))) ->
  tk_by_task_id (d_tracking (wo_driver w)) !! 0%nat = Some "r-1" ->
  tk_active (d_tracking (wo_driver w)) !! "r-1" = Some request -> ar_method request = "test.bulk" ->
  send_limit_bytes (d_shared (wo_driver w)) = DEFAULT_MAX_FRAME_BYTES ->
  wo_closure (act w (a (Err bulk_refusal))) = None -> lg_settled (ep_log (dx_b x)) = [] ->
  round (LK := duplex_link validate_frames) false n = with_callers (with_pair n (refused_turn x (blob (DEFAULT_MAX_FRAME_BYTES + 1)))) cs.
Proof.
  intros Hb Hsev w a Harm Htk Hh Hp Hr Ht Hby Hact Hm Hlim Hcl Hlog. unfold round, before_turn in *.
  destruct (poll_callers _ _ _ _) as [x0 cs0]. apply pair_equal_spec in Hb as [Hx <-]. rewrite Hsev.
  unfold turn_side at 1. cbn [lk_writer lk_world lk_driver duplex_link]. cbv zeta. rewrite Hx.
  change (d_tracking (wo_driver (ep_world (end_of SideB x)))) with (d_tracking (wo_driver w)).
  rewrite (bulk_settles _ c Htk Hh Hp), Htk, dom_singleton_L.
  pose proof (bulk_turn x (blob (DEFAULT_MAX_FRAME_BYTES + 1)) rx item c request) as H.
  cbv zeta in H. fold w in H. rewrite Harm in H. rewrite H; try done; [by rewrite Htk, lookup_singleton_eq|].
  rewrite Hm. by apply blob_refused.
Qed.

Definition bulk_call : HandlerCall :=
  {| hc_handler := bulk_id; hc_params := bulk_params;
     hc_context :=
       {| cc_id := "r-1"; cc_method := "test.bulk"; cc_cancel := 0%nat;
          cc_remote := {| rp_peer := conformance_a; rp_protocol := PROTOCOL_VERSION; rp_capabilities := [];
                          rp_limits := None; rp_effective_minor := PROTOCOL_MINOR |} |} |}.


(** The connection when the request is at the handler, and in the round that follows. *)
Definition serving (validate_frames : bool) : option (Net Duplex) :=
  option_map (Nat.iter 3 (round (LK := duplex_link validate_frames) false)) (asking (LK := duplex_link validate_frames)).
Definition served (validate_frames : bool) : option (Net Duplex) :=
  Eval vm_compute in if validate_frames then serving true else serving false.
Definition at_turn (validate_frames : bool) : option (Duplex * list CallTask) :=
  Eval vm_compute in if validate_frames then option_map (before_turn true) (serving true) else option_map (before_turn false) (serving false).

Lemma served_round validate_frames :
  match served validate_frames, at_turn validate_frames with
  | Some n, Some (x, cs) =>
      round (LK := duplex_link validate_frames) false n =
      with_callers (with_pair n (refused_turn x (blob (DEFAULT_MAX_FRAME_BYTES + 1)))) cs
  | _, _ => False
  end.
Proof.
  destruct validate_frames; unfold served, at_turn; cbv iota;
    (eapply (refused_round _ _ _ _ bulk_call {| ar_cancel := 0%nat; ar_method := "test.bulk" |});
      [..|intros o|  | | | | |]; vm_compute; reflexivity).
Qed.

(** The end of the case, for whatever value was refused. *)
Lemma served_rest validate_frames v :
  match served validate_frames, at_turn validate_frames with
  | Some n, Some (x, cs) =>
      let r := until (LK := duplex_link validate_frames) (caller_outcome 0) 8 (with_callers (with_pair n (refused_turn x v)) cs) in
      (r.2, @run_case (InProcessFixture validate_frames) past_the_limit (after_bulk (Err bulk_refusal)) (Some r.1)) =
      (Some (Err bulk_refusal), Ok tt)
  | _, _ => False
  end.
Proof. destruct validate_frames; vm_compute; reflexivity. Qed.

Lemma past_the_limit_passes validate_frames :
  @run_case (InProcessFixture validate_frames) past_the_limit
    refuses_a_result_past_the_frame_limit_without_ending_the_session None = Ok tt.
Proof.
  pose proof (served_round validate_frames) as Hr. pose proof (served_rest validate_frames (blob (DEFAULT_MAX_FRAME_BYTES + 1))) as Hd.
  destruct (served validate_frames) as [n|] eqn:En; [|done]. destruct (at_turn validate_frames) as [[x cs]|]; [|done].
  eapply (past_the_limit_generic (LK := duplex_link validate_frames) false 3 n); [vm_compute; lia| |exact Hr|exact Hd].
  rewrite <- En. clear. destruct validate_frames; vm_compute; reflexivity.
Qed.

(** ** The suite *)

(** Every other supported case is short enough to run as it is. *)
Definition brief (FX : Fixture) : list (nat * Case unit) := take 18 supported ++ drop 19 supported.

Lemma brief_cases_pass validate_frames :
  Forall (fun c => @run_case (InProcessFixture validate_frames) (case_name c.1) c.2 None = Ok tt)
    (brief (InProcessFixture validate_frames)).
Proof. destruct validate_frames; repeat (apply Forall_cons_2; [vm_compute; reflexivity|]); apply Forall_nil_2. Qed.

(** Conformance, a computation.  On the round-robin schedule of [Harness.v] the in-process transport
    passes the project's own conformance suite in both of its modes, frames cloned and frames encoded,
    validated and decoded: all twenty cases it supports resolve, none panics, and the runner reports
    exactly their names.  It is evidence that the definitions behave as the program does where its
    authors looked; the theorems over every schedule are elsewhere. *)
Theorem in_process_conforms (validate_frames : bool) :
  @run_conformance_suite (InProcessFixture validate_frames) = Ok (take 20 CONFORMANCE_CASES).
Proof.
  pose proof (brief_cases_pass validate_frames) as H. unfold brief, supported in H.
  cbn [fx_chunked fx_supports_raw InProcessFixture take drop app] in H.
  repeat (apply Forall_cons in H as [? H]); cbn [fst snd] in *.
  pose proof (past_the_limit_passes validate_frames).
  unfold run_conformance_suite. cbv zeta. change past_the_limit with (case_name 18) in *.
  do 20 (rewrite run_nth_spec; change (@fx_fresh (InProcessFixture validate_frames)) with (@None (Net Duplex));
         match goal with H : run_case _ ?c None = _ |- context [run_case _ ?c None] => rewrite H; clear H end).
  reflexivity.
Qed.
