(* ===== verification/NdjsonFixture.v ===== *)
(** * The NDJSON fixture

    [tests/transport_ndjson.rs]: two sessions over NDJSON ports cross-wired through pipes, and one
    session whose peer writes lines by hand.  Frames cross as the bytes of the codec, so a case goes
    through the session, the port, the encoder, the reads of the other end, the line decoder, the
    JSON reader and the other session. *)

From S2P Require Import Prelude Json Wire Frame Validate Limits Serde JsonText FrameJson Ndjson NdjsonProps Port NdjsonPort Session Dispatch DispatchProps Driver Handle System Lifecycle Outbound Responses Origins Duplex Conformance Harness BulkCase InProcess.
Local Open Scope Z_scope.

(** One direction of a pipe, held by its writer: what is not yet read, whether the writer ended and
    the reader knows, and whether the reader is gone. *)
Record Half : Type := mkHalf { hf_out : bytes; hf_ended : bool; hf_told : bool; hf_peer_gone : bool }.

Global Instance half_write : AsyncWrite Half :=
  {| aw_write h b :=
       if hf_ended h || hf_peer_gone h then (h, IoFailed)
       else (mkHalf (hf_out h ++ b) (hf_ended h) (hf_told h) (hf_peer_gone h), IoDone);
     aw_end h := mkHalf (hf_out h) true (hf_told h) (hf_peer_gone h) |}.

Abbreviation PipeWorld := (World (NdjsonPort Half)).

(** [b] is missing when the peer is written by hand. *)
Record PipePair : Type := mkPipePair { pp_a : PipeWorld; pp_b : option PipeWorld }.

Definition world_port (w : PipeWorld) : NdjsonPort Half := w_tx (d_writer (wo_driver w)).
Definition set_port (w : PipeWorld) (p : NdjsonPort Half) : PipeWorld := act w (APort p).
Definition world_half (w : PipeWorld) : Half := ws_writer (np_writer (world_port w)).
Definition set_half (w : PipeWorld) (h : Half) : PipeWorld :=
  let ws := np_writer (world_port w) in
  set_port w (set_np_writer (world_port w) (mkWriterShared h (ws_open ws) (ws_writable ws) (ws_ending ws))).
Definition is_closed (w : PipeWorld) : bool := bool_decide (is_Some (wo_closure w)).

(** ** Bytes from one end to the other *)

Definition READ_CHUNK_BYTES : nat := Z.to_nat (64 * 1024).

(** Reads of at most [READ_CHUNK_BYTES]. *)
Fixpoint reads_of (fuel : nat) (b : bytes) : list ReadOutcome :=
  match fuel, b with
  | O, _ | _, [] => []
  | S fuel, _ => ReadOk (take READ_CHUNK_BYTES b) :: reads_of fuel (drop READ_CHUNK_BYTES b)
  end.

Definition arriving (w : PipeWorld) (reads : list ReadOutcome) : PipeWorld :=
  set_port w (set_np_reader (world_port w) (np_reader (world_port w) ++ reads)).

(** What [near] wrote becomes readable at [far]; an end whose driver returned has dropped both its
    halves. *)
Definition pump (near far : PipeWorld) : PipeWorld * PipeWorld :=
  let h := world_half near in
  let h := if is_closed near then aw_end h else h in
  let finished := hf_ended h && negb (hf_told h) in
  let reads := reads_of (S (length (hf_out h))) (hf_out h) ++ (if finished then [ReadOk []] else []) in
  let h := mkHalf [] (hf_ended h) (hf_told h || finished) (hf_peer_gone h || is_closed far) in
  (set_half near h, arriving far reads).

Definition pump_both (x : PipePair) : PipePair :=
  match pp_b x with
  | None => x
  | Some b =>
      let '(a, b) := pump (pp_a x) b in
      let '(b, a) := pump b a in
      mkPipePair a (Some b)
  end.

(** ** The operations of the link *)

(** [NdjsonPort::new] over a fresh pipe, and a session on it. *)
Definition pipe_session (o : SessionOptions) : panics PipeWorld :=
  let? p := ndjson_port_new [] (mkHalf [] false false false) DEFAULT_MAX_FRAME_BYTES in
  world_open (Some DEFAULT_MAX_FRAME_BYTES) p o ∅.

Definition pipe_connect_pair (a b : SessionOptions) : panics PipePair :=
  let? a := pipe_session a in
  let? b := pipe_session b in
  Ok (pump_both (mkPipePair a (Some b))).

Definition pipe_connect_raw (a : SessionOptions) : panics PipePair :=
  let? a := pipe_session a in
  Ok (mkPipePair a None).

Definition pipe_side (x : PipePair) (s : Side) : option PipeWorld :=
  match s with SideA => Some (pp_a x) | SideB => pp_b x end.

Definition on_pipe_side (x : PipePair) (s : Side) (f : PipeWorld -> PipeWorld) : PipePair :=
  pump_both
    match s with
    | SideA => mkPipePair (f (pp_a x)) (pp_b x)
    | SideB => mkPipePair (pp_a x) (f <$> pp_b x)
    end.

(** A poll of the driver: the receive half is polled only when no other branch is ready, and what
    it read stays read. *)
Definition drive (settled : option Settled) (settle : gset nat) (w : PipeWorld) : PipeWorld :=
  let turn item := ALoop {| wk_sleep := false; wk_tick := false; wk_settled := settled; wk_inbound := item |} settle in
  if is_closed w then w
  else match taken w (turn Pending) with
  | Some _ => act w (turn Pending)
  | None =>
      let '(p, item) := ndjson_recv (world_port w) in
      act (set_port w p) (turn item)
  end.

(** [driver_b.abort()] drops [b]'s half without a farewell. *)
Definition pipe_sever (x : PipePair) : PipePair :=
  match pp_b x with
  | None => x
  | Some b =>
      let b := abort_world b in
      let a := pp_a x in
      let ha := world_half a in
      pump_both (mkPipePair (set_half a (mkHalf (hf_out ha) (hf_ended ha) (hf_told ha) true)) (Some (set_half b (aw_end (world_half b)))))
  end.

(** [RawPipe::write] and the [peer.take()] of [RawPipe::close]. *)
Definition raw_write (x : PipePair) (line : string) : PipePair :=
  mkPipePair (arriving (pp_a x) [ReadOk (to_bytes line); ReadOk [newline]]) (pp_b x).

Definition raw_hang_up (x : PipePair) : PipePair :=
  match pp_b x with
  | Some _ => x
  | None =>
      let a := arriving (pp_a x) [ReadOk []] in
      let h := world_half a in
      mkPipePair (set_half a (mkHalf (hf_out h) (hf_ended h) (hf_told h) true)) None
  end.

Definition ndjson_link : Link PipePair (NdjsonPort Half) :=
  {| lk_open := pipe_connect_pair;
     lk_open_raw a := Some (pipe_connect_raw a);
     lk_world := pipe_side;
     lk_call x s a := on_pipe_side x s (fun w => act w a);
     lk_writer x s := on_pipe_side x s (fun w => act w (AWriter false));
     lk_driver x s settled settle := on_pipe_side x s (drive settled settle);
     lk_sever := pipe_sever;
     lk_write := raw_write;
     lk_hang_up := raw_hang_up |}.

Definition NdjsonFixture : Fixture := @link_fixture _ _ PipePair (NdjsonPort Half) ndjson_link true.

(** ** The case of a result past the default limit *)

(** A driver's turn in which a handler settles a result that does not fit. *)
Lemma drive_refused w settle id request v e :
  let tk := d_tracking (arm_liveness (wo_driver w)) in
  let a o := ALoop {| wk_sleep := false; wk_tick := false; wk_settled := Some (Ok (0%nat, o)); wk_inbound := Pending |} settle in
  (forall o, taken w (a o) = Some (BSettled (Ok (0%nat, o)))) ->
  tk_by_task_id tk !! 0%nat = Some id -> tk_active tk !! id = Some request ->
  assert_fits (d_shared (arm_liveness (wo_driver w))) (FRes {| res_id := id; res_result := v |})
    ("The result of " +:+ quoted (ar_method request)) = Err e ->
  drive (Some (Ok (0%nat, Ok v))) settle w = drive (Some (Ok (0%nat, Err e))) settle w.
Proof.
  intros tk a Ht Hby Hact Hf.
  assert (Hd : forall o, drive (Some (Ok (0%nat, o))) settle w = if is_closed w then w else act w (a o)).
  { intros o. unfold drive. destruct (is_closed w); [done|]. pose proof (Ht o) as Ho. unfold a in *. by rewrite Ho. }
  rewrite !Hd. destruct (is_closed w); [done|].
  eapply act_same_branch; [apply Ht|apply Ht|by eapply settled_refused|done].
Qed.

(** A round up to the turn of [b]'s driver, and that turn with the refusal for an outcome. *)
Definition before_drive (n : Net PipePair) : PipePair * list CallTask :=
  let '(x, cs) := poll_callers (LK := ndjson_link) (nt_pair n) (nt_cancelled n) false (nt_callers n) in
  (lk_writer (Link := ndjson_link) (turn_side (LK := ndjson_link) SideA x) SideB, cs).

Definition refused_drive (x : PipePair) : PipePair :=
  on_pipe_side x SideB (drive (Some (Ok (0%nat, Err bulk_refusal))) {[0%nat]}).

Lemma refused_drive_round n x cs w c request :
  before_drive n = (x, cs) -> nt_severed n = false -> pp_b x = Some w ->
  let a o := ALoop {| wk_sleep := false; wk_tick := false; wk_settled := Some (Ok (0%nat, o)); wk_inbound := Pending |} {[0%nat]} in
  arm_liveness (wo_driver w) = wo_driver w ->
  tk_tasks (d_tracking (wo_driver w)) = {[0%nat := c]} -> hc_handler c = bulk_id -> hc_params c = bulk_params ->
  (forall o, taken w (a o) = Some (BSettled (Ok (0%nat, o)))) ->
  tk_by_task_id (d_tracking (wo_driver w)) !! 0%nat = Some "r-1" ->
  tk_active (d_tracking (wo_driver w)) !! "r-1" = Some request -> ar_method request = "test.bulk" ->
  send_limit_bytes (d_shared (wo_driver w)) = DEFAULT_MAX_FRAME_BYTES ->
  round (LK := ndjson_link) false n = with_callers (with_pair n (refused_drive x)) cs.
Proof.
  intros Hb Hsev Hw a Harm Htk Hh Hp Ht Hby Hact Hm Hlim. unfold round, before_drive in *.
  destruct (poll_callers _ _ _ _) as [x0 cs0]. apply pair_equal_spec in Hb as [Hx <-]. rewrite Hsev.
  unfold turn_side at 1. cbv zeta. rewrite Hx. cbn [lk_world lk_driver ndjson_link pipe_side]. rewrite Hw.
  rewrite (bulk_settles _ c Htk Hh Hp), Htk, dom_singleton_L. unfold refused_drive, on_pipe_side. rewrite Hw. cbn [fmap option_fmap option_map].
  rewrite (drive_refused w {[0%nat]} "r-1" request _ bulk_refusal); rewrite ?Harm; try done.
  rewrite Hm. by apply blob_refused.
Qed.

(** The connection when the request is at the handler, and in the round that follows. *)
Definition pipe_serving : option (Net PipePair) :=
  option_map (Nat.iter 3 (round (LK := ndjson_link) false)) (asking (LK := ndjson_link)).
Definition pipe_served : option (Net PipePair) := Eval vm_compute in pipe_serving.
Definition at_drive : option (PipePair * list CallTask) := Eval vm_compute in option_map before_drive pipe_serving.

Lemma pipe_served_round :
  match pipe_served, at_drive with
  | Some n, Some (x, cs) => round (LK := ndjson_link) false n = with_callers (with_pair n (refused_drive x)) cs
  | _, _ => False
  end.
Proof.
  unfold pipe_served, at_drive. cbv iota.
  eapply (refused_drive_round _ _ _ _ bulk_call {| ar_cancel := 0%nat; ar_method := "test.bulk" |});
    [vm_compute; reflexivity|vm_compute; reflexivity|reflexivity|..]; [..|intros o| | | |]; vm_compute; reflexivity.
Qed.

(** The end of the case, once the refusal is sent. *)
Lemma pipe_served_rest :
  match pipe_served, at_drive with
  | Some n, Some (x, cs) =>
      let r := until (LK := ndjson_link) (caller_outcome 0) 8 (with_callers (with_pair n (refused_drive x)) cs) in
      (r.2, @run_case NdjsonFixture past_the_limit (after_bulk (Err bulk_refusal)) (Some r.1)) = (Some (Err bulk_refusal), Ok tt)
  | _, _ => False
  end.
Proof. vm_compute. reflexivity. Qed.

Lemma pipe_past_the_limit_passes :
  @run_case NdjsonFixture past_the_limit refuses_a_result_past_the_frame_limit_without_ending_the_session None = Ok tt.
Proof.
  pose proof pipe_served_round as Hr. pose proof pipe_served_rest as Hd.
  destruct pipe_served as [n|] eqn:En; [|destruct Hr]. destruct at_drive as [[x cs]|]; [|destruct Hr].
  eapply (past_the_limit_generic (LK := ndjson_link) true 3 n); [vm_compute; lia| |exact Hr|exact Hd].
  rewrite <- En. clear. vm_compute. reflexivity.
Qed.

(** ** The suite *)

(** Two results of half a mebibyte each cross the pipe in one read of 64 KiB after another. *)
Lemma oversized_results_pass :
  @run_case NdjsonFixture (case_name 20) keeps_two_concurrent_oversized_results_from_interleaving None = Ok tt.
Proof. vm_compute. reflexivity. Qed.

Lemma brief_pipe_cases_pass :
  Forall (fun c => @run_case NdjsonFixture (case_name c.1) c.2 None = Ok tt)
    (take 18 (@supported NdjsonFixture) ++ take 1 (drop 19 (@supported NdjsonFixture)) ++ drop 21 (@supported NdjsonFixture)).
Proof. repeat (apply Forall_cons_2; [vm_compute; reflexivity|]); apply Forall_nil_2. Qed.

(** Conformance, a computation.  On the same schedule, over pipes that take every byte, the NDJSON
    transport passes the project's own conformance suite, all twenty-three cases of it: the ones every transport runs, the two results of half a mebibyte that
    are read in pieces while both are in flight, and the two in which lines are written by hand. *)
Theorem ndjson_conforms : @run_conformance_suite NdjsonFixture = Ok CONFORMANCE_CASES.
Proof.
  pose proof brief_pipe_cases_pass as H. unfold supported in H.
  cbn [fx_chunked fx_supports_raw NdjsonFixture link_fixture lk_open_raw ndjson_link take drop app] in H.
  repeat (apply Forall_cons in H as [? H]); cbn [fst snd] in *.
  pose proof pipe_past_the_limit_passes. pose proof oversized_results_pass.
  unfold run_conformance_suite. cbv zeta. change past_the_limit with (case_name 18) in *.
  cbn [fx_chunked fx_supports_raw NdjsonFixture link_fixture lk_open_raw ndjson_link].
  do 23 (rewrite run_nth_spec; change (@fx_fresh NdjsonFixture) with (@None (Net PipePair));
         match goal with H : run_case _ ?c None = _ |- context [run_case _ ?c None] => rewrite H; clear H end).
  reflexivity.
Qed.
