(* ===== verification/Fuzz.v ===== *)
(** * The fuzz targets

    [fuzz/src/lib.rs] and [fuzz/fuzz_targets/]: the generator of structured frames and the targets
    with an oracle.  A target is a function from its input to [panics]; what the fuzzer samples is
    proved of every input: no target ever panics, and a scripted port always ends its session. *)

From S2P Require Import Prelude Json Wire Frame Validate Limits Serde FrameJson Ndjson NdjsonProps Chunk ChunkProps Port Session Dispatch DispatchProps Driver Handle System Lifecycle Outbound Responses Origins.
From stdpp Require Import sorting.
Local Open Scope Z_scope.

(** ** The generator *)

Definition IDS : list string := [""; "r-0"; "r-1"; "a-very-long-request-identifier-indeed"].
Definition METHODS : list string := ["a.b"; "rpc.discover"; "fs.read-file"; "x"].
Definition ROLES : list string := [""; "tool"; "Bad-Role"].
Definition CODES : list string := [""; "DENIED"; "denied"; "APP_2"].

(** Indexing panics out of range, and the remainder by an empty pool does. *)
Definition pick (pool : list string) (index : Z) : panics string :=
  match pool with
  | [] => Err "attempt to calculate the remainder with a divisor of zero"
  | _ =>
      match pool !! Z.to_nat (index mod Z.of_nat (length pool)) with
      | Some s => Ok s
      | None => Err "index out of bounds"
      end
  end.

Definition small_json (seed : Z) : Value :=
  match seed mod 5 with
  | 0 => Null
  | 1 => VBool (seed mod 2 =? 0)
  | 2 => VNumber (PosInt seed)
  | 3 => VString ("v" +:+ show_Z seed)
  | _ => VObject [("k", VString "v")]
  end.

(** [u8], [u16] and [Option<_>] members as the fuzzer hands them in. *)
Inductive Script : Type :=
| SHello (minor name_idx role_idx : Z) (limit in_flight : option Z)
| SReq (id_idx method_idx payload : Z)
| SRes (id_idx payload : Z)
| SErr (id_idx code_idx : Z)
| SEvt (method_idx seq : Z) (stream_idx : option Z) (last : bool) (payload : Z)
| SCancel (id_idx : Z)
| SPing
| SPong
| SClose (code : Z) (reason_idx : option Z).

(** [Option::map] of a step that can panic. *)
Definition map_pick (pool : list string) (index : option Z) : panics (option string) :=
  match index with
  | Some i => let? s := pick pool i in Ok (Some s)
  | None => Ok None
  end.

Definition into_frame (script : Script) : panics Frame :=
  match script with
  | SHello minor name_idx role_idx limit in_flight =>
      let? name := pick IDS name_idx in
      let? role := pick ROLES role_idx in
      Ok (FHello
        {| hello_protocol := {| major := 1; minor := minor |};
           hello_peer := {| peer_name := name; peer_version := "0.0.0"; peer_role := role |};
           hello_capabilities := [];
           hello_limits :=
             if bool_decide (is_Some limit) || bool_decide (is_Some in_flight)
             then Some {| max_frame_bytes := limit; max_in_flight := in_flight |} else None |})
  | SReq id_idx method_idx payload =>
      let? id := pick IDS id_idx in
      let? method := pick METHODS method_idx in
      Ok (FReq {| req_id := id; req_method := method; req_params := small_json payload |})
  | SRes id_idx payload =>
      let? id := pick IDS id_idx in
      Ok (FRes {| res_id := id; res_result := small_json payload |})
  | SErr id_idx code_idx =>
      let? id := pick IDS id_idx in
      let? code := pick CODES code_idx in
      Ok (FErr {| err_id := id; err_error := {| err_code := code; err_message := "m"; err_details := None |} |})
  | SEvt method_idx seq stream_idx last payload =>
      let? topic := pick METHODS method_idx in
      let? stream_id := map_pick IDS stream_idx in
      Ok (FEvt {| evt_topic := topic; evt_seq := seq; evt_stream_id := stream_id; evt_payload := small_json payload;
                  evt_end := if last then Some TheEnd else None |})
  | SCancel id_idx => let? id := pick IDS id_idx in Ok (FCancel {| cancel_id := id |})
  | SPing => Ok FPing
  | SPong => Ok FPong
  | SClose code reason_idx =>
      let? reason := map_pick IDS reason_idx in
      Ok (FClose {| close_code := code; close_reason := reason |})
  end.

(** ** [line_decoder_push] *)

Record Input : Type := { in_max_frame_bytes_offset : Z; in_cuts : list Z; in_bytes : bytes }.

Definition max_frame_bytes (offset : Z) : Z := MIN_MAX_FRAME_BYTES + offset mod (8192 - MIN_MAX_FRAME_BYTES + 1).

(** [bytes[start..end]]. *)
Definition slice (b : bytes) (start stop : nat) : panics bytes :=
  if bool_decide (stop < start)%nat then Err "slice index starts after its end"
  else if bool_decide (length b < stop)%nat then Err "range end index out of range"
  else Ok (take (stop - start) (drop start b)).

Fixpoint cut_pieces (b : bytes) (start : nat) (boundaries : list nat) : panics (list bytes) :=
  match boundaries with
  | [] => let? piece := slice b start (length b) in Ok [piece]
  | cut :: rest =>
      let? piece := slice b start cut in
      let? pieces := cut_pieces b cut rest in
      Ok (piece :: pieces)
  end.

Definition split_at (b : bytes) (cuts : list Z) : panics (list bytes) :=
  if bool_decide (b = []) then Ok []
  else cut_pieces b 0 (merge_sort le (map (fun cut => Z.to_nat (cut mod (len b + 1))) cuts)).

Section targets.
Context {RT : RustText} {SJ : SerdeJson}.

(** Every piece up to the first refusal, then [finish]. *)
Fixpoint drain (d : LineDecoder) (pieces : list bytes) : list Frame * option CodecErrorKind :=
  match pieces with
  | [] =>
      match (finish d).2 with
      | Ok flushed => (flushed, None)
      | Err refusal => ([], Some (kind refusal))
      end
  | piece :: rest =>
      let '(d, outcome) := push d piece in
      match po_error outcome with
      | Some refusal => (po_frames outcome, Some (kind refusal))
      | None => let '(frames, error) := drain d rest in (po_frames outcome ++ frames, error)
      end
  end.

Definition line_decoder_push (input : Input) : panics unit :=
  let max := max_frame_bytes (in_max_frame_bytes_offset input) in
  let? whole := line_decoder_new max in
  let '(whole_frames, whole_error) := drain whole [in_bytes input] in
  let? pieces := split_at (in_bytes input) (in_cuts input) in
  let? split := line_decoder_new max in
  let '(split_frames, split_error) := drain split pieces in
  if negb (bool_decide (split_frames = whole_frames)) then Err "decoded different frames than one push"
  else if negb (bool_decide (split_error = whole_error)) then Err "produced a different refusal than one push"
  else Ok tt.

(** ** [chunk_reassembler_push] *)

Fixpoint push_messages (r : ChunkReassembler) (messages : list bytes) : panics unit :=
  match messages with
  | [] => Ok tt
  | message :: rest =>
      let '(r, outcome) := push_chunk r message in
      match outcome with
      | Err _ => if is_reassembling r then Err "a refusal must reset the reassembler" else push_messages r rest
      | Ok _ => push_messages r rest
      end
  end.

Definition chunk_reassembler_push (messages : list bytes) : panics unit :=
  let? reassembler := reassembler_new DEFAULT_MAX_MESSAGE_BYTES DEFAULT_MAX_FRAME_BYTES in
  push_messages reassembler messages.

(** ** The oracles hold of every input *)

(** The sorted cut points put the pieces back together. *)
Lemma cut_pieces_concat b boundaries : forall start,
  (start <= length b)%nat -> Sorted.StronglySorted le (start :: boundaries) ->
  Forall (fun cut => (cut <= length b)%nat) boundaries ->
  exists pieces, cut_pieces b start boundaries = Ok pieces /\ concat pieces = drop start b.
Proof.
  induction boundaries as [|cut rest IH]; intros start Hs Hsort Hall; simpl.
  - unfold slice. rewrite bool_decide_false, bool_decide_false by lia. simpl. eexists. split; [done|].
    simpl. rewrite app_nil_r, take_ge; [done|]. rewrite length_drop. lia.
  - apply Forall_cons in Hall as [Hc Hall]. inversion Hsort as [|? ? Hrest Hle]; subst.
    apply Forall_cons in Hle as [Hsc _].
    destruct (IH cut Hc Hrest Hall) as (pieces & Hp & Hcat).
    unfold slice. rewrite bool_decide_false, bool_decide_false by lia. simpl. rewrite Hp. simpl. eexists. split; [done|].
    simpl. rewrite Hcat. replace cut with (start + (cut - start))%nat at 2 by lia. by rewrite <- drop_drop, take_drop.
Qed.

Lemma split_at_concat b cuts : exists pieces, split_at b cuts = Ok pieces /\ concat pieces = b.
Proof.
  unfold split_at. case_bool_decide as Hb; [by exists []; subst|].
  set (bs := map _ cuts).
  destruct (cut_pieces_concat b (merge_sort le bs) 0) as (pieces & Hp & Hc); [lia| | |by exists pieces].
  - constructor; [apply (StronglySorted_merge_sort le)|]. apply Forall_true. intros; lia.
  - rewrite (merge_sort_Permutation le bs). apply List.Forall_map, Forall_true. intros cut.
    pose proof (Z.mod_pos_bound cut (len b + 1)). unfold len in *. lia.
Qed.

(** What [drain] collects, by the pushes and the flush. *)
Lemma drain_spec pieces : forall d, ld_failure d = None ->
  drain d pieces =
  let '(d', fs, e) := push_all d pieces in
  match e with
  | Some e => (fs, Some (kind e))
  | None => match (finish d').2 with Ok gs => (fs ++ gs, None) | Err e => (fs, Some (kind e)) end
  end.
Proof.
  induction pieces as [|p pieces IH]; intros d Hd; simpl; [by rewrite Hd; destruct (finish d) as [? []]|].
  pose proof (push_error_failure d p Hd) as Hf. destruct (push d p) as [d1 o]. simpl in Hf.
  destruct (po_error o) as [e|]; [rewrite (push_all_failed d1 pieces e) by done; by rewrite app_nil_r|].
  rewrite (IH d1 Hf). destruct (push_all d1 pieces) as [[d2 fs] [e|]]; [done|].
  destruct (finish d2) as [? [gs|e]]; simpl; by rewrite ?app_assoc.
Qed.

Lemma finish_sim d d' : ld_sim d d' -> ld_failure d = None -> (finish d).2 = (finish d').2.
Proof.
  intros [Hm Hb Hf] Hd. unfold finish. rewrite Hd in *. inversion Hf as [|Hd0 Hd']. rewrite Hm, Hb.
  simpl. destruct (is_blank _); [done|]. by destruct (decode_line _ _).
Qed.

(** However the bytes are cut, [drain] collects the same. *)
Lemma drain_concat d pieces :
  ld_ok d -> ld_failure d = None -> drain d pieces = drain d [concat pieces].
Proof.
  intros Hok Hd. rewrite !drain_spec by done. pose proof (push_all_concat pieces d Hok Hd) as H.
  destruct (push_all d pieces) as [[d1 fs] e] eqn:E. pose proof (push_all_error _ _ _ _ _ E) as He.
  simpl. pose proof (push_error_failure d (concat pieces) Hd) as Hf.
  destruct (push d (concat pieces)) as [d2 o]. simpl in *. rewrite Hf, app_nil_r.
  destruct H as (-> & Hsim & Hld). destruct Hsim as [e1 e2 (Hk & _)|]; [by rewrite Hk|].
  by rewrite (finish_sim d1 d2).
Qed.

(** [line_decoder_push].  For every ceiling, byte string and set of cut points the fuzz
    target's two assertions hold and nothing in it panics: the decoder fed in pieces yields the
    frames and the kind of refusal that it yields fed at once. *)
Theorem line_decoder_push_holds (input : Input) : line_decoder_push input = Ok tt.
Proof.
  unfold line_decoder_push. set (max := max_frame_bytes _).
  assert (Hmax : MIN_MAX_FRAME_BYTES <= max).
  { unfold max, max_frame_bytes. pose proof (Z.mod_pos_bound (in_max_frame_bytes_offset input) (8192 - MIN_MAX_FRAME_BYTES + 1)).
    unfold MIN_MAX_FRAME_BYTES, MIN_ANNOUNCED_FRAME_BYTES in *. lia. }
  destruct (line_decoder_new max) as [d|e] eqn:Hd.
  - destruct (line_decoder_new_ok _ _ Hd) as [Hok Hf]. simpl.
    destruct (split_at_concat (in_bytes input) (in_cuts input)) as (pieces & -> & Hc). simpl.
    pose proof (drain_concat d pieces Hok Hf) as H. rewrite Hc in H. simpl in H. rewrite H.
    destruct (push d (in_bytes input)) as [d' o].
    destruct (match po_error o with Some _ => _ | None => _ end) as [fs e]. by rewrite !bool_decide_true.
  - exfalso. unfold line_decoder_new, check_at_least in Hd. by rewrite (proj2 (Z.leb_le _ _) Hmax) in Hd.
Qed.

Lemma push_messages_hold messages : forall r, push_messages r messages = Ok tt.
Proof.
  induction messages as [|m messages IH]; intros r; simpl; [done|]. unfold push_chunk.
  destruct (decode r m) as [r' [o|e]]; [apply IH|]. simpl. apply IH.
Qed.

(** [chunk_reassembler_push]: every refusal leaves the reassembler reset. *)
Theorem chunk_reassembler_push_holds (messages : list bytes) : chunk_reassembler_push messages = Ok tt.
Proof. unfold chunk_reassembler_push. simpl. apply push_messages_hold. Qed.
End targets.

(** ** [session_frames] *)

(** [ScriptedTx] accepts and drops every frame. *)
Definition ScriptedTx : Type := unit.
Global Instance scripted_tx : PortTx ScriptedTx :=
  {| port_send t _ := (t, Sent); port_close t _ _ := t |}.

(** [ScriptedRx::recv]: [pop_front]. *)
Definition scripted_recv (inbound : list Inbound) : list Inbound * option Inbound :=
  match inbound with
  | [] => ([], None)
  | item :: rest => (rest, Some item)
  end.

Definition fuzz_peer : PeerInfo := {| peer_name := "fuzz"; peer_version := "0.0.0"; peer_role := "tool" |}.

Section session.
Context {RT : RustText} {SJ : SerdeJson}.

(** The frames up to the first invalid one, then the closure a real port would report. *)
Fixpoint script_frames (scripts : list Script) : panics (list Inbound) :=
  match scripts with
  | [] => Ok [IClosed (PClosed None None)]
  | script :: rest =>
      let? frame := into_frame script in
      match validate frame with
      | Err error =>
          Ok [IClosed (PProtocolError (codec_error Schema (show_validation_error error)) close_codes.PROTOCOL_ERROR)]
      | Ok _ => let? inbound := script_frames rest in Ok (IFrame frame :: inbound)
      end
  end.

Definition script_inbound (scripts : list Script) : panics (list Inbound) := script_frames (take 64 scripts).

Definition fuzz_options : SessionOptions :=
  with_liveness_interval (with_handshake_timeout (session_options_new fuzz_peer) 1000000) None.

(** The runtime's choices while [run] is polled: the writer task, or the driver with the timers
    that are due. *)
Inductive Poll : Type := PollWriter | PollDriver (sleep tick : bool).

Definition scripted_step (st : World ScriptedTx * list Inbound) (p : Poll) : World ScriptedTx * list Inbound :=
  let '(w, inbound) := st in
  match p with
  | PollWriter => (act w (AWriter false), inbound)
  | PollDriver sleep tick =>
      let '(rest, item) := scripted_recv inbound in
      let a := ALoop {| wk_sleep := sleep; wk_tick := tick; wk_settled := None; wk_inbound := Polled item |} ∅ in
      (act w a, match taken w a with Some (BInbound _) => rest | _ => inbound end)
  end.

Definition is_driver (p : Poll) : bool := match p with PollDriver _ _ => true | PollWriter => false end.

(** [Session::open] and [run] under a schedule. *)
Definition session_frames (scripts : list Script) (schedule : list Poll) : panics (World ScriptedTx * list Inbound) :=
  let? inbound := script_inbound scripts in
  let? w := world_open None (tt : ScriptedTx) fuzz_options ∅ in
  Ok (foldl scripted_step (w, inbound) schedule).

(** *** It ends *)

Lemma pick_total pool index : pool <> [] -> exists s, pick pool index = Ok s /\ s ∈ pool.
Proof.
  intros Hp. unfold pick. destruct pool as [|x pool]; [done|].
  pose proof (Z.mod_pos_bound index (Z.of_nat (length (x :: pool)))) as Hb.
  destruct (lookup_lt_is_Some_2 (x :: pool) (Z.to_nat (index mod Z.of_nat (length (x :: pool))))) as [s Hs].
  { simpl length in *. lia. }
  rewrite Hs. exists s. split; [done|]. by eapply list_elem_of_lookup_2.
Qed.

Lemma into_frame_total script : exists f, into_frame script = Ok f.
Proof.
  assert (H : forall index, (exists s, pick IDS index = Ok s) /\ (exists s, pick METHODS index = Ok s) /\
    (exists s, pick ROLES index = Ok s) /\ exists s, pick CODES index = Ok s).
  { intros index. repeat split; match goal with |- exists s, pick ?p _ = _ => destruct (pick_total p index) as (s & Hs & _); [done|by exists s] end. }
  assert (Hmap : forall o, exists r, map_pick IDS o = Ok r).
  { intros [j|]; cbn [map_pick]; [|by eexists]. destruct (H j) as ([s ->] & _). by eexists. }
  destruct script as [m n r l i|i m p|i p|i c|m q st e p|i| | |c r]; cbn [into_frame];
    repeat match goal with
    | |- context [pick ?p ?j] => assert (exists s, pick p j = Ok s) as [? ->] by apply H; cbn [result_bind]
    | |- context [map_pick IDS ?o] => destruct (Hmap o) as [? ->]; cbn [result_bind]
    end; by eexists.
Qed.

(** [validate]: a structured frame or whatever serde reads; the verdict itself is ignored. *)
Inductive ValidateInput : Type := Structured (script : Script) | RawJson (b : bytes).

Definition validate_target (input : ValidateInput) : panics (option (result unit ValidationError)) :=
  match input with
  | Structured script => let? frame := into_frame script in Ok (Some (validate frame))
  | RawJson b => match from_slice b with Ok frame => Ok (Some (validate frame)) | Err _ => Ok None end
  end.

Lemma validate_target_holds input : exists verdict, validate_target input = Ok verdict.
Proof.
  destruct input as [script|b]; simpl; [destruct (into_frame_total script) as [f ->]|destruct (from_slice b)]; by eexists.
Qed.

(** The queue is never empty and ends in a closure. *)
Lemma script_frames_shape scripts :
  exists frames c, script_frames scripts = Ok (map IFrame frames ++ [IClosed c]) /\
    Forall (fun f => validate f = Ok tt) frames /\ (length frames <= length scripts)%nat.
Proof.
  induction scripts as [|s scripts IH]; [by exists [], (PClosed None None); simpl; auto|]. simpl.
  destruct (into_frame_total s) as [f ->]. simpl. destruct (validate f) as [[]|e] eqn:Hv.
  - destruct IH as (fs & c & -> & Hall & Hlen). exists (f :: fs), c. simpl. split; [done|]. split; [by constructor|lia].
  - exists []. eexists. simpl. split; [done|]. split; [constructor|lia].
Qed.
(** Nobody calls this session and its liveness is off. *)
Record unattended (d : Driver ScriptedTx) : Prop := {
  un_queue : ch_queue (sh_commands (d_shared d)) = [];
  un_interval : d_liveness_interval d = None;
  un_liveness : d_liveness d = false
}.

Lemma on_frame_unattended d f : unattended d -> unattended (on_frame d f).1.
Proof.
  intros [Hq Hi Hl]. destruct f as [h|r|r|e|e|k| | |k]; cbn [on_frame]; try by split.
  - unfold on_hello, settle_ready. split; repeat case_match; by simplify_eq/=.
  - destruct (on_request_shared (d_shared d) (d_tracking d) (d_writer d) r) as [n Hn].
    destruct (on_request _ _ _ _) as [[s tk] w]. simpl in *. subst s. by split.
  - unfold fan_out_event. split; repeat case_match; by simplify_eq/=.
  - unfold fan_out_pong. split; repeat case_match; by simplify_eq/=.
Qed.

Lemma act_closed (w : World ScriptedTx) c p inbound :
  wo_closure w = Some c -> (scripted_step (w, inbound) p).1 = w.
Proof. intros Hc. destruct p as [|sleep tick]; simpl; [by rewrite Hc|]. destruct (scripted_recv _). simpl. by rewrite Hc. Qed.

(** A poll of the driver closes the session or takes the next frame. *)
Lemma driver_progress w item rest sleep tick :
  wo_closure w = None -> unattended (wo_driver w) ->
  let '(w', inbound') := scripted_step (w, item :: rest) (PollDriver sleep tick) in
  is_Some (wo_closure w') \/
  (wo_closure w' = None /\ unattended (wo_driver w') /\ inbound' = rest /\ exists f, item = IFrame f).
Proof.
  intros Hc Hu. cbn [scripted_step scripted_recv]. set (wk := Build_Wakeups _ _ _ _).
  assert (Harm : arm_liveness (wo_driver w) = wo_driver w).
  { unfold arm_liveness. rewrite (un_interval _ Hu). by case_match. }
  assert (Hb : exists b, taken w (ALoop wk ∅) = Some b /\
    (b = BInbound (Some item) \/ exists t, (on_branch (wo_driver w) b).2 = Some t)).
  { unfold taken. rewrite Hc, Harm. cbn [wakeups_ok wk wk_settled]. unfold select, ch_recv.
    rewrite (un_queue _ Hu), (un_liveness _ Hu). cbn [wk wk_sleep wk_tick wk_settled wk_inbound]. rewrite andb_false_r.
    destruct (w_report _); [eexists; split; [done|]; right; by eexists|].
    destruct (w_gone _); [eexists; split; [done|]; right; by eexists|].
    destruct (sleep && _); [eexists; split; [done|]; right; by eexists|].
    eexists. split; [by destruct (bool_decide _), (ch_senders _)|by left]. }
  destruct Hb as (b & Ht & Hb). destruct (taken_branch _ _ _ Ht) as (wk' & settle & _ & _ & _ & Hact).
  rewrite Harm in Hact.
  assert (Hframe : forall f, item = IFrame f -> unattended (on_branch (wo_driver w) (BInbound (Some item))).1).
  { intros f ->. by apply on_frame_unattended. }
  assert (Hend : (forall f, item <> IFrame f) -> exists t, (on_branch (wo_driver w) (BInbound (Some item))).2 = Some t).
  { intros Hne. destruct item as [f|c]; [by destruct (Hne f)|by eexists]. }
  destruct (on_branch (wo_driver w) b) as [d' t] eqn:Eb. rewrite Ht, Hact. destruct t as [reason|]; [left; by eexists|].
  destruct Hb as [->|[t Hb]]; [|done]. rewrite Eb in *. right. split; [done|].
  destruct item as [f|c]; [|destruct Hend as [? ?]; [by intros f|done]].
  split; [by eapply Hframe|]. split; [done|by eexists].
Qed.

Lemma stays_closed schedule : forall w inbound,
  is_Some (wo_closure w) -> is_Some (wo_closure (foldl scripted_step (w, inbound) schedule).1).
Proof.
  induction schedule as [|p schedule IH]; intros w inbound [c Hc]; cbn [foldl]; [by eexists|].
  pose proof (act_closed w c p inbound Hc) as H. destruct (scripted_step (w, inbound) p) as [w' rest]. simpl in H. subst w'.
  apply IH. by eexists.
Qed.

Definition driver_polls (schedule : list Poll) : nat := length (filter (fun p => is_driver p = true) schedule).

Lemma run_ends schedule : forall w frames c,
  wo_closure w = None -> unattended (wo_driver w) -> (length frames < driver_polls schedule)%nat ->
  is_Some (wo_closure (foldl scripted_step (w, map IFrame frames ++ [IClosed c]) schedule).1).
Proof.
  induction schedule as [|p schedule IH]; intros w frames c Hc Hu Hn; [unfold driver_polls in Hn; simpl in Hn; lia|].
  destruct p as [|sleep tick]; cbn [foldl].
  - cbn [scripted_step act]. rewrite Hc. apply IH; [done| |done]. by destruct Hu.
  - unfold driver_polls in Hn. rewrite filter_cons_True in Hn by done. cbn [length] in Hn.
    destruct frames as [|f frames]; cbn [map app].
    + pose proof (driver_progress w (IClosed c) [] sleep tick Hc Hu) as H.
      destruct (scripted_step _ _) as [w' rest]. destruct H as [H|(_ & _ & _ & f & [=])]. by apply stays_closed.
    + pose proof (driver_progress w (IFrame f) (map IFrame frames ++ [IClosed c]) sleep tick Hc Hu) as H.
      destruct (scripted_step _ _) as [w' rest]. destruct H as [H|(Hc' & Hu' & -> & _)]; [by apply stays_closed|].
      apply IH; [done|done|]. unfold driver_polls. cbn [length] in Hn. lia.
Qed.

Lemma fuzz_opens : exists w, world_open None (tt : ScriptedTx) fuzz_options ∅ = Ok w /\
  (is_Some (wo_closure w) \/ wo_closure w = None /\ unattended (wo_driver w)).
Proof.
  assert (exists s, open_shared None fuzz_options = Ok s /\ ch_queue (sh_commands s) = []) as (s & Hs & Hq).
  { eexists. split; reflexivity. }
  unfold world_open, session_open. rewrite Hs. cbn [result_bind]. eexists. split; [done|].
  unfold start. destruct (assert_fits _ _ _) as [u|e].
  - right. split; [done|]. by split.
  - left. destruct (teardown _ _ _). by eexists.
Qed.

(** [session_frames].  Whatever frames the fuzzer scripts, the generator and the session do
    not panic, and the driver ends in a closure after at most 65 polls, whichever timers fire and
    however often the writer runs between. *)
Theorem session_frames_ends (scripts : list Script) (schedule : list Poll) :
  (65 <= driver_polls schedule)%nat ->
  exists w rest, session_frames scripts schedule = Ok (w, rest) /\ is_Some (wo_closure w).
Proof.
  intros Hn. unfold session_frames, script_inbound.
  destruct (script_frames_shape (take 64 scripts)) as (frames & c & -> & _ & Hlen).
  destruct fuzz_opens as (w & -> & Hw). cbn [result_bind].
  destruct (foldl scripted_step _ schedule) as [w' rest] eqn:E. exists w', rest. split; [done|].
  rewrite length_take in Hlen. pose proof (run_ends schedule w frames c) as Hr. change (foldl scripted_step (w, map IFrame frames ++ [IClosed c]) schedule = (w', rest)) in E. rewrite E in Hr. cbn [fst] in Hr.
  destruct Hw as [Hw|[Hc Hu]]; [|apply Hr; [done|done|lia]].
  pose proof (stays_closed schedule w (map IFrame frames ++ [IClosed c]) Hw) as Hs. by rewrite E in Hs.
Qed.
End session.

(** A script whose third frame is refused, and a schedule in which no timer ever fires. *)
Lemma session_frames_ends_witness : exists w rest,
  session_frames [SHello 1 1 1 None (Some 8); SReq 1 0 2; SErr 0 2; SPing] (replicate 65 (PollDriver false false)) = Ok (w, rest) /\
  is_Some (wo_closure w).
Proof.
  apply (session_frames_ends [SHello 1 1 1 None (Some 8); SReq 1 0 2; SErr 0 2; SPing]). vm_compute. lia.
Defined.
