(* ===== verification/SessionPair.v ===== *)
(** * The narrated example

    [examples/session_pair.rs]: two sessions over a memory pair exchange a request, an event stream and a
    cancelled call.  [main] runs on the executor of [Harness.v] and the in-process link; what it prints is
    what the session's documentation promises. *)

From S2P Require Import Prelude Text Json Wire Frame Validate Limits Serde JsonText FrameJson Ndjson NdjsonProps Port Session Dispatch Driver Handle System Origins Duplex Conformance Harness InProcess.
Local Open Scope Z_scope.

Definition demo_peer (name role : string) : PeerInfo := {| peer_name := name; peer_version := "0.1.0"; peer_role := role |}.

(** The two sessions and what was printed so far; an [expect] that fails or an [await] that never resolves
    ends the program. *)
Definition Program (A : Type) : Type := option (Net Duplex) * list string -> option (A * (option (Net Duplex) * list string)).
Definition program_bind {A B} (m : Program A) (f : A -> Program B) : Program B :=
  fun st => match m st with Some (a, st) => f a st | None => None end.
Declare Scope program_scope.
Notation "'do!' x ':=' m 'in' k" := (program_bind m (fun x => k)) (at level 10, x name, m at level 100, k at level 200) : program_scope.
Notation "m ';!' k" := (program_bind m (fun _ => k)) (at level 100, k at level 200, right associativity) : program_scope.
Local Open Scope program_scope.

Definition perform {B} (op : Op B) : Program B :=
  fun '(n, out) => match Harness.fixture_do (LK := duplex_link false) B op n with (n, Some b) => Some (b, (n, out)) | (_, None) => None end.
Definition expected {A E} (r : result A E) : Program A := fun st => match r with Ok a => Some (a, st) | Err _ => None end.
Definition expected_err {A E} (r : result A E) : Program E := fun st => match r with Ok _ => None | Err e => Some (e, st) end.
Definition expected_some {A} (o : option A) : Program A := fun st => match o with Some a => Some (a, st) | None => None end.
Definition println (line : string) : Program unit := fun '(n, out) => Some (tt, (n, out ++ [line])).

(** [b.handle(method, ..).persist()]. *)
Definition handle_persist (s : Side) (method : string) (h : Handler) : Program unit :=
  fun '(n, out) => match n with
    | Some n => Some (tt, (Some (Harness.call_on (LK := duplex_link false) n s (ARegister method h)), out))
    | None => None
    end.

Definition call (s : Side) (method : string) (params : Value) : Program (result Value RemoteError) :=
  do! task := perform (OSpawn s method params request_options_default) in perform (OJoin task).

Definition show_json (v : Value) : string := of_bytes (print_value v).
Definition show_bool (b : bool) : string := if b then "true" else "false".
Definition show_some (o : option string) : string := match o with Some s => "Some(" +:+ quoted s +:+ ")" | None => "None" end.

Definition tick (line : string) (end_ : bool) : EventInput :=
  {| ei_topic := "demo.tick"; ei_payload := VObject [("line", from_str line)]; ei_stream_id := Some "stream-1"; ei_end := end_ |}.

Definition print_event (sub : nat) : Program unit :=
  do! received := perform (ORecvEvent SideA sub) in
  do! event := expected_some received in
  println ("event: seq " +:+ show_Z (evt_seq event) +:+ " payload " +:+ show_json (evt_payload event) +:+
           " end " +:+ show_bool (bool_decide (is_Some (evt_end event)))).

(** [demo.echo] and [demo.forever] are the handlers of the conformance suite, but for the text of the
    latter's error, which is not looked at. *)
Definition session_pair_main : Program unit :=
  perform (OConnect (session_options_new (demo_peer "session-pair-a" "runtime")) (session_options_new (demo_peer "session-pair-b" "hub"))) ;!
  do! remote_a := perform (OReady SideA) in
  do! remote_a := expected remote_a in
  do! remote_b := perform (OReady SideB) in
  do! remote_b := expected remote_b in
  println ("handshake: a sees peer " +:+ quoted (peer_name (rp_peer remote_a)) +:+ ", b sees peer " +:+ quoted (peer_name (rp_peer remote_b))) ;!
  handle_persist SideB "demo.echo" echo_id ;!
  handle_persist SideB "demo.forever" forever_id ;!
  do! echoed := call SideA "demo.echo" (VObject [("hi", from_u64 1)]) in
  do! echoed := expected echoed in
  println ("request: demo.echo({" +:+ quoted "hi" +:+ ":1}) -> " +:+ show_json echoed) ;!
  do! events := perform (OEvents SideA) in
  do! first := perform (OEmit SideB (tick "first" false)) in
  expected first ;!
  do! second := perform (OEmit SideB (tick "second" false)) in
  expected second ;!
  do! last := perform (OEmit SideB (tick "last" true)) in
  expected last ;!
  do! barrier := call SideA "demo.echo" (VObject []) in
  expected barrier ;!
  print_event events ;! print_event events ;! print_event events ;!
  do! pending := perform (OSpawn SideA "demo.forever" (VObject []) {| ro_cancel := Some 0%nat; ro_timeout := None |}) in
  perform OSettled ;!
  perform (OCancel 0) ;!
  do! outcome := perform (OJoin pending) in
  do! error := expected_err outcome in
  println ("cancel: demo.forever -> " +:+ re_code error) ;!
  perform (OCloseNow SideA close_codes.RELEASED (Some "done")) ;!
  do! closure := perform (OClosed SideA) in
  println ("close: code " +:+ show_Z (sc_code closure) +:+ " reason " +:+ show_some (sc_reason closure)).

(** The example runs to its end, without a panic or a call that hangs, and prints what it sets out to
    show. *)
Theorem session_pair_prints :
  option_map (fun r => r.2.2) (session_pair_main (None, [])) =
  Some ["handshake: a sees peer " +:+ quoted "session-pair-b" +:+ ", b sees peer " +:+ quoted "session-pair-a";
        "request: demo.echo({" +:+ quoted "hi" +:+ ":1}) -> {" +:+ quoted "hi" +:+ ":1}";
        "event: seq 0 payload {" +:+ quoted "line" +:+ ":" +:+ quoted "first" +:+ "} end false";
        "event: seq 1 payload {" +:+ quoted "line" +:+ ":" +:+ quoted "second" +:+ "} end false";
        "event: seq 2 payload {" +:+ quoted "line" +:+ ":" +:+ quoted "last" +:+ "} end true";
        "cancel: demo.forever -> CANCELLED";
        "close: code 4000 reason Some(" +:+ quoted "done" +:+ ")"].
Proof. vm_compute. reflexivity. Qed.
