(* ===== verification/Catalog.v ===== *)
(** * The catalog document

    [catalog.rs]: an application's methods, events and capabilities, the checks serde cannot
    express, and the JSON form in which [rpc.discover] carries a catalog.  The checks are compared
    with the rules [spec/schema/1/catalog.json] states. *)

From S2P Require Import Prelude Json Wire Frame Validate Serde JsonText FrameJson.
Local Open Scope Z_scope.

Record CatalogMethod : Type :=
  { cm_name : string;
    cm_description : option string;
    cm_params : Value;
    cm_result : Value;
    cm_capabilities : list string;
    cm_deprecated : bool }.

Record CatalogEvent : Type :=
  { ce_topic : string;
    ce_description : option string;
    ce_payload : Value;
    ce_stream : bool }.

Record Catalog : Type :=
  { cat_name : string;
    cat_version : string;
    cat_description : option string;
    cat_protocol : option ProtocolVersion;
    cat_methods : list CatalogMethod;
    cat_events : list CatalogEvent;
    cat_capabilities : option Value }.

Global Instance CatalogMethod_eq_dec : EqDecision CatalogMethod.
Proof. solve_decision. Defined.
Global Instance CatalogEvent_eq_dec : EqDecision CatalogEvent.
Proof. solve_decision. Defined.
Global Instance Catalog_eq_dec : EqDecision Catalog.
Proof. solve_decision. Defined.

(** [true] for a flag at the value the document leaves out. *)
Definition is_default_flag (flag : bool) : bool := negb flag.

(** ** [Catalog::validate] *)

Definition describe_json (value : Value) : string :=
  match value with
  | Null => "null"
  | VBool b => "the boolean " +:+ (if b then "true" else "false")
  | VNumber n => "the number " +:+ of_bytes (print_number n)
  | VString _ => "a string"
  | VArray values => "an array of " +:+ show_Z (len values) +:+ " items"
  | VObject _ => "an object"
  end.

Definition check_document (field : string) (document : Value) : result unit ValidationError :=
  if is_object document then Ok tt
  else Err (mkValidationError field (describe_json document)
    "a JSON Schema 2020-12 document, which catalog.json requires to be an object").

Definition check_name (field value : string) : result unit ValidationError :=
  let count := chars_count value in
  if in_range 1 MAX_NAME_CHARS count then Ok tt
  else Err (mkValidationError field
    ("a string of " +:+ show_Z count +:+ " characters")
    ("a string of 1 to " +:+ show_Z MAX_NAME_CHARS +:+ " characters")).

(** [field[index]]. *)
Definition indexed (field : string) (index : Z) : string := field +:+ "[" +:+ show_Z index +:+ "]".

Section checks.
Context {RT : RustText}.

Definition check_grammar (field value : string) : result unit ValidationError :=
  if is_valid_method_name value then Ok tt
  else Err (mkValidationError field (fmt_debug value)
    ("at least two dot-separated lowercase segments, at most " +:+ show_Z MAX_NAME_CHARS +:+ " characters")).

(** The quadratic scan, with the names before the current one. *)
Fixpoint check_capabilities_from (field : string) (index : Z) (earlier names : list string) :
    result unit ValidationError :=
  match names with
  | [] => Ok tt
  | name :: rest =>
      if bool_decide (name = "") then
        Err (mkValidationError (indexed field index) "an empty string"
               "a capability name of at least one character")
      else if bool_decide (name ∈ earlier) then
        Err (mkValidationError (indexed field index) (fmt_debug name +:+ ", already named earlier in the list")
               "a capability name distinct from every other in the list")
      else check_capabilities_from field (index + 1) (earlier ++ [name]) rest
  end.

Definition check_capabilities (field : string) (names : list string) : result unit ValidationError :=
  check_capabilities_from field 0 [] names.

Definition check_method_entry (index : Z) (method : CatalogMethod) : result unit ValidationError :=
  let at_ := indexed "catalog.methods" index in
  let? _ := check_grammar (at_ +:+ ".name") (cm_name method) in
  let? _ := check_document (at_ +:+ ".params") (cm_params method) in
  let? _ := check_document (at_ +:+ ".result") (cm_result method) in
  check_capabilities (at_ +:+ ".capabilities") (cm_capabilities method).

Definition check_event_entry (index : Z) (event : CatalogEvent) : result unit ValidationError :=
  let at_ := indexed "catalog.events" index in
  let? _ := check_grammar (at_ +:+ ".topic") (ce_topic event) in
  check_document (at_ +:+ ".payload") (ce_payload event).

Definition validate_catalog (c : Catalog) : result unit ValidationError :=
  let? _ := check_name "catalog.name" (cat_name c) in
  let? _ := check_name "catalog.version" (cat_version c) in
  let? _ := for_each check_method_entry 0 (cat_methods c) in
  let? _ := for_each check_event_entry 0 (cat_events c) in
  match cat_capabilities c with
  | Some capabilities => check_document "catalog.capabilities" capabilities
  | None => Ok tt
  end.
End checks.

(** ** [catalog.json] *)

Definition method_entry_ok (m : CatalogMethod) : Prop :=
  name_ok (cm_name m) /\ is_object (cm_params m) = true /\ is_object (cm_result m) = true /\
  Forall (fun n => n <> "") (cm_capabilities m) /\ NoDup (cm_capabilities m).

Definition event_entry_ok (e : CatalogEvent) : Prop :=
  name_ok (ce_topic e) /\ is_object (ce_payload e) = true.

(** The document's rules, but for those of [protocol]. *)
Definition catalog_rules (c : Catalog) : Prop :=
  label_ok (cat_name c) /\ label_ok (cat_version c) /\
  Forall method_entry_ok (cat_methods c) /\ Forall event_entry_ok (cat_events c) /\
  (forall d, cat_capabilities c = Some d -> is_object d = true).

(** [protocol] refers to [protocol.json#/$defs/protocolVersion], whose [major] has a minimum of 1. *)
Definition catalog_schema (c : Catalog) : Prop :=
  catalog_rules c /\ (forall v, cat_protocol c = Some v -> 1 <= major v /\ 0 <= minor v).

(** ** JSON *)

(** [skip_serializing_if]: an empty list, a flag at its default. *)
Definition unless_empty {A} (k : string) (f : A -> Value) (l : list A) : Map :=
  match l with [] => [] | _ => [(k, VArray (map f l))] end.
Definition unless_default (k : string) (flag : bool) : Map :=
  if is_default_flag flag then [] else [(k, VBool flag)].

Definition method_members (m : CatalogMethod) : Map :=
  member "name" (from_str (cm_name m)) ++ optional "description" from_str (cm_description m) ++
  member "params" (cm_params m) ++ member "result" (cm_result m) ++
  unless_empty "capabilities" from_str (cm_capabilities m) ++ unless_default "deprecated" (cm_deprecated m).

Definition event_members (e : CatalogEvent) : Map :=
  member "topic" (from_str (ce_topic e)) ++ optional "description" from_str (ce_description e) ++
  member "payload" (ce_payload e) ++ unless_default "stream" (ce_stream e).

Definition catalog_members (c : Catalog) : Map :=
  member "name" (from_str (cat_name c)) ++ member "version" (from_str (cat_version c)) ++
  optional "description" from_str (cat_description c) ++
  optional "protocol" version_to_json (cat_protocol c) ++
  member "methods" (VArray (map (fun m => VObject (method_members m)) (cat_methods c))) ++
  unless_empty "events" (fun e => VObject (event_members e)) (cat_events c) ++
  optional "capabilities" (fun v => v) (cat_capabilities c).

(** [serde_json::to_value]: every object becomes a key-sorted map. *)
Definition catalog_to_value (c : Catalog) : Value := normalize (VObject (catalog_members c)).

Definition as_bool (v : Value) : decoded bool :=
  match v with VBool b => Ok b | _ => Err (wrong_type "a boolean") end.

Definition as_array {A} (f : Value -> decoded A) (v : Value) : decoded (list A) :=
  match v with VArray l => try_map (fun _ => f) 0 l | _ => Err (wrong_type "a sequence") end.

(** [#[serde(default)]]: a missing member takes the default, a present one is decoded. *)
Definition defaulted {A} (d : A) (k : string) (m : Map) (f : Value -> decoded A) : decoded A :=
  let? v := field k m in
  match v with Some v => f v | None => Ok d end.

Definition as_method (v : Value) : decoded CatalogMethod :=
  let? m := as_members v in
  let? name := required "name" m as_str in
  let? description := present_option "description" m as_str in
  let? params := required "params" m as_value in
  let? res := required "result" m as_value in
  let? capabilities := defaulted [] "capabilities" m (as_array as_str) in
  let? deprecated := defaulted false "deprecated" m as_bool in
  Ok {| cm_name := name; cm_description := description; cm_params := params; cm_result := res;
        cm_capabilities := capabilities; cm_deprecated := deprecated |}.

Definition as_event (v : Value) : decoded CatalogEvent :=
  let? m := as_members v in
  let? topic := required "topic" m as_str in
  let? description := present_option "description" m as_str in
  let? payload := required "payload" m as_value in
  let? stream := defaulted false "stream" m as_bool in
  Ok {| ce_topic := topic; ce_description := description; ce_payload := payload; ce_stream := stream |}.

(** [serde_json::from_value]. *)
Definition catalog_of_value (v : Value) : decoded Catalog :=
  let? m := as_members v in
  let? name := required "name" m as_str in
  let? version := required "version" m as_str in
  let? description := present_option "description" m as_str in
  let? protocol := present_option "protocol" m as_version in
  let? methods := required "methods" m (as_array as_method) in
  let? events := defaulted [] "events" m (as_array as_event) in
  let? capabilities := present_option "capabilities" m as_value in
  Ok {| cat_name := name; cat_version := version; cat_description := description; cat_protocol := protocol;
        cat_methods := methods; cat_events := events; cat_capabilities := capabilities |}.

(** ** Lemmas *)

Lemma check_document_Ok field d : check_document field d = Ok tt <-> is_object d = true.
Proof. unfold check_document. by destruct (is_object d). Qed.

Lemma check_name_Ok field s : check_name field s = Ok tt <-> label_ok s.
Proof.
  unfold check_name, label_ok. rewrite <- in_range_spec. change MAX_NAME_CHARS with 128.
  by destruct (in_range 1 128 (chars_count s)).
Qed.

Section validation.
Context {RT : RustText}.

Lemma check_grammar_Ok field s : check_grammar field s = Ok tt <-> name_ok s.
Proof.
  unfold check_grammar, name_ok. rewrite <- is_valid_method_name_lang. by destruct (is_valid_method_name s).
Qed.

Lemma check_capabilities_from_Ok field names : forall index earlier,
  check_capabilities_from field index earlier names = Ok tt <->
  Forall (fun n => n <> "") names /\ NoDup names /\ forall n, n ∈ names -> n ∉ earlier.
Proof.
  induction names as [|n names IH]; intros index earlier; simpl.
  { split; [|done]. intros _. split; [done|]. split; [constructor|]. by intros n Hn%elem_of_nil. }
  rewrite Forall_cons, NoDup_cons. case_bool_decide as Hn; [naive_solver|].
  case_bool_decide as He.
  { split; [done|]. intros (_ & _ & H). by apply H in He; [|apply list_elem_of_here]. }
  rewrite IH. setoid_rewrite elem_of_app. setoid_rewrite list_elem_of_singleton.
  setoid_rewrite elem_of_cons. naive_solver.
Qed.

Lemma check_capabilities_Ok field names :
  check_capabilities field names = Ok tt <-> Forall (fun n => n <> "") names /\ NoDup names.
Proof.
  unfold check_capabilities. rewrite check_capabilities_from_Ok.
  setoid_rewrite elem_of_nil. naive_solver.
Qed.

Lemma check_method_entry_Ok i m : check_method_entry i m = Ok tt <-> method_entry_ok m.
Proof.
  unfold check_method_entry, method_entry_ok. cbv zeta.
  by rewrite !result_bind_unit, check_capabilities_Ok, check_grammar_Ok, !check_document_Ok.
Qed.

Lemma check_event_entry_Ok i e : check_event_entry i e = Ok tt <-> event_entry_ok e.
Proof.
  unfold check_event_entry, event_entry_ok. cbv zeta. by rewrite result_bind_unit, check_grammar_Ok, check_document_Ok.
Qed.

Lemma validate_catalog_Ok c : validate_catalog c = Ok tt <-> catalog_rules c.
Proof.
  unfold validate_catalog, catalog_rules.
  rewrite !result_bind_unit, !check_name_Ok, (for_each_Ok _ _ _ _ check_method_entry_Ok),
    (for_each_Ok _ _ _ _ check_event_entry_Ok).
  destruct (cat_capabilities c) as [d|]; [rewrite check_document_Ok|]; naive_solver.
Qed.
End validation.

(** ** The JSON form reads back *)

Definition version_typed (v : ProtocolVersion) : bool := is_u32 (major v) && is_u32 (minor v).

(** What the Rust types guarantee of a catalog: 32-bit versions, key-sorted maps. *)
Definition catalog_typed (c : Catalog) : bool :=
  match cat_protocol c with Some v => version_typed v | None => true end &&
  forallb (fun m => value_ok (cm_params m) && value_ok (cm_result m)) (cat_methods c) &&
  forallb (fun e => value_ok (ce_payload e)) (cat_events c) &&
  match cat_capabilities c with Some v => value_ok v | None => true end.

Lemma normalize_object m :
  normalize (VObject m) =
  VObject (foldl (fun acc kv => map_insert kv.1 kv.2 acc) [] (map (fun kv => (kv.1, normalize kv.2)) m)).
Proof. reflexivity. Qed.

Lemma as_array_map {A} (f : Value -> decoded A) (g : A -> Value) l :
  Forall (fun a => f (normalize (g a)) = Ok a) l ->
  as_array f (VArray (map normalize (map g l))) = Ok l.
Proof.
  intros H. unfold as_array. rewrite !try_map_map. rewrite (try_map_total _ (fun a => a)).
  - by rewrite List.map_id.
  - eapply Forall_impl; [exact H|]. intros a Ha _. exact Ha.
Qed.


(** The strings of an array are already normal. *)
Lemma as_strings_normalize l : as_array as_str (normalize (VArray (map from_str l))) = Ok l.
Proof. cbn [normalize]. apply as_array_map. by apply Forall_true. Qed.

(** Runs the reader on an object whose keys are known; the arrays stay folded. *)
Ltac read_object :=
  rewrite normalize_object; cbv -[normalize as_array as_str as_method as_event as_value as_version version_to_json Z.leb u32_max].

Lemma as_method_normalize m :
  value_ok (cm_params m) = true -> value_ok (cm_result m) = true ->
  as_method (normalize (VObject (method_members m))) = Ok m.
Proof.
  destruct m as [name d params res caps dep]. cbn [cm_params cm_result]. intros Hp Hr.
  pose proof (as_strings_normalize caps) as Hc. unfold method_members, unless_empty, unless_default.
  cbn [cm_name cm_description cm_params cm_result cm_capabilities cm_deprecated].
  assert (Hn : forall v, value_ok v = true -> as_value (normalize v) = Ok v).
  { intros v Hv. unfold as_value. by rewrite !normalize_ok by (rewrite ?normalize_ok; done). }
  destruct caps as [|c caps]; [clear Hc|generalize dependent (VArray (map from_str (c :: caps))); intros L Hc];
    destruct d, dep; unfold as_method; read_object; rewrite ?Hc, ?Hn by done; done.
Qed.

Lemma as_event_normalize e :
  value_ok (ce_payload e) = true -> as_event (normalize (VObject (event_members e))) = Ok e.
Proof.
  destruct e as [topic d payload stream]. cbn [ce_payload]. intros Hp.
  assert (as_value (normalize payload) = Ok payload) as Hn.
  { unfold as_value. by rewrite !normalize_ok by (rewrite ?normalize_ok; done). }
  unfold event_members, unless_default. cbn [ce_topic ce_description ce_payload ce_stream].
  destruct d, stream; unfold as_event; read_object; rewrite ?Hn; done.
Qed.

Lemma as_version_normalize v : version_typed v = true -> as_version (normalize (version_to_json v)) = Ok v.
Proof.
  destruct v as [ma mi]. unfold version_typed, is_u32. intros H. cbn [major minor] in H. bools.
  unfold version_to_json, as_version. read_object. cbn [normalize].
  by rewrite !(proj2 (Z.leb_le _ _)) by lia.
Qed.

(** Empty lists, absent descriptions and default flags, which the document leaves out, come back
    as they were. *)
Lemma catalog_of_to_value c : catalog_typed c = true -> catalog_of_value (catalog_to_value c) = Ok c.
Proof.
  destruct c as [name version d protocol methods events caps]. unfold catalog_typed, catalog_to_value, catalog_members.
  cbn [cat_name cat_version cat_description cat_protocol cat_methods cat_events cat_capabilities].
  intros H. bools. rename H0 into Hc, H1 into He, H2 into Hm, H into Hp.
  apply forallb_Forall in He, Hm.
  assert (Hma : as_array as_method (normalize (VArray (map (fun m => VObject (method_members m)) methods))) = Ok methods).
  { cbn [normalize]. apply as_array_map. eapply Forall_impl; [exact Hm|]. intros m ?. simpl in *. bools.
    by apply as_method_normalize. }
  assert (Hea : as_array as_event (normalize (VArray (map (fun e => VObject (event_members e)) events))) = Ok events).
  { cbn [normalize]. apply as_array_map. eapply Forall_impl; [exact He|]. intros e ?. by apply as_event_normalize. }
  assert (Hcv : forall v, caps = Some v -> as_value (normalize v) = Ok v).
  { intros v ->. unfold as_value. by rewrite !normalize_ok by (rewrite ?normalize_ok; done). }
  assert (Hpv : forall v, protocol = Some v -> as_version (normalize (version_to_json v)) = Ok v).
  { intros v ->. by apply as_version_normalize. }
  clear Hm He Hc Hp. generalize dependent (VArray (map (fun m => VObject (method_members m)) methods)). intros ML Hma.
  unfold unless_empty. destruct events as [|e events];
    [clear Hea|generalize dependent (VArray (map (fun e => VObject (event_members e)) (e :: events))); intros EL Hea];
    destruct d, protocol as [v|], caps as [cv|]; unfold catalog_of_value; read_object;
    rewrite ?Hma, ?Hea, ?(Hpv _ eq_refl), ?(Hcv _ eq_refl); done.
Qed.

(** ** Properties *)

(** Catalog, spec section 12.  [Catalog::validate] accepts a catalog exactly when it keeps the
    rules of [catalog.json] but one: the document also bounds [protocol.major] from below, which the
    method does not check, so a catalog announcing major 0 passes here and is refused by every
    reader of the schema. *)
Theorem catalog_validate_rules {RT : RustText} (c : Catalog) :
  (validate_catalog c = Ok tt <-> catalog_rules c) /\
  (catalog_schema c <->
     validate_catalog c = Ok tt /\ (forall v, cat_protocol c = Some v -> 1 <= major v /\ 0 <= minor v)) /\
  (exists zero, validate_catalog zero = Ok tt /\ ~ catalog_schema zero /\
     cat_protocol zero = Some {| major := 0; minor := 0 |}).
Proof.
  split; [apply validate_catalog_Ok|]. split; [unfold catalog_schema; by rewrite validate_catalog_Ok|].
  exists {| cat_name := "c"; cat_version := "1"; cat_description := None;
            cat_protocol := Some {| major := 0; minor := 0 |}; cat_methods := []; cat_events := [];
            cat_capabilities := None |}.
  split; [reflexivity|]. split; [|done]. intros [_ H]. specialize (H _ eq_refl). simpl in H. lia.
Qed.


(** ** A catalog *)

Definition echo_schema : Value := VObject [("type", from_str "object")].

Definition echo_method : CatalogMethod :=
  {| cm_name := "text.echo"; cm_description := Some "Repeats a text."; cm_params := echo_schema; cm_result := echo_schema;
     cm_capabilities := ["text"]; cm_deprecated := false |}.

Definition text_catalog : Catalog :=
  {| cat_name := "text"; cat_version := "1.0.0"; cat_description := None;
     cat_protocol := Some {| major := 1; minor := 1 |}; cat_methods := [echo_method];
     cat_events := [{| ce_topic := "text.tick"; ce_description := None; ce_payload := echo_schema; ce_stream := true |}];
     cat_capabilities := None |}.
