(* ===== verification/Schema.v ===== *)
(** * JSON Schema emission

    [schema.rs]: the constraints the crate attaches to its members, the tagging of the frame
    schemas and the two documents.  [schemars] derives the schema of each struct; what it derives
    ([Map] of definitions) is an argument here.  What a constraint means is JSON Schema's, in
    [accepts], for the keywords the constraints use; the patterns are read by [Regex].

    The point of the module is that "the emission carries the same constraints [validate] enforces":
    [validate_iff_emitted] and [catalog_iff_emitted] compare the emitted constraints with the code
    that validates frames and catalogs. *)

From S2P Require Import Prelude Json Wire Frame Validate Regex Catalog.
Local Open Scope Z_scope.

(** A JSON object literal. *)
Definition obj (members : list (string * Value)) : Value :=
  VObject (foldl (fun m kv => map_insert kv.1 kv.2 m) [] members).

(** ** [mod constraints] *)

Definition id_constraint : Value :=
  obj [("type", from_str "string"); ("minLength", from_u64 1); ("maxLength", from_u64 MAX_ID_CHARS)].

Definition method_name_constraint : Value :=
  obj [("type", from_str "string"); ("minLength", from_u64 MIN_NAME_CHARS);
       ("maxLength", from_u64 MAX_NAME_CHARS); ("pattern", from_str METHOD_NAME_PATTERN)].

Definition peer_label_constraint : Value :=
  obj [("type", from_str "string"); ("minLength", from_u64 1); ("maxLength", from_u64 MAX_NAME_CHARS)].

Definition role_constraint : Value :=
  obj [("type", from_str "string"); ("minLength", from_u64 1); ("maxLength", from_u64 MAX_CODE_CHARS);
       ("pattern", from_str "^[a-z][a-z0-9-]*$")].

Definition error_code_constraint : Value :=
  obj [("type", from_str "string"); ("minLength", from_u64 1); ("maxLength", from_u64 MAX_CODE_CHARS);
       ("pattern", from_str "^[A-Z][A-Z0-9_]*$")].

Definition error_message_constraint : Value := obj [("type", from_str "string"); ("minLength", from_u64 1)].

Definition open_object_constraint : Value := obj [("type", from_str "object")].

Definition major_constraint : Value := obj [("type", from_str "integer"); ("minimum", from_u64 1)].

Definition non_negative_constraint : Value := obj [("type", from_str "integer"); ("minimum", from_u64 0)].

Definition max_frame_bytes_constraint : Value :=
  obj [("type", from_str "integer"); ("minimum", from_u64 MIN_ANNOUNCED_FRAME_BYTES);
       ("maximum", from_u64 MAX_ANNOUNCED_FRAME_BYTES)].

Definition max_in_flight_constraint : Value :=
  obj [("type", from_str "integer"); ("minimum", from_u64 MIN_ANNOUNCED_IN_FLIGHT);
       ("maximum", from_u64 MAX_ANNOUNCED_IN_FLIGHT)].

Definition close_code_constraint : Value :=
  obj [("type", from_str "integer"); ("minimum", from_u64 MIN_CLOSE_CODE);
       ("maximum", from_u64 MAX_CLOSE_CODE)].

Definition close_reason_constraint : Value :=
  obj [("type", from_str "string"); ("maxLength", from_u64 MAX_REASON_CHARS)].

Definition capability_names_constraint : Value :=
  obj [("type", from_str "array");
       ("items", obj [("type", from_str "string"); ("minLength", from_u64 1)]);
       ("uniqueItems", VBool true)].

Definition end_constraint : Value := obj [("type", from_str "boolean"); ("const", VBool true)].

(** ** The documents *)

Definition CATALOG_ROOT : string := "catalog".
Definition TAGGED_FRAMES : list string := ["hello"; "req"; "res"; "err"; "evt"; "cancel"; "close"].
Definition BARE_FRAMES : list string := ["ping"; "pong"].
Definition FRAME_ORDER : list string :=
  ["hello"; "req"; "res"; "err"; "evt"; "cancel"; "ping"; "pong"; "close"].

Definition tag_property (tag : string) : Value := obj [("type", from_str "string"); ("const", from_str tag)].

Definition bare_frame (tag : string) : Value :=
  obj [("type", from_str "object"); ("required", VArray [from_str "type"]);
       ("properties", obj [("type", tag_property tag)])].

Definition add_tag (definitions : Map) (tag : string) : Map :=
  match map_get tag definitions with
  | Some (VObject frame) =>
      let properties := default (VObject []) (map_get "properties" frame) in
      let properties :=
        match properties with
        | VObject properties => VObject (map_insert "type" (tag_property tag) properties)
        | other => other
        end in
      let frame := map_insert "properties" properties frame in
      let existing := match map_get "required" frame with Some (VArray names) => names | _ => [] end in
      let required :=
        from_str "type" :: List.filter (fun name => negb (bool_decide (name = from_str "type"))) existing in
      map_insert tag (VObject (map_insert "required" (VArray required) frame)) definitions
  | _ => definitions
  end.

(** [emit_schema], of the definitions the generator took from the seven payload structs. *)
Definition emit_schema (definitions : Map) : Value :=
  let definitions := foldl add_tag definitions TAGGED_FRAMES in
  let definitions := foldl (fun d tag => map_insert tag (bare_frame tag) d) definitions BARE_FRAMES in
  let branches := map (fun tag => obj [("$ref", from_str ("#/$defs/" +:+ tag))]) FRAME_ORDER in
  let definitions := map_insert "frame" (obj [("oneOf", VArray branches)]) definitions in
  obj [("$defs", VObject definitions)].

(** [Map::remove]: the entries under the other keys. *)
Definition map_remove (k : string) (m : Map) : Map :=
  List.filter (fun kv => negb (bool_decide (kv.1 = k))) m.

(** The two panics of [emit_catalog_schema], with what their messages show. *)
Inductive CatalogPanic : Type :=
| NoRoot (defined : list string)
| NotAnObject (other : Value).

Definition emit_catalog_schema (definitions : Map) : result Value CatalogPanic :=
  match map_get CATALOG_ROOT definitions with
  | None => Err (NoRoot (map fst definitions))
  | Some root =>
      let definitions := map_remove CATALOG_ROOT definitions in
      match root with
      | VObject root => Ok (VObject (map_insert "$defs" (VObject definitions) root))
      | other => Err (NotAnObject other)
      end
  end.

(** ** What a schema accepts *)

(** [type].  A float is judged by its value in JSON Schema; no member a constraint is attached to is
    one, so none is accepted here as an integer. *)
Definition type_accepts (t : string) (v : Value) : bool :=
  match v with
  | Null => String.eqb t "null"
  | VBool _ => String.eqb t "boolean"
  | VNumber (Float _) => String.eqb t "number"
  | VNumber _ => String.eqb t "number" || String.eqb t "integer"
  | VString _ => String.eqb t "string"
  | VArray _ => String.eqb t "array"
  | VObject _ => String.eqb t "object"
  end.

(** A keyword other than [items]: it constrains the values of its own type, and an unknown one is
    an annotation. *)
Definition keyword_accepts (k : string) (s v : Value) : bool :=
  match k, s, v with
  | "type", VString t, _ => type_accepts t v
  | "minLength", VNumber (PosInt n), VString x => n <=? chars_count x
  | "maxLength", VNumber (PosInt n), VString x => chars_count x <=? n
  | "minimum", VNumber (PosInt n), VNumber (PosInt m) => n <=? m
  | "minimum", VNumber (PosInt n), VNumber (NegInt m) => n <=? m
  | "maximum", VNumber (PosInt n), VNumber (PosInt m) => m <=? n
  | "maximum", VNumber (PosInt n), VNumber (NegInt m) => m <=? n
  | "pattern", VString p, VString x =>
      match parse_pattern p with Some r => matches r (to_bytes x) | None => false end
  | "const", _, _ => bool_decide (v = s)
  | "uniqueItems", VBool true, VArray items => bool_decide (NoDup items)
  | _, _, _ => true
  end.

Fixpoint accepts (schema v : Value) : bool :=
  match schema with
  | VBool b => b
  | VObject members =>
      forallb (fun kv =>
        if String.eqb kv.1 "items"
        then match v with VArray items => forallb (accepts kv.2) items | _ => true end
        else keyword_accepts kv.1 kv.2 v) members
  | _ => false
  end.

(** An absent member is constrained by nothing. *)
Definition optional_member {A} (constraint : Value) (f : A -> Value) (o : option A) : list (Value * Value) :=
  match o with Some a => [(constraint, f a)] | None => [] end.

(** The members of each struct with the constraint [schema_with] attaches to them in [frame.rs] and
    [version.rs]. *)
Definition version_constraints (v : ProtocolVersion) : list (Value * Value) :=
  [(major_constraint, from_u64 (major v)); (non_negative_constraint, from_u64 (minor v))].

Definition limits_constraints (l : Limits) : list (Value * Value) :=
  optional_member max_frame_bytes_constraint from_u64 (max_frame_bytes l) ++
  optional_member max_in_flight_constraint from_u64 (max_in_flight l).

Definition frame_constraints (f : Frame) : list (Value * Value) :=
  match f with
  | FHello h =>
      version_constraints (hello_protocol h) ++
      [(peer_label_constraint, from_str (peer_name (hello_peer h)));
       (peer_label_constraint, from_str (peer_version (hello_peer h)));
       (role_constraint, from_str (peer_role (hello_peer h)));
       (open_object_constraint, VObject (hello_capabilities h))] ++
      match hello_limits h with Some l => limits_constraints l | None => [] end
  | FReq r => [(id_constraint, from_str (req_id r)); (method_name_constraint, from_str (req_method r))]
  | FRes r => [(id_constraint, from_str (res_id r))]
  | FErr e =>
      [(id_constraint, from_str (err_id e)); (error_code_constraint, from_str (err_code (err_error e)));
       (error_message_constraint, from_str (err_message (err_error e)))] ++
      optional_member open_object_constraint VObject (err_details (err_error e))
  | FEvt e =>
      [(method_name_constraint, from_str (evt_topic e)); (non_negative_constraint, from_u64 (evt_seq e))] ++
      optional_member id_constraint from_str (evt_stream_id e) ++
      optional_member end_constraint (fun _ => VBool true) (evt_end e)
  | FCancel c => [(id_constraint, from_str (cancel_id c))]
  | FPing | FPong => []
  | FClose c =>
      [(close_code_constraint, from_u64 (close_code c))] ++
      optional_member close_reason_constraint from_str (close_reason c)
  end.

(** The same for [catalog.rs]. *)
Definition method_constraints (m : CatalogMethod) : list (Value * Value) :=
  [(method_name_constraint, from_str (cm_name m)); (open_object_constraint, cm_params m);
   (open_object_constraint, cm_result m);
   (capability_names_constraint, VArray (map from_str (cm_capabilities m)))].

Definition event_constraints (e : CatalogEvent) : list (Value * Value) :=
  [(method_name_constraint, from_str (ce_topic e)); (open_object_constraint, ce_payload e)].

Definition catalog_constraints (c : Catalog) : list (Value * Value) :=
  [(peer_label_constraint, from_str (cat_name c)); (peer_label_constraint, from_str (cat_version c))] ++
  match cat_protocol c with Some v => version_constraints v | None => [] end ++
  concat (map method_constraints (cat_methods c)) ++ concat (map event_constraints (cat_events c)) ++
  optional_member open_object_constraint (fun v => v) (cat_capabilities c).

Definition all_accepted (members : list (Value * Value)) : Prop :=
  Forall (fun '(constraint, v) => accepts constraint v = true) members.
