(* ===== verification/SchemaProps.v ===== *)
(** * The emitted schemas against the code

    The patterns' languages, what each constraint accepts, and the theorems that compare the emission
    of [schema.rs] with [validate.rs] and [catalog.rs]. *)

From S2P Require Import Prelude Json Wire Frame Validate Regex Catalog Schema.
Local Open Scope Z_scope.

(** ** Languages of expressions *)

Lemma lang_cat_iff r s b : lang (RCat r s) b <-> exists x y, b = x ++ y /\ lang r x /\ lang s y.
Proof. split; [inversion 1; subst; eauto 6|]. intros (x & y & -> & ? & ?). by constructor. Qed.

Lemma lang_eps_iff b : lang REps b <-> b = [].
Proof. split; [by inversion 1|intros ->; constructor]. Qed.

Lemma lang_set_iff ranges b : lang (RSet ranges) b <-> exists c, b = [c] /\ in_ranges ranges c = true.
Proof. split; [inversion 1; subst; eauto|intros (c & -> & ?); by constructor]. Qed.

Lemma lang_opt_iff r b : lang (RAlt REps r) b <-> b = [] \/ lang r b.
Proof.
  split; [inversion 1 as [| | |? ? ? He| | |]; subst; [left; by apply lang_eps_iff|by right]|].
  intros [->|H]; [apply lang_alt_l; constructor|by apply lang_alt_r].
Qed.

Lemma lang_star_set ranges b : lang (RStar (RSet ranges)) b <-> Forall (fun c => in_ranges ranges c = true) b.
Proof.
  split.
  - intros H. remember (RStar (RSet ranges)) as r eqn:E. induction H as [| | | | | |? a b Ha _ _ IH]; try done.
    injection E as ->. apply lang_set_iff in Ha as (c & -> & Hc). constructor; auto.
  - induction 1 as [|c b Hc _ IH]; [constructor|]. apply (lang_star_more _ [c] b); [by constructor|done].
Qed.

(** A class followed by a star over another, as in the patterns of roles and codes. *)
Lemma lang_head_star head tail b :
  lang (RCat (RSet head) (RCat (RStar (RSet tail)) REps)) b <->
  exists c rest, b = c :: rest /\ in_ranges head c = true /\ Forall (fun x => in_ranges tail x = true) rest.
Proof.
  rewrite lang_cat_iff. setoid_rewrite lang_cat_iff. setoid_rewrite lang_set_iff. setoid_rewrite lang_star_set.
  setoid_rewrite lang_eps_iff. split.
  - intros (x & y & -> & (c & -> & Hc) & (u & v & -> & Hu & ->)). exists c, u. by rewrite app_nil_r.
  - intros (c & rest & -> & Hc & Hr). exists [c], rest. split; [done|]. split; [eauto|].
    exists rest, []. by rewrite app_nil_r.
Qed.

(** ** The three patterns *)

Definition lower_class : list (u8 * u8) := [("a", "z")]%char.
Definition name_class : list (u8 * u8) := [("a", "z"); ("0", "9"); ("-", "-")]%char.
Definition last_class : list (u8 * u8) := [("a", "z"); ("0", "9")]%char.
Definition upper_class : list (u8 * u8) := [("A", "Z")]%char.
Definition code_class : list (u8 * u8) := [("A", "Z"); ("0", "9"); ("_", "_")]%char.

(** [[a-z](?:[a-z0-9-]*[a-z0-9])?] and its dotted form. *)
Definition tail_re : re := RAlt REps (RCat (RStar (RSet name_class)) (RCat (RSet last_class) REps)).
Definition dotted_re : re :=
  RCat (RSet [("."%char, "."%char)]) (RCat (RSet lower_class) (RCat tail_re REps)).
Definition name_re : re :=
  RCat (RSet lower_class) (RCat tail_re (RCat (RCat dotted_re (RStar dotted_re)) REps)).
Definition role_re : re := RCat (RSet lower_class) (RCat (RStar (RSet name_class)) REps).
Definition code_re : re := RCat (RSet upper_class) (RCat (RStar (RSet code_class)) REps).

Lemma parse_name_pattern : parse_pattern METHOD_NAME_PATTERN = Some name_re.
Proof. vm_compute. reflexivity. Qed.

Lemma parse_role_pattern : parse_pattern "^[a-z][a-z0-9-]*$" = Some role_re.
Proof. vm_compute. reflexivity. Qed.

Lemma parse_code_pattern : parse_pattern "^[A-Z][A-Z0-9_]*$" = Some code_re.
Proof. vm_compute. reflexivity. Qed.

(** The classes are the tests of [validate.rs]. *)
Lemma lower_class_spec c : in_ranges lower_class c = is_ascii_lowercase c.
Proof. destruct c as [[] [] [] [] [] [] [] []]; reflexivity. Qed.

Lemma name_class_spec c : in_ranges name_class c = segment_char c.
Proof. destruct c as [[] [] [] [] [] [] [] []]; reflexivity. Qed.

Lemma last_class_spec c : in_ranges last_class c = is_ascii_lowercase c || is_ascii_digit c.
Proof. destruct c as [[] [] [] [] [] [] [] []]; reflexivity. Qed.

Lemma upper_class_spec c : in_ranges upper_class c = is_ascii_uppercase c.
Proof. destruct c as [[] [] [] [] [] [] [] []]; reflexivity. Qed.

Lemma code_class_spec c : in_ranges code_class c = code_char c.
Proof. destruct c as [[] [] [] [] [] [] [] []]; reflexivity. Qed.

Lemma role_re_lang b : lang role_re b <-> role_lang b.
Proof.
  unfold role_re, role_lang, lower. rewrite lang_head_star. setoid_rewrite lower_class_spec.
  by setoid_rewrite name_class_spec.
Qed.

Lemma code_re_lang b : lang code_re b <-> code_lang b.
Proof.
  unfold code_re, code_lang. rewrite lang_head_star. setoid_rewrite upper_class_spec.
  by setoid_rewrite code_class_spec.
Qed.

Lemma tail_re_lang b :
  lang tail_re b <->
  b = [] \/ exists middle d, b = middle ++ [d] /\ Forall (fun x => segment_char x = true) middle /\ lower_or_digit d.
Proof.
  unfold tail_re, lower_or_digit. rewrite lang_opt_iff. setoid_rewrite lang_cat_iff. setoid_rewrite lang_cat_iff.
  setoid_rewrite lang_star_set. setoid_rewrite lang_set_iff. setoid_rewrite lang_eps_iff.
  setoid_rewrite name_class_spec. setoid_rewrite last_class_spec. split.
  - intros [->|(m & y & -> & Hm & (u & v & -> & (d & -> & Hd) & ->))]; [by left|right]. rewrite app_nil_r. eauto.
  - intros [->|(m & d & -> & Hm & Hd)]; [by left|right]. exists m, [d]. split; [done|]. split; [done|].
    exists [d], []. eauto.
Qed.

(** A lowercase letter and a tail are a segment. *)
Lemma segment_tail b : segment_lang b <-> exists c t, b = c :: t /\ lower c /\ lang tail_re t.
Proof.
  setoid_rewrite tail_re_lang. split.
  - intros [c Hc|c m d Hc Hm Hd]; [exists c, []; eauto|exists c, (m ++ [d]); naive_solver].
  - intros (c & t & -> & Hc & [->|(m & d & -> & Hm & Hd)]); by constructor.
Qed.

Lemma dotted_re_lang b : lang dotted_re b <-> exists t, b = "."%char :: t /\ segment_lang t.
Proof.
  setoid_rewrite segment_tail. unfold dotted_re, lower. setoid_rewrite lang_cat_iff. setoid_rewrite lang_cat_iff.
  setoid_rewrite lang_cat_iff. setoid_rewrite lang_set_iff. setoid_rewrite lang_eps_iff.
  setoid_rewrite lower_class_spec. split.
  - intros (x & y & -> & (c & -> & Hdot) & (u & v & -> & (d & -> & Hd) & (t & w & -> & Ht & ->))).
    rewrite app_nil_r. exists (d :: t). split; [|eauto]. f_equal.
    destruct c as [[] [] [] [] [] [] [] []]; done.
  - intros (t & -> & (d & w & -> & Hd & Hw)). exists ["."%char], (d :: w). split; [done|]. split; [eauto|].
    exists [d], w. split; [done|]. split; [eauto|]. exists w, []. by rewrite app_nil_r.
Qed.

(** Further dotted segments lengthen a name. *)
Lemma dotted_star_name g :
  lang (RStar dotted_re) g ->
  forall s t, segment_lang s -> segment_lang t -> name_lang (s ++ "."%char :: t ++ g).
Proof.
  intros H. remember (RStar dotted_re) as r eqn:E. induction H as [| | | | |r|r a b Ha _ Hb IH]; try done.
  - intros s t Hs Ht. rewrite app_nil_r. by apply name_two.
  - injection E as ->. apply dotted_re_lang in Ha as (u & -> & Hu). intros s t Hs Ht. apply name_more; [done|].
    rewrite <- app_comm_cons. by apply IH.
Qed.

Lemma name_dotted_star b :
  name_lang b ->
  exists s t g, b = s ++ "."%char :: t ++ g /\ segment_lang s /\ segment_lang t /\ lang (RStar dotted_re) g.
Proof.
  induction 1 as [s t Hs Ht|s b Hs _ (t & u & g & -> & Ht & Hu & Hg)].
  - exists s, t, []. rewrite app_nil_r. repeat split; try done. constructor.
  - exists s, t, ("."%char :: u ++ g). repeat split; try done.
    rewrite app_comm_cons. constructor; [apply dotted_re_lang; eauto|done].
Qed.

Lemma name_re_lang b : lang name_re b <-> name_lang b.
Proof.
  split.
  - unfold name_re. rewrite lang_cat_iff. setoid_rewrite lang_cat_iff. setoid_rewrite lang_cat_iff.
    setoid_rewrite lang_cat_iff. setoid_rewrite lang_set_iff. setoid_rewrite lang_eps_iff.
    setoid_rewrite dotted_re_lang. setoid_rewrite lower_class_spec.
    intros (x & y & -> & (c & -> & Hc) & (t & z & -> & Ht & (u & v & -> & (w & g & -> & (s & -> & Hs) & Hg) & ->))).
    rewrite app_nil_r. change ([c] ++ t ++ ?z) with ((c :: t) ++ z). apply dotted_star_name; [done| |done].
    apply segment_tail. eauto.
  - intros (s & t & g & -> & (c & m & -> & Hc & Hm)%segment_tail & Ht & Hg)%name_dotted_star.
    unfold lower in Hc. rewrite <- lower_class_spec in Hc.
    apply (lang_cat _ _ [c]); [by constructor|]. apply lang_cat; [done|].
    rewrite <- (app_nil_r ("."%char :: t ++ g)). apply lang_cat; [|constructor].
    rewrite app_comm_cons. constructor; [apply dotted_re_lang; eauto|done].
Qed.

(** ** What each constraint accepts *)

Lemma matches_name b : matches name_re b = true <-> name_lang b.
Proof. by rewrite matches_lang, name_re_lang. Qed.

Lemma matches_role b : matches role_re b = true <-> role_lang b.
Proof. by rewrite matches_lang, role_re_lang. Qed.

Lemma matches_code b : matches code_re b = true <-> code_lang b.
Proof. by rewrite matches_lang, code_re_lang. Qed.

(** Evaluates the literal, leaving the tests of its keywords. *)
Ltac read_constraint c :=
  let v := eval vm_compute in c in
  change c with v; cbn -[chars_count matches parse_pattern to_bytes Z.leb];
  rewrite ?andb_true_iff, ?Z.leb_le.

Lemma accepts_id s : accepts id_constraint (from_str s) = true <-> id_ok s.
Proof. read_constraint id_constraint. unfold id_ok. intuition lia. Qed.

Lemma accepts_label s : accepts peer_label_constraint (from_str s) = true <-> label_ok s.
Proof. read_constraint peer_label_constraint. unfold label_ok. intuition lia. Qed.

Lemma accepts_method_name s : accepts method_name_constraint (from_str s) = true <-> name_ok s.
Proof.
  change (accepts method_name_constraint (from_str s))
    with ((chars_count s <=? 128) && ((3 <=? chars_count s) &&
          (match parse_pattern METHOD_NAME_PATTERN with Some r => matches r (to_bytes s) | None => false end && true))).
  rewrite parse_name_pattern, !andb_true_iff, !Z.leb_le, matches_name. unfold name_ok. split; [naive_solver|].
  intros [Hl Hc]. repeat split; try done. rewrite chars_count_ascii by by apply name_lang_ascii.
  apply name_lang_length in Hl. unfold len. lia.
Qed.

Lemma accepts_role s :
  accepts role_constraint (from_str s) = true <-> role_lang (to_bytes s) /\ 1 <= chars_count s <= 64.
Proof.
  change (accepts role_constraint (from_str s))
    with ((chars_count s <=? 64) && ((1 <=? chars_count s) &&
          (match parse_pattern "^[a-z][a-z0-9-]*$" with Some r => matches r (to_bytes s) | None => false end && true))).
  rewrite parse_role_pattern, !andb_true_iff, !Z.leb_le, matches_role. intuition.
Qed.

Lemma accepts_code s : accepts error_code_constraint (from_str s) = true <-> code_ok s.
Proof.
  change (accepts error_code_constraint (from_str s))
    with ((chars_count s <=? 64) && ((1 <=? chars_count s) &&
          (match parse_pattern "^[A-Z][A-Z0-9_]*$" with Some r => matches r (to_bytes s) | None => false end && true))).
  rewrite parse_code_pattern, !andb_true_iff, !Z.leb_le, matches_code. unfold code_ok. intuition.
Qed.

Lemma accepts_message s : accepts error_message_constraint (from_str s) = true <-> 1 <= chars_count s.
Proof. read_constraint error_message_constraint. intuition. Qed.

Lemma accepts_reason s : accepts close_reason_constraint (from_str s) = true <-> chars_count s <= 1024.
Proof. read_constraint close_reason_constraint. intuition. Qed.

Lemma accepts_object v : accepts open_object_constraint v = true <-> is_object v = true.
Proof. destruct v as [| |[]| | |]; done. Qed.

Lemma accepts_major n : accepts major_constraint (from_u64 n) = true <-> 1 <= n.
Proof. read_constraint major_constraint. intuition. Qed.

Lemma accepts_non_negative n : accepts non_negative_constraint (from_u64 n) = true <-> 0 <= n.
Proof. read_constraint non_negative_constraint. intuition. Qed.

Lemma accepts_frame_bytes n :
  accepts max_frame_bytes_constraint (from_u64 n) = true <-> 4096 <= n <= 2147483647.
Proof. read_constraint max_frame_bytes_constraint. intuition. Qed.

Lemma accepts_in_flight n : accepts max_in_flight_constraint (from_u64 n) = true <-> 1 <= n <= 2147483647.
Proof. read_constraint max_in_flight_constraint. intuition. Qed.

Lemma accepts_close_code n : accepts close_code_constraint (from_u64 n) = true <-> 4000 <= n <= 4999.
Proof. read_constraint close_code_constraint. intuition. Qed.

Lemma accepts_end : accepts end_constraint (VBool true) = true.
Proof. reflexivity. Qed.

(** A character has a first byte: text that is not empty has one. *)
Lemma utf8_first c b : is_utf8 (c :: b) = true -> is_continuation c = false.
Proof.
  destruct (is_continuation c) eqn:E; [|done].
  assert (Hz : (Z_of_byte c <=? 127) = false /\ in_range 194 223 (Z_of_byte c) = false /\
          in_range 224 239 (Z_of_byte c) = false /\ in_range 240 244 (Z_of_byte c) = false).
  { clear b. destruct c as [[] [] [] [] [] [] [] []]; done. }
  destruct Hz as (H1 & H2 & H3 & H4). cbn [is_utf8]. rewrite H1, H2, H3, H4. destruct b as [|? [|? []]]; done.
Qed.

Lemma chars_count_pos s : str_ok s = true -> (1 <= chars_count s <-> s <> "").
Proof.
  unfold str_ok, chars_count. destruct s as [|c s]; [done|]. change (to_bytes (String c s)) with (c :: to_bytes s).
  intros Hc%utf8_first.
  rewrite filter_cons_True by by rewrite Hc. rewrite len_cons.
  split; [done|]. intros _. match goal with |- context [len ?l] => pose proof (len_nonneg l) end. lia.
Qed.

(** ** Frames *)

(** What [validate] asks beyond the constraints: a role does not end with a dash, and a message is no
    longer than an address can count. *)
Definition beyond_schema (f : Frame) : Prop :=
  match f with
  | FHello h => last (to_bytes (peer_role (hello_peer h))) <> Some "-"%char
  | FErr e => chars_count (err_message (err_error e)) <= usize_max
  | _ => True
  end.

Lemma all_accepted_cons c v l : all_accepted ((c, v) :: l) <-> accepts c v = true /\ all_accepted l.
Proof. unfold all_accepted. by rewrite Forall_cons. Qed.

Lemma all_accepted_app l k : all_accepted (l ++ k) <-> all_accepted l /\ all_accepted k.
Proof. unfold all_accepted. by rewrite Forall_app. Qed.

Lemma all_accepted_nil : all_accepted [] <-> True.
Proof. unfold all_accepted. by rewrite Forall_nil. Qed.

Lemma all_accepted_optional {A} c (f : A -> Value) o :
  all_accepted (optional_member c f o) <-> forall a, o = Some a -> accepts c (f a) = true.
Proof.
  destruct o as [a|]; cbn [optional_member].
  - rewrite all_accepted_cons, all_accepted_nil. naive_solver.
  - rewrite all_accepted_nil. naive_solver.
Qed.

Lemma version_constraints_ok v :
  is_u32 (minor v) = true -> (all_accepted (version_constraints v) <-> 1 <= major v).
Proof.
  intros Hm. unfold version_constraints. rewrite !all_accepted_cons, all_accepted_nil, accepts_major, accepts_non_negative.
  apply in_range_spec in Hm. intuition lia.
Qed.

Lemma limits_constraints_ok l :
  all_accepted (limits_constraints l) <->
  opt_in (max_frame_bytes l) 4096 2147483647 /\ opt_in (max_in_flight l) 1 2147483647.
Proof.
  unfold limits_constraints, opt_in. rewrite all_accepted_app, !all_accepted_optional.
  setoid_rewrite accepts_frame_bytes. by setoid_rewrite accepts_in_flight.
Qed.

(** Splits the acceptance of a list of members and reads each constraint. *)
Ltac read_members :=
  rewrite ?all_accepted_app, ?all_accepted_cons, ?all_accepted_optional, ?all_accepted_nil, ?accepts_id,
    ?accepts_method_name, ?accepts_label, ?accepts_role, ?accepts_code, ?accepts_message, ?accepts_object,
    ?accepts_non_negative, ?accepts_close_code;
  try setoid_rewrite accepts_id; try setoid_rewrite accepts_object; try setoid_rewrite accepts_reason;
  try setoid_rewrite accepts_end.

Lemma hello_constraints_ok h :
  frame_typed (FHello h) = true ->
  all_accepted (frame_constraints (FHello h)) /\ beyond_schema (FHello h) <-> schema_valid (FHello h).
Proof.
  cbn [frame_typed frame_constraints schema_valid beyond_schema]. rewrite !andb_true_iff. intros Ht.
  read_members. rewrite version_constraints_ok by naive_solver. unfold role_ok.
  assert (Hl : all_accepted match hello_limits h with Some l => limits_constraints l | None => [] end <->
    forall l, hello_limits h = Some l ->
      opt_in (max_frame_bytes l) 4096 2147483647 /\ opt_in (max_in_flight l) 1 2147483647).
  { destruct (hello_limits h) as [l|]; [rewrite limits_constraints_ok|rewrite all_accepted_nil]; naive_solver. }
  rewrite Hl. cbn [is_object]. clear Ht Hl. intuition.
Qed.

Lemma frame_constraints_ok f :
  frame_typed f = true -> all_accepted (frame_constraints f) /\ beyond_schema f <-> schema_valid f.
Proof.
  destruct f as [h|r|r|e|e|c| | |c]; [apply hello_constraints_ok|..];
    cbn [frame_typed frame_constraints schema_valid beyond_schema]; rewrite ?andb_true_iff; intros Ht; read_members.
  - intuition.
  - intuition.
  - cbn [is_object]. intuition.
  - destruct Ht as [[[_ [Hs _]%andb_true_iff] _] _]. apply Z.leb_le in Hs. intuition.
  - intuition.
  - intuition.
  - intuition.
  - intuition.
Qed.

(** C34 (schema emission, [schema.rs] against [validate.rs]).  A frame whose members fit their Rust types
    passes [validate] exactly when every member is accepted by the constraint its field is emitted with,
    read as JSON Schema (types, lengths, ranges and patterns), but for two things the constraints do not
    say: a role may not end with a dash, and a message is at most [usize::MAX] characters. *)
Theorem validate_iff_emitted {RT : RustText} (f : Frame) :
  frame_typed f = true ->
  (validate f = Ok tt <-> all_accepted (frame_constraints f) /\ beyond_schema f).
Proof. intros Ht. by rewrite validate_iff_schema, frame_constraints_ok. Qed.

(** ** Catalogs *)

Lemma accepts_capability s : str_ok s = true ->
  accepts (obj [("type", from_str "string"); ("minLength", from_u64 1)]) (from_str s) = true <-> s <> "".
Proof.
  intros Hs. change (obj _) with error_message_constraint. by rewrite accepts_message, chars_count_pos.
Qed.

Lemma accepts_capabilities names :
  Forall (fun n => str_ok n = true) names ->
  accepts capability_names_constraint (VArray (map from_str names)) = true <->
  Forall (fun n => n <> "") names /\ NoDup names.
Proof.
  intros Hok.
  change (accepts capability_names_constraint (VArray (map from_str names)))
    with (forallb (accepts (obj [("type", from_str "string"); ("minLength", from_u64 1)])) (map from_str names) &&
          (bool_decide (NoDup (map from_str names)) && true)).
  rewrite andb_true_r, andb_true_iff, bool_decide_eq_true, forallb_Forall, Forall_map.
  f_equiv.
  - clear -Hok. induction Hok as [|n names Hn _ IH]; [by rewrite !Forall_nil|].
    rewrite !Forall_cons, IH. unfold compose. by rewrite accepts_capability.
  - split; [apply NoDup_fmap_1|]. apply NoDup_fmap_2. by intros ? ? [= ->].
Qed.

Lemma all_accepted_concat {A} (f : A -> list (Value * Value)) l :
  all_accepted (concat (map f l)) <-> Forall (fun a => all_accepted (f a)) l.
Proof.
  induction l as [|a l IH]; [by rewrite Forall_nil, all_accepted_nil|].
  cbn [map concat]. by rewrite all_accepted_app, IH, Forall_cons.
Qed.

Lemma method_constraints_ok m :
  Forall (fun n => str_ok n = true) (cm_capabilities m) ->
  all_accepted (method_constraints m) <-> method_entry_ok m.
Proof.
  intros Hc. unfold method_constraints, method_entry_ok. read_members. rewrite accepts_capabilities by done. intuition.
Qed.

Lemma event_constraints_ok e : all_accepted (event_constraints e) <-> event_entry_ok e.
Proof. unfold event_constraints, event_entry_ok. read_members. intuition. Qed.

(** Capability names are Rust strings. *)
Definition capabilities_ok (c : Catalog) : bool :=
  forallb (fun m => forallb str_ok (cm_capabilities m)) (cat_methods c).

Lemma catalog_constraints_ok c :
  catalog_typed c = true -> capabilities_ok c = true ->
  all_accepted (catalog_constraints c) <->
  catalog_rules c /\ (forall v, cat_protocol c = Some v -> 1 <= major v).
Proof.
  unfold catalog_typed, capabilities_ok, catalog_constraints, catalog_rules. rewrite !andb_true_iff.
  intros [[[Hv _] _] _] Hc. read_members. rewrite !all_accepted_concat.
  assert (Hm : Forall (fun m => all_accepted (method_constraints m)) (cat_methods c) <->
               Forall method_entry_ok (cat_methods c)).
  { apply forallb_Forall in Hc. clear -Hc. induction Hc as [|m l Hm _ IH]; [by rewrite !Forall_nil|].
    rewrite !Forall_cons, IH, method_constraints_ok; [done|by apply forallb_Forall]. }
  rewrite Hm. setoid_rewrite event_constraints_ok.
  assert (Hp : all_accepted match cat_protocol c with Some v => version_constraints v | None => [] end <->
               forall v, cat_protocol c = Some v -> 1 <= major v).
  { destruct (cat_protocol c) as [v|]; [|rewrite all_accepted_nil; naive_solver].
    apply andb_true_iff in Hv as [_ Hv]. rewrite version_constraints_ok by done. naive_solver. }
  rewrite Hp. intuition.
Qed.

(** Catalogs.  The constraints emitted for the catalog's members accept what [Catalog::validate] accepts,
    once [protocol.major], which the emission bounds and [validate] does not look at, is at least 1. *)
Theorem catalog_iff_emitted {RT : RustText} (c : Catalog) :
  catalog_typed c = true -> capabilities_ok c = true ->
  all_accepted (catalog_constraints c) <->
  validate_catalog c = Ok tt /\ (forall v, cat_protocol c = Some v -> 1 <= major v).
Proof. intros Ht Hc. by rewrite validate_catalog_Ok, catalog_constraints_ok. Qed.

(** ** The documents *)

Lemma accepts_tag tag v : accepts (tag_property tag) v = true <-> v = from_str tag.
Proof.
  change (accepts (tag_property tag) v) with (bool_decide (v = from_str tag) && (type_accepts "string" v && true)).
  rewrite andb_true_r, andb_true_iff, bool_decide_eq_true. split; [by intros [? _]|]. by intros ->.
Qed.

(** The definition of a frame: an object whose [properties], if there are any, are an object. *)
Definition struct_schema (v : option Value) : Prop :=
  exists frame, v = Some (VObject frame) /\
    match map_get "properties" frame with Some (VObject _) | None => True | Some _ => False end.

(** What tagging makes of a derived definition [frame]: the tag is a property and the first required
    member, named once; the other properties, required members and keywords are as derived. *)
Definition tagged_as (tag : string) (frame : Map) (v : option Value) : Prop :=
  exists frame' props names,
    v = Some (VObject frame') /\
    map_get "properties" frame' = Some (VObject props) /\
    map_get "type" props = Some (tag_property tag) /\
    (forall p, p <> "type" ->
       map_get p props = match map_get "properties" frame with Some (VObject q) => map_get p q | _ => None end) /\
    map_get "required" frame' = Some (VArray (from_str "type" :: names)) /\
    (forall n, n ∈ names <->
       n <> from_str "type" /\ exists l, map_get "required" frame = Some (VArray l) /\ n ∈ l) /\
    (forall k, k <> "properties" -> k <> "required" -> map_get k frame' = map_get k frame).

Lemma add_tag_tags tag frame definitions :
  map_get tag definitions = Some (VObject frame) ->
  struct_schema (map_get tag definitions) ->
  tagged_as tag frame (map_get tag (add_tag definitions tag)).
Proof.
  intros Hd (frame' & Hf & Hp). rewrite Hd in Hf. injection Hf as <-. unfold add_tag. rewrite Hd.
  rewrite map_get_insert_eq. rewrite (map_get_insert_ne "required" "properties") by done.
  set (names := List.filter _ _).
  assert (Hn : forall n, n ∈ names <->
    n <> from_str "type" /\ exists l, map_get "required" frame = Some (VArray l) /\ n ∈ l).
  { intros n. unfold names. rewrite list_elem_of_In, List.filter_In, negb_true_iff, bool_decide_eq_false.
    destruct (map_get "required" frame) as [[| | | |l|]|]; cbn; setoid_rewrite list_elem_of_In; naive_solver. }
  destruct (map_get "properties" frame) as [[| | | | |q]|] eqn:E; try done; cbn [default].
  all: eexists _, _, names; split; [reflexivity|].
  all: rewrite (map_get_insert_ne "properties" "required"), map_get_insert_eq by done; split; [reflexivity|].
  all: rewrite map_get_insert_eq; split; [done|].
  all: split; [intros p Hne; rewrite map_get_insert_ne by done; rewrite ?E; done|].
  all: split; [by rewrite map_get_insert_eq|]; split; [exact Hn|].
  all: intros k H1 H2; by rewrite !map_get_insert_ne.
Qed.

Lemma add_tag_other tag k definitions :
  k <> tag -> map_get k (add_tag definitions tag) = map_get k definitions.
Proof. intros Hk. unfold add_tag. repeat case_match; try done; by rewrite map_get_insert_ne. Qed.

Lemma add_tags_other tags k : forall definitions,
  k ∉ tags -> map_get k (foldl add_tag definitions tags) = map_get k definitions.
Proof.
  induction tags as [|tag tags IH]; intros d Hk; [done|]. apply not_elem_of_cons in Hk as [Hne Hk].
  cbn [foldl]. by rewrite IH, add_tag_other.
Qed.

Lemma add_tags_tag tags tag frame : forall definitions,
  NoDup tags -> tag ∈ tags -> map_get tag definitions = Some (VObject frame) ->
  struct_schema (map_get tag definitions) ->
  tagged_as tag frame (map_get tag (foldl add_tag definitions tags)).
Proof.
  induction tags as [|t tags IH]; intros d Hn Hin Hd Hs; [by apply elem_of_nil in Hin|].
  apply NoDup_cons in Hn as [Ht Hn]. cbn [foldl]. apply elem_of_cons in Hin as [->|Hin].
  - rewrite add_tags_other by done. by apply add_tag_tags.
  - assert (tag <> t) by congruence. apply IH; [done|done|by rewrite add_tag_other..].
Qed.

(** The document's definitions, read off [emit_schema]. *)
Definition schema_definitions (definitions : Map) : Map :=
  map_insert "frame"
    (obj [("oneOf", VArray (map (fun tag => obj [("$ref", from_str ("#/$defs/" +:+ tag))]) FRAME_ORDER))])
    (map_insert "pong" (bare_frame "pong") (map_insert "ping" (bare_frame "ping")
      (foldl add_tag definitions TAGGED_FRAMES))).

(** The frame document, [emit_schema].  When [schemars] derives an object for each of the seven payload
    structs, the document has a definition for each of the nine frame types and a [frame] that is the
    choice between them: each definition requires [type] first and fixes it to its own tag, so no value is
    accepted as the tag of two branches; the derived properties, required members and keywords are kept,
    and the other definitions are untouched. *)
Theorem emit_schema_frames (definitions : Map) :
  (forall tag, tag ∈ TAGGED_FRAMES -> struct_schema (map_get tag definitions)) ->
  exists d,
    emit_schema definitions = VObject [("$defs", VObject d)] /\
    map_get "frame" d =
      Some (obj [("oneOf", VArray (map (fun tag => obj [("$ref", from_str ("#/$defs/" +:+ tag))]) FRAME_ORDER))]) /\
    (forall f, type_name f ∈ FRAME_ORDER) /\
    (forall tag, tag ∈ TAGGED_FRAMES ->
       exists frame, map_get tag definitions = Some (VObject frame) /\ tagged_as tag frame (map_get tag d)) /\
    (forall tag, tag ∈ BARE_FRAMES -> map_get tag d = Some (bare_frame tag)) /\
    (forall tag tag' v, accepts (tag_property tag) v = true -> accepts (tag_property tag') v = true -> tag = tag') /\
    (forall key, key ∉ FRAME_ORDER -> key <> "frame" -> map_get key d = map_get key definitions).
Proof.
  intros Hs. exists (schema_definitions definitions). split; [reflexivity|]. unfold schema_definitions.
  split; [apply map_get_insert_eq|]. split; [intros []; set_solver|]. split.
  { intros tag Htag. destruct (Hs tag Htag) as (frame & Hd & Hp). exists frame. split; [done|].
    rewrite !map_get_insert_ne by (intros ->; unfold TAGGED_FRAMES in Htag; set_solver).
    apply add_tags_tag; [exact (bool_decide_unpack (NoDup TAGGED_FRAMES) I)|done|done|]. by exists frame. }
  split.
  { intros tag [->|[->|[]%elem_of_nil]%elem_of_cons]%elem_of_cons;
      rewrite ?(map_get_insert_ne _ "frame"), ?(map_get_insert_ne _ "pong"), map_get_insert_eq by done; done. }
  split.
  { intros tag tag' v ->%accepts_tag [= ->]%accepts_tag. done. }
  intros key Hkey Hf. rewrite !map_get_insert_ne by (try done; intros ->; apply Hkey; set_solver).
  apply add_tags_other. set_solver.
Qed.

Lemma map_get_remove k j m :
  map_get k (map_remove j m) = if bool_decide (k = j) then None else map_get k m.
Proof.
  unfold map_remove. induction m as [|[i v] m IH]; cbn; [by case_match|].
  destruct (bool_decide_reflect (i = j)) as [->|Hi]; cbn; rewrite IH;
    destruct (bool_decide_reflect (k = j)) as [->|Hk]; try done.
  by rewrite bool_decide_false by congruence.
Qed.

(** The catalog document, [emit_catalog_schema].  It is produced exactly when the definitions have an
    object under [catalog], which becomes the document with all its own keywords; the other definitions
    are its [$defs], and [catalog] is not among them. *)
Theorem emit_catalog_document (definitions : Map) :
  ((exists document, emit_catalog_schema definitions = Ok document) <->
   exists root, map_get CATALOG_ROOT definitions = Some (VObject root)) /\
  forall root, map_get CATALOG_ROOT definitions = Some (VObject root) ->
    exists document d,
      emit_catalog_schema definitions = Ok (VObject document) /\
      map_get "$defs" document = Some (VObject d) /\
      map_get CATALOG_ROOT d = None /\
      (forall key, key <> CATALOG_ROOT -> map_get key d = map_get key definitions) /\
      (forall key, key <> "$defs" -> map_get key document = map_get key root).
Proof.
  unfold emit_catalog_schema. split.
  - destruct (map_get CATALOG_ROOT definitions) as [[]|]; naive_solver.
  - intros root ->. do 2 eexists. split; [reflexivity|]. rewrite map_get_insert_eq. split; [reflexivity|].
    split; [by rewrite map_get_remove, bool_decide_true|].
    split; [intros; by rewrite map_get_remove, bool_decide_false|].
    intros. by apply map_get_insert_ne.
Qed.

(** ** Witnesses *)

Definition sample_hello : Frame :=
  FHello
    {| hello_protocol := {| major := 1; minor := 1 |};
       hello_peer := {| peer_name := "mango"; peer_version := "1.1.0"; peer_role := "local-agent" |};
       hello_capabilities := [("text", VBool true)];
       hello_limits := Some {| max_frame_bytes := Some 65536; max_in_flight := None |} |}.

Lemma validate_iff_emitted_witness :
  validate sample_hello = Ok tt <-> all_accepted (frame_constraints sample_hello) /\ beyond_schema sample_hello.
Proof. apply validate_iff_emitted. reflexivity. Defined.

(** Both sides hold of it, and a request with a one-segment method fails both. *)
Example sample_hello_accepted :
  validate sample_hello = Ok tt /\ forallb (fun '(c, v) => accepts c v) (frame_constraints sample_hello) = true.
Proof. split; vm_compute; reflexivity. Qed.

Example one_segment_refused :
  accepts method_name_constraint (from_str "mango") = false /\
  accepts method_name_constraint (from_str "mango.a-1.b") = true /\
  accepts method_name_constraint (from_str "mango.a-") = false.
Proof. repeat split; vm_compute; reflexivity. Qed.

(** The role of the finding: the emitted constraint accepts what [validate] refuses. *)
Example emitted_role_looser :
  accepts role_constraint (from_str "tool-") = true /\ is_valid_role "tool-" = false.
Proof. split; vm_compute; reflexivity. Qed.

Definition sample_definitions : Map :=
  foldl (fun m kv => map_insert kv.1 kv.2 m) []
    (map (fun tag => (tag, obj [("type", from_str "object");
       ("properties", obj [("id", id_constraint)]); ("required", VArray [from_str "id"])])) TAGGED_FRAMES).

Lemma emit_schema_frames_witness :
  exists d, emit_schema sample_definitions = VObject [("$defs", VObject d)] /\
    map_get "ping" d = Some (bare_frame "ping").
Proof.
  destruct (emit_schema_frames sample_definitions) as (d & Hd & _ & _ & _ & Hb & _).
  - intros tag Htag. unfold TAGGED_FRAMES in Htag. rewrite !elem_of_cons, elem_of_nil in Htag.
    repeat destruct Htag as [->|Htag]; try done; (eexists; split; [reflexivity|exact I]).
  - exists d. split; [exact Hd|]. apply Hb. unfold BARE_FRAMES. set_solver.
Defined.
