(* ===== verification/Contract.v ===== *)
(** * Typed contracts

    [contract.rs] and [contract/params.rs], [contract/serve.rs], [contract/client.rs],
    [contract/events.rs]: compiling a catalog into validators, registering typed handlers on a
    session, the pipeline one request goes through, and the typed client and event stream.

    The [jsonschema] crate is a parameter (the class [JsonSchema]), and so are an application's
    types: a handler brings the three functions serde and its author give it.  A handler and a
    guard are asynchronous in the crate; here they are the outcome they settle with, and
    [answer] records which of them it runs, on what. *)

From S2P Require Import Prelude Json Wire Frame Validate Serde FrameJson Port Session Dispatch Handle Catalog.
Local Open Scope Z_scope.

(** ** The [jsonschema] crate *)

(** [ValidationErrorKind], as far as the crate looks. *)
Inductive SchemaErrorKind : Type :=
| KRequired (property : Value)
| KAdditionalProperties (unexpected : list string)
| KOther.

Record SchemaError : Type := { se_instance_path : string; se_kind : SchemaErrorKind; se_text : string }.

(** [options().build(schema)], [Validator::validate] and [Location::join]. *)
Class JsonSchema : Type := {
  Validator : Type;
  schema_build : Value -> result Validator string;
  schema_validate : Validator -> Value -> result unit SchemaError;
  location_join : string -> string -> string
}.

(** ** [contract/params.rs] *)

Section params.
Context {JS : JsonSchema}.

Definition compile_schema (field : string) (schema : Value) : result Validator ValidationError :=
  map_err (fun error => mkValidationError field error "a valid JSON Schema 2020-12 document") (schema_build schema).

Definition value_str (v : Value) : string := match v with VString s => s | _ => "" end.

Definition first_violation (validator : Validator) (value : Value) : option (string * string) :=
  match schema_validate validator value with
  | Ok _ => None
  | Err error =>
      let base := se_instance_path error in
      let pointer :=
        match se_kind error with
        | KRequired property => location_join base (value_str property)
        | KAdditionalProperties unexpected => location_join base (default "" (head unexpected))
        | KOther => base
        end in
      let path := if bool_decide (pointer = "") then "/" else pointer in
      Some (path, se_text error)
  end.

(** ** [contract.rs] *)

Record CompiledMethod : Type :=
  { co_definition : CatalogMethod; co_params : Validator; co_result : Validator }.

Record Contract : Type := { ct_catalog : Catalog; ct_methods : list CompiledMethod }.

Definition contract_builder (name version : string) : Catalog :=
  {| cat_name := name; cat_version := version; cat_description := None; cat_protocol := None;
     cat_methods := []; cat_events := []; cat_capabilities := None |}.

Definition build_description (c : Catalog) (d : string) : Catalog :=
  {| cat_name := cat_name c; cat_version := cat_version c; cat_description := Some d;
     cat_protocol := cat_protocol c; cat_methods := cat_methods c; cat_events := cat_events c;
     cat_capabilities := cat_capabilities c |}.

Definition build_protocol (c : Catalog) (v : ProtocolVersion) : Catalog :=
  {| cat_name := cat_name c; cat_version := cat_version c; cat_description := cat_description c;
     cat_protocol := Some v; cat_methods := cat_methods c; cat_events := cat_events c;
     cat_capabilities := cat_capabilities c |}.

Definition build_capabilities (c : Catalog) (v : Value) : Catalog :=
  {| cat_name := cat_name c; cat_version := cat_version c; cat_description := cat_description c;
     cat_protocol := cat_protocol c; cat_methods := cat_methods c; cat_events := cat_events c;
     cat_capabilities := Some v |}.

Definition build_method (c : Catalog) (m : CatalogMethod) : Catalog :=
  {| cat_name := cat_name c; cat_version := cat_version c; cat_description := cat_description c;
     cat_protocol := cat_protocol c; cat_methods := cat_methods c ++ [m]; cat_events := cat_events c;
     cat_capabilities := cat_capabilities c |}.

Definition build_event (c : Catalog) (e : CatalogEvent) : Catalog :=
  {| cat_name := cat_name c; cat_version := cat_version c; cat_description := cat_description c;
     cat_protocol := cat_protocol c; cat_methods := cat_methods c; cat_events := cat_events c ++ [e];
     cat_capabilities := cat_capabilities c |}.

Definition contract_method (c : Contract) (name : string) : option CompiledMethod :=
  List.find (fun m => String.eqb (cm_name (co_definition m)) name) (ct_methods c).

Definition violation_error (code subject verb method path reason : string) : RemoteError :=
  with_detail
    (with_detail
       (with_detail
          (remote_error code
             (subject +:+ " of " +:+ quoted method +:+ " " +:+ verb +:+ " not match the contract at " +:+ path +:+
              ": " +:+ reason +:+ "."))
          "method" (from_str method))
       "path" (from_str path))
    "reason" (from_str reason).

Definition check_params (method : string) (validator : Validator) (params : Value) : result unit RemoteError :=
  match first_violation validator params with
  | Some (path, reason) => Err (violation_error codes.INVALID_PARAMS "Parameters" "do" method path reason)
  | None => Ok tt
  end.

Definition check_result (method : string) (validator : Validator) (value : Value) : result unit RemoteError :=
  match first_violation validator value with
  | Some (path, reason) => Err (violation_error codes.INTERNAL "Result" "does" method path reason)
  | None => Ok tt
  end.

Definition drift_error (method text : string) : RemoteError :=
  with_detail
    (remote_error codes.INTERNAL
       ("Parameters of " +:+ quoted method +:+
        " passed their schema but failed to decode into the handler's Rust type: " +:+ text +:+ "."))
    "method" (from_str method).

(** [from_value] is the type's own deserialiser. *)
Definition decode_params {P} (from_value : Value -> result P string) (method : string) (value : Value) :
    result P RemoteError :=
  map_err (drift_error method) (from_value value).

Definition contract_unsupported (contract method : string) : RemoteError :=
  with_detail
    (with_detail
       (remote_error codes.METHOD_UNSUPPORTED
          ("Method " +:+ quoted method +:+ " is not part of contract " +:+ quoted contract +:+ "."))
       "method" (from_str method))
    "contract" (from_str contract).

Definition parse_params {P} (from_value : Value -> result P string) (c : Contract) (method : string) (params : Value) :
    result P RemoteError :=
  match contract_method c method with
  | None => Err (contract_unsupported (cat_name (ct_catalog c)) method)
  | Some compiled =>
      let? _ := check_params method (co_params compiled) params in
      decode_params from_value method params
  end.
End params.

Section compile.
Context {RT : RustText} {JS : JsonSchema}.

Definition assert_not_reserved (field name : string) : result unit ValidationError :=
  if negb (is_reserved_method_name name) then Ok tt
  else Err (mkValidationError field (fmt_debug name) "a name outside the reserved rpc. namespace").

Definition compile_method (index : Z) (method : CatalogMethod) : result CompiledMethod ValidationError :=
  let at_ := indexed "catalog.methods" index in
  let? params := compile_schema (at_ +:+ ".params") (cm_params method) in
  let? res := compile_schema (at_ +:+ ".result") (cm_result method) in
  Ok {| co_definition := method; co_params := params; co_result := res |}.

(** Event payloads and the capability document are compiled for their validity alone. *)
Definition compiles (field : string) (schema : Value) : result unit ValidationError :=
  let? _ := compile_schema field schema in Ok tt.

Definition compile (catalog : Catalog) : result Contract ValidationError :=
  let? _ := validate_catalog catalog in
  let? _ := for_each (fun i m => assert_not_reserved (indexed "catalog.methods" i +:+ ".name") (cm_name m)) 0
              (cat_methods catalog) in
  let? _ := for_each (fun i e => assert_not_reserved (indexed "catalog.events" i +:+ ".topic") (ce_topic e)) 0
              (cat_events catalog) in
  let? methods := try_map compile_method 0 (cat_methods catalog) in
  let? _ := for_each (fun i e => compiles (indexed "catalog.events" i +:+ ".payload") (ce_payload e)) 0
              (cat_events catalog) in
  let? _ := match cat_capabilities catalog with
            | Some capabilities => compiles "catalog.capabilities" capabilities
            | None => Ok tt
            end in
  Ok {| ct_catalog := catalog; ct_methods := methods |}.
End compile.

(** ** [contract/serve.rs] *)

(** What a request runs of the application's code, in order. *)
Inductive Call : Type :=
| CallGuard (method : string) (params : Value) (capabilities : list string)
| CallHandler (method : string) (params : Value).

Abbreviation traced A := (list Call * A)%type.

(** A [Guard] and an [ErasedHandler], by what they settle with. *)
Definition Guard : Type := string -> Value -> list string -> CallContext -> result unit RemoteError.
Definition ErasedHandler : Type := string -> Value -> CallContext -> traced (result Value RemoteError).

Definition serialise_error (method text : string) : RemoteError :=
  with_detail
    (remote_error codes.INTERNAL ("Result of " +:+ quoted method +:+ " failed to serialise: " +:+ text +:+ "."))
    "method" (from_str method).

(** [TypedHandler]: decode, run, serialise. *)
Definition typed_handler {P R} (from_value : Value -> result P string) (to_value : R -> result Value string)
    (handler : P -> CallContext -> result R RemoteError) : ErasedHandler :=
  fun method params context =>
    match decode_params from_value method params with
    | Err error => ([], Err error)
    | Ok p =>
        ([CallHandler method params],
         let? r := handler p context in
         map_err (serialise_error method) (to_value r))
    end.

Definition ContractHandlers : Type := list (string * ErasedHandler).

Definition on (handlers : ContractHandlers) (method : string) (h : ErasedHandler) : ContractHandlers :=
  handlers ++ [(method, h)].

Record ServeOptions : Type :=
  { serve_guard : option Guard; validate_results : bool; discover : bool }.

Definition serve_options_default : ServeOptions :=
  {| serve_guard := None; validate_results := false; discover := true |}.

Section serve.
Context {JS : JsonSchema}.

Record MethodPolicy : Type :=
  { po_params : Validator; po_result : Validator; po_capabilities : list string; po_guard : option Guard;
    po_validate_results : bool }.

(** validate, guard, handler, and the result check when it is asked for. *)
Definition answer (method : string) (params : Value) (context : CallContext) (erased : ErasedHandler)
    (policy : MethodPolicy) : traced (result Value RemoteError) :=
  match check_params method (po_params policy) params with
  | Err error => ([], Err error)
  | Ok _ =>
      let guarded :=
        match po_guard policy with
        | Some guard =>
            ([CallGuard method params (po_capabilities policy)],
             guard method params (po_capabilities policy) context)
        | None => ([], Ok tt)
        end in
      match guarded.2 with
      | Err error => (guarded.1, Err error)
      | Ok _ =>
          let called := erased method params context in
          (guarded.1 ++ called.1,
           let? value := called.2 in
           let? _ := if po_validate_results policy then check_result method (po_result policy) value else Ok tt in
           Ok value)
      end
  end.

(** The closures [serve] hands to [Session::handle]. *)
Inductive Closure : Type :=
| DiscoverClosure (catalog : Value)
| MethodClosure (method : string) (erased : ErasedHandler) (policy : MethodPolicy).

Definition closure_method (c : Closure) : string :=
  match c with DiscoverClosure _ => RPC_DISCOVER | MethodClosure method _ _ => method end.

Definition discover_params_error : RemoteError :=
  with_detail
    (remote_error codes.INVALID_PARAMS ("Parameters of " +:+ quoted RPC_DISCOVER +:+ " must be an object."))
    "method" (from_str RPC_DISCOVER).

Definition run_closure (c : Closure) (params : Value) (context : CallContext) : traced (result Value RemoteError) :=
  match c with
  | DiscoverClosure catalog => ([], if is_object params then Ok catalog else Err discover_params_error)
  | MethodClosure method erased policy => answer method params context erased policy
  end.

Definition undeclared_error (c : Contract) (method : string) : ValidationError :=
  mkValidationError "handlers" method ("a method declared by contract " +:+ quoted (cat_name (ct_catalog c))).

(** [drop] on a [Vec<HandlerGuard>]. *)
Definition drop_guards (s : Shared) (guards : list HandlerGuard) : Shared := foldl guard_drop s guards.

(** The loop over the handlers.  [next] numbers the closures; an undeclared method returns early,
    which drops the guards of what was registered so far. *)
Fixpoint serve_methods (c : Contract) (o : ServeOptions) (s : Shared) (next : Handler) (guards : list HandlerGuard)
    (closures : list Closure) (handlers : ContractHandlers) :
    Shared * list Closure * result (list HandlerGuard) ValidationError :=
  match handlers with
  | [] => (s, closures, Ok guards)
  | (method, erased) :: rest =>
      match contract_method c method with
      | None => (drop_guards s guards, closures, Err (undeclared_error c method))
      | Some compiled =>
          let policy :=
            {| po_params := co_params compiled; po_result := co_result compiled;
               po_capabilities := cm_capabilities (co_definition compiled); po_guard := serve_guard o;
               po_validate_results := validate_results o |} in
          let '(s, guard) := handle s method next in
          serve_methods c o s (S next) (guards ++ [guard]) (closures ++ [MethodClosure method erased policy]) rest
      end
  end.

(** Serialising a catalog cannot fail: its keys are strings and its parts are JSON values. *)
Definition serve (c : Contract) (s : Shared) (handlers : ContractHandlers) (o : ServeOptions) (next : Handler) :
    Shared * list Closure * result (list HandlerGuard) ValidationError :=
  if discover o then
    let '(s, guard) := handle s RPC_DISCOVER next in
    serve_methods c o s (S next) [guard] [DiscoverClosure (catalog_to_value (ct_catalog c))] handlers
  else serve_methods c o s next [] [] handlers.

(** [ServeGuard::persist]; dropping one drops its guards. *)
Definition serve_persist (guards : list HandlerGuard) : list HandlerGuard := map guard_persist guards.
End serve.

(** ** [contract/client.rs] and [contract/events.rs] *)

Definition client_serialise_error (method text : string) : RemoteError :=
  with_detail
    (remote_error codes.INTERNAL ("Parameters of " +:+ quoted method +:+ " failed to serialise: " +:+ text +:+ "."))
    "method" (from_str method).

Definition client_decode_error (method text : string) : RemoteError :=
  with_detail
    (remote_error codes.INTERNAL
       ("Result of " +:+ quoted method +:+ " from the peer does not decode as the requested type: " +:+ text +:+ "."))
    "method" (from_str method).

(** [ContractClient::request_with]; [request] is what [Session::request_with] settles with. *)
Definition client_request {P R} (to_value : P -> result Value string) (from_value : Value -> result R string)
    (request : string -> Value -> result Value RemoteError) (method : string) (params : P) : result R RemoteError :=
  let? params := map_err (client_serialise_error method) (to_value params) in
  let? value := request method params in
  map_err (client_decode_error method) (from_value value).

Definition peer_catalog_error (error : ValidationError) : RemoteError :=
  remote_error codes.INTERNAL
    ("The peer's catalog does not satisfy the checks Serde cannot express: " +:+ show_validation_error error +:+ ".").

Definition discover_with {RT : RustText} (request : string -> Value -> result Value RemoteError) :
    result Catalog RemoteError :=
  let? catalog := client_request (fun v : Value => Ok v) catalog_of_value request RPC_DISCOVER (VObject []) in
  let? _ := map_err peer_catalog_error (validate_catalog catalog) in
  Ok catalog.

Record TypedEvent (A : Type) : Type := { te_payload : A; te_frame : Event }.
Arguments te_payload {A} t.
Arguments te_frame {A} t.

Definition event_decode_error (topic text : string) : RemoteError :=
  with_detail
    (remote_error codes.INTERNAL
       ("Event " +:+ quoted topic +:+ " payload does not decode into the expected type: " +:+ text +:+ "."))
    "topic" (from_str topic).

Definition decode_event {A} (from_value : Value -> result A string) (topic : string) (frame : Event) :
    result (TypedEvent A) RemoteError :=
  map_err (event_decode_error topic)
    (let? payload := from_value (evt_payload frame) in Ok {| te_payload := payload; te_frame := frame |}).

(** [TypedEventStream::recv]: skips the other topics; one turn of its loop per queued event. *)
Fixpoint typed_recv_queue {A} (from_value : Value -> result A string) (topic : string) (queue : list Event) :
    list Event * option (result (TypedEvent A) RemoteError) :=
  match queue with
  | [] => ([], None)
  | frame :: rest =>
      if bool_decide (evt_topic frame = topic) then (rest, Some (decode_event from_value topic frame))
      else typed_recv_queue from_value topic rest
  end.

Definition typed_recv {A} (from_value : Value -> result A string) (topic : string) (c : channel Event) :
    channel Event * poll (option (result (TypedEvent A) RemoteError)) :=
  let '(rest, got) := typed_recv_queue from_value topic (ch_queue c) in
  ({| ch_queue := rest; ch_receiver := ch_receiver c; ch_senders := ch_senders c |},
   match got with
   | Some event => Polled (Some event)
   | None => if ch_senders c then Pending else Polled None
   end).

Definition event_serialise_error (topic text : string) : RemoteError :=
  with_detail
    (remote_error codes.INTERNAL ("Event " +:+ quoted topic +:+ " payload failed to serialise: " +:+ text +:+ "."))
    "topic" (from_str topic).

(** [ContractEvents::emit]. *)
Definition contract_emit {A} {RT : RustText} {SJ : SerdeJson} (to_value : A -> result Value string) (s : Shared)
    (topic : string) (payload : A) (stream_id : option string) (end_ : bool) : Shared * result bool RemoteError :=
  match to_value payload with
  | Err error => (s, Err (event_serialise_error topic error))
  | Ok payload =>
      emit s {| ei_topic := topic; ei_payload := payload; ei_stream_id := stream_id; ei_end := end_ |}
  end.
