(* ===== verification/ContractProps.v ===== *)
(** * What a contract promises

    Which catalogs compile, what serving one registers and leaves behind when it is refused, the
    order in which one request is checked, and discovery and typed events end to end. *)

From S2P Require Import Prelude Json Wire Frame Validate Serde JsonText FrameJson Port Session Dispatch Handle Catalog Contract.
Local Open Scope Z_scope.

(** ** Compiling *)

Section compile.
Context {RT : RustText} {JS : JsonSchema}.

Definition builds (schema : Value) : Prop := exists v, schema_build schema = Ok v.

Definition compiled_from (m : CatalogMethod) (k : CompiledMethod) : Prop :=
  co_definition k = m /\ schema_build (cm_params m) = Ok (co_params k) /\
  schema_build (cm_result m) = Ok (co_result k).

(** What a catalog needs to become a contract. *)
Definition compilable (c : Catalog) : Prop :=
  catalog_rules c /\
  Forall (fun m => is_reserved_method_name (cm_name m) = false) (cat_methods c) /\
  Forall (fun e => is_reserved_method_name (ce_topic e) = false) (cat_events c) /\
  Forall (fun m => builds (cm_params m) /\ builds (cm_result m)) (cat_methods c) /\
  Forall (fun e => builds (ce_payload e)) (cat_events c) /\
  (forall d, cat_capabilities c = Some d -> builds d).

Lemma assert_not_reserved_Ok field name :
  assert_not_reserved field name = Ok tt <-> is_reserved_method_name name = false.
Proof. unfold assert_not_reserved. by destruct (is_reserved_method_name name). Qed.

Lemma compile_schema_Ok field schema v : compile_schema field schema = Ok v <-> schema_build schema = Ok v.
Proof. apply map_err_Ok. Qed.

Lemma compiles_Ok field schema : compiles field schema = Ok tt <-> builds schema.
Proof.
  unfold compiles, builds. rewrite result_bind_Ok. setoid_rewrite compile_schema_Ok. naive_solver.
Qed.

Lemma compile_method_Ok i m k : compile_method i m = Ok k <-> compiled_from m k.
Proof.
  unfold compile_method, compiled_from. cbv zeta. rewrite result_bind_Ok. setoid_rewrite result_bind_Ok.
  setoid_rewrite compile_schema_Ok. destruct k. naive_solver.
Qed.

Lemma try_map_Forall2 {A B E} (f : Z -> A -> result B E) (R : A -> B -> Prop) l : forall i ks,
  (forall j a b, f j a = Ok b <-> R a b) -> try_map f i l = Ok ks <-> Forall2 R l ks.
Proof.
  induction l as [|a l IH]; intros i ks Hf; simpl.
  - split; [intros [= <-]; constructor|]. by inversion 1.
  - rewrite result_bind_Ok. setoid_rewrite result_bind_Ok. split.
    + intros (b & Hb & bs & Hbs & [= <-]). constructor; [by eapply Hf|by eapply IH].
    + inversion 1 as [|? b ? bs Hb Hbs]; subst. exists b. split; [by apply Hf|]. exists bs. split; [by apply IH|done].
Qed.

Lemma compile_Ok c ct :
  compile c = Ok ct <-> compilable c /\ ct_catalog ct = c /\ Forall2 compiled_from (cat_methods c) (ct_methods ct).
Proof.
  unfold compile, compilable. rewrite !result_bind_unit, validate_catalog_Ok.
  rewrite (for_each_Ok _ (fun m => is_reserved_method_name (cm_name m) = false)) by (intros; apply assert_not_reserved_Ok).
  rewrite (for_each_Ok _ (fun e => is_reserved_method_name (ce_topic e) = false)) by (intros; apply assert_not_reserved_Ok).
  rewrite result_bind_Ok. setoid_rewrite result_bind_unit.
  setoid_rewrite (for_each_Ok _ (fun e => builds (ce_payload e))); [|intros; apply compiles_Ok].
  setoid_rewrite (try_map_Forall2 _ compiled_from); [|intros; apply compile_method_Ok].
  assert (Hcap : match cat_capabilities c with Some d => compiles "catalog.capabilities" d | None => Ok tt end = Ok tt <->
    forall d, cat_capabilities c = Some d -> builds d).
  { destruct (cat_capabilities c) as [d|]; [rewrite compiles_Ok|]; naive_solver. }
  setoid_rewrite result_bind_unit. setoid_rewrite Hcap. destruct ct as [cat ks]. cbn [ct_catalog ct_methods]. split.
  - intros (H1 & H2 & H3 & ks' & H4 & H5 & H6 & [= <- <-]). split_and!; try done.
    clear -H4. induction H4 as [|m k ms ks (? & ? & ?) _ IH]; constructor; [split; by eexists|done].
  - intros ((H1 & H2 & H3 & H4 & H5 & H6) & -> & H7). split_and!; try done. exists ks. by split_and!.
Qed.

Lemma compilable_compiles c : compilable c -> exists ct, compile c = Ok ct.
Proof.
  intros Hc. assert (exists ks, Forall2 compiled_from (cat_methods c) ks) as [ks Hks].
  { destruct Hc as (_ & _ & _ & H & _). induction H as [|m ms [[p Hp] [r Hr]] _ [ks IH]]; [by exists []|].
    exists ({| co_definition := m; co_params := p; co_result := r |} :: ks). by constructor. }
  exists {| ct_catalog := c; ct_methods := ks |}. by apply compile_Ok.
Qed.
End compile.

(** ** Serving *)

(** Every method of the guards is registered by one of them. *)
Definition holds (s : Shared) (guards : list HandlerGuard) : Prop :=
  forall m, m ∈ map hg_method guards ->
    exists g h, g ∈ guards /\ hg_armed g = true /\ hg_method g = m /\ sh_handlers s !! m = Some (hg_generation g, h).

Lemma guard_drop_lookup s g m :
  sh_handlers (guard_drop s g) !! m =
  if hg_armed g && bool_decide (hg_method g = m) then
    match sh_handlers s !! m with
    | Some (generation, h) => if generation =? hg_generation g then None else Some (generation, h)
    | None => None
    end
  else sh_handlers s !! m.
Proof.
  unfold guard_drop. destruct (hg_armed g); simpl; [|done].
  case_bool_decide as Hm.
  - subst m. destruct (sh_handlers s !! hg_method g) as [[gen h]|] eqn:E; [|done].
    destruct (Z.eqb_spec gen (hg_generation g)); [apply lookup_delete_eq|done].
  - destruct (sh_handlers s !! hg_method g) as [[gen h]|]; [|done].
    destruct (gen =? hg_generation g); [by apply lookup_delete_ne|done].
Qed.

(** Dropping guards unregisters their methods and touches no other, whether one guard or several
    name a method. *)
Lemma drop_guards_lookup guards : forall s m,
  (m ∈ map hg_method guards -> sh_handlers s !! m = None \/
    exists g h, g ∈ guards /\ hg_armed g = true /\ hg_method g = m /\ sh_handlers s !! m = Some (hg_generation g, h)) ->
  sh_handlers (drop_guards s guards) !! m = if bool_decide (m ∈ map hg_method guards) then None else sh_handlers s !! m.
Proof.
  unfold drop_guards. induction guards as [|g guards IH]; intros s m Hm; simpl in *.
  { done. }
  assert (Hstep : m = hg_method g \/ m ∈ map hg_method guards ->
    sh_handlers (guard_drop s g) !! m = None \/
    exists g' h, g' ∈ guards /\ hg_armed g' = true /\ hg_method g' = m /\
      sh_handlers (guard_drop s g) !! m = Some (hg_generation g', h)).
  { intros Hin. rewrite <- elem_of_cons in Hin. rewrite guard_drop_lookup.
    destruct (Hm Hin) as [->|(g' & h & Hg' & Ha & Hme & ->)]; [left; by case_match|].
    apply elem_of_cons in Hg' as [->|Hg'].
    - rewrite Hme, Ha, bool_decide_true, Z.eqb_refl by done. by left.
    - destruct (hg_armed g && _); [destruct (_ =? hg_generation g); [by left|]|]; right; exists g', h; done. }
  rewrite IH by auto. destruct (decide (m ∈ map hg_method guards)) as [Hin|Hnot].
  { rewrite !bool_decide_true; [done|apply elem_of_cons; by right|done]. }
  rewrite (bool_decide_false (m ∈ map hg_method guards)) by done.
  destruct (decide (m = hg_method g)) as [Heq|Hne].
  - rewrite bool_decide_true by (apply elem_of_cons; by left).
    destruct (Hstep (or_introl Heq)) as [->|(g' & h & Hg' & _ & Hme & _)]; [done|].
    destruct Hnot. rewrite <- Hme. apply list_elem_of_fmap. by exists g'.
  - rewrite bool_decide_false by (rewrite elem_of_cons; naive_solver).
    rewrite guard_drop_lookup, (bool_decide_false (hg_method g = m)) by congruence. by rewrite andb_false_r.
Qed.

Section serve.
Context {JS : JsonSchema}.

(** The registry after registering [closures], numbered from [next], over the one of [s0]: each
    method runs the last closure for it, the others are as they were. *)
Definition serves (s0 s : Shared) (next : Handler) (closures : list Closure) : Prop :=
  (forall m, m ∉ map closure_method closures -> sh_handlers s !! m = sh_handlers s0 !! m) /\
  (forall m, m ∈ map closure_method closures ->
    exists i generation c, sh_handlers s !! m = Some (generation, (next + i)%nat) /\
      closures !! i = Some c /\ closure_method c = m /\
      forall j c', (i < j)%nat -> closures !! j = Some c' -> closure_method c' <> m).

Record served (s0 s : Shared) (next : Handler) (guards : list HandlerGuard) (closures : list Closure) : Prop := {
  sv_serves : serves s0 s next closures;
  sv_methods : map hg_method guards = map closure_method closures;
  sv_holds : holds s guards
}.

Lemma served_nil s next : served s s next [] [].
Proof. split; [split; [done|]|done|]; by intros m Hm%elem_of_nil. Qed.

Lemma served_snoc s0 s s' g next guards closures c h :
  served s0 s next guards closures -> h = (next + length closures)%nat -> handle s (closure_method c) h = (s', g) ->
  served s0 s' next (guards ++ [g]) (closures ++ [c]).
Proof.
  intros [[Hout Hin] Hm Hh] -> E. unfold handle, register_handler in E. injection E as <- <-.
  split.
  - split; simpl; intros m; rewrite map_app; cbn [map]; rewrite elem_of_app, list_elem_of_singleton.
    + intros Hnot. rewrite lookup_insert_ne by (intros <-; tauto). apply Hout. tauto.
    + intros Hor. destruct (decide (m = closure_method c)) as [->|Hne].
      * exists (length closures), (sh_next_generation s), c. rewrite lookup_insert_eq.
        split; [done|]. split; [by rewrite lookup_app_r, Nat.sub_diag|]. split; [done|].
        intros j c' Hj Hc'. apply lookup_lt_Some in Hc'. rewrite length_app in Hc'. simpl in Hc'. lia.
      * destruct Hor as [Hor|]; [|done]. destruct (Hin m Hor) as (i & gen & cl & Hl & Hi & Hcl & Hlast).
        exists i, gen, cl. rewrite lookup_insert_ne by done. split; [done|].
        split; [by apply lookup_app_l_Some|]. split; [done|].
        intros j c' Hj [Hc'|[_ Hc']]%lookup_app_Some; [by eapply Hlast|].
        apply list_lookup_singleton_Some in Hc' as [_ <-]. congruence.
  - by rewrite !map_app, Hm.
  - intros m. rewrite map_app. cbn [map]. rewrite elem_of_app, list_elem_of_singleton. cbn [hg_method]. intros Hor.
    destruct (decide (m = closure_method c)) as [->|Hne].
    + eexists _, _. cbn [sh_handlers set_handlers]. rewrite lookup_insert_eq, elem_of_app, list_elem_of_singleton.
      split; [by right|]. done.
    + destruct Hor as [Hor|]; [|done]. destruct (Hh m Hor) as (g & h & Hg & Ha & Hgm & Hl).
      exists g, h. cbn [sh_handlers set_handlers]. rewrite elem_of_app, lookup_insert_ne by done. auto.
Qed.

Lemma served_drop s0 s next guards closures :
  served s0 s next guards closures ->
  forall m, sh_handlers (drop_guards s guards) !! m =
    if bool_decide (m ∈ map closure_method closures) then None else sh_handlers s0 !! m.
Proof.
  intros [[Hout _] Hm Hh] m. rewrite drop_guards_lookup by (intros Hin; right; by apply Hh). rewrite Hm.
  case_bool_decide; [done|]. by apply Hout.
Qed.

Definition declares (c : Contract) (method : string) : Prop := is_Some (contract_method c method).

Lemma serve_methods_spec c o s0 next handlers : forall s guards closures,
  served s0 s next guards closures ->
  let '(s', closures', r) := serve_methods c o s (next + length closures)%nat guards closures handlers in
  match r with
  | Ok guards' =>
      Forall (declares c) (map fst handlers) /\ served s0 s' next guards' closures' /\
      map closure_method closures' = map closure_method closures ++ map fst handlers
  | Err e =>
      exists before method h after, handlers = before ++ (method, h) :: after /\
        Forall (declares c) (map fst before) /\ ~ declares c method /\ e = undeclared_error c method /\
        forall m, sh_handlers s' !! m =
          if bool_decide (m ∈ map closure_method closures ++ map fst before) then None else sh_handlers s0 !! m
  end.
Proof.
  induction handlers as [|[method h] handlers IH]; intros s guards closures Hs; simpl.
  { split; [constructor|]. by rewrite app_nil_r. }
  destruct (contract_method c method) as [compiled|] eqn:Hc.
  - set (cl := MethodClosure method h _).
    destruct (handle s method (next + length closures)%nat) as [s1 g] eqn:Hh.
    pose proof (served_snoc s0 s s1 g next guards closures cl _ Hs eq_refl Hh) as Hs1.
    specialize (IH s1 (guards ++ [g]) (closures ++ [cl]) Hs1).
    rewrite length_app, Nat.add_assoc, Nat.add_1_r in IH. cbn [length] in IH. unfold handle, register_handler in Hh.
    injection Hh as <- <-.
    destruct (serve_methods _ _ _ _ _ _ _) as [[s' closures'] [guards'|e]].
    + destruct IH as (H1 & H2 & H3). split; [constructor; [by eexists|done]|]. split; [done|].
      rewrite H3, map_app. simpl. by rewrite <- app_assoc.
    + destruct IH as (before & m' & h' & after & -> & H1 & H2 & H3 & H4).
      exists ((method, h) :: before), m', h', after. split; [done|]. split; [constructor; [by eexists|done]|].
      split; [done|]. split; [done|]. intros m. rewrite (H4 m), map_app. simpl. by rewrite <- app_assoc.
  - exists [], method, h, handlers. split; [done|]. split; [constructor|]. split; [by unfold declares; rewrite Hc; intros []|].
    split; [done|]. intros m. rewrite app_nil_r. by apply (served_drop _ _ _ _ _ Hs).
Qed.
End serve.

(** ** The courses a request can take *)

Section courses.
Context {JS : JsonSchema}.

(** An error with this code whose details name the method. *)
Definition tells (e : RemoteError) (code method : string) : Prop :=
  re_code e = code /\ exists d, re_details e = Some d /\ ("method", VString method) ∈ d.

Definition tells_path (e : RemoteError) (path : string) : Prop :=
  exists d, re_details e = Some d /\ ("path", VString path) ∈ d.

(** What the guard says, and that it was asked. *)
Inductive asked_guard (method : string) (params : Value) (context : CallContext) (policy : MethodPolicy) :
    list Call -> result unit RemoteError -> Prop :=
| guard_absent : po_guard policy = None -> asked_guard method params context policy [] (Ok tt)
| guard_asked g answer :
    po_guard policy = Some g -> g method params (po_capabilities policy) context = answer ->
    asked_guard method params context policy [CallGuard method params (po_capabilities policy)] answer.

Inductive course {P R} (from_value : Value -> result P string) (to_value : R -> result Value string)
    (handler : P -> CallContext -> result R RemoteError) (method : string) (params : Value) (context : CallContext)
    (policy : MethodPolicy) : list Call -> result Value RemoteError -> Prop :=
| course_invalid x e path :
    schema_validate (po_params policy) params = Err x -> path <> "" /\ tells e "INVALID_PARAMS" method /\ tells_path e path ->
    course from_value to_value handler method params context policy [] (Err e)
| course_denied guards e :
    schema_validate (po_params policy) params = Ok tt -> asked_guard method params context policy guards (Err e) ->
    course from_value to_value handler method params context policy guards (Err e)
| course_drift guards text e :
    schema_validate (po_params policy) params = Ok tt -> asked_guard method params context policy guards (Ok tt) ->
    from_value params = Err text -> tells e "INTERNAL" method ->
    course from_value to_value handler method params context policy guards (Err e)
| course_failed guards p e :
    schema_validate (po_params policy) params = Ok tt -> asked_guard method params context policy guards (Ok tt) ->
    from_value params = Ok p -> handler p context = Err e ->
    course from_value to_value handler method params context policy (guards ++ [CallHandler method params]) (Err e)
| course_unserialised guards p r text e :
    schema_validate (po_params policy) params = Ok tt -> asked_guard method params context policy guards (Ok tt) ->
    from_value params = Ok p -> handler p context = Ok r -> to_value r = Err text -> tells e "INTERNAL" method ->
    course from_value to_value handler method params context policy (guards ++ [CallHandler method params]) (Err e)
| course_unfit guards p r v x e path :
    schema_validate (po_params policy) params = Ok tt -> asked_guard method params context policy guards (Ok tt) ->
    from_value params = Ok p -> handler p context = Ok r -> to_value r = Ok v ->
    po_validate_results policy = true -> schema_validate (po_result policy) v = Err x ->
    tells e "INTERNAL" method /\ tells_path e path ->
    course from_value to_value handler method params context policy (guards ++ [CallHandler method params]) (Err e)
| course_done guards p r v :
    schema_validate (po_params policy) params = Ok tt -> asked_guard method params context policy guards (Ok tt) ->
    from_value params = Ok p -> handler p context = Ok r -> to_value r = Ok v ->
    (po_validate_results policy = true -> schema_validate (po_result policy) v = Ok tt) ->
    course from_value to_value handler method params context policy (guards ++ [CallHandler method params]) (Ok v).

Lemma first_violation_Some validator v path reason :
  first_violation validator v = Some (path, reason) -> path <> "" /\ exists x, schema_validate validator v = Err x.
Proof.
  unfold first_violation. destruct (schema_validate validator v) as [|x]; [done|]. intros [= <- _].
  split; [|by exists x]. case_bool_decide as H; [done|exact H].
Qed.

Lemma violation_tells code subject verb method path reason :
  tells (violation_error code subject verb method path reason) code method /\
  tells_path (violation_error code subject verb method path reason) path.
Proof. split; [split; [done|]|]; eexists; (split; [reflexivity|]); cbn; set_solver. Qed.

Lemma named_tells code text method : tells (with_detail (remote_error code text) "method" (from_str method)) code method.
Proof. split; [done|]. eexists. split; [reflexivity|]. cbn. set_solver. Qed.
End courses.

(** ** Properties *)

Lemma drop_persisted s guards : drop_guards s (serve_persist guards) = s.
Proof. unfold drop_guards, serve_persist. induction guards as [|g guards IH]; [done|]. exact IH. Qed.

Lemma first_violation_None {JS : JsonSchema} v x : first_violation v x = None <-> schema_validate v x = Ok tt.
Proof. unfold first_violation. destruct (schema_validate v x) as [[]|e]; naive_solver. Qed.

Section properties.
Context {RT : RustText} {JS : JsonSchema}.

(** Compiling a contract.  Exactly the catalogs that keep the rules, stay out of [rpc.] and
    embed only schemas that compile become contracts; the contract keeps the catalog and one
    compiled entry per method, in order, with the validators of that method's own schemas. *)
Theorem contract_compile_exact (c : Catalog) :
  match compile c with
  | Ok ct => compilable c /\ ct_catalog ct = c /\ Forall2 compiled_from (cat_methods c) (ct_methods ct)
  | Err _ => ~ compilable c
  end.
Proof.
  destruct (compile c) as [ct|e] eqn:E; [by apply compile_Ok|].
  intros [ct Hct]%compilable_compiles. congruence.
Qed.


(** C32 (one request through a contract).  Every request takes exactly one of seven courses.  Parameters
    that violate the schema answer [INVALID_PARAMS] with the method and a path, and run nothing.
    Otherwise the guard, if there is one, is asked first, and its own error is the answer.  Parameters
    it lets through that do not decode answer [INTERNAL], and the handler does not run.  Otherwise the
    handler runs once, on the parameters received; its own error is the answer; a result that does not
    serialise, or violates the result schema when results are checked, answers [INTERNAL]; and any other
    result goes out as it is.  So a valid call to a handler that succeeds succeeds. *)
Theorem answer_pipeline {P R} (from_value : Value -> result P string) (to_value : R -> result Value string)
    (handler : P -> CallContext -> result R RemoteError) (method : string) (params : Value) (context : CallContext)
    (policy : MethodPolicy) :
  let '(calls, outcome) := answer method params context (typed_handler from_value to_value handler) policy in
  course from_value to_value handler method params context policy calls outcome.
Proof.
  unfold answer, check_params. destruct (first_violation (po_params policy) params) as [[path reason]|] eqn:Hv.
  { destruct (first_violation_Some _ _ _ _ Hv) as [Hp [x Hx]]. eapply course_invalid; [exact Hx|]. split; [done|].
    apply violation_tells. }
  apply first_violation_None in Hv. unfold typed_handler.
  assert (Hguarded : forall guards, asked_guard method params context policy guards (Ok tt) ->
    let '(calls, outcome) :=
      (match decode_params from_value method params with
       | Err error => ([], Err error)
       | Ok p => ([CallHandler method params], let? r := handler p context in map_err (serialise_error method) (to_value r))
       end : traced (result Value RemoteError)) in
    course from_value to_value handler method params context policy (guards ++ calls)
      (let? value := outcome in
       let? _ := if po_validate_results policy then check_result method (po_result policy) value else Ok tt in Ok value)).
  { intros guards Hg. unfold decode_params. destruct (from_value params) as [p|text] eqn:Hf; cbn [map_err].
    2: { rewrite app_nil_r. eapply course_drift; [exact Hv|exact Hg|exact Hf|]. apply named_tells. }
    destruct (handler p context) as [r|e] eqn:Hh; cbn [result_bind]; [|exact (course_failed _ _ _ _ _ _ _ _ _ _ Hv Hg Hf Hh)].
    destruct (to_value r) as [v|text] eqn:Ht; cbn [map_err result_bind].
    2: { eapply course_unserialised; [exact Hv|exact Hg|exact Hf|exact Hh|exact Ht|]. apply named_tells. }
    unfold check_result. destruct (po_validate_results policy) eqn:Hp; cbn [result_bind]; [|by eapply course_done; [exact Hv|exact Hg|exact Hf|exact Hh|exact Ht|]; rewrite Hp].
    destruct (first_violation (po_result policy) v) as [[path reason]|] eqn:Hr; cbn [result_bind].
    - destruct (first_violation_Some _ _ _ _ Hr) as [_ [x Hx]]. eapply course_unfit; [exact Hv|exact Hg|exact Hf|exact Hh|exact Ht|exact Hp|exact Hx|].
      apply violation_tells.
    - apply first_violation_None in Hr. by eapply course_done; [exact Hv|exact Hg|exact Hf|exact Hh|exact Ht|]. }
  destruct (po_guard policy) as [g|] eqn:Hg; cbn [fst snd].
  - destruct (g method params (po_capabilities policy) context) as [[]|e] eqn:Hgo.
    + specialize (Hguarded _ (guard_asked _ _ _ _ _ _ Hg Hgo)).
      destruct (match decode_params _ _ _ with Ok _ => _ | Err _ => _ end) as [calls outcome]. exact Hguarded.
    + eapply course_denied; [done|]. exact (guard_asked _ _ _ _ _ _ Hg Hgo).
  - specialize (Hguarded _ (guard_absent _ _ _ _ Hg)).
    destruct (match decode_params _ _ _ with Ok _ => _ | Err _ => _ end) as [calls outcome]. exact Hguarded.
Qed.

(** Discovery, end to end.  A client that discovers a peer serving a contract gets exactly the
    catalog the contract was compiled from. *)
Theorem discover_roundtrip (c : Catalog) (ct : Contract) (context : CallContext) :
  compile c = Ok ct -> catalog_typed c = true ->
  discover_with (fun _ params => (run_closure (DiscoverClosure (catalog_to_value (ct_catalog ct))) params context).2) = Ok c.
Proof.
  intros [(Hrules & _) [-> _]]%compile_Ok Ht. unfold discover_with, client_request. simpl.
  rewrite catalog_of_to_value by done. simpl. by rewrite (proj2 (validate_catalog_Ok c) Hrules).
Qed.
End properties.

(** ** A contract *)

(** A schema crate that builds every object and accepts every value. *)
Definition lenient_schema : JsonSchema := {|
  Validator := unit;
  schema_build v := if is_object v then Ok tt else Err "not an object";
  schema_validate _ _ := Ok tt;
  location_join base name := base +:+ "/" +:+ name
|}.

Definition echo_context : CallContext :=
  {| cc_id := "r-1"; cc_method := RPC_DISCOVER; cc_cancel := 0%nat;
     cc_remote := {| rp_peer := {| peer_name := "c"; peer_version := "1"; peer_role := "client" |};
                     rp_protocol := PROTOCOL_VERSION; rp_capabilities := []; rp_limits := None;
                     rp_effective_minor := 1 |} |}.

(** A crate whose schemas accept objects only, a guard that asks for a peer of some minor, and a handler
    that hands its parameters back. *)
Definition object_schema : JsonSchema := {|
  Validator := unit;
  schema_build v := if is_object v then Ok tt else Err "not an object";
  schema_validate _ v := if is_object v then Ok tt else Err {| se_instance_path := ""; se_kind := KOther; se_text := "not an object" |};
  location_join base name := base +:+ "/" +:+ name
|}.

Definition careful_policy : @MethodPolicy object_schema :=
  @Build_MethodPolicy object_schema tt tt ["echo"] (Some (fun _ _ _ _ => Ok tt)) true.

Definition echo_params (params : Value) : traced (result Value RemoteError) :=
  @answer object_schema "echo.back" params echo_context (typed_handler Ok Ok (fun p _ => Ok p)) careful_policy.

Lemma answer_pipeline_witness :
  (exists calls outcome, echo_params (VObject []) = (calls, outcome) /\ length calls = 2%nat /\ outcome = Ok (VObject []) /\
    @course object_schema _ _ Ok Ok (fun p _ => Ok p) "echo.back" (VObject []) echo_context careful_policy calls outcome) /\
  (exists e, echo_params Null = ([], Err e) /\ re_code e = "INVALID_PARAMS" /\
    @course object_schema _ _ Ok Ok (fun p _ => Ok p) "echo.back" Null echo_context careful_policy [] (Err e)).
Proof.
  split.
  - pose proof (@answer_pipeline object_schema _ _ Ok Ok (fun p _ => Ok p) "echo.back" (VObject []) echo_context careful_policy) as H.
    do 2 eexists. split; [reflexivity|]. split; [reflexivity|]. split; [reflexivity|exact H].
  - pose proof (@answer_pipeline object_schema _ _ Ok Ok (fun p _ => Ok p) "echo.back" Null echo_context careful_policy) as H.
    eexists. split; [reflexivity|]. split; [reflexivity|exact H].
Defined.

Lemma discover_roundtrip_witness :
  match @compile plain_text lenient_schema text_catalog with
  | Ok ct =>
      discover_with (fun _ params =>
        (@run_closure lenient_schema (DiscoverClosure (catalog_to_value (ct_catalog ct))) params echo_context).2) =
      Ok text_catalog
  | Err _ => False
  end.
Proof.
  destruct (@compile plain_text lenient_schema text_catalog) as [ct|e] eqn:E; [|vm_compute in E; discriminate].
  apply (@discover_roundtrip plain_text lenient_schema text_catalog ct echo_context E). vm_compute. reflexivity.
Defined.
