(* ===== verification/Examples.v ===== *)
(** * Two programs on top of the crate

    [examples/roundtrip.rs], the program of the cross-language round-trip check: one answer per
    line of its input.  And the parts of [examples/conformance_peer.rs] that decide something: its
    command line, whom it admits, where it dials, and what a session it serves publishes. *)

From S2P Require Import Prelude Json Wire Frame Validate Limits Serde JsonText FrameJson Ndjson NdjsonProps Port WebSocket Deadline Upgrade Session Dispatch Handle Conformance Catalog Contract ContractProps.
Local Open Scope Z_scope.

(** ** [roundtrip.rs] *)

Section roundtrip.
Context {RT : RustText} {SJ : SerdeJson}.

(** [BufRead::split]: a read that fails loses the line it was in. *)
Definition buf_split (input : bytes) (failure : option string) : list bytes :=
  complete input ++
  match failure with
  | Some _ => []
  | None => if decide (partial input = []) then [] else [partial input]
  end.

Definition ok_line (b : bytes) : bytes := to_bytes "OK" ++ "009"%char :: b ++ [newline].
Definition err_line (e : CodecError) : bytes := to_bytes "ERR" ++ "009"%char :: to_bytes (reason (kind e)) ++ [newline].

(** The loop of [main]: what it has written, and the error it returns. *)
Fixpoint roundtrip_lines (lines : list bytes) (failure : option string) : bytes * option string :=
  match lines with
  | [] => ([], failure)
  | line :: rest =>
      if is_blank line then roundtrip_lines rest failure
      else match decode_line line DEFAULT_MAX_FRAME_BYTES with
      | Ok frame =>
          match encode_frame_bytes frame DEFAULT_MAX_FRAME_BYTES with
          | Err error => ([], Some (show_codec_error error))
          | Ok b =>
              let '(out, failure) := roundtrip_lines rest failure in (ok_line b ++ out, failure)
          end
      | Err error =>
          let '(out, failure) := roundtrip_lines rest failure in (err_line error ++ out, failure)
      end
  end.

(** Standard input and how reading it ended; standard output takes what it is given. *)
Definition roundtrip_main (input : bytes) (failure : option string) : bytes * option string :=
  roundtrip_lines (buf_split input failure) failure.

(** ** What the answers are *)

(** The answer to one line, without its newline; [None] when the frame read does not fit once it is
    encoded again. *)
Definition answer_to (line : bytes) : option bytes :=
  match decode_line line DEFAULT_MAX_FRAME_BYTES with
  | Ok frame =>
      match encode_frame_bytes frame DEFAULT_MAX_FRAME_BYTES with
      | Ok b => Some (to_bytes "OK" ++ "009"%char :: b)
      | Err _ => None
      end
  | Err error => Some (to_bytes "ERR" ++ "009"%char :: to_bytes (reason (kind error)))
  end.

(** Every frame the lines hold is one serde_json reads back as it was written. *)
Definition stable_line (line : bytes) : Prop :=
  forall frame, decode_line line DEFAULT_MAX_FRAME_BYTES = Ok frame -> frame_stable frame = true.

Definition said (lines : list bytes) : list bytes := filter (fun line => is_blank line = false) lines.

Lemma roundtrip_lines_answers lines out : forall (failure : option string),
  roundtrip_lines lines failure = (out, None) ->
  failure = None /\ exists answers, Forall2 (fun line a => answer_to line = Some a) (said lines) answers /\
    out = concat (map (fun a => a ++ [newline]) answers).
Proof.
  revert out. induction lines as [|line lines IH]; intros out failure; simpl.
  - intros [= <- ->]. split; [done|]. by exists [].
  - unfold said. rewrite filter_cons. destruct (is_blank line) eqn:Eb.
    { rewrite decide_False by done. apply IH. }
    rewrite decide_True by done. fold (said lines).
    destruct (decode_line line _) as [frame|e] eqn:Ed; [destruct (encode_frame_bytes frame _) as [b|e] eqn:Ee; [|done]|];
      destruct (roundtrip_lines lines failure) as [out' r] eqn:Er; intros [= <- ->];
      destruct (IH _ _ Er) as (-> & answers & Ha & ->); (split; [done|]);
      eexists (_ :: answers); (split; [constructor; [unfold answer_to; by rewrite Ed, ?Ee|done]|]);
      cbn [map concat]; unfold ok_line, err_line; by rewrite <- !app_assoc, <- ?app_comm_cons.
Qed.

Context {SJL : SerdeJsonLaws}.

Lemma reason_one_line k : no_newline (to_bytes (reason k)).
Proof. destruct k; by repeat constructor. Qed.

Lemma answer_one_line line a : stable_line line -> answer_to line = Some a -> no_newline a.
Proof.
  intros Hst. unfold answer_to, no_newline. destruct (decode_line line _) as [frame|e] eqn:Ed.
  - destruct (encode_frame_bytes frame _) as [b|] eqn:Ee; [|done]. intros [= <-].
    apply encode_frame_bytes_Ok in Ee as (_ & _ & Hb & _). destruct (to_vec_shape _ _ (Hst _ Ed) Hb) as [Hn _].
    by do 3 (constructor; [done|]).
  - intros [= <-]. do 4 (constructor; [done|]). apply reason_one_line.
Qed.

Lemma concat_lines ls : Forall no_newline ls -> buf_split (concat (map (fun l => l ++ [newline]) ls)) None = ls.
Proof.
  unfold buf_split. induction 1 as [|l ls Hl _ IH]; [done|]. cbn [map concat]. rewrite <- app_assoc. cbn [app].
  destruct (complete_app_line l (concat (map (fun l => l ++ [newline]) ls)) Hl) as [-> ->]. cbn [app]. by rewrite IH.
Qed.

(** What is read from an answer and asked again is answered the same. *)
Lemma answer_again line b :
  stable_line line -> answer_to line = Some (to_bytes "OK" ++ "009"%char :: b) -> answer_to b = answer_to line /\ is_blank b = false.
Proof.
  unfold answer_to at 1 3. intros Hst. destruct (decode_line line _) as [frame|e] eqn:Ed; [|done].
  destruct (encode_frame_bytes frame _) as [b'|] eqn:Ee; [|done]. intros [= ->].
  unfold answer_to. rewrite (decode_encode _ _ _ (Hst _ Ed) Ee), Ee. split; [done|].
  apply encode_frame_bytes_Ok in Ee as (_ & _ & Hb & _). by destruct (to_vec_shape _ _ (Hst _ Ed) Hb) as (_ & _ & ?).
Qed.

(** The round-trip check.  When the program succeeds its output is one line for each line of
    its input that is not blank, in order, each saying what the codec makes of that line; and an
    [OK] answer's frame, asked on its own, is answered with itself. *)
Theorem roundtrip_answers (input out : bytes) (failure : option string) :
  Forall stable_line (buf_split input failure) -> roundtrip_main input failure = (out, None) ->
  failure = None /\
  Forall2 (fun line a => answer_to line = Some a /\
      forall b, a = to_bytes "OK" ++ "009"%char :: b -> roundtrip_main (b ++ [newline]) None = (a ++ [newline], None))
    (said (buf_split input failure)) (buf_split out None).
Proof.
  intros Hst (-> & answers & Ha & ->)%roundtrip_lines_answers. split; [done|].
  assert (Hst' : Forall stable_line (said (buf_split input None))) 
    by (rewrite Forall_forall in *; intros l [_ Hl]%list_elem_of_filter; by apply Hst).
  assert (Hn : Forall no_newline answers).
  { revert Hst'. induction Ha as [|line a ls as_ H _ IH]; intros Hs; [done|]. apply Forall_cons in Hs as [Hl Hs].
    constructor; [by eapply answer_one_line|by apply IH]. }
  rewrite concat_lines by done. clear Hn. revert Hst'.
  induction Ha as [|line a ls as_ H _ IH]; intros Hs; [constructor|]. apply Forall_cons in Hs as [Hl Hs].
  constructor; [|by apply IH]. split; [done|]. intros b ->. destruct (answer_again _ _ Hl H) as [Hb Hbl].
  assert (Hnb : no_newline b).
  { pose proof (answer_one_line _ _ Hl H) as Hx. by do 3 apply Forall_cons in Hx as [_ Hx]. }
  unfold roundtrip_main. pose proof (concat_lines [b] ltac:(by constructor)) as Hsplit. cbn [map concat] in Hsplit.
  rewrite app_nil_r in Hsplit. rewrite Hsplit. cbn [roundtrip_lines]. rewrite Hbl. rewrite H in Hb. unfold answer_to in Hb.
  destruct (decode_line b _) as [frame|e]; [|done]. destruct (encode_frame_bytes frame _) as [b'|]; [|done].
  injection Hb as ->. unfold ok_line. by rewrite app_nil_r, <- app_assoc, <- app_comm_cons.
Qed.
End roundtrip.

(** ** [conformance_peer.rs] *)

Inductive Mode : Type := Stdio | Ipc (path : string) | WebSocketMode (address : string) | Connect (target : string).

Record Arguments : Type := { ar_mode : Mode; ar_token : option string; ar_ignore_stdin : bool }.

Definition usage : string :=
  "usage: conformance_peer (--stdio | --ipc <path> | --ws <addr> | --connect <ws-url|path>) [--token <token>] [--ignore-stdin]".

Definition with_usage (message : string) : string := message +:+ String newline usage.

(** The loop of [parse] over what is left of the command line. *)
Fixpoint parse_from (argv : list string) (mode : option Mode) (token : option string) (ignore_stdin : bool) :
    result Arguments string :=
  match argv with
  | [] =>
      match mode with
      | Some mode => Ok {| ar_mode := mode; ar_token := token; ar_ignore_stdin := ignore_stdin |}
      | None => Err (with_usage "no mode given")
      end
  | argument :: rest =>
      let needs := Err (with_usage (argument +:+ " needs a value")) in
      if decide (argument = "--stdio") then parse_from rest (Some Stdio) token ignore_stdin
      else if decide (argument = "--ipc") then
        match rest with v :: rest => parse_from rest (Some (Ipc v)) token ignore_stdin | [] => needs end
      else if decide (argument = "--ws") then
        match rest with v :: rest => parse_from rest (Some (WebSocketMode v)) token ignore_stdin | [] => needs end
      else if decide (argument = "--connect") then
        match rest with v :: rest => parse_from rest (Some (Connect v)) token ignore_stdin | [] => needs end
      else if decide (argument = "--token") then
        match rest with v :: rest => parse_from rest mode (Some v) ignore_stdin | [] => needs end
      else if decide (argument = "--ignore-stdin") then parse_from rest mode token true
      else Err (with_usage ("unknown argument " +:+ argument))
  end.

Definition parse (argv : list string) : result Arguments string := parse_from argv None None false.

(** Where [connect] dials. *)
Inductive Dial : Type := DialWebSocket (url : string) (o : WebSocketConnectOptions) | DialIpc (path : string).

Definition connect_dial (target : string) (token : option string) : Dial :=
  if str_starts_with "ws://" target || str_starts_with "wss://" target
  then DialWebSocket target (match token with Some token => with_bearer connect_options_default token | None => connect_options_default end)
  else DialIpc target.

(** The closure [serve_websocket] gives to [accept_websocket]. *)
Definition peer_authorize (expected : option string) (upgrade : Upgrade) : result unit Z :=
  match expected, up_bearer upgrade with
  | None, _ => Ok tt
  | Some expected, Some offered => if decide (expected = offered) then Ok tt else Err close_codes.UNAUTHORIZED
  | Some _, None => Err close_codes.UNAUTHORIZED
  end.

Definition peer_options : SessionOptions := conformance_options conformance_b.

(** [publish]; [parsed] is what serde_json made of the catalog file. *)
Definition publish_catalog {RT : RustText} {JS : JsonSchema} (parsed : result Catalog string) (s : Shared) (next : Handler) :
    Shared * list Closure * result unit string :=
  match parsed with
  | Err text => (s, [], Err text)
  | Ok catalog =>
      match compile catalog with
      | Err e => (s, [], Err (show_validation_error e))
      | Ok contract =>
          let '(s, closures, r) := serve contract s [] serve_options_default next in
          match r with
          | Err e => (s, closures, Err (show_validation_error e))
          | Ok guards => (drop_guards s (serve_persist guards), closures, Ok tt)
          end
      end
  end.

(** *** The command line *)

(** What one option says and how it is spelled. *)
Inductive Flag : Type := FMode (m : Mode) | FToken (token : string) | FIgnoreStdin.

Definition spell (f : Flag) : list string :=
  match f with
  | FMode Stdio => ["--stdio"]
  | FMode (Ipc path) => ["--ipc"; path]
  | FMode (WebSocketMode address) => ["--ws"; address]
  | FMode (Connect target) => ["--connect"; target]
  | FToken token => ["--token"; token]
  | FIgnoreStdin => ["--ignore-stdin"]
  end.

(** The last option of a kind counts. *)
Definition read_flag (st : option Mode * option string * bool) (f : Flag) : option Mode * option string * bool :=
  let '(mode, token, ignore_stdin) := st in
  match f with
  | FMode m => (Some m, token, ignore_stdin)
  | FToken t => (mode, Some t, ignore_stdin)
  | FIgnoreStdin => (mode, token, true)
  end.

Definition arguments_of (st : option Mode * option string * bool) : result Arguments string := parse_from [] st.1.1 st.1.2 st.2.

Lemma parse_from_spelled flags : forall mode token ignore_stdin,
  parse_from (concat (map spell flags)) mode token ignore_stdin = arguments_of (foldl read_flag (mode, token, ignore_stdin) flags).
Proof. induction flags as [|[[]| |] flags IH]; intros; [done|..]; cbn -[decide]; rewrite ?IH; done. Qed.

Lemma parse_from_sound n : forall argv mode token ignore_stdin a, (length argv <= n)%nat ->
  parse_from argv mode token ignore_stdin = Ok a -> exists flags, argv = concat (map spell flags).
Proof.
  induction n as [|n IH]; intros [|x argv] mode token ignore_stdin a Hn; try (intros _; by exists []); [simpl in Hn; lia|].
  cbn [parse_from]. simpl in Hn.
  assert (Hone : forall f, spell f = [x] -> (exists flags, argv = concat (map spell flags)) ->
    exists flags, x :: argv = concat (map spell flags)).
  { intros f Hf [flags ->]. exists (f :: flags). cbn [map concat]. by rewrite Hf. }
  assert (Htwo : forall v rest f, argv = v :: rest -> spell f = [x; v] -> (exists flags, rest = concat (map spell flags)) ->
    exists flags, x :: argv = concat (map spell flags)).
  { intros v rest f -> Hf [flags ->]. exists (f :: flags). cbn [map concat]. by rewrite Hf. }
  assert (Hshort : forall v rest, argv = v :: rest -> (length rest <= n)%nat) by (intros v rest ->; simpl in Hn; lia).
  repeat (case_decide as Hx;
    [subst x; first
      [ destruct argv as [|v rest]; [done|]; intros Hp; apply IH in Hp; [|by eapply Hshort];
        first [ by eapply (Htwo v rest (FMode (Ipc v))) | by eapply (Htwo v rest (FMode (WebSocketMode v)))
              | by eapply (Htwo v rest (FMode (Connect v))) | by eapply (Htwo v rest (FToken v)) ]
      | intros Hp; apply IH in Hp; [|lia]; first [by eapply (Hone (FMode Stdio)) | by eapply (Hone FIgnoreStdin)] ]
    |clear Hx]); done.
Qed.

(** The command line.  [parse] accepts exactly the sequences of options it documents that name a
    mode, and reads from them the last mode, the last token and whether stdin is to be ignored;
    anything may be a value, even what looks like an option. *)
Theorem parse_exact (argv : list string) (a : Arguments) :
  parse argv = Ok a <->
  exists flags mode, argv = concat (map spell flags) /\
    foldl read_flag (None, None, false) flags = (Some mode, ar_token a, ar_ignore_stdin a) /\ ar_mode a = mode.
Proof.
  split.
  - intros H. destruct (parse_from_sound _ _ _ _ _ _ (Nat.le_refl _) H) as [flags ->].
    unfold parse in H. rewrite parse_from_spelled in H.
    destruct (foldl read_flag _ flags) as [[[mode|] token] ignore_stdin] eqn:E; [|done].
    injection H as <-. by exists flags, mode.
  - intros (flags & mode & -> & Hf & Hm). unfold parse. rewrite parse_from_spelled, Hf. destruct a. simpl in *. by subst.
Qed.

(** *** Whom it admits *)

(** The peer's credential.  The example peer hands a port to an upgrade exactly when it offers
    the subprotocol, comes with no origin, and carries the configured token, or any when there is
    none; for an upgrade that fails only by its token the close code is 4401. *)
Theorem peer_admits {RT : RustText} {M : Type} {HM : HeaderMap M} {HT : HeaderText} {HTL : HeaderTextLaws}
    (request : M) (token : option string) (socket : WebSocketOptions) :
  let a := accept_websocket (Ok request) (accept_options_from socket) (peer_authorize token) in
  let bearer := up_bearer (upgrade_read request) in
  (ac_answer a = Ok socket <->
     offers request /\ header_get request ORIGIN = None /\ (token = None \/ is_Some token /\ bearer = token)) /\
  (offers request -> header_get request ORIGIN = None -> is_Some token -> bearer <> token ->
     ac_answer a = Err (AUnauthorized close_codes.UNAUTHORIZED) /\
     ac_closed a = Some (close_codes.UNAUTHORIZED, "credential refused")).
Proof.
  intros a bearer. pose proof (offered_iff request) as Hoff. pose proof (origin_iff [] request) as Hor.
  assert (Hnone : origin_admitted [] request <-> header_get request ORIGIN = None).
  { unfold origin_admitted. split; [intros [?|(e & [] & _)]; done|by left]. }
  assert (Hauth : peer_authorize token (upgrade_read request) =
    if decide (token = None \/ is_Some token /\ bearer = token) then Ok tt else Err close_codes.UNAUTHORIZED).
  { unfold peer_authorize. fold bearer. destruct token as [t|], bearer as [b|]; repeat case_decide; naive_solver. }
  rewrite Hnone in Hor. unfold a, accept_websocket. cbn [accept_options_from ao_allowed_origins ao_socket]. rewrite Hauth.
  destruct (up_offered_subprotocol (upgrade_read request)); cbn [negb];
    [destruct (up_origin_undecodable _ || _); [|case_decide]|]; cbn [ac_answer ac_closed]; (split; [split|]); naive_solver.
Qed.

(** *** What it publishes *)

(** A session the peer serves answers [rpc.discover] with the catalog when the catalog compiles, and
    has no other handler than it had: a declared method stays unsupported. *)
Theorem peer_publishes {RT : RustText} {JS : JsonSchema} (parsed : result Catalog string) (s : Shared) (next : Handler) :
  let '(s', closures, r) := publish_catalog parsed s next in
  match r with
  | Ok _ => exists catalog contract, parsed = Ok catalog /\ compile catalog = Ok contract /\
      closures = [DiscoverClosure (catalog_to_value (ct_catalog contract))] /\
      sh_handlers s' = <[RPC_DISCOVER := (sh_next_generation s, next)]> (sh_handlers s)
  | Err _ => s' = s /\ closures = []
  end.
Proof.
  unfold publish_catalog. destruct parsed as [catalog|text]; [|done].
  destruct (compile catalog) as [contract|e] eqn:Hc; [|done]. cbn [serve discover serve_options_default].
  cbn [handle register_handler serve_methods]. rewrite drop_persisted. by exists catalog, contract.
Qed.

(** ** Witnesses *)

Definition asked : bytes := to_bytes (double_quotes ("{'type':'ping' }" +:+ String newline (String newline "{'type':'nope'}"))).
Definition answered : bytes :=
  to_bytes (double_quotes ("OK" +:+ String "009" "{'type':'ping'}" +:+ String newline "ERR" +:+ String "009" "schema" +:+ String newline "")).

Lemma roundtrip_answers_witness : Forall2 (fun line a => answer_to line = Some a) (said (buf_split asked None)) (buf_split answered None).
Proof.
  refine (Forall2_impl _ _ _ _ (proj2 (roundtrip_answers asked answered None _ _)) (fun line a H => proj1 H)).
  - let l := eval vm_compute in (buf_split asked None) in change (buf_split asked None) with l.
    repeat (apply Forall_cons_2; [intros frame H; vm_compute in H; first [discriminate H|injection H as <-; reflexivity]|]); apply Forall_nil_2.
  - vm_compute. reflexivity.
Defined.

Lemma peer_admits_witness :
  ac_answer (accept_websocket (Ok native_request) (accept_options_from websocket_options_default) (peer_authorize (Some "s3cret"))) =
  Ok websocket_options_default.
Proof.
  apply (peer_admits native_request (Some "s3cret") websocket_options_default). split; [|split; [reflexivity|right; split; [by eexists|reflexivity]]].
  exists (to_bytes "chat, mango.v1"), "chat, mango.v1", " mango.v1". split; [left; reflexivity|].
  split; [reflexivity|]. split; [right; left; reflexivity|reflexivity].
Defined.

Example parse_last_mode : parse ["--stdio"; "--token"; "--ws"; "--connect"; "ws://hub"] =
  Ok {| ar_mode := Connect "ws://hub"; ar_token := Some "--ws"; ar_ignore_stdin := false |}.
Proof. reflexivity. Qed.
