(* ===== verification/Scenario.v ===== *)
(** * A concrete session

    One session followed from its opening to its close over a memory port: the hellos, an inbound
    request and its answer, an outbound call and its answer, two events, a liveness round and a
    close.  Every property of a running session is applied to it. *)

From S2P Require Import Prelude Json Wire Frame Validate Limits Serde FrameJson Ndjson NdjsonProps Port Session Dispatch DispatchProps Driver Handle System Lifecycle Outbound Responses Replies Streams Closing ClosingProps Handshake Requests Origins Duplex DuplexProps.
Local Open Scope Z_scope.

Definition hub_peer : PeerInfo := {| peer_name := "hub"; peer_version := "1.0.0"; peer_role := "hub" |}.
Definition tool_peer : PeerInfo := {| peer_name := "tool"; peer_version := "0.3.1"; peer_role := "tool" |}.

Definition hub_options : SessionOptions := with_handler (session_options_new hub_peer) "svc.echo" 7%nat.
Definition tool_options : SessionOptions := with_request_id_prefix (session_options_new tool_peer) "t".

Definition hub_tx : MemoryPortTx :=
  {| mt_max_frame_bytes := None; mt_validate_frames := false; mt_sender := unbounded_channel |}.

(** A value the code cannot fail to produce here; the default is never used. *)
Definition opened_or {A} (default : A) (r : panics A) : A := match r with Ok a => a | Err _ => default end.

Definition hub : World MemoryPortTx := Eval vm_compute in
  opened_or (mkWorld (open_driver (mkShared
      {| local_peer := hub_peer; local_protocol := PROTOCOL_VERSION; local_capabilities := [];
         local_max_frame_bytes := 0; cfg_max_in_flight := 0; cfg_max_stream_keys := 0;
         request_id_prefix := EmptyString; handler_grace := 0 |}
      Handshaking None None None unbounded_channel 0 0 ∅ 0 ∅ [] [] ∅ ∅ 0) hub_tx hub_options)
    None ∅ 0%nat [] [] [])
    (world_open None hub_tx hub_options ∅).

Lemma hub_opens : world_open None hub_tx hub_options ∅ = Ok hub.
Proof. vm_compute. reflexivity. Qed.

Definition quiet : Wakeups :=
  {| wk_sleep := false; wk_tick := false; wk_settled := None; wk_inbound := Pending |}.
Definition hears (f : Frame) : Action MemoryPortTx :=
  ALoop {| wk_sleep := false; wk_tick := false; wk_settled := None;
           wk_inbound := Polled (Some (IFrame f)) |} ∅.
Definition settles (t : nat) (v : Value) : Action MemoryPortTx :=
  ALoop {| wk_sleep := false; wk_tick := false; wk_settled := Some (Ok (t, Ok v));
           wk_inbound := Pending |} ∅.
Definition turns : Action MemoryPortTx := ALoop quiet ∅.

Definition tool_hello : Hello :=
  {| hello_protocol := PROTOCOL_VERSION; hello_peer := tool_peer; hello_capabilities := []; hello_limits := None |}.
Definition tool_request : Frame :=
  FReq {| req_id := "t-1"; req_method := "svc.echo"; req_params := from_u64 5 |}.
Definition progress (last : bool) : EventInput :=
  {| ei_topic := "job.progress"; ei_payload := from_u64 1; ei_stream_id := None; ei_end := last |}.

(** The hub meets the tool, runs a request of it, emits two events and calls it. *)
Definition meeting : list (Action MemoryPortTx) :=
  [hears (FHello tool_hello); hears tool_request; AEmit (progress false); turns; AEmit (progress true); turns;
   ARequest "tool.run" Null (Some (from_secs 2)); turns].

(** The handler settles, the tool answers, and the hub closes with one more call in flight. *)
Definition parting : list (Action MemoryPortTx) :=
  [settles 0%nat (from_u64 5); hears (FRes {| res_id := "r-1"; res_result := VBool true |});
   ARequest "tool.stop" Null None; turns; AClose 1000 (Some "done"); turns].

Definition met : World MemoryPortTx := Eval vm_compute in run_actions hub meeting.
Definition parted : World MemoryPortTx := Eval vm_compute in run_actions hub (meeting ++ parting).

Lemma run_met : run_actions hub meeting = met.
Proof. vm_compute. reflexivity. Qed.
Lemma run_parted : run_actions hub (meeting ++ parting) = parted.
Proof. vm_compute. reflexivity. Qed.

(** ** The properties of a run, on this one *)

Lemma response_guarantee_witness :
  answers "t-1" (wo_enqueued parted) <= occurrences "t-1" (wo_routed parted) /\
  occurrences "t-1" (wo_routed met) =
    answers "t-1" (wo_enqueued met) + is_active (d_tracking (wo_driver met)) "t-1".
Proof.
  rewrite <- run_parted, <- run_met. split.
  - apply (response_guarantee None hub_tx hub_options ∅ hub _ "t-1" hub_opens).
  - apply (response_guarantee None hub_tx hub_options ∅ hub meeting "t-1" hub_opens). vm_compute. reflexivity.
Defined.

Lemma tracking_invariant_witness :
  sh_in_flight (d_shared (wo_driver met)) = 1 /\
  0 <= sh_in_flight (d_shared (wo_driver met)) <= cfg_max_in_flight (sh_cfg (d_shared (wo_driver met))).
Proof.
  split; [reflexivity|]. rewrite <- run_met.
  apply (tracking_invariant None hub_tx hub_options ∅ hub meeting hub_opens). vm_compute. reflexivity.
Defined.

Lemma outbound_preflight_witness :
  length (wo_enqueued parted) = 5%nat /\
  Forall (fun f => match f with
    | FErr _ => True
    | FHello _ | FClose _ => False
    | FPing | FPong | FCancel _ => schema_valid f
    | FReq _ | FRes _ | FEvt _ =>
        schema_valid f /\ within_limits (d_shared (wo_driver parted)) f
    end) (wo_enqueued parted).
Proof.
  split; [reflexivity|]. rewrite <- run_parted.
  exact (outbound_preflight None hub_tx hub_options ∅ hub (meeting ++ parting) hub_opens).
Defined.

Lemma no_call_hangs_witness : exists f outcome,
  wo_futures parted !! 1%nat = Some f /\
  request_poll (d_shared (wo_driver parted)) (d_oneshots (wo_driver parted)) f true true =
  (d_shared (wo_driver parted), disarm f (rf_cancel_sent f) false, Polled outcome).
Proof.
  eexists. edestruct (no_call_hangs None hub_tx hub_options ∅ hub (meeting ++ parting) 1%nat) as [outcome H].
  - exact hub_opens.
  - rewrite run_parted. by eexists.
  - rewrite run_parted. vm_compute. reflexivity.
  - rewrite run_parted in H. exists outcome. split; [vm_compute; reflexivity|exact H].
Defined.

Lemma answered_once_witness :
  d_oneshots (wo_driver (run_actions hub ((meeting ++ parting) ++ parting))) !! 0%nat =
  Some (OSent (Ok (VBool true))).
Proof.
  apply (answered_once None hub_tx hub_options ∅ hub (meeting ++ parting) parting _ _ hub_opens).
  rewrite run_parted. reflexivity.
Defined.

Lemma response_correlates_witness :
  d_oneshots (on_frame (wo_driver met) (FRes {| res_id := "r-1"; res_result := VBool true |})).1 !! 0%nat =
  Some (OSent (Ok (VBool true))).
Proof.
  pose proof (response_correlates (wo_driver met) "r-1" _ (Ok (VBool true)) (or_introl (conj eq_refl eq_refl))) as H.
  destruct (on_frame _ _) as [d' t]. destruct H as (_ & H & _). refine (H {| pr_method := "tool.run"; pr_reply := 0%nat |} _).
  vm_compute. reflexivity.
Defined.


Lemma request_ids_unique_witness :
  request_ids (wo_commands parted) = ["r-1"; "r-2"] /\ NoDup (request_ids (wo_commands parted)).
Proof.
  split; [reflexivity|]. rewrite <- run_parted.
  apply (request_ids_unique None hub_tx hub_options ∅ hub _ hub_opens). vm_compute. discriminate.
Defined.

Lemma session_lifecycle_witness :
  sh_ready (d_shared (wo_driver parted)) = sh_ready (d_shared (wo_driver met)) /\
  is_Some (sh_ready (d_shared (wo_driver met))).
Proof.
  rewrite <- run_parted, <- run_met.
  destruct (session_lifecycle None hub_tx hub_options ∅ hub meeting parting hub_opens) as (_ & _ & _ & H & _).
  destruct (sh_ready (d_shared (wo_driver (run_actions hub meeting)))) as [r|] eqn:E;
    [split; [by apply H|by eexists]|].
  rewrite run_met in E. vm_compute in E. discriminate.
Defined.

(** ** The handshake, calls and closing *)

Definition hub_shared : Shared := Eval vm_compute in
  opened_or (d_shared (wo_driver hub)) (open_shared None hub_options).
Definition tool_shared : Shared := Eval vm_compute in
  opened_or (d_shared (wo_driver hub)) (open_shared None tool_options).

Lemma handshake_agreement_witness :
  sh_state (on_hello hub_shared (build_hello tool_shared)).1 = Ready /\
  sh_state (on_hello tool_shared (build_hello hub_shared)).1 = Ready.
Proof.
  edestruct (handshake_agreement None None hub_options tool_options hub_shared tool_shared)
    as [(_ & _ & _ & Ha & Hb & _)|(Hm & _)].
  - vm_compute. reflexivity.
  - vm_compute. reflexivity.
  - vm_compute. repeat split; discriminate.
  - vm_compute. repeat split; discriminate.
  - apply surjective_pairing.
  - apply surjective_pairing.
  - split; [exact Ha|exact Hb].
  - exfalso. apply Hm. reflexivity.
Defined.

Lemma liveness_rule_witness :
  let d := wo_driver met in
  let d1 := (on_branch d BLivenessTick).1 in
  on_branch d1 BLivenessTick = (d1, Some (TLocal 4000 (Some "liveness timeout"))).
Proof.
  refine (proj1 (proj2 (proj2 (liveness_rule (wo_driver met) _ _ [] _ _ (surjective_pairing _) _ _)))).
  - reflexivity.
  - apply Forall_nil. exact I.
  - reflexivity.
Defined.

Lemma teardown_fails_pending_witness :
  exists e, d_oneshots (teardown (wo_driver met) (TPort (PClosed None None)) ∅).1 !! 0%nat = Some (OSent (Err e)) /\
    re_code e = codes.UNAVAILABLE.
Proof.
  edestruct (teardown_fails_pending (wo_driver met) (TPort (PClosed None None)) ∅ "r-1"
    {| pr_method := "tool.run"; pr_reply := 0%nat |}) as (e & H1 & H2 & _).
  - vm_compute. repeat constructor. by intros ?%elem_of_nil.
  - vm_compute. reflexivity.
  - exists e. split; [exact H1|exact H2].
Defined.

Lemma handler_error_unchecked_witness :
  let e := {| re_code := "BROKEN"; re_message := EmptyString; re_details := None |} in
  w_queue (on_handler_settled (d_shared (wo_driver met)) (d_tracking (wo_driver met)) (d_writer (wo_driver met))
    (Ok (0%nat, Err e))).2 = w_queue (d_writer (wo_driver met)) ++ [error_frame "t-1" e] /\
  ~ schema_valid (error_frame "t-1" e).
Proof.
  intros e. edestruct (handler_error_unchecked (d_shared (wo_driver met)) (d_tracking (wo_driver met))
    (d_writer (wo_driver met)) 0%nat "t-1" {| ar_cancel := 0%nat; ar_method := "svc.echo" |} e) as [H1 H2].
  - vm_compute. reflexivity.
  - vm_compute. reflexivity.
  - rewrite H1. split; [reflexivity|by apply H2].
Defined.

Lemma request_poll_outcomes_witness :
  let s := d_shared (wo_driver met) in
  let f := {| rf_id := "r-1"; rf_method := "tool.run"; rf_reply := 0%nat; rf_timeout := Some (from_secs 2);
              rf_cancel_sent := false; rf_armed := true |} in
  let '(s', _, _) := request_poll s ∅ f true true in
  ch_queue (sh_commands s') = ch_queue (sh_commands s) ++ [CmdCancel "r-1" true] ++ [CmdCancel "r-1" false].
Proof.
  intros s f. pose proof (request_poll_outcomes s ∅ f true true eq_refl eq_refl) as H.
  destruct (request_poll s ∅ f true true) as [[s' f'] r]. simpl in H. by destruct H as (_ & _ & H).
Defined.

Lemma stale_guard_harmless_witness :
  let '(s1, g) := handle (d_shared (wo_driver met)) "svc.echo" 8%nat in
  let '(s2, _) := handle s1 "svc.echo" 9%nat in
  guard_drop s2 g = s2.
Proof.
  refine (proj1 (stale_guard_harmless (d_shared (wo_driver met)) _ _ "svc.echo" 8%nat 9%nat _ _ _ eq_refl eq_refl)).
  vm_compute. split; [discriminate|reflexivity].
Defined.

(** ** Two sessions *)

(** ** Closing, with the others at work *)

(** The parting up to the turn that takes the [close] command. *)
Definition leaving : list (Action MemoryPortTx) := meeting ++ take 5 parting.

Definition placeholder : Closing MemoryPortTx := mkClosing hub (TLocal 0 None) Returned.

Definition begun : Closing MemoryPortTx := Eval vm_compute in
  default placeholder (begin_teardown (run_actions hub leaving) quiet).

Lemma leaves : begin_teardown (run_actions hub leaving) quiet = Some begun.
Proof. vm_compute. reflexivity. Qed.

(** A caller that saw the session ready sends its request after the state has flipped; an event
    follows it, a new subscriber comes after the others were dropped, and a clone closes again. *)
Definition disturbed : list (Occurrence MemoryPortTx) :=
  [EMove MNext; ELateRequest "tool.late" Null None; ELateEmit (progress false); ECall (AWriter false); ECall (AWriter false);
   ECall (AWriter false); ECall (AWriter false); ECall (AWriter false); EMove MNext; EMove MNext; EMove (MFail "r-2"); ECall (AClose 4000 None);
   EMove MNext; EMove MNext; EMove MNext; EMove MNext; ECall ASubscribeEvents; EMove MNext; EMove MGraceOver; EMove MNext; EMove MNext].

Definition ended_up : Closing MemoryPortTx := Eval vm_compute in happens begun disturbed.

Lemma run_disturbed : happens begun disturbed = ended_up.
Proof. vm_compute. reflexivity. Qed.

Lemma closing_races_witness : exists closure f outcome,
  sh_closure (d_shared (wo_driver (cl_world ended_up))) = Some closure /\ sc_code closure = 1000 /\
  d_pending (wo_driver (cl_world ended_up)) = ∅ /\
  wo_futures (cl_world ended_up) !! 2%nat = Some f /\
  request_poll (d_shared (wo_driver (cl_world ended_up))) (d_oneshots (wo_driver (cl_world ended_up))) f false false =
  (d_shared (wo_driver (cl_world ended_up)), disarm f (rf_cancel_sent f) false, Polled outcome).
Proof.
  pose proof (closing_races None hub_tx hub_options ∅ hub leaving quiet begun disturbed hub_opens leaves) as H.
  rewrite run_disturbed in H. destruct H as [Hpub Hret].
  destruct (Hpub _ eq_refl) as (_ & _ & _ & _ & Hp & _).
  destruct (Hret _ eq_refl) as [Hc Hpoll].
  destruct (Hpoll 2%nat _ false false eq_refl) as [outcome Ho].
  do 2 eexists. exists outcome. split; [exact Hc|]. split; [reflexivity|]. split; [exact Hp|]. split; [reflexivity|exact Ho].
Defined.

(** The same crowd, with the driver's own turns interspersed. *)
Definition crowd : list (option (Occurrence MemoryPortTx)) :=
  concat (map (fun e => [Some e; None]) disturbed).

(** The crowd without the writer: the send under way does not complete. *)
Definition stuck_crowd : list (option (Occurrence MemoryPortTx)) := filter (fun e => is_send e = false) crowd.


Lemma teardown_is_its_steps_witness : exists report,
  happens begun (alone (wo_driver (cl_world begun)) ["r-2"] []) =
  mkClosing (with_report (act (run_actions hub leaving) (ALoop quiet ∅)) report) (cl_reason begun) Returned.
Proof.
  refine (teardown_is_its_steps None hub_tx hub_options ∅ hub leaving quiet begun ["r-2"] [] hub_opens leaves _ _ _ _).
  - apply NoDup_singleton.
  - intros id. split.
    + intros ->%list_elem_of_singleton. by eexists.
    + intros [req H]. apply list_elem_of_singleton. destruct (decide (id = "r-2")) as [|Hne]; [done|].
      change (d_pending (wo_driver (cl_world begun))) with (({[ "r-2" := default req (d_pending (wo_driver (cl_world begun)) !! "r-2") ]} : gmap string PendingRequest)) in H.
      rewrite lookup_singleton_ne in H by done. done.
  - constructor.
  - intros t Ht. by apply not_elem_of_nil in Ht.
Defined.

Lemma late_subscription_never_ends_witness : exists ch,
  sh_event_channels (d_shared (wo_driver (run_actions (act parted ASubscribeEvents) (meeting ++ parting)))) !!
    (subscribe_events (d_shared (wo_driver parted))).2 = Some ch /\ ch_recv ch = (ch, Pending).
Proof. apply (late_subscription_never_ends parted (meeting ++ parting)). by eexists. Defined.

(** The hub and the tool, each a session of its own, over one plain pair. *)
Definition plain_pair : MemoryPortOptions := {| mo_max_frame_bytes := None; mo_validate_frames := false |}.

Definition turn (s : Side) : DuplexAction := DLoop s false false None ∅.
Definition finishes (s : Side) (t : nat) (v : Value) : DuplexAction := DLoop s false false (Some (Ok (t, Ok v))) ∅.

(** The hellos cross, the tool calls the hub, the hub emits, its handler settles and the answer
    reaches the tool. *)
Definition conversation : list DuplexAction :=
  [turn SideA; turn SideB; DCall SideB (ARequest "svc.echo" (from_u64 5) None); turn SideB; DWriter SideB; turn SideA;
   DCall SideA (AEmit (progress false)); turn SideA; DWriter SideA; finishes SideA 0%nat (from_u64 5);
   DWriter SideA; turn SideB; turn SideB].

Definition joined : Duplex := Eval vm_compute in
  match duplex_open plain_pair hub_options tool_options with
  | Ok x => x
  | Err _ => mkDuplex (mkEndpoint (mkLogged hub [] []) false) (mkEndpoint (mkLogged hub [] []) false)
  end.

Lemma pair_opens : duplex_open plain_pair hub_options tool_options = Ok joined.
Proof. vm_compute. reflexivity. Qed.

Definition talked : Duplex := Eval vm_compute in dx_run joined conversation.

Lemma run_talked : dx_run joined conversation = talked.
Proof. vm_compute. reflexivity. Qed.

Lemma conversation_short : Z.of_nat (length conversation) <= u64_max.
Proof. vm_compute. discriminate. Qed.


Definition echo_call : RequestFuture :=
  {| rf_id := "t-1"; rf_method := "svc.echo"; rf_reply := 0%nat; rf_timeout := None; rf_cancel_sent := false;
     rf_armed := true |}.

Lemma call_end_to_end_witness : exists c,
  (c, Ok (from_u64 5)) ∈ lg_settled (ep_log (dx_a talked)) /\
  CmdRequest (FReq (call_request c)) 0%nat ∈ wo_commands (ep_world (dx_b talked)).
Proof.
  pose proof (call_end_to_end plain_pair hub_options tool_options joined conversation SideB pair_opens eq_refl conversation_short
    echo_call true true (Ok (from_u64 5))) as H.
  rewrite run_talked in H. apply H. vm_compute. reflexivity.
Defined.

Lemma requests_at_most_once_witness :
  NoDup (wo_routed (ep_world (dx_a talked))) /\ wo_routed (ep_world (dx_a talked)) = ["t-1"].
Proof.
  pose proof (requests_at_most_once plain_pair hub_options tool_options joined conversation SideB pair_opens eq_refl conversation_short) as H.
  rewrite run_talked in H. split; [exact (proj1 H)|reflexivity].
Defined.


