(* ===== verification/TestKit.v ===== *)
(** * The test harness

    The crate's unit tests are programs that end or panic.  Here a test is a value of the panic
    monad, the assertion macros are its primitives, and a suite is a list of named tests.  The tests
    run on the codec of [FrameJson.v]. *)

From S2P Require Import Prelude Text Json Limits Serde JsonText FrameJson.
Local Open Scope Z_scope.

Definition Test : Type := panics unit.

(** [assert!], [assert_eq!]. *)
Definition assert (b : bool) : Test := if b then Ok tt else Err "assertion failed".
Definition assert_eq {A} `{EqDecision A} (left right : A) : Test :=
  if bool_decide (left = right) then Ok tt else Err "assertion `left == right` failed".

(** [Result::expect], [Result::expect_err], [Option::expect]. *)
Definition expect {A E} (r : result A E) (msg : string) : panics A :=
  match r with Ok a => Ok a | Err _ => Err msg end.
Definition expect_err {A E} (r : result A E) (msg : string) : panics E :=
  match r with Ok _ => Err msg | Err e => Ok e end.
Definition expect_some {A} (o : option A) (msg : string) : panics A :=
  match o with Some a => Ok a | None => Err msg end.

(** Statements one after the other: the first panic ends the test. *)
Fixpoint in_turn (tests : list Test) : Test :=
  match tests with
  | [] => Ok tt
  | test :: rest => let? _ := test in in_turn rest
  end.

(** [for item in items { .. }]. *)
Definition for_all {A} (items : list A) (body : A -> Test) : Test := in_turn (map body items).

(** [codec/limits.rs]: what a panic says. *)
Definition panic_message {A} (body : panics A) : panics string :=
  expect_err body "expected a panic, the builder returned".

(** [str::repeat] of a one-character string, [vec![byte; n]]. *)
Definition str_repeat (c : u8) (n : Z) : string := of_bytes (repeat c (Z.to_nat n)).
Definition vec_of (c : u8) (n : Z) : bytes := repeat c (Z.to_nat n).

(** A literal with its double quotes written as single ones. *)
Definition json_text (text : string) : string :=
  of_bytes (map (fun c => if bool_decide (c = "'"%char) then quote else c) (to_bytes text)).
Definition end_of_line : string := String "010" EmptyString.
Definition json_bytes (text : string) : bytes := to_bytes (json_text text).

(** [serde_json::to_string], [from_str] of a type with reader [read], and [value[key]]. *)
Definition to_text (v : Value) : string := of_bytes (print_value v).
Definition from_text {A} (read : Value -> decoded A) (text : string) : result A string :=
  match parse_json (to_bytes text) with
  | Some (v, rest) => if bool_decide (skip_space rest = []) then read v else Err "trailing characters"
  | None => Err "expected value"
  end.
Definition index_of (v : Value) (key : string) : Value :=
  match v with VObject m => default Null (map_get key m) | _ => Null end.

(** The tests of a suite that do not pass. *)
Definition failures (s : list (string * Test)) : list string := map fst (filter (fun t => t.2 <> Ok tt) s).
