(* ===== verification/TestsWire.v ===== *)
(** * The unit tests of versions, close codes, errors, frames and validation

    The [tests] modules of [version.rs], [close.rs], [error.rs], [frame.rs] and [validate.rs], test
    by test, run on the definitions of [Wire.v], [Frame.v], [FrameJson.v] and [Validate.v].  Where a
    test looks into the text of one of serde's own errors, only that there is an error is kept. *)

From S2P Require Import Prelude Text Json Wire Frame Validate Limits Serde JsonText FrameJson TestKit.
Local Open Scope Z_scope.

(** ** [version.rs] *)

Definition crate_speaks_wire_one_one : Test := assert_eq PROTOCOL_VERSION (version_new 1 1).

Definition equal_minors_negotiate_that_minor : Test :=
  assert_eq (negotiate (version_new 1 0) (version_new 1 0)) (Compatible 0).

Definition a_newer_remote_is_capped_at_the_local_minor : Test :=
  assert_eq (negotiate (version_new 1 0) (version_new 1 3)) (Compatible 0).

Definition a_newer_local_is_capped_at_the_remote_minor : Test :=
  assert_eq (negotiate (version_new 1 5) (version_new 1 2)) (Compatible 2).

Definition different_majors_mismatch_with_4426_in_both_directions : Test :=
  let higher := negotiate (version_new 1 0) (version_new 2 0) in
  let lower := negotiate (version_new 2 1) (version_new 1 9) in
  in_turn [assert_eq higher (Mismatch 4426); assert_eq lower (Mismatch 4426)].

Definition effective_minor_is_none_on_a_mismatch : Test :=
  assert_eq (negotiated_minor (negotiate (version_new 1 0) (version_new 2 0))) None.

Definition round_trips_as_json : Test :=
  let text := to_text (version_to_json (version_new 1 7)) in
  let? _ := assert_eq text (json_text "{'major':1,'minor':7}") in
  let? back := expect (from_text as_version text) "deserialises" in
  assert_eq back (version_new 1 7).

(** ** [close.rs] *)

Definition the_fatal_set_is_exactly_the_four_listed_codes : Test :=
  in_turn [for_all [4401; 4403; 4409; 4426] (fun code => assert (is_fatal_close_code code));
           for_all [4000; 4400; 4429; 4500; 4777] (fun code => assert (negb (is_fatal_close_code code)))].

Definition every_named_code_round_trips_through_its_name : Test :=
  for_all
    [(close_codes.RELEASED, "RELEASED"); (close_codes.PROTOCOL_ERROR, "PROTOCOL_ERROR");
     (close_codes.UNAUTHORIZED, "UNAUTHORIZED"); (close_codes.FORBIDDEN, "FORBIDDEN");
     (close_codes.SUPERSEDED, "SUPERSEDED"); (close_codes.PROTOCOL_MISMATCH, "PROTOCOL_MISMATCH");
     (close_codes.RATE_LIMITED, "RATE_LIMITED"); (close_codes.INTERNAL, "INTERNAL")]
    (fun '(code, name) => assert_eq (close_code_name code) (Some name)).

Definition an_unlisted_code_in_range_has_no_name : Test := assert_eq (close_code_name 4777) None.

Definition the_allowed_range_is_the_private_websocket_range : Test :=
  assert_eq (MIN_CLOSE_CODE, MAX_CLOSE_CODE) (4000, 4999).

Definition an_unreadable_hello_closes_with_protocol_mismatch : Test :=
  let error := with_frame_type (codec_error Schema "missing peer") "hello" in
  assert_eq (close_code_for_codec_error error) close_codes.PROTOCOL_MISMATCH.

Definition a_schema_refusal_of_any_other_frame_type_closes_with_protocol_error : Test :=
  let error := with_frame_type (codec_error Schema "bad method name") "req" in
  assert_eq (close_code_for_codec_error error) close_codes.PROTOCOL_ERROR.

Definition a_schema_refusal_with_no_frame_type_closes_with_protocol_error : Test :=
  let error := codec_error Schema "not an object" in
  assert_eq (close_code_for_codec_error error) close_codes.PROTOCOL_ERROR.

Definition a_non_schema_refusal_of_hello_still_closes_with_protocol_error : Test :=
  let error := with_frame_type (codec_error InvalidJson "not json") "hello" in
  assert_eq (close_code_for_codec_error error) close_codes.PROTOCOL_ERROR.

(** ** [error.rs] *)

Definition every_reserved_code_is_recognised : Test :=
  for_all codes.RESERVED (fun code => assert (is_reserved_error_code code)).

Definition an_application_code_is_not_reserved : Test :=
  in_turn [assert (negb (is_reserved_error_code "APP_QUOTA_EXHAUSTED"));
           assert (negb (is_reserved_error_code "denied"))].

Definition reserved_codes_match_the_specification_table : Test :=
  in_turn [assert_eq (len codes.RESERVED) 10; assert_eq codes.FRAME_TOO_LARGE "FRAME_TOO_LARGE"].

Definition display_names_the_reason_and_the_message : Test :=
  let refusal := codec_error ChunkIndex "received 3, expected 1" in
  assert_eq (show_codec_error refusal) "chunk-index: received 3, expected 1".

Definition every_kind_has_a_distinct_corpus_reason : Test :=
  let kinds := [InvalidJson; Schema; TooLarge; ChunkVersion; ChunkHeader; ChunkCount; ChunkIndex; ChunkDribble] in
  let reasons := remove_dups (map reason kinds) in
  assert_eq (len reasons) (len kinds).

Definition a_new_remote_error_has_no_details : Test :=
  let error := remote_error "DENIED" "fsRead was not granted" in
  in_turn [assert_eq (re_code error) "DENIED"; assert_eq (re_message error) "fsRead was not granted";
           assert_eq (re_details error) None].

Definition with_detail_creates_the_map_on_first_use_and_extends_it_after : Test :=
  let error := with_detail (with_detail (remote_error "TIMEOUT" "timed out") "method" (from_str "fs.read-file"))
                 "timeout_ms" (from_u64 5000) in
  let? details := expect_some (re_details error) "has details" in
  in_turn [assert_eq (index_of (VObject details) "method") (from_str "fs.read-file");
           assert_eq (index_of (VObject details) "timeout_ms") (from_u64 5000)].

Definition with_details_replaces_whatever_was_there : Test :=
  let error := with_details (with_detail (remote_error "TIMEOUT" "timed out") "stale" (VBool true)) [] in
  assert_eq (re_details error) (Some []).

Definition display_names_the_code_and_the_message : Test :=
  let error := remote_error "DENIED" "fsRead was not granted" in
  assert_eq (show_remote_error error) "DENIED: fsRead was not granted".

(** ** [frame.rs] *)

Definition fixture_hello : Frame :=
  FHello {| hello_protocol := version_new 1 0;
            hello_peer := {| peer_name := "fixture"; peer_version := "0.0.0"; peer_role := "tool" |};
            hello_capabilities := []; hello_limits := None |}.

Definition the_tag_leads_the_encoded_object : Test :=
  let text := to_text (frame_to_json fixture_hello) in
  assert (str_starts_with (json_text "{'type':'hello','protocol':") text).

Definition absent_optionals_are_not_serialised : Test :=
  let text := to_text (frame_to_json fixture_hello) in
  assert (negb (str_contains "limits" text)).

Definition an_explicit_null_optional_is_refused : Test :=
  let line := json_bytes ("{'type':'hello','protocol':{'major':1,'minor':0},'peer':{'name':'f','version':'0','role':'tool'}," +:+
                          "'capabilities':{},'limits':null}") in
  let? _ := expect_err (from_slice line) "null limits is refused" in Ok tt.

Definition unknown_members_are_ignored_at_every_level : Test :=
  let? frame := expect (from_slice (json_bytes "{'type':'ping','x-at':123}")) "decodes" in
  assert_eq frame FPing.

Definition end_serialises_as_the_literal_true : Test := assert_eq (to_text (end_to_json TheEnd)) "true".

Definition end_refuses_false_and_every_other_value : Test :=
  let? _ := in_turn [assert (negb (is_ok (from_text as_end "false"))); assert (negb (is_ok (from_text as_end "1")));
                     assert (negb (is_ok (from_text as_end "null")))] in
  let? the_end := expect (from_text as_end "true") "decodes" in
  assert_eq the_end TheEnd.

Definition an_event_keeps_its_wire_member_names : Test :=
  let frame := FEvt {| evt_topic := "terminal.output"; evt_seq := 3; evt_stream_id := Some "t-7";
                       evt_payload := VObject [("data", from_str "bye")]; evt_end := Some TheEnd |} in
  let value := frame_to_json frame in
  in_turn [assert_eq (index_of value "streamId") (from_str "t-7"); assert_eq (index_of value "end") (VBool true)].

Definition max_frame_bytes_uses_its_camel_case_name : Test :=
  let limits := {| max_frame_bytes := Some 4096; max_in_flight := None |} in
  assert_eq (to_text (limits_to_json limits)) (json_text "{'maxFrameBytes':4096}").

Definition every_type_name_matches_the_wire_tag : Test :=
  for_all
    [(fixture_hello, "hello"); (FPing, "ping"); (FPong, "pong");
     (FClose {| close_code := 4000; close_reason := None |}, "close")]
    (fun '(frame, name) =>
       in_turn [assert_eq (type_name frame) name; assert_eq (index_of (frame_to_json frame) "type") (from_str name)]).

Definition an_unknown_type_is_refused : Test := assert (negb (is_ok (from_slice (json_bytes "{'type':'nope'}")))).

(** ** [validate.rs] *)

Definition sample_request (id method : string) : Frame :=
  FReq {| req_id := id; req_method := method; req_params := Null |}.

Definition hello_with (role : string) (limits : option Limits) : Frame :=
  FHello {| hello_protocol := version_new 1 0;
            hello_peer := {| peer_name := "fixture"; peer_version := "0.0.0"; peer_role := role |};
            hello_capabilities := []; hello_limits := limits |}.

Definition accepts_the_method_grammar : Test :=
  for_all ["a.b"; "fs.read-file"; "runtime.update.begin-transfer"; "a--b.c9"; "rpc.discover"; "a1.b2.c3"]
    (fun name => assert (is_valid_method_name name)).

Definition refuses_names_outside_the_method_grammar : Test :=
  for_all [EmptyString; "fs"; "Fs.read"; "fs..read"; "fs.read-"; "1fs.read"; "-a.b"; "a.b-"; "a.B"; ".a.b"; "a.b."; "a b.c";
           "a_b.c"; "a.b "]%string
    (fun name => assert (negb (is_valid_method_name name))).

Definition refuses_a_method_name_over_the_length_ceiling : Test :=
  let long := "a." +:+ str_repeat "b" MAX_NAME_CHARS in
  let at_ceiling := "a." +:+ str_repeat "b" (MAX_NAME_CHARS - 2) in
  in_turn [assert (negb (is_valid_method_name long)); assert (is_valid_method_name at_ceiling)].

Definition role_is_a_single_lowercase_segment : Test :=
  in_turn [assert (is_valid_role "runtime"); assert (is_valid_role "mango-hub"); assert (negb (is_valid_role "Runtime"));
           assert (negb (is_valid_role EmptyString)); assert (negb (is_valid_role "hub-"));
           assert (negb (is_valid_role (str_repeat "a" 65)))].

Definition error_codes_are_screaming_snake_case : Test :=
  in_turn [assert (is_valid_error_code "INTERNAL"); assert (is_valid_error_code "SOME_FUTURE_CODE_2");
           assert (negb (is_valid_error_code "denied")); assert (negb (is_valid_error_code EmptyString));
           assert (negb (is_valid_error_code "_LEADING")); assert (negb (is_valid_error_code (str_repeat "A" 65)));
           assert (is_valid_error_code (str_repeat "A" 64))].

Definition an_empty_id_names_the_field_and_the_expected_shape : Test :=
  let? error := expect_err (validate (sample_request EmptyString "a.b")) "empty id is refused" in
  in_turn [assert_eq (ve_field error) "req.id"; assert_eq (ve_received error) (json_text "''");
           assert (str_contains "1 to 256" (ve_expected error))].

Definition an_id_over_the_ceiling_is_refused_and_the_ceiling_itself_is_not : Test :=
  let? _ := assert (is_ok (validate (sample_request (str_repeat "i" MAX_ID_CHARS) "a.b"))) in
  let? error := expect_err (validate (sample_request (str_repeat "i" (MAX_ID_CHARS + 1)) "a.b")) "257 characters is refused" in
  assert (str_contains "257 characters" (ve_received error)).

Definition a_reserved_method_is_schema_valid_but_flagged_reserved : Test :=
  in_turn [assert (is_valid_method_name "rpc.discover"); assert (is_reserved_method_name "rpc.discover");
           assert (negb (is_reserved_method_name "fs.read-file"))].

Definition a_bad_method_names_the_grammar : Test :=
  let? error := expect_err (validate (sample_request "r" "fs")) "one segment is refused" in
  in_turn [assert_eq (ve_field error) "req.method"; assert (str_contains "two dot-separated" (ve_expected error))].

Definition hello_refuses_a_major_below_one : Test :=
  let frame :=
    match hello_with "tool" None with
    | FHello hello =>
        FHello {| hello_protocol := version_new 0 (minor (hello_protocol hello)); hello_peer := hello_peer hello;
                  hello_capabilities := hello_capabilities hello; hello_limits := hello_limits hello |}
    | frame => frame
    end in
  let? error := expect_err (validate frame) "major 0 is refused" in
  assert_eq (ve_field error) "hello.protocol.major".

Definition hello_refuses_an_uppercase_role : Test :=
  let? error := expect_err (validate (hello_with "Runtime" None)) "uppercase role is refused" in
  assert_eq (ve_field error) "hello.peer.role".

Definition hello_refuses_a_frame_ceiling_below_the_floor : Test :=
  let limits := {| max_frame_bytes := Some 4095; max_in_flight := None |} in
  let? error := expect_err (validate (hello_with "tool" (Some limits))) "4095 is refused" in
  in_turn [assert_eq (ve_field error) "hello.limits.maxFrameBytes"; assert_eq (ve_received error) "4095";
           assert (is_ok (validate (hello_with "tool" (Some {| max_frame_bytes := Some 4096; max_in_flight := None |}))))].

Definition hello_refuses_an_in_flight_ceiling_of_zero : Test :=
  let limits := {| max_frame_bytes := None; max_in_flight := Some 0 |} in
  let? error := expect_err (validate (hello_with "tool" (Some limits))) "0 is refused" in
  in_turn [assert_eq (ve_field error) "hello.limits.maxInFlight"; assert_eq (ve_received error) "0";
           assert (is_ok (validate (hello_with "tool" (Some {| max_frame_bytes := None; max_in_flight := Some 1 |}))))].

Definition err_with (code message : string) : Frame :=
  FErr {| err_id := "r"; err_error := {| err_code := code; err_message := message; err_details := None |} |}.

Definition err_refuses_a_lowercase_code_and_an_empty_message : Test :=
  let? lowercase := expect_err (validate (err_with "denied" "x")) "lowercase code" in
  let? _ := assert_eq (ve_field lowercase) "err.error.code" in
  let? empty := expect_err (validate (err_with "INTERNAL" EmptyString)) "empty message" in
  assert_eq (ve_field empty) "err.error.message".

Definition evt_with (topic : string) (stream_id : option string) : Frame :=
  FEvt {| evt_topic := topic; evt_seq := 0; evt_stream_id := stream_id; evt_payload := Null; evt_end := None |}.

Definition evt_refuses_a_bad_topic_and_an_empty_stream_id : Test :=
  let? bad_topic := expect_err (validate (evt_with "Topic" None)) "bad topic" in
  let? _ := assert_eq (ve_field bad_topic) "evt.topic" in
  let? empty_stream := expect_err (validate (evt_with "a.b" (Some EmptyString))) "empty streamId" in
  assert_eq (ve_field empty_stream) "evt.streamId".

Definition close_bounds_the_code_and_the_reason : Test :=
  let close code reason := FClose {| close_code := code; close_reason := reason |} in
  in_turn
    [for_all [3999; 5000] (fun code =>
       let? error := expect_err (validate (close code None)) "out of range" in assert_eq (ve_field error) "close.code");
     for_all [4000; 4999; 4777] (fun code => assert (is_ok (validate (close code None))));
     (let? error := expect_err (validate (close 4000 (Some (str_repeat "r" 1025)))) "long reason" in
      assert_eq (ve_field error) "close.reason")].

Definition liveness_frames_have_nothing_to_validate : Test :=
  in_turn [assert (is_ok (validate FPing)); assert (is_ok (validate FPong));
           assert (is_ok (validate (FCancel {| cancel_id := "r" |})))].

(** ** The suite *)

Local Open Scope string_scope.
Definition wire_tests : list (string * Test) :=
  [("crate_speaks_wire_one_one", crate_speaks_wire_one_one);
   ("equal_minors_negotiate_that_minor", equal_minors_negotiate_that_minor);
   ("a_newer_remote_is_capped_at_the_local_minor", a_newer_remote_is_capped_at_the_local_minor);
   ("a_newer_local_is_capped_at_the_remote_minor", a_newer_local_is_capped_at_the_remote_minor);
   ("different_majors_mismatch_with_4426_in_both_directions", different_majors_mismatch_with_4426_in_both_directions);
   ("effective_minor_is_none_on_a_mismatch", effective_minor_is_none_on_a_mismatch);
   ("round_trips_as_json", round_trips_as_json);
   ("the_fatal_set_is_exactly_the_four_listed_codes", the_fatal_set_is_exactly_the_four_listed_codes);
   ("every_named_code_round_trips_through_its_name", every_named_code_round_trips_through_its_name);
   ("an_unlisted_code_in_range_has_no_name", an_unlisted_code_in_range_has_no_name);
   ("the_allowed_range_is_the_private_websocket_range", the_allowed_range_is_the_private_websocket_range);
   ("an_unreadable_hello_closes_with_protocol_mismatch", an_unreadable_hello_closes_with_protocol_mismatch);
   ("a_schema_refusal_of_any_other_frame_type_closes_with_protocol_error", a_schema_refusal_of_any_other_frame_type_closes_with_protocol_error);
   ("a_schema_refusal_with_no_frame_type_closes_with_protocol_error", a_schema_refusal_with_no_frame_type_closes_with_protocol_error);
   ("a_non_schema_refusal_of_hello_still_closes_with_protocol_error", a_non_schema_refusal_of_hello_still_closes_with_protocol_error);
   ("every_reserved_code_is_recognised", every_reserved_code_is_recognised);
   ("an_application_code_is_not_reserved", an_application_code_is_not_reserved);
   ("reserved_codes_match_the_specification_table", reserved_codes_match_the_specification_table);
   ("display_names_the_reason_and_the_message", display_names_the_reason_and_the_message);
   ("every_kind_has_a_distinct_corpus_reason", every_kind_has_a_distinct_corpus_reason);
   ("a_new_remote_error_has_no_details", a_new_remote_error_has_no_details);
   ("with_detail_creates_the_map_on_first_use_and_extends_it_after", with_detail_creates_the_map_on_first_use_and_extends_it_after);
   ("with_details_replaces_whatever_was_there", with_details_replaces_whatever_was_there);
   ("display_names_the_code_and_the_message", display_names_the_code_and_the_message);
   ("the_tag_leads_the_encoded_object", the_tag_leads_the_encoded_object);
   ("absent_optionals_are_not_serialised", absent_optionals_are_not_serialised);
   ("an_explicit_null_optional_is_refused", an_explicit_null_optional_is_refused);
   ("unknown_members_are_ignored_at_every_level", unknown_members_are_ignored_at_every_level);
   ("end_serialises_as_the_literal_true", end_serialises_as_the_literal_true);
   ("end_refuses_false_and_every_other_value", end_refuses_false_and_every_other_value);
   ("an_event_keeps_its_wire_member_names", an_event_keeps_its_wire_member_names);
   ("max_frame_bytes_uses_its_camel_case_name", max_frame_bytes_uses_its_camel_case_name);
   ("every_type_name_matches_the_wire_tag", every_type_name_matches_the_wire_tag);
   ("an_unknown_type_is_refused", an_unknown_type_is_refused);
   ("accepts_the_method_grammar", accepts_the_method_grammar);
   ("refuses_names_outside_the_method_grammar", refuses_names_outside_the_method_grammar);
   ("refuses_a_method_name_over_the_length_ceiling", refuses_a_method_name_over_the_length_ceiling);
   ("role_is_a_single_lowercase_segment", role_is_a_single_lowercase_segment);
   ("error_codes_are_screaming_snake_case", error_codes_are_screaming_snake_case);
   ("an_empty_id_names_the_field_and_the_expected_shape", an_empty_id_names_the_field_and_the_expected_shape);
   ("an_id_over_the_ceiling_is_refused_and_the_ceiling_itself_is_not", an_id_over_the_ceiling_is_refused_and_the_ceiling_itself_is_not);
   ("a_reserved_method_is_schema_valid_but_flagged_reserved", a_reserved_method_is_schema_valid_but_flagged_reserved);
   ("a_bad_method_names_the_grammar", a_bad_method_names_the_grammar);
   ("hello_refuses_a_major_below_one", hello_refuses_a_major_below_one);
   ("hello_refuses_an_uppercase_role", hello_refuses_an_uppercase_role);
   ("hello_refuses_a_frame_ceiling_below_the_floor", hello_refuses_a_frame_ceiling_below_the_floor);
   ("hello_refuses_an_in_flight_ceiling_of_zero", hello_refuses_an_in_flight_ceiling_of_zero);
   ("err_refuses_a_lowercase_code_and_an_empty_message", err_refuses_a_lowercase_code_and_an_empty_message);
   ("evt_refuses_a_bad_topic_and_an_empty_stream_id", evt_refuses_a_bad_topic_and_an_empty_stream_id);
   ("close_bounds_the_code_and_the_reason", close_bounds_the_code_and_the_reason);
   ("liveness_frames_have_nothing_to_validate", liveness_frames_have_nothing_to_validate)].
