(* ===== verification/TestsCodec.v ===== *)
(** * The unit tests of the codecs

    The [tests] modules of [codec/limits.rs], [codec/ndjson.rs] and [codec/chunk.rs], test by test,
    run on the definitions of [Limits.v], [Ndjson.v] and [Chunk.v].  A decoder a test mutates is
    passed from statement to statement. *)

From S2P Require Import Prelude Text Json Wire Frame Validate Limits Serde JsonText FrameJson Ndjson Chunk TestKit.
Local Open Scope Z_scope.

(** ** [codec/limits.rs] *)

Definition below_the_floor : string :=
  "max_frame_bytes is " +:+ show_Z (MIN_MAX_FRAME_BYTES - 1) +:+ "; expected at least " +:+ show_Z MIN_MAX_FRAME_BYTES.

Definition the_frame_ceiling_rule_names_the_floor_of_the_wire : Test :=
  let? accepted := check_max_frame_bytes MIN_MAX_FRAME_BYTES in
  let? _ := assert_eq accepted MIN_MAX_FRAME_BYTES in
  let? message := panic_message (check_max_frame_bytes (MIN_MAX_FRAME_BYTES - 1)) in
  assert_eq message below_the_floor.

Definition accepts_a_value_at_or_above_the_floor : Test :=
  let? at_floor := check_at_least "n" 4096 4096 in
  let? above := check_at_least "n" 4097 4096 in
  in_turn [assert_eq at_floor 4096; assert_eq above 4097].

Definition panics_naming_the_value_and_the_floor : Test :=
  let? message := panic_message (check_at_least "max_frame_bytes" 512 4096) in
  assert_eq message "max_frame_bytes is 512; expected at least 4096".

Definition checked_accepts_a_value_at_or_above_the_floor : Test :=
  assert_eq (checked_at_least "n" 4096 4096) (Ok 4096).

Definition checked_names_the_value_and_the_floor_without_panicking : Test :=
  assert_eq (checked_at_least "max_frame_bytes" 512 4096) (Err "max_frame_bytes is 512; expected at least 4096").

(** ** [codec/ndjson.rs] *)

Definition encodes_compactly_and_without_a_terminator : Test :=
  let? b := expect (encode_frame_bytes FPing DEFAULT_MAX_FRAME_BYTES) "encodes" in
  assert_eq b (json_bytes "{'type':'ping'}").

Definition encode_line_appends_exactly_one_newline : Test :=
  let? line := expect (encode_line FPing DEFAULT_MAX_FRAME_BYTES) "encodes" in
  in_turn [assert_eq (last line) (Some newline); assert_eq (len line) 16].

Definition request_of (params : Value) : Frame :=
  FReq {| req_id := "r"; req_method := "a.b"; req_params := params |}.

Definition encoding_refuses_a_frame_over_the_limit : Test :=
  let frame := request_of (from_str (str_repeat "x" 5000)) in
  let? error := expect_err (encode_frame_bytes frame MIN_MAX_FRAME_BYTES) "too large" in
  in_turn [assert_eq (kind error) TooLarge; assert (str_contains "4096" (message error))].

Definition encoding_refuses_a_frame_that_breaks_a_value_rule : Test :=
  let frame := FClose {| close_code := 3999; close_reason := None |} in
  let? error := expect_err (encode_frame_bytes frame DEFAULT_MAX_FRAME_BYTES) "invalid" in
  in_turn [assert_eq (kind error) Schema; assert (str_contains "close.code" (message error))].

Definition decoding_strips_one_trailing_carriage_return : Test :=
  let? frame := expect (decode_line (json_bytes "{'type':'ping'}" ++ [carriage_return]) DEFAULT_MAX_FRAME_BYTES) "decodes" in
  assert_eq frame FPing.

Definition decoding_a_blank_line_is_a_schema_refusal : Test :=
  let? error := expect_err (decode_line (to_bytes "   ") DEFAULT_MAX_FRAME_BYTES) "blank" in
  in_turn [assert_eq (kind error) Schema; assert (str_contains "blank" (message error))].

Definition decoding_separates_bad_json_from_a_bad_frame : Test :=
  let? syntax := expect_err (decode_line (json_bytes "{'type':'ping'") DEFAULT_MAX_FRAME_BYTES) "eof" in
  let? _ := assert_eq (kind syntax) InvalidJson in
  let? data := expect_err (decode_line (json_bytes "{'type':'nope'}") DEFAULT_MAX_FRAME_BYTES) "data" in
  assert_eq (kind data) Schema.

Definition a_line_at_the_limit_is_accepted_and_one_byte_over_is_not : Test :=
  let frame := request_of (from_str (str_repeat "x" MIN_MAX_FRAME_BYTES)) in
  let? line := expect (encode_frame_bytes frame DEFAULT_MAX_FRAME_BYTES) "encodes" in
  let? _ := assert (MIN_MAX_FRAME_BYTES <? len line) in
  let? _ := assert (is_ok (decode_line line (len line))) in
  let? error := expect_err (decode_line line (len line - 1)) "too large" in
  assert_eq (kind error) TooLarge.

Definition encoding_refuses_a_frame_ceiling_below_the_floor : Test :=
  let? error := expect_err (encode_frame_bytes FPing (MIN_MAX_FRAME_BYTES - 1)) "below floor" in
  in_turn [assert_eq (kind error) Schema; assert_eq (message error) below_the_floor].

Definition decoding_refuses_a_frame_ceiling_below_the_floor : Test :=
  let? error := expect_err (decode_line (json_bytes "{'type':'ping'}") (MIN_MAX_FRAME_BYTES - 1)) "below floor" in
  in_turn [assert_eq (kind error) Schema; assert_eq (message error) below_the_floor].

Definition building_a_decoder_below_the_floor_panics_naming_both : Test :=
  let? message := panic_message (line_decoder_new (MIN_MAX_FRAME_BYTES - 1)) in
  assert_eq message below_the_floor.

Definition the_stream_ignores_blank_lines : Test :=
  let? decoder := line_decoder_new DEFAULT_MAX_FRAME_BYTES in
  let bytes := [newline; carriage_return; newline] ++ to_bytes "   " ++ [newline] ++ json_bytes "{'type':'ping'}" ++ [newline; newline] in
  let '(_, outcome) := push decoder bytes in
  in_turn [assert_eq (po_frames outcome) [FPing]; assert (push_is_ok outcome)].

(** [for byte in bytes { .. decoder.push(slice::from_ref(byte)) .. }] *)
Fixpoint push_bytes (decoder : LineDecoder) (frames : list Frame) (b : bytes) : panics (list Frame) :=
  match b with
  | [] => Ok frames
  | byte :: rest =>
      let '(decoder, outcome) := push decoder [byte] in
      let? _ := assert (push_is_ok outcome) in
      push_bytes decoder (frames ++ po_frames outcome) rest
  end.

Definition the_stream_buffers_across_a_multibyte_split : Test :=
  let? decoder := line_decoder_new DEFAULT_MAX_FRAME_BYTES in
  let line := json_bytes "{'type':'req','id':'é','method':'a.b','params':'🥭'}" ++ [newline] in
  let? frames := push_bytes decoder [] line in
  let? _ := assert_eq (len frames) 1 in
  let? frame := expect_some (head frames) "index out of bounds" in
  assert_eq (index_of (frame_to_json frame) "id") (from_str "é").

Definition the_stream_delivers_the_prefix_before_a_refusal_and_then_stays_refused : Test :=
  let? decoder := line_decoder_new DEFAULT_MAX_FRAME_BYTES in
  let '(decoder, outcome) :=
    push decoder (json_bytes "{'type':'ping'}" ++ [newline] ++ json_bytes "{'type':'nope'}" ++ [newline] ++
                  json_bytes "{'type':'pong'}" ++ [newline]) in
  let? _ := in_turn [assert_eq (po_frames outcome) [FPing]; assert_eq (kind <$> po_error outcome) (Some Schema)] in
  let '(decoder, again) := push decoder (json_bytes "{'type':'ping'}" ++ [newline]) in
  in_turn [assert_eq (po_frames again) []; assert_eq (kind <$> po_error again) (Some Schema);
           assert (negb (is_ok (finish decoder).2))].

Definition a_partial_record_over_the_limit_is_refused_before_its_terminator : Test :=
  let? decoder := line_decoder_new MIN_MAX_FRAME_BYTES in
  let '(_, outcome) := push decoder (vec_of "x" (MIN_MAX_FRAME_BYTES + 1)) in
  in_turn [assert_eq (po_frames outcome) []; assert_eq (kind <$> po_error outcome) (Some TooLarge)].

Definition a_partial_record_at_the_limit_waits_for_its_terminator : Test :=
  let? decoder := line_decoder_new MIN_MAX_FRAME_BYTES in
  let '(_, outcome) := push decoder (vec_of "x" MIN_MAX_FRAME_BYTES) in
  in_turn [assert (push_is_ok outcome); assert_eq (po_frames outcome) []].

Definition an_oversized_blank_line_is_refused_for_its_size_not_its_blankness : Test :=
  let? error := expect_err (decode_line (vec_of " " (MIN_MAX_FRAME_BYTES + 1)) MIN_MAX_FRAME_BYTES) "over the limit" in
  let? _ := assert_eq (kind error) TooLarge in
  let? error := expect_err (decode_line (vec_of " " MIN_MAX_FRAME_BYTES) MIN_MAX_FRAME_BYTES) "blank" in
  assert_eq (kind error) Schema.

Definition an_oversized_blank_line_is_refused_whether_it_arrives_whole_or_split : Test :=
  let blank := vec_of " " (MIN_MAX_FRAME_BYTES + 1) ++ [newline] in
  let? whole := line_decoder_new MIN_MAX_FRAME_BYTES in
  let '(_, whole_outcome) := push whole blank in
  let? _ := in_turn [assert_eq (po_frames whole_outcome) []; assert_eq (kind <$> po_error whole_outcome) (Some TooLarge)] in
  let at_ := (length blank - 1)%nat in
  let? split := line_decoder_new MIN_MAX_FRAME_BYTES in
  let '(split, first) := push split (take at_ blank) in
  let? _ := in_turn [assert_eq (po_frames first) []; assert_eq (kind <$> po_error first) (Some TooLarge)] in
  let '(_, second) := push split (drop at_ blank) in
  assert_eq (kind <$> po_error second) (Some TooLarge).

Definition finish_flushes_a_record_without_a_terminator_and_then_is_empty : Test :=
  let? decoder := line_decoder_new DEFAULT_MAX_FRAME_BYTES in
  let '(decoder, _) := push decoder (json_bytes "{'type':'ping'}") in
  let '(decoder, flushed) := finish decoder in
  let? frames := expect flushed "flushes" in
  let? _ := assert_eq frames [FPing] in
  let? frames := expect (finish decoder).2 "empty" in
  assert_eq frames [].

Definition a_round_trip_through_the_stream_keeps_the_frame : Test :=
  let frame := FClose {| close_code := 4409; close_reason := Some "superseded by a newer connection" |} in
  let? line := expect (encode_line frame DEFAULT_MAX_FRAME_BYTES) "encodes" in
  let? decoder := line_decoder_new DEFAULT_MAX_FRAME_BYTES in
  assert_eq (po_frames (push decoder line).2) [frame].

Definition a_structurally_incomplete_hello_names_the_frame_type : Test :=
  let line := json_bytes "{'type':'hello','protocol':{'major':1,'minor':0}}" in
  let? error := expect_err (decode_line line DEFAULT_MAX_FRAME_BYTES) "missing peer" in
  in_turn [assert_eq (kind error) Schema; assert_eq (frame_type error) (Some "hello")].

Definition a_hello_that_fails_value_validation_names_the_frame_type : Test :=
  let line := json_bytes ("{'type':'hello','protocol':{'major':1,'minor':0}," +:+
                          "'peer':{'name':'','version':'1.0.0','role':'hub'},'capabilities':{}}") in
  let? error := expect_err (decode_line line DEFAULT_MAX_FRAME_BYTES) "blank peer name" in
  in_turn [assert_eq (kind error) Schema; assert_eq (frame_type error) (Some "hello")].

Definition invalid_json_never_names_a_frame_type : Test :=
  let? error := expect_err (decode_line (json_bytes "{'type':'hello'") DEFAULT_MAX_FRAME_BYTES) "eof" in
  in_turn [assert_eq (kind error) InvalidJson; assert_eq (frame_type error) None].

Definition a_schema_refusal_of_a_non_hello_frame_names_that_frame_type : Test :=
  let? error := expect_err (decode_line (json_bytes "{'type':'nope'}") DEFAULT_MAX_FRAME_BYTES) "data" in
  in_turn [assert_eq (kind error) Schema; assert_eq (frame_type error) (Some "nope")].

(** ** [codec/chunk.rs] *)

Definition raw_message (version index count : Z) (payload : bytes) : bytes :=
  byte_of_Z version :: to_be_bytes index ++ to_be_bytes count ++ payload.

Definition bulk_request (blob : Z) : Frame :=
  FReq {| req_id := "bulk"; req_method := "test.bulk"; req_params := VObject [("blob", from_str (str_repeat "x" blob))] |}.

Definition fresh_reassembler : panics ChunkReassembler :=
  reassembler_new DEFAULT_MAX_MESSAGE_BYTES DEFAULT_MAX_FRAME_BYTES.

(** [reassembler().push(&message).expect_err(..).kind] *)
Definition refusal_of (message : bytes) (why : string) : panics CodecErrorKind :=
  let? reassembler := fresh_reassembler in
  let? error := expect_err (push_chunk reassembler message).2 why in
  Ok (kind error).

(** [assert_eq!(reassembler.push(&message).expect(..), expected)], with the reassembler after it. *)
Definition push_expecting (reassembler : ChunkReassembler) (message : bytes) (expected : option Frame) (why : string) :
    panics ChunkReassembler :=
  let '(reassembler, pushed) := push_chunk reassembler message in
  let? decoded := expect pushed why in
  let? _ := assert_eq decoded expected in
  Ok reassembler.

Definition the_chunk_bound_is_the_frame_limit_over_the_minimum_payload : Test :=
  in_turn [assert_eq (max_chunks_for (16 * 1024 * 1024)) 16384; assert_eq (max_chunks_for MIN_MAX_FRAME_BYTES) 4;
           assert_eq (max_chunks_for 1) 1; assert_eq (max_chunks_for (MIN_NONFINAL_PAYLOAD_BYTES + 1)) 2].

Definition a_small_frame_becomes_one_chunk_carrying_the_whole_line : Test :=
  let? messages := expect (encode_chunks FPing DEFAULT_MAX_MESSAGE_BYTES DEFAULT_MAX_FRAME_BYTES) "encodes" in
  let? _ := assert_eq (len messages) 1 in
  let? first := expect_some (head messages) "index out of bounds" in
  assert_eq (take (Z.to_nat CHUNK_HEADER_BYTES) first) (map byte_of_Z [1; 0; 0; 0; 0; 0; 0; 0; 1]).

Definition every_non_final_message_is_filled_to_capacity : Test :=
  let? messages := expect (encode_chunks (bulk_request 40000) DEFAULT_MAX_MESSAGE_BYTES DEFAULT_MAX_FRAME_BYTES) "encodes" in
  let? _ := assert (2 <? len messages) in
  let? _ := for_all (take (length messages - 1) messages) (fun message => assert_eq (len message) DEFAULT_MAX_MESSAGE_BYTES) in
  let? final := expect_some (last messages) "index out of bounds" in
  assert (len final <=? DEFAULT_MAX_MESSAGE_BYTES).

Definition encoding_refuses_a_message_ceiling_below_the_floor : Test :=
  let? error := expect_err (encode_chunks FPing 1024 DEFAULT_MAX_FRAME_BYTES) "floor" in
  in_turn [assert_eq (kind error) ChunkHeader; assert (str_contains "2048" (message error))].

Definition building_a_reassembler_below_the_message_floor_panics_naming_both : Test :=
  let? message := panic_message (reassembler_new (MIN_MAX_MESSAGE_BYTES - 1) DEFAULT_MAX_FRAME_BYTES) in
  assert_eq message ("max_message_bytes is " +:+ show_Z (MIN_MAX_MESSAGE_BYTES - 1) +:+ "; expected at least " +:+
                     show_Z MIN_MAX_MESSAGE_BYTES).

Definition building_a_reassembler_below_the_frame_floor_panics_naming_both : Test :=
  let? message := panic_message (reassembler_new DEFAULT_MAX_MESSAGE_BYTES (MIN_MAX_FRAME_BYTES - 1)) in
  assert_eq message below_the_floor.

(** [for message in &messages { decoded = reassembler.push(message).expect("accepts"); }] *)
Fixpoint push_messages (reassembler : ChunkReassembler) (decoded : option Frame) (messages : list bytes) :
    panics (ChunkReassembler * option Frame) :=
  match messages with
  | [] => Ok (reassembler, decoded)
  | message :: rest =>
      let '(reassembler, pushed) := push_chunk reassembler message in
      let? decoded := expect pushed "accepts" in
      push_messages reassembler decoded rest
  end.

Definition a_round_trip_through_the_chunker_keeps_the_frame : Test :=
  let frame := bulk_request 40000 in
  let? messages := expect (encode_chunks frame MIN_MAX_MESSAGE_BYTES DEFAULT_MAX_FRAME_BYTES) "encodes" in
  let? reassembler := reassembler_new MIN_MAX_MESSAGE_BYTES DEFAULT_MAX_FRAME_BYTES in
  let? (reassembler, decoded) := push_messages reassembler None messages in
  in_turn [assert_eq decoded (Some frame); assert (negb (is_reassembling reassembler))].

Definition a_wrong_format_version_is_refused : Test :=
  let? refusal := refusal_of (raw_message 2 0 1 (json_bytes "{'type':'ping'}")) "version" in
  assert_eq refusal ChunkVersion.

Definition a_short_header_is_refused : Test :=
  let? refusal := refusal_of (map byte_of_Z [1; 0; 0; 0; 0]) "header" in
  let? _ := assert_eq refusal ChunkHeader in
  let? empty := refusal_of [] "header" in
  assert_eq empty ChunkHeader.

Definition a_zero_or_oversized_count_is_refused : Test :=
  let? zero := refusal_of (raw_message 1 0 0 []) "zero" in
  let? _ := assert_eq zero ChunkCount in
  let? over := refusal_of (raw_message 1 0 16385 (vec_of (byte_of_Z 0) MIN_NONFINAL_PAYLOAD_BYTES)) "bound" in
  assert_eq over ChunkCount.

Definition an_index_that_is_not_the_expected_one_is_refused : Test :=
  let? refusal := refusal_of (raw_message 1 1 1 (json_bytes "{'type':'ping'}")) "index" in
  assert_eq refusal ChunkIndex.

Definition a_gap_in_the_indexes_is_refused_and_resets : Test :=
  let payload := vec_of "x" MIN_NONFINAL_PAYLOAD_BYTES in
  let? reassembler := fresh_reassembler in
  let? reassembler := push_expecting reassembler (raw_message 1 0 3 payload) None "first" in
  let '(reassembler, pushed) := push_chunk reassembler (raw_message 1 2 3 payload) in
  let? error := expect_err pushed "gap" in
  in_turn [assert_eq (kind error) ChunkIndex; assert (negb (is_reassembling reassembler))].

Definition a_count_that_changes_mid_frame_is_refused : Test :=
  let payload := vec_of "x" MIN_NONFINAL_PAYLOAD_BYTES in
  let? reassembler := fresh_reassembler in
  let? reassembler := push_expecting reassembler (raw_message 1 0 3 payload) None "first" in
  let? error := expect_err (push_chunk reassembler (raw_message 1 1 4 payload)).2 "count" in
  assert_eq (kind error) ChunkCount.

Definition an_empty_payload_is_refused : Test :=
  let? refusal := refusal_of (raw_message 1 0 1 []) "empty" in
  assert_eq refusal ChunkDribble.

Definition a_dribbling_non_final_payload_is_refused_but_the_minimum_is_accepted : Test :=
  let? refusal := refusal_of (raw_message 1 0 2 (vec_of "x" (MIN_NONFINAL_PAYLOAD_BYTES - 1))) "dribble" in
  let? _ := assert_eq refusal ChunkDribble in
  let? reassembler := fresh_reassembler in
  let? _ := push_expecting reassembler (raw_message 1 0 2 (vec_of "x" MIN_NONFINAL_PAYLOAD_BYTES)) None "minimum" in
  Ok tt.

Definition a_final_payload_below_the_minimum_is_accepted : Test :=
  let? line := expect (encode_frame_bytes FPing DEFAULT_MAX_FRAME_BYTES) "encodes" in
  let? _ := assert (len line <? MIN_NONFINAL_PAYLOAD_BYTES) in
  let? reassembler := fresh_reassembler in
  let? _ := push_expecting reassembler (raw_message 1 0 1 line) (Some FPing) "final" in
  Ok tt.

Definition accumulating_past_the_frame_limit_is_refused_as_soon_as_it_happens : Test :=
  let payload := vec_of "x" (MIN_MAX_MESSAGE_BYTES - CHUNK_HEADER_BYTES) in
  let? reassembler := reassembler_new MIN_MAX_MESSAGE_BYTES MIN_MAX_FRAME_BYTES in
  let? reassembler := push_expecting reassembler (raw_message 1 0 3 payload) None "first" in
  let? reassembler := push_expecting reassembler (raw_message 1 1 3 payload) None "second" in
  let '(reassembler, pushed) := push_chunk reassembler (raw_message 1 2 3 payload) in
  let? error := expect_err pushed "limit" in
  in_turn [assert_eq (kind error) TooLarge; assert (negb (is_reassembling reassembler))].

Definition a_reassembled_line_that_is_not_a_frame_is_a_schema_refusal : Test :=
  let? refusal := refusal_of (raw_message 1 0 1 (json_bytes "{'type':'nope'}")) "schema" in
  assert_eq refusal Schema.

Definition a_frame_split_across_chunks_survives_a_multibyte_boundary : Test :=
  let mangoes := of_bytes (concat (repeat (to_bytes "🥭") 2000)) in
  let frame := FReq {| req_id := "r"; req_method := "text.echo"; req_params := from_str mangoes |} in
  let? messages := expect (encode_chunks frame MIN_MAX_MESSAGE_BYTES DEFAULT_MAX_FRAME_BYTES) "encodes" in
  let? reassembler := reassembler_new MIN_MAX_MESSAGE_BYTES DEFAULT_MAX_FRAME_BYTES in
  let? (_, decoded) := push_messages reassembler None messages in
  assert_eq decoded (Some frame).

(** ** The suite *)

Local Open Scope string_scope.
Definition codec_tests : list (string * Test) :=
  [("the_frame_ceiling_rule_names_the_floor_of_the_wire", the_frame_ceiling_rule_names_the_floor_of_the_wire);
   ("accepts_a_value_at_or_above_the_floor", accepts_a_value_at_or_above_the_floor);
   ("panics_naming_the_value_and_the_floor", panics_naming_the_value_and_the_floor);
   ("checked_accepts_a_value_at_or_above_the_floor", checked_accepts_a_value_at_or_above_the_floor);
   ("checked_names_the_value_and_the_floor_without_panicking", checked_names_the_value_and_the_floor_without_panicking);
   ("encodes_compactly_and_without_a_terminator", encodes_compactly_and_without_a_terminator);
   ("encode_line_appends_exactly_one_newline", encode_line_appends_exactly_one_newline);
   ("encoding_refuses_a_frame_over_the_limit", encoding_refuses_a_frame_over_the_limit);
   ("encoding_refuses_a_frame_that_breaks_a_value_rule", encoding_refuses_a_frame_that_breaks_a_value_rule);
   ("decoding_strips_one_trailing_carriage_return", decoding_strips_one_trailing_carriage_return);
   ("decoding_a_blank_line_is_a_schema_refusal", decoding_a_blank_line_is_a_schema_refusal);
   ("decoding_separates_bad_json_from_a_bad_frame", decoding_separates_bad_json_from_a_bad_frame);
   ("a_line_at_the_limit_is_accepted_and_one_byte_over_is_not", a_line_at_the_limit_is_accepted_and_one_byte_over_is_not);
   ("encoding_refuses_a_frame_ceiling_below_the_floor", encoding_refuses_a_frame_ceiling_below_the_floor);
   ("decoding_refuses_a_frame_ceiling_below_the_floor", decoding_refuses_a_frame_ceiling_below_the_floor);
   ("building_a_decoder_below_the_floor_panics_naming_both", building_a_decoder_below_the_floor_panics_naming_both);
   ("the_stream_ignores_blank_lines", the_stream_ignores_blank_lines);
   ("the_stream_buffers_across_a_multibyte_split", the_stream_buffers_across_a_multibyte_split);
   ("the_stream_delivers_the_prefix_before_a_refusal_and_then_stays_refused", the_stream_delivers_the_prefix_before_a_refusal_and_then_stays_refused);
   ("a_partial_record_over_the_limit_is_refused_before_its_terminator", a_partial_record_over_the_limit_is_refused_before_its_terminator);
   ("a_partial_record_at_the_limit_waits_for_its_terminator", a_partial_record_at_the_limit_waits_for_its_terminator);
   ("an_oversized_blank_line_is_refused_for_its_size_not_its_blankness", an_oversized_blank_line_is_refused_for_its_size_not_its_blankness);
   ("an_oversized_blank_line_is_refused_whether_it_arrives_whole_or_split", an_oversized_blank_line_is_refused_whether_it_arrives_whole_or_split);
   ("finish_flushes_a_record_without_a_terminator_and_then_is_empty", finish_flushes_a_record_without_a_terminator_and_then_is_empty);
   ("a_round_trip_through_the_stream_keeps_the_frame", a_round_trip_through_the_stream_keeps_the_frame);
   ("a_structurally_incomplete_hello_names_the_frame_type", a_structurally_incomplete_hello_names_the_frame_type);
   ("a_hello_that_fails_value_validation_names_the_frame_type", a_hello_that_fails_value_validation_names_the_frame_type);
   ("invalid_json_never_names_a_frame_type", invalid_json_never_names_a_frame_type);
   ("a_schema_refusal_of_a_non_hello_frame_names_that_frame_type", a_schema_refusal_of_a_non_hello_frame_names_that_frame_type);
   ("the_chunk_bound_is_the_frame_limit_over_the_minimum_payload", the_chunk_bound_is_the_frame_limit_over_the_minimum_payload);
   ("a_small_frame_becomes_one_chunk_carrying_the_whole_line", a_small_frame_becomes_one_chunk_carrying_the_whole_line);
   ("every_non_final_message_is_filled_to_capacity", every_non_final_message_is_filled_to_capacity);
   ("encoding_refuses_a_message_ceiling_below_the_floor", encoding_refuses_a_message_ceiling_below_the_floor);
   ("building_a_reassembler_below_the_message_floor_panics_naming_both", building_a_reassembler_below_the_message_floor_panics_naming_both);
   ("building_a_reassembler_below_the_frame_floor_panics_naming_both", building_a_reassembler_below_the_frame_floor_panics_naming_both);
   ("a_round_trip_through_the_chunker_keeps_the_frame", a_round_trip_through_the_chunker_keeps_the_frame);
   ("a_wrong_format_version_is_refused", a_wrong_format_version_is_refused);
   ("a_short_header_is_refused", a_short_header_is_refused);
   ("a_zero_or_oversized_count_is_refused", a_zero_or_oversized_count_is_refused);
   ("an_index_that_is_not_the_expected_one_is_refused", an_index_that_is_not_the_expected_one_is_refused);
   ("a_gap_in_the_indexes_is_refused_and_resets", a_gap_in_the_indexes_is_refused_and_resets);
   ("a_count_that_changes_mid_frame_is_refused", a_count_that_changes_mid_frame_is_refused);
   ("an_empty_payload_is_refused", an_empty_payload_is_refused);
   ("a_dribbling_non_final_payload_is_refused_but_the_minimum_is_accepted", a_dribbling_non_final_payload_is_refused_but_the_minimum_is_accepted);
   ("a_final_payload_below_the_minimum_is_accepted", a_final_payload_below_the_minimum_is_accepted);
   ("accumulating_past_the_frame_limit_is_refused_as_soon_as_it_happens", accumulating_past_the_frame_limit_is_refused_as_soon_as_it_happens);
   ("a_reassembled_line_that_is_not_a_frame_is_a_schema_refusal", a_reassembled_line_that_is_not_a_frame_is_a_schema_refusal);
   ("a_frame_split_across_chunks_survives_a_multibyte_boundary", a_frame_split_across_chunks_survives_a_multibyte_boundary)].
