(* ===== verification/TestsPorts.v ===== *)
(** * The unit tests of catalogs, options, ports, addresses and deadlines

    The [tests] modules of [catalog.rs], [session.rs], [session/options.rs], [session/handle.rs],
    [session/handler.rs], [port/pair.rs], [transports/deadline.rs], [transports/ssh.rs] and
    [transports/ipc.rs], test by test, run on the definitions those files are modelled by.  Where a test
    looks into the text of one of serde's own errors, only that there is an error is kept; the test of
    [session/handler.rs] that counts the handles on an [Arc] is left out. *)

From S2P Require Import Spawn Ssh Ipc.
From S2P Require Import Prelude Text Json Wire Frame Validate Limits Serde JsonText FrameJson Ndjson NdjsonProps Port Deadline Session Dispatch Driver Handle Catalog TestKit.
Local Open Scope Z_scope.

(** ** [catalog.rs] *)

Definition object_schema : Value := VObject [("type", from_str "object")].

Definition sample_method (name : string) (params res : Value) (capabilities : list string) : CatalogMethod :=
  {| cm_name := name; cm_description := None; cm_params := params; cm_result := res;
     cm_capabilities := capabilities; cm_deprecated := false |}.
Definition sample_event (topic : string) (payload : Value) : CatalogEvent :=
  {| ce_topic := topic; ce_description := None; ce_payload := payload; ce_stream := true |}.
Definition sample_of (name : string) (methods : list CatalogMethod) (events : list CatalogEvent) (capabilities : Value) : Catalog :=
  {| cat_name := name; cat_version := "1.0.0"; cat_description := None; cat_protocol := Some (version_new 1 0);
     cat_methods := methods; cat_events := events; cat_capabilities := Some capabilities |}.

Definition text_echo : CatalogMethod := sample_method "text.echo" object_schema object_schema ["echo"].
Definition text_stream : CatalogEvent := sample_event "text.stream" object_schema.
Definition sample : Catalog := sample_of "fixture-contract" [text_echo] [text_stream] object_schema.

Definition catalog_text (c : Catalog) : string := to_text (VObject (catalog_members c)).

(** The field a refused catalog names. *)
Definition refused_field (c : Catalog) (why : string) : panics string :=
  let? error := expect_err (validate_catalog c) why in Ok (ve_field error).

Definition a_well_formed_catalog_validates : Test := assert (is_ok (validate_catalog sample)).

Definition missing_events_deserialise_as_none_and_defaults_fill_in : Test :=
  let? catalog := expect (from_text catalog_of_value (json_text "{'name':'c','version':'1.0.0','methods':[{'name':'a.b','params':{},'result':{}}]}")) "decodes" in
  let? method := expect_some (head (cat_methods catalog)) "index out of bounds" in
  in_turn [assert_eq (cat_events catalog) []; assert_eq (cm_capabilities method) []; assert (negb (cm_deprecated method));
           assert_eq (cat_protocol catalog) None].

Definition an_emptied_collection_is_not_serialised : Test :=
  let value := catalog_to_value (sample_of "fixture-contract" [sample_method "text.echo" object_schema object_schema []] [] object_schema) in
  let? _ := assert_eq (index_of value "events") Null in
  match index_of value "methods" with
  | VArray (method :: _) => assert_eq (index_of method "capabilities") Null
  | _ => Err "not an array"
  end.

Definition an_absent_optional_is_not_serialised_and_null_is_refused : Test :=
  let? _ := assert_eq (index_of (catalog_to_value sample) "description") Null in
  let? _ := expect_err (from_text catalog_of_value (json_text "{'name':'c','version':'1','methods':[],'description':null}")) "null description is refused" in
  Ok tt.

Definition a_single_segment_method_name_is_refused : Test :=
  let catalog := sample_of "fixture-contract" [sample_method "bad" object_schema object_schema ["echo"]] [text_stream] object_schema in
  let? error := expect_err (validate_catalog catalog) "single segment" in
  in_turn [assert_eq (ve_field error) "catalog.methods[0].name"; assert (str_contains "two dot-separated" (ve_expected error))].

Definition a_bad_event_topic_is_refused : Test :=
  let? field := refused_field (sample_of "fixture-contract" [text_echo] [sample_event "Topic" object_schema] object_schema) "bad topic" in
  assert_eq field "catalog.events[0].topic".

Definition a_schema_document_that_is_not_an_object_is_refused : Test :=
  let with_method params res := sample_of "fixture-contract" [sample_method "text.echo" params res ["echo"]] [text_stream] object_schema in
  for_all
    [("catalog.methods[0].params", with_method (VBool true) object_schema);
     ("catalog.methods[0].result", with_method object_schema (VArray []));
     ("catalog.events[0].payload", sample_of "fixture-contract" [text_echo] [sample_event "text.stream" (from_str "object")] object_schema);
     ("catalog.capabilities", sample_of "fixture-contract" [text_echo] [text_stream] Null)]
    (fun '(field, catalog) =>
       let? error := expect_err (validate_catalog catalog) "expected the field to be refused | received: a valid catalog" in
       in_turn [assert_eq (ve_field error) field; assert (str_contains "object" (ve_expected error))]).

Definition an_empty_or_duplicate_capability_name_is_refused : Test :=
  for_all [[""]; ["echo"; "echo"]]
    (fun names =>
       let catalog := sample_of "fixture-contract" [sample_method "text.echo" object_schema object_schema names] [text_stream] object_schema in
       let? field := refused_field catalog "expected the names to be refused | received: a valid catalog" in
       assert_eq field ("catalog.methods[0].capabilities[" +:+ show_Z (len names - 1) +:+ "]")).

Definition an_empty_contract_name_is_refused : Test :=
  let? field := refused_field (sample_of "" [text_echo] [text_stream] object_schema) "empty name" in
  assert_eq field "catalog.name".

Definition keeps_absent_optional_members_absent : Test :=
  let text := json_text "{'name':'c','version':'1.0.0','methods':[{'name':'a.b','params':{},'result':{}}]}" in
  let? catalog := expect (from_text catalog_of_value text) "deserialises" in
  assert_eq (catalog_text catalog) text.

Definition round_trips_through_json : Test :=
  let? back := expect (from_text catalog_of_value (catalog_text sample)) "deserialises" in
  assert_eq back sample.

(** ** [session.rs] *)

Definition options_peer : PeerInfo := {| peer_name := "hub"; peer_version := "1.0.0"; peer_role := "hub" |}.

Definition a_ports_own_sub_floor_ceiling_panics_naming_both : Test :=
  let? message := panic_message (open_shared (Some 1024) (session_options_new options_peer)) in
  assert_eq message "port max_frame_bytes is 1024; expected at least 4096".

(** ** [session/options.rs] *)

Definition a_ceiling_below_its_floor_panics_naming_both : Test :=
  for_all
    [("max_frame_bytes is 512; expected at least 4096", with_max_frame_bytes (session_options_new options_peer) 512);
     ("max_in_flight is 0; expected at least 1", with_max_in_flight (session_options_new options_peer) 0);
     ("max_stream_keys is 0; expected at least 1", with_max_stream_keys (session_options_new options_peer) 0)]
    (fun '(expected, body) => let? message := panic_message body in assert_eq message expected).

Definition a_ceiling_at_its_floor_is_accepted : Test :=
  let? options := with_max_frame_bytes (session_options_new options_peer) MIN_MAX_FRAME_BYTES in
  let? _ := assert_eq (so_max_frame_bytes options) (Some MIN_MAX_FRAME_BYTES) in
  let? options := with_max_in_flight (session_options_new options_peer) 1 in
  let? options := with_max_stream_keys options 1 in
  in_turn [assert_eq (so_max_in_flight options) 1; assert_eq (so_max_stream_keys options) 1].

(** ** [session/handle.rs] *)

(** A session with the guard of request [r-1]. *)
Definition guard : RequestFuture :=
  {| rf_id := "r-1"; rf_method := "a.b"; rf_reply := 0%nat; rf_timeout := None; rf_cancel_sent := false; rf_armed := true |}.

Definition a_dropped_guard_cancels_and_releases_the_pending_entry : Test :=
  let? session := open_shared None (session_options_new options_peer) in
  match (ch_recv (sh_commands (request_drop session guard))).2 with
  | Polled (Some (CmdCancel id forget)) => in_turn [assert_eq id "r-1"; assert (negb forget)]
  | _ => Err "expected Command::Cancel | received: another command"
  end.

Definition a_disarmed_guard_sends_nothing : Test :=
  let? session := open_shared None (session_options_new options_peer) in
  match (ch_recv (sh_commands (request_drop session (disarm guard false false)))).2 with
  | Polled (Some _) => Err "expected a disarmed guard to send no command | received: one"
  | _ => Ok tt
  end.

(** ** [session/handler.rs] *)

Definition dropping_the_guard_unregisters_the_handler : Test :=
  let? session := open_shared None (session_options_new options_peer) in
  let '(session, registration) := handle session "text.echo" 0%nat in
  assert (bool_decide (sh_handlers (guard_drop session registration) !! "text.echo" = None)).

(** ** [port/pair.rs] *)

(** The direction of a pair the tests look at: its channel is both halves'. *)
Definition delivered (tx : MemoryPortTx) : MemoryPortRx := {| mr_receiver := mt_sender tx; mr_terminal := false |}.

(** [assert_eq!(rx.recv().await, item)]. *)
Definition receives (rx : MemoryPortRx) (item : option Inbound) : panics MemoryPortRx :=
  match memory_recv rx with
  | (rx, Polled got) => let? _ := assert_eq got item in Ok rx
  | (_, Pending) => Err "recv did not resolve"
  end.

(** [assert_eq!(tx.send(frame).await, outcome)]. *)
Definition sends (tx : MemoryPortTx) (frame : Frame) (outcome : SendOutcome) : panics MemoryPortTx :=
  let '(tx, got) := memory_send tx frame in let? _ := assert_eq got outcome in Ok tx.

Definition bulk_params (n : Z) : Frame := FReq {| req_id := "r"; req_method := "a.b"; req_params := from_str (str_repeat "x" n) |}.

Definition clone_mode_delivers_a_frame_unchanged : Test :=
  let? (tx, _) := port_pair_with memory_port_options_default in
  let frame := FReq {| req_id := "r-1"; req_method := "a.b"; req_params := Null |} in
  let? tx := sends tx frame Sent in
  let? _ := receives (delivered tx) (Some (IFrame frame)) in Ok tt.

Definition validate_mode_round_trips_through_the_byte_codec : Test :=
  let? (tx, _) := port_pair_with {| mo_max_frame_bytes := None; mo_validate_frames := true |} in
  let frame := FClose {| close_code := 4409; close_reason := Some "superseded" |} in
  let? tx := sends tx frame Sent in
  let? _ := receives (delivered tx) (Some (IFrame frame)) in Ok tt.

Definition validate_mode_refuses_a_frame_over_the_configured_ceiling : Test :=
  let? (tx, _) := port_pair_with {| mo_max_frame_bytes := Some MIN_MAX_FRAME_BYTES; mo_validate_frames := true |} in
  match (memory_send tx (bulk_params 5000)).2 with
  | Refused error => assert_eq (kind error) TooLarge
  | _ => Err "expected Refused"
  end.

Definition clone_mode_never_refuses_an_oversized_frame : Test :=
  let? (tx, _) := port_pair_with {| mo_max_frame_bytes := Some MIN_MAX_FRAME_BYTES; mo_validate_frames := false |} in
  let? tx := sends tx (bulk_params 200) Sent in
  let? _ := receives (delivered tx) (Some (IFrame (bulk_params 200))) in Ok tt.

Definition closing_a_tx_delivers_the_code_and_reason_then_is_terminal : Test :=
  let? (tx, _) := port_pair_with memory_port_options_default in
  let? rx := receives (delivered (memory_close tx 4000 (Some "bye"))) (Some (IClosed (PClosed (Some 4000) (Some "bye")))) in
  let? _ := receives rx None in Ok tt.

Definition dropping_a_tx_without_closing_is_a_vanished_link : Test :=
  let? (tx, _) := port_pair_with memory_port_options_default in
  let rx := {| mr_receiver := drop_senders (mt_sender tx); mr_terminal := false |} in
  let? rx := receives rx (Some (IClosed (PClosed None None))) in
  let? _ := receives rx None in Ok tt.

Definition sending_after_the_peer_rx_is_dropped_reports_closed : Test :=
  let? (tx, _) := port_pair_with memory_port_options_default in
  let tx := {| mt_max_frame_bytes := mt_max_frame_bytes tx; mt_validate_frames := mt_validate_frames tx;
               mt_sender := drop_receiver (mt_sender tx) |} in
  let? _ := sends tx FPing SendClosed in Ok tt.

Definition port_pair_with_refuses_a_ceiling_below_the_floor : Test :=
  let? message := panic_message (port_pair_with {| mo_max_frame_bytes := Some (MIN_MAX_FRAME_BYTES - 1); mo_validate_frames := false |}) in
  assert (str_contains "max_frame_bytes is 4095; expected at least 4096" message).

(** ** [transports/deadline.rs] *)

(** The attempts of the tests, as what each of their polls answers and whether one was polled. *)
Definition settles (f : bool) : bool * poll (result Z ConnectError) := (true, Polled (Ok 7)).
Definition never_settles (f : bool) : bool * poll (result Z ConnectError) := (true, Pending).

Definition attempted (attempt : bool -> bool * poll (result Z ConnectError)) (target : string) (d : ConnectDeadline)
    (wakes : list Wake) : panics (bool * result Z ConnectError) :=
  match connect_within attempt target d false wakes with
  | (polled, Polled outcome) => Ok (polled, outcome)
  | (_, Pending) => Err "the attempt did not settle"
  end.

Definition at_time (elapsed : Z) (cancelled : bool) : Wake := {| wk_elapsed := elapsed; wk_cancelled := cancelled |}.

Definition expect_cancelled (error : ConnectError) : Test :=
  match error with CancelledConnect _ => Ok tt | _ => Err "expected Cancelled" end.

Definition an_attempt_that_settles_first_is_the_outcome : Test :=
  let deadline := with_timeout connect_deadline_default (from_secs 30) in
  let? (_, outcome) := attempted settles "example" deadline [at_time 0 false] in
  let? connected := expect outcome "the attempt settles inside the budget" in
  assert_eq connected 7.

Definition no_deadline_at_all_leaves_the_attempt_alone : Test :=
  let? (_, outcome) := attempted settles "example" connect_deadline_default [at_time 0 false] in
  let? connected := expect outcome "an unbounded attempt still settles" in
  assert_eq connected 7.

Definition the_budget_running_out_names_the_target_and_the_budget : Test :=
  let deadline := with_timeout connect_deadline_default (from_secs 5) in
  let? (_, outcome) := attempted never_settles "hub.sock" deadline [at_time 0 false; at_time (from_secs 5) false] in
  let? error := expect_err outcome "the budget runs out" in
  match error with
  | TimedOut target timeout => in_turn [assert_eq target "hub.sock"; assert_eq timeout (from_secs 5)]
  | _ => Err "expected TimedOut"
  end.

(** The attempt itself cancels the token at its first poll. *)
Definition a_token_cancelled_mid_attempt_abandons_it : Test :=
  let deadline := with_cancel connect_deadline_default in
  let? (_, outcome) := attempted never_settles "hub.sock" deadline [at_time 0 false; at_time 0 true] in
  let? error := expect_err outcome "the cancelled token abandons the attempt" in
  expect_cancelled error.

Definition a_token_cancelled_beforehand_settles_before_anything_is_opened : Test :=
  let deadline := with_timeout (with_cancel connect_deadline_default) (from_secs 30) in
  let? (polled, outcome) := attempted never_settles "hub.sock" deadline [at_time 0 true] in
  let? error := expect_err outcome "an attempt nobody wants any more is refused" in
  in_turn [expect_cancelled error; assert (negb polled)].

Definition cancellation_wins_over_a_deadline_that_is_ready_at_the_same_moment : Test :=
  let deadline := with_timeout (with_cancel connect_deadline_default) 0 in
  let? (_, outcome) := attempted never_settles "hub.sock" deadline [at_time 0 true] in
  let? error := expect_err outcome "the attempt is abandoned" in
  expect_cancelled error.

Definition an_operating_system_error_keeps_its_own_message_and_source : Test :=
  let error := connect_error_from {| io_kind := NotFound; io_text := "no such file or directory" |} in
  in_turn [assert_eq (show_connect_error error) "no such file or directory";
           assert (bool_decide (is_Some (connect_error_source error)))].

Definition a_refusal_names_the_target_and_what_the_peer_did : Test :=
  let error := RefusedConnect "wss://hub.example/runtime" (json_text "selected subprotocol ''; expected 'mango.v1'") in
  in_turn [assert (str_contains "wss://hub.example/runtime" (show_connect_error error));
           assert (str_contains "mango.v1" (show_connect_error error))].

(** ** [transports/ssh.rs] *)

Definition build_box : Ssh.SshArgv := Ssh.ssh_argv_new "build-box" ["mango-runtime"].

Definition every_option_spawn_md_calls_load_bearing_is_present : Test :=
  let? argv := expect (Ssh.ssh_argv build_box) "a valid preset" in
  for_all ["BatchMode=yes"; "ConnectTimeout=10"; "ServerAliveInterval=15"; "ServerAliveCountMax=3";
           "StrictHostKeyChecking=yes"; "ControlMaster=no"; "ControlPath=none"; "RemoteCommand=none"; "-T"; "--"]
    (fun option => assert (bool_decide (option ∈ argv))).

Definition the_identity_file_comes_with_identities_only_and_before_the_port : Test :=
  let? argv := expect (Ssh.ssh_argv (Ssh.with_identity_file (Ssh.with_port build_box 2222) "/home/u/.ssh/id_ed25519")) "a valid preset" in
  let? (identity, _) := expect_some (list_find (fun word => word = "IdentitiesOnly=yes") argv) "IdentitiesOnly is set" in
  let? (port, _) := expect_some (list_find (fun word => word = "-p") argv) "the port is set" in
  assert (Nat.ltb identity port).

Definition a_port_of_zero_is_refused_and_says_what_was_expected : Test :=
  let? error := expect_err (Ssh.ssh_argv (Ssh.with_port build_box 0)) "a port of zero is refused" in
  in_turn [assert_eq (Ssh.ssh_error_reason error) "port";
           assert_eq (Ssh.show_ssh_error error) "ssh port is 0; expected a port of at least 1"].

Definition a_leading_tilde_stays_outside_the_quotes : Test :=
  in_turn [assert_eq (Ssh.quote_remote_path "~/bin/runtime") "~/'bin/runtime'";
           assert_eq (Ssh.quote_remote_path "/opt/runtime") "'/opt/runtime'";
           assert_eq (Ssh.quote_remote_path "it's") "'it'\''s'"].

Definition ssh_own_failure_is_named_apart_from_a_remote_status : Test :=
  let status := {| Spawn.es_code := Some 255; Spawn.es_signal := None |} in
  let timed_out := "ssh: connect to host build-box port 22: Connection timed out" in
  in_turn
    [assert_eq (Ssh.classify_ssh_exit status ("ssh: Warning" +:+ end_of_line +:+ timed_out +:+ end_of_line +:+ end_of_line))
       "ssh exited 255, its own failure (connection, authentication or host key), not a status from the remote command: ssh: connect to host build-box port 22: Connection timed out.";
     assert_eq (Ssh.classify_ssh_exit status ("   " +:+ end_of_line))
       "ssh exited 255, its own failure (connection, authentication or host key), not a status from the remote command."].

Definition the_other_statuses_say_what_they_mean : Test :=
  let exited code signal tail := Ssh.classify_ssh_exit {| Spawn.es_code := code; Spawn.es_signal := signal |} tail in
  in_turn
    [assert (str_contains "could not find the command" (exited (Some 127) None "bash: mango: command not found"));
     assert_eq (exited None (Some 9) "") "ssh was killed by SIGKILL before the remote command reported a status.";
     assert (str_contains "could not observe how the remote command finished" (exited None None ""));
     assert_eq (exited (Some 3) None "ignored") "ssh exited 3, which is the status the remote command returned."].

(** ** [transports/ipc.rs] *)

(** The tests run on both platforms; the directory is whichever the environment names. *)
Definition addresses : list (string -> string) :=
  [Ipc.unix_address_for (Some "/run/user/1000") "/tmp"; Ipc.unix_address_for None "/tmp"; Ipc.windows_address_for].

Definition a_name_becomes_an_address_carrying_it : Test :=
  for_all addresses (fun address_for =>
    let? path := expect (Ipc.ipc_path address_for "mango-hub") "one path segment" in
    assert (str_contains "mango-hub" path)).

Definition a_name_that_could_escape_its_directory_is_refused : Test :=
  for_all addresses (fun address_for =>
    for_all [""; "a/b"; "a\b"; ".."; "a..b"] (fun name =>
      let? error := expect_err (Ipc.ipc_path address_for name) "a name that is not one segment" in
      assert (str_contains "expected one non-empty path segment" (Ipc.show_name_error error)))).

Definition an_identity_says_what_the_platform_offered : Test :=
  let both := {| Ipc.pi_process_id := Some 42; Ipc.pi_user := Some {| Ipc.pu_uid := 1000; Ipc.pu_gid := 100 |} |} in
  let windows := {| Ipc.pi_process_id := Some 42; Ipc.pi_user := None |} in
  in_turn [assert_eq (Ipc.show_peer_identity both) "uid 1000 gid 100 in process 42";
           assert_eq (Ipc.show_peer_identity windows) "process 42"].

(** ** The suite *)

Local Open Scope string_scope.
Definition port_tests : list (string * Test) :=
  [("a_well_formed_catalog_validates", a_well_formed_catalog_validates);
   ("missing_events_deserialise_as_none_and_defaults_fill_in", missing_events_deserialise_as_none_and_defaults_fill_in);
   ("an_emptied_collection_is_not_serialised", an_emptied_collection_is_not_serialised);
   ("an_absent_optional_is_not_serialised_and_null_is_refused", an_absent_optional_is_not_serialised_and_null_is_refused);
   ("a_single_segment_method_name_is_refused", a_single_segment_method_name_is_refused);
   ("a_bad_event_topic_is_refused", a_bad_event_topic_is_refused);
   ("a_schema_document_that_is_not_an_object_is_refused", a_schema_document_that_is_not_an_object_is_refused);
   ("an_empty_or_duplicate_capability_name_is_refused", an_empty_or_duplicate_capability_name_is_refused);
   ("an_empty_contract_name_is_refused", an_empty_contract_name_is_refused);
   ("keeps_absent_optional_members_absent", keeps_absent_optional_members_absent);
   ("round_trips_through_json", round_trips_through_json);
   ("a_ports_own_sub_floor_ceiling_panics_naming_both", a_ports_own_sub_floor_ceiling_panics_naming_both);
   ("a_ceiling_below_its_floor_panics_naming_both", a_ceiling_below_its_floor_panics_naming_both);
   ("a_ceiling_at_its_floor_is_accepted", a_ceiling_at_its_floor_is_accepted);
   ("a_dropped_guard_cancels_and_releases_the_pending_entry", a_dropped_guard_cancels_and_releases_the_pending_entry);
   ("a_disarmed_guard_sends_nothing", a_disarmed_guard_sends_nothing);
   ("dropping_the_guard_unregisters_the_handler", dropping_the_guard_unregisters_the_handler);
   ("clone_mode_delivers_a_frame_unchanged", clone_mode_delivers_a_frame_unchanged);
   ("validate_mode_round_trips_through_the_byte_codec", validate_mode_round_trips_through_the_byte_codec);
   ("validate_mode_refuses_a_frame_over_the_configured_ceiling", validate_mode_refuses_a_frame_over_the_configured_ceiling);
   ("clone_mode_never_refuses_an_oversized_frame", clone_mode_never_refuses_an_oversized_frame);
   ("closing_a_tx_delivers_the_code_and_reason_then_is_terminal", closing_a_tx_delivers_the_code_and_reason_then_is_terminal);
   ("dropping_a_tx_without_closing_is_a_vanished_link", dropping_a_tx_without_closing_is_a_vanished_link);
   ("sending_after_the_peer_rx_is_dropped_reports_closed", sending_after_the_peer_rx_is_dropped_reports_closed);
   ("port_pair_with_refuses_a_ceiling_below_the_floor", port_pair_with_refuses_a_ceiling_below_the_floor);
   ("an_attempt_that_settles_first_is_the_outcome", an_attempt_that_settles_first_is_the_outcome);
   ("no_deadline_at_all_leaves_the_attempt_alone", no_deadline_at_all_leaves_the_attempt_alone);
   ("the_budget_running_out_names_the_target_and_the_budget", the_budget_running_out_names_the_target_and_the_budget);
   ("a_token_cancelled_mid_attempt_abandons_it", a_token_cancelled_mid_attempt_abandons_it);
   ("a_token_cancelled_beforehand_settles_before_anything_is_opened", a_token_cancelled_beforehand_settles_before_anything_is_opened);
   ("cancellation_wins_over_a_deadline_that_is_ready_at_the_same_moment", cancellation_wins_over_a_deadline_that_is_ready_at_the_same_moment);
   ("an_operating_system_error_keeps_its_own_message_and_source", an_operating_system_error_keeps_its_own_message_and_source);
   ("a_refusal_names_the_target_and_what_the_peer_did", a_refusal_names_the_target_and_what_the_peer_did);
   ("every_option_spawn_md_calls_load_bearing_is_present", every_option_spawn_md_calls_load_bearing_is_present);
   ("the_identity_file_comes_with_identities_only_and_before_the_port", the_identity_file_comes_with_identities_only_and_before_the_port);
   ("a_port_of_zero_is_refused_and_says_what_was_expected", a_port_of_zero_is_refused_and_says_what_was_expected);
   ("a_leading_tilde_stays_outside_the_quotes", a_leading_tilde_stays_outside_the_quotes);
   ("ssh_own_failure_is_named_apart_from_a_remote_status", ssh_own_failure_is_named_apart_from_a_remote_status);
   ("the_other_statuses_say_what_they_mean", the_other_statuses_say_what_they_mean);
   ("a_name_becomes_an_address_carrying_it", a_name_becomes_an_address_carrying_it);
   ("a_name_that_could_escape_its_directory_is_refused", a_name_that_could_escape_its_directory_is_refused);
   ("an_identity_says_what_the_platform_offered", an_identity_says_what_the_platform_offered)].
