(* ===== verification/TestsStreams.v ===== *)
(** * The unit tests of the stream transports

    The [tests] modules of [transports/ndjson.rs], [transports/stdio.rs], [transports/spawn.rs],
    [transports/websocket.rs], [transports/websocket/server.rs] and [transports/websocket/client.rs],
    test by test.  The peer of an NDJSON port is a pipe and a list of reads; the tests of a writer that
    is stuck run on [SharedWriter.v], one turn of a task at a time.  Left out are the tests that look
    into a real process or a TLS provider. *)

From S2P Require Import Prelude Text Json Wire Frame Validate Limits Serde JsonText FrameJson Ndjson NdjsonProps Chunk Port Deadline Spawn Files IpcPorts WebSocket Upgrade SharedWriter NdjsonPort NdjsonPortProps TestKit.
Local Open Scope Z_scope.

(** ** [transports/ndjson.rs] *)

Definition silent_pipe : Pipe := {| pipe_bytes := []; pipe_ended := false |}.

(** A port, the reads its peer's writes arrive in, and what the peer reads back. *)
Definition raw_peer (reads : list ReadOutcome) : panics (NdjsonPort Pipe) :=
  ndjson_port_new reads silent_pipe DEFAULT_MAX_FRAME_BYTES.
Definition read_all (p : NdjsonPort Pipe) : string := of_bytes (pipe_bytes (ws_writer (np_writer p))).
Definition arrives (text : string) : ReadOutcome := ReadOk (json_bytes text).
Definition arrives_lines (lines : list string) : ReadOutcome :=
  ReadOk (concat (map (fun line => json_bytes line ++ [newline]) lines)).

Definition recv_is (p : NdjsonPort Pipe) (item : option Inbound) : panics (NdjsonPort Pipe) :=
  match ndjson_recv p with
  | (p, Polled got) => let? _ := assert_eq got item in Ok p
  | (_, Pending) => Err "recv did not resolve"
  end.

(** The refusal the next [recv] reports. *)
Definition recv_refusal (p : NdjsonPort Pipe) : panics (NdjsonPort Pipe * (CodecError * Z)) :=
  match ndjson_recv p with
  | (p, Polled (Some (IClosed (PProtocolError error code)))) => Ok (p, (error, code))
  | _ => Err "expected a protocol error"
  end.

Definition a_frame_survives_the_round_trip_through_the_byte_codec : Test :=
  let? port := raw_peer [] in
  let '(port, sent) := ndjson_send port (FReq {| req_id := "r-1"; req_method := "a.b"; req_params := from_str "hello" |}) in
  in_turn [assert_eq sent Sent;
           assert_eq (read_all port) (json_text "{'type':'req','id':'r-1','method':'a.b','params':'hello'}" +:+ end_of_line)].

Definition a_frame_split_across_two_reads_still_decodes : Test :=
  let? port := raw_peer [arrives "{'type':'pi"; arrives_lines ["ng'}"]] in
  let? _ := recv_is port (Some (IFrame FPing)) in Ok tt.

Definition two_frames_in_one_read_arrive_in_order : Test :=
  let? port := raw_peer [arrives_lines ["{'type':'ping'}"; "{'type':'pong'}"]] in
  let? port := recv_is port (Some (IFrame FPing)) in
  let? _ := recv_is port (Some (IFrame FPong)) in Ok tt.

Definition end_of_file_is_a_closure_without_a_code : Test :=
  let? port := raw_peer [ReadOk []] in
  let? port := recv_is port (Some (IClosed (PClosed None None))) in
  let? _ := recv_is port None in Ok tt.

Definition a_partial_line_at_end_of_file_is_a_closure_not_a_refusal : Test :=
  let? port := raw_peer [arrives "{'type':'ping'"; ReadOk []] in
  let? _ := recv_is port (Some (IClosed (PClosed None None))) in Ok tt.

Definition frames_before_a_refused_line_arrive_before_the_refusal : Test :=
  let? port := raw_peer [arrives_lines ["{'type':'ping'}"; "{'type':'nope'}"]] in
  let? port := recv_is port (Some (IFrame FPing)) in
  let? (port, (error, code)) := recv_refusal port in
  let? _ := in_turn [assert_eq code close_codes.PROTOCOL_ERROR; assert_eq (kind error) Schema] in
  let? _ := recv_is port None in Ok tt.

Definition a_refused_line_tells_the_peer_why_before_the_stream_ends : Test :=
  let? port := raw_peer [arrives_lines ["{'type':'nope'}"]] in
  let? (port, _) := recv_refusal port in
  in_turn [assert (str_starts_with (json_text "{'type':'close','code':4400,") (read_all port));
           assert (pipe_ended (ws_writer (np_writer port)))].

Definition a_hello_nobody_can_read_is_refused_with_4426 : Test :=
  let? port := raw_peer [arrives_lines ["{'type':'hello','protocolVersion':'1.0.1'}"]] in
  let? (_, (_, code)) := recv_refusal port in
  assert_eq code close_codes.PROTOCOL_MISMATCH.

Definition closing_the_send_half_writes_the_farewell_then_ends_the_stream : Test :=
  let? port := raw_peer [] in
  let port := ndjson_close port close_codes.RELEASED (Some "bye") in
  in_turn [assert_eq (read_all port) (json_text "{'type':'close','code':4000,'reason':'bye'}" +:+ end_of_line);
           assert (pipe_ended (ws_writer (np_writer port)))].

(** The far half of the pipe is gone: it refuses every write. *)
Record BrokenPipe : Type := { broken_attempts : Z }.
#[local] Instance broken_write : AsyncWrite BrokenPipe := {|
  aw_write p b := ({| broken_attempts := broken_attempts p + 1 |}, IoFailed);
  aw_end p := p
|}.

Definition sending_after_the_peer_is_gone_reports_the_transport_as_closed : Test :=
  let? port := ndjson_port_new [] {| broken_attempts := 0 |} DEFAULT_MAX_FRAME_BYTES in
  let '(port, first) := ndjson_send port FPing in
  let '(port, second) := ndjson_send port FPong in
  in_turn [assert_eq first SendClosed; assert_eq second SendClosed].

Definition a_frame_past_the_ceiling_is_refused_without_reaching_the_stream : Test :=
  let? port := ndjson_port_new [] silent_pipe 4096 in
  let '(port, sent) := ndjson_send port (FReq {| req_id := "r-1"; req_method := "a.b"; req_params := from_str (str_repeat "x" 8192) |}) in
  match sent with
  | Refused error => in_turn [assert_eq (kind error) TooLarge; assert_eq (read_all port) ""]
  | _ => Err "expected Refused"
  end.

Definition building_a_port_below_the_floor_panics_naming_both : Test :=
  let? message := panic_message (ndjson_port_new [] silent_pipe 512) in
  assert (str_contains "max_frame_bytes is 512; expected at least 4096" message).

Definition a_reason_past_the_schema_limit_is_cut_on_a_character_boundary : Test :=
  let long := of_bytes (concat (repeat (to_bytes "é") (Z.to_nat (MAX_REASON_CHARS + 10)))) in
  in_turn [assert_eq (chars_count (clamp_reason long)) MAX_REASON_CHARS; assert_eq (clamp_reason "short") "short"].

Definition a_close_keeps_its_code_when_the_reason_will_not_fit_the_frame_limit : Test :=
  let? port := ndjson_port_new [] silent_pipe 4096 in
  let port := ndjson_close port close_codes.PROTOCOL_ERROR (Some (str_repeat (byte_of_Z 0) MAX_REASON_CHARS)) in
  assert_eq (read_all port) (json_text "{'type':'close','code':4400}" +:+ end_of_line).

(** A sink that takes no byte and finishes neither a flush nor its shutdown. *)
Definition stalled (turns : list nat) : list Turn := map (fun t => Run t Blocks) turns.

(** A send in the middle of its write. *)
Definition stuck_send : list Turn := Call 0 (SStart FPing) :: stalled [0; 0; 0; 0]%nat.

Definition outcomes (turns : list Turn) (expected : list (nat * Pc)) : Test :=
  let s := acts DEFAULT_MAX_FRAME_BYTES shared_new turns in
  for_all expected (fun '(t, pc) =>
    match sh_tasks s !! t, pc with
    | Some SClosed, SClosed | Some EDone, EDone | Some EShutdown, EShutdown => Ok tt
    | Some (SWrite f line rest), SWrite _ _ _ => assert_eq rest line
    | _, _ => Err "the call is elsewhere"
    end).

(** What [recv] does about the bad line, while the send is stuck: the farewell waits out its grace, and
    the end of the port evicts the send. *)
Definition a_refusal_is_reported_though_a_send_is_stuck_on_a_peer_that_stopped_reading : Test :=
  let? error := expect_err (decode_line (json_bytes "{'type':'nope'}") DEFAULT_MAX_FRAME_BYTES) "the line is refused" in
  let refusing := Call 1 (EStart (close_code_for_codec_error error) (Some (show_codec_error error))) in
  in_turn
    [assert_eq (close_code_for_codec_error error) close_codes.PROTOCOL_ERROR;
     outcomes stuck_send [(0%nat, SWrite FPing [] [])];
     outcomes (stuck_send ++ refusing :: stalled [1; 1; 0]%nat ++ [SharedWriter.Elapse 1] ++ stalled [1; 1; 1]%nat ++
               [Evict 0] ++ stalled [1; 1]%nat ++ [SharedWriter.Elapse 1])
       [(0%nat, SClosed); (1%nat, EDone)]].

Definition a_listener_closing_a_port_is_not_held_by_a_stuck_send : Test :=
  outcomes (stuck_send ++ Call 1 (EStart close_codes.RELEASED (Some "listener closing")) :: stalled [1; 1; 0]%nat ++
            [SharedWriter.Elapse 1] ++ stalled [1; 1]%nat ++ [Evict 0] ++ stalled [1; 1]%nat ++ [SharedWriter.Elapse 1])
    [(0%nat, SClosed); (1%nat, EDone)].

(** The second caller comes while the first waits for a shutdown that never lands, and is through without
    any grace passing. *)
Definition a_second_caller_ending_a_port_does_not_wait_out_the_first : Test :=
  let first := stuck_send ++ Call 1 (EStart close_codes.RELEASED (Some "the session closing")) :: stalled [1; 1]%nat ++
               [SharedWriter.Elapse 1] ++ stalled [1; 1]%nat ++ [Evict 0] ++ stalled [1; 1]%nat in
  let second := Call 2 (EStart close_codes.RELEASED (Some "listener closing")) :: stalled [2; 2; 2; 2; 2]%nat in
  in_turn [outcomes first [(1%nat, EShutdown)];
           outcomes (first ++ second) [(0%nat, SClosed); (1%nat, EShutdown); (2%nat, EDone)];
           outcomes (first ++ second ++ [SharedWriter.Elapse 1]) [(1%nat, EDone)]].

(** ** [transports/stdio.rs] *)

Definition the_standard_streams_carry_the_default_frame_limit : Test :=
  let? port := stdio_port [] silent_pipe in
  assert_eq (np_max port) DEFAULT_MAX_FRAME_BYTES.

(** [with_max_frame_bytes] on the port of the standard streams, which is [ndjson_port_new] with that limit. *)
Definition the_limit_can_be_lowered_for_a_peer_that_announces_less : Test :=
  let? port := ndjson_port_new [] silent_pipe 65536 in
  assert_eq (np_max port) 65536.

(** ** [transports/spawn.rs] *)

(** The names of the tests are ASCII, where the upper-casing of the standard library is the plain one. *)
#[local] Instance ascii_case : UnicodeCase := {| to_uppercase s := of_bytes (map ascii_upper (to_bytes s)) |}.

(** A system on which no command exists. *)
Definition no_such_command (os : unit) (command : SpawnCommand) : unit * result (Z * list ReadOutcome * Pipe) IoError :=
  (os, Err {| io_kind := NotFound; io_text := "No such file or directory (os error 2)" |}).

Definition refused_argv (argv : list string) (why : string) : panics SpawnArgvError :=
  let? spawned := (spawn_port true [] no_such_command (spawn_options_new argv) tt).2 in expect_err spawned why.

Definition an_argv_without_a_command_is_refused : Test :=
  let? error := refused_argv [] "an empty argv names no command" in
  let? _ := assert (str_contains "expected [command, ...args]" (show_argv_error error)) in
  let? error := refused_argv [""] "an empty command names no command" in
  assert (str_contains (json_text "spawn argv is ['']") (show_argv_error error)).

Definition the_allowlist_keeps_what_a_program_needs_and_drops_the_rest : Test :=
  let env := sanitized_env_from [("PATH", "/usr/bin"); ("LC_ALL", "C"); ("EDITOR", "vi")] [] in
  in_turn [assert_eq (env !! "PATH") (Some "/usr/bin"); assert_eq (env !! "LC_ALL") (Some "C"); assert_eq (env !! "EDITOR") None].

Definition a_secret_shaped_name_is_dropped_though_the_allowlist_would_keep_it : Test :=
  let env := sanitized_env_from [("Path", "C:\bin"); ("LC_API_KEY", "shh"); ("Lc_Password", "shh"); ("XDG_RUNTIME_DIR_TOKEN", "shh")] [] in
  in_turn [assert_eq (env !! "Path") (Some "C:\bin"); assert_eq (env !! "LC_API_KEY") None;
           assert_eq (env !! "Lc_Password") None; assert_eq (env !! "XDG_RUNTIME_DIR_TOKEN") None].

Definition what_the_application_adds_on_purpose_survives : Test :=
  assert_eq (sanitized_env_from [] [("MANGO_TOKEN", "deliberate")] !! "MANGO_TOKEN") (Some "deliberate").

Definition with_max_frame_bytes_below_the_floor_panics_naming_both : Test :=
  let? message := panic_message (so_with_max_frame_bytes (spawn_options_new ["mango-runtime"]) 512) in
  assert (str_contains "max_frame_bytes is 512; expected at least 4096" message).

(** The field is public, so it is also checked before the child starts. *)
Definition spawn_port_panics_on_a_sub_floor_ceiling_before_starting_the_child : Test :=
  let o := spawn_options_new ["mango-no-such-command-exists-anywhere"] in
  let options := {| so_argv := so_argv o; so_cwd := so_cwd o; so_env := so_env o; so_max_frame_bytes := Some 512;
                    so_stderr_tail_bytes := so_stderr_tail_bytes o; so_terminate_grace := so_terminate_grace o;
                    so_kill_grace := so_kill_grace o; so_exit_grace := so_exit_grace o; so_on_stderr := so_on_stderr o;
                    so_windows_hide := so_windows_hide o |} in
  let? message := panic_message (spawn_port true [] no_such_command options tt).2 in
  assert (str_contains "max_frame_bytes is 512; expected at least 4096" message).

Definition millis (n : Z) : Z := n * 1000000.

(** The sequence over a child that does not leave, polled whenever one of its graces ends. *)
Definition ignored_sequence : list SpawnAction :=
  [Spawn.SStart; SEscalate; STime (millis 10); SEscalate; STime (millis 10); SEscalate; STime (millis 20); SEscalate].
Definition stubborn_child : Launch := launch_new true 1 (millis 10) (millis 10) (millis 20).

Definition answered (p : poll (option ExitStatus)) (expected : option ExitStatus) : Test :=
  match p with Polled got => assert_eq got expected | Pending => Err "terminate must not hang past its own graces" end.

Definition escalate_gives_up_once_the_exit_grace_runs_out : Test :=
  let l := spawn_run stubborn_child ignored_sequence in
  match la_outcome l with
  | TGaveUp => assert (la_now l <=? millis 200)
  | _ => Err "expected Ok(None)"
  end.

Definition terminate_rechecks_the_exit_watch_after_giving_up : Test :=
  let l := spawn_run stubborn_child ignored_sequence in
  let late := {| es_code := Some 0; es_signal := None |} in
  in_turn [answered (terminate_poll l) None;
           answered (terminate_poll (spawn_run l [SExit late; SReapExit; Spawn.SStart; SEscalate])) (Some late)].

Definition a_tail_keeps_only_its_last_bytes : Test :=
  assert_eq (tail_text (tail_append (bounded_tail_new 4) (to_bytes "abcdefg"))) "defg".

Definition the_last_line_that_says_anything_is_the_reason : Test :=
  let text := "starting" +:+ end_of_line +:+ "config missing" +:+ end_of_line +:+ end_of_line +:+ "  " +:+ end_of_line in
  in_turn [assert_eq (last_non_empty_line text) (Some "config missing"); assert_eq (last_non_empty_line "") None].

Definition an_exit_says_how_the_child_ended : Test :=
  in_turn [assert_eq (show_exit_status {| es_code := Some 3; es_signal := None |}) "exit status 3";
           assert_eq (show_exit_status {| es_code := None; es_signal := Some 9 |}) "killed by SIGKILL";
           assert_eq (show_exit_status exit_status_default) "no exit status at all";
           assert_eq (signal_name 15) (Some "SIGTERM")].

Definition a_command_that_does_not_exist_closes_the_port_and_says_why : Test :=
  let? spawned := (spawn_port true [] no_such_command (spawn_options_new ["mango-no-such-command-exists-anywhere"]) tt).2 in
  let? peer := expect spawned "the argv names a command, even one nothing answers to" in
  let '(port, first) := spawn_recv (sd_port peer) in
  let why := start_error (sp_launch port) (sd_tail peer) (sd_spawn_error peer) in
  in_turn
    [match first with
     | Polled (Some (IClosed (PClosed code reason))) => in_turn [assert_eq code None; assert (bool_decide (is_Some reason))]
     | _ => Err "expected a closure"
     end;
     match (spawn_recv port).2 with Polled None => Ok tt | _ => Err "expected the end" end;
     assert_eq (se_spawn_error why) (Some NotFound); assert_eq (sd_pid peer) None;
     assert (negb (bool_decide (se_stderr_line why = "")))].

Definition a_variable_that_is_not_utf8_is_dropped_rather_than_read : Test :=
  let broken := map byte_of_Z [255; 254] in
  assert_eq (utf8_vars [(to_bytes "PATH", to_bytes "/usr/bin"); (to_bytes "EDITOR", broken); (broken, to_bytes "anything")])
    [("PATH", "/usr/bin")].

(** ** [transports/websocket.rs] *)

(** The line a farewell's chunk messages reassemble to. *)
Definition farewell_text (messages : list bytes) : string := of_bytes (concat (map (drop (Z.to_nat CHUNK_HEADER_BYTES)) messages)).

Definition a_farewell_reason_past_the_schema_limit_is_cut_rather_than_dropped : Test :=
  let long := str_repeat "x" (MAX_REASON_CHARS + 10) in
  let? messages := expect_some (farewell_messages close_codes.RELEASED (Some long) websocket_options_default) "a clamped reason encodes" in
  in_turn [assert (str_contains (str_repeat "x" MAX_REASON_CHARS) (farewell_text messages));
           assert (negb (str_contains (str_repeat "x" (MAX_REASON_CHARS + 1)) (farewell_text messages)))].

Definition a_farewell_keeps_its_code_when_the_reason_will_not_fit_the_frame_limit : Test :=
  let? options := wo_with_max_frame_bytes websocket_options_default 4096 in
  let long := str_repeat (byte_of_Z 0) MAX_REASON_CHARS in
  let? messages := expect_some (farewell_messages close_codes.PROTOCOL_ERROR (Some long) options) "the code still encodes" in
  assert_eq (farewell_text messages) (json_text "{'type':'close','code':4400}").

Definition a_reason_code_close_frame_becomes_the_sessions_closure : Test :=
  assert_eq (peer_closure (Some (4409, "superseded"))) (PClosed (Some 4409) (Some "superseded")).

Definition an_rfc_close_code_says_nothing_about_the_session : Test :=
  in_turn [for_all [1000; 1006; 1011] (fun code => assert_eq (peer_closure (Some (code, ""))) (PClosed None None));
           assert_eq (peer_closure None) (PClosed None None)].

Definition a_long_reason_is_cut_to_what_rfc_6455_allows : Test :=
  let long := of_bytes (concat (repeat (to_bytes "é") 200)) in
  let clamped := clamp_close_reason long in
  in_turn [assert (len (to_bytes clamped) <=? 123); assert (str_starts_with clamped long); assert_eq (clamp_close_reason "short") "short"].

Definition the_receive_ceiling_is_what_a_peer_may_send_not_what_this_side_sends : Test :=
  let? options := wo_with_max_message_bytes websocket_options_default 2048 in
  let whole_frame := Some (wo_max_frame_bytes options + CHUNK_HEADER_BYTES) in
  in_turn [assert_eq (wc_max_message_size (socket_config options)) whole_frame;
           assert_eq (wc_max_frame_size (socket_config options)) whole_frame].

Definition a_ceiling_below_its_floor_panics_naming_both : Test :=
  for_all
    [("max_frame_bytes is 512; expected at least 4096", wo_with_max_frame_bytes websocket_options_default 512);
     ("max_message_bytes is 1024; expected at least 2048", wo_with_max_message_bytes websocket_options_default 1024)]
    (fun '(expected, body) => let? message := panic_message body in assert_eq message expected).

(** ** [transports/websocket/server.rs] *)

Definition upgrade_request (headers : list (string * string)) : list (string * bytes) :=
  map (fun '(name, value) => (name, to_bytes value)) headers.

Definition the_subprotocol_is_seen_whether_it_is_alone_or_in_a_list : Test :=
  for_all [WEBSOCKET_SUBPROTOCOL; "chat, mango.v1"; "mango.v1, chat"; "  mango.v1  "]
    (fun offered => assert (up_offered_subprotocol (upgrade_read (upgrade_request [(SEC_WEBSOCKET_PROTOCOL, offered)])))).

Definition a_dialler_that_offered_something_else_did_not_offer_this : Test :=
  for_all [[(SEC_WEBSOCKET_PROTOCOL, "mango.v2")]; []]
    (fun headers => assert (negb (up_offered_subprotocol (upgrade_read (upgrade_request headers))))).

Definition the_bearer_token_is_read_out_of_the_authorization_header : Test :=
  in_turn [assert_eq (up_bearer (upgrade_read (upgrade_request [(AUTHORIZATION, "Bearer s3cret")]))) (Some "s3cret");
           assert_eq (bearer_token "Bearer  padded  ") (Some "padded"); assert_eq (bearer_token "Bearer") None;
           assert_eq (bearer_token "Bearer ") None; assert_eq (bearer_token "Basic abc") None].

Definition an_undecodable_origin_is_not_the_same_as_no_origin : Test :=
  let absent := upgrade_read (upgrade_request []) in
  let undecodable := upgrade_read [(ORIGIN, map byte_of_Z [255; 254])] in
  in_turn [assert_eq (up_origin absent) None; assert (negb (up_origin_undecodable absent));
           assert_eq (up_origin undecodable) None; assert (up_origin_undecodable undecodable)].

Definition a_refusal_names_the_code_the_dialler_can_read : Test :=
  in_turn [assert (str_contains "4403" (show_accept_error (AUnauthorized 4403)));
           assert (str_contains WEBSOCKET_SUBPROTOCOL (show_accept_error ASubprotocol))].

(** ** [transports/websocket/client.rs] *)

(** tungstenite's reading of the two addresses of the tests. *)
Definition into_client_request (url : string) : result (Upgrade.Request (list (string * bytes))) string :=
  if str_starts_with "ws://" url then Ok {| rq_scheme := "ws"; rq_headers := [] |} else Err "HTTP format error: invalid format".

Definition the_upgrade_offers_the_subprotocol_and_carries_the_bearer : Test :=
  let options := with_header (with_bearer connect_options_default "s3cret") "x-tenant" "acme" in
  let? request := expect (build_request into_client_request "ws://hub.example/runtime" options) "a ws URL" in
  for_all [(SEC_WEBSOCKET_PROTOCOL, WEBSOCKET_SUBPROTOCOL); (AUTHORIZATION, "Bearer s3cret"); ("x-tenant", "acme")]
    (fun '(name, value) => assert_eq (header_get (rq_headers request) name ≫= to_str) (Some value)).

Definition an_address_that_is_not_a_url_is_refused_before_anything_opens : Test :=
  let? error := expect_err (build_request into_client_request "hub.example/runtime" connect_options_default) "an address with no scheme is not a URL" in
  match error with
  | RefusedConnect _ detail => assert (str_contains "ws:// or wss://" detail)
  | _ => Err "expected a refusal"
  end.

Definition a_token_that_could_not_be_a_header_value_is_refused : Test :=
  let options := with_bearer connect_options_default ("line" +:+ end_of_line +:+ "break") in
  let? error := expect_err (build_request into_client_request "ws://hub.example/runtime" options) "a header value cannot hold a newline" in
  assert (str_contains "visible ASCII" (show_connect_error error)).

(** ** The suite *)

Local Open Scope string_scope.
Definition stream_tests : list (string * Test) :=
  [("a_frame_survives_the_round_trip_through_the_byte_codec", a_frame_survives_the_round_trip_through_the_byte_codec);
   ("a_frame_split_across_two_reads_still_decodes", a_frame_split_across_two_reads_still_decodes);
   ("two_frames_in_one_read_arrive_in_order", two_frames_in_one_read_arrive_in_order);
   ("end_of_file_is_a_closure_without_a_code", end_of_file_is_a_closure_without_a_code);
   ("a_partial_line_at_end_of_file_is_a_closure_not_a_refusal", a_partial_line_at_end_of_file_is_a_closure_not_a_refusal);
   ("frames_before_a_refused_line_arrive_before_the_refusal", frames_before_a_refused_line_arrive_before_the_refusal);
   ("a_refused_line_tells_the_peer_why_before_the_stream_ends", a_refused_line_tells_the_peer_why_before_the_stream_ends);
   ("a_hello_nobody_can_read_is_refused_with_4426", a_hello_nobody_can_read_is_refused_with_4426);
   ("closing_the_send_half_writes_the_farewell_then_ends_the_stream", closing_the_send_half_writes_the_farewell_then_ends_the_stream);
   ("sending_after_the_peer_is_gone_reports_the_transport_as_closed", sending_after_the_peer_is_gone_reports_the_transport_as_closed);
   ("a_frame_past_the_ceiling_is_refused_without_reaching_the_stream", a_frame_past_the_ceiling_is_refused_without_reaching_the_stream);
   ("building_a_port_below_the_floor_panics_naming_both", building_a_port_below_the_floor_panics_naming_both);
   ("a_reason_past_the_schema_limit_is_cut_on_a_character_boundary", a_reason_past_the_schema_limit_is_cut_on_a_character_boundary);
   ("a_close_keeps_its_code_when_the_reason_will_not_fit_the_frame_limit", a_close_keeps_its_code_when_the_reason_will_not_fit_the_frame_limit);
   ("a_refusal_is_reported_though_a_send_is_stuck_on_a_peer_that_stopped_reading", a_refusal_is_reported_though_a_send_is_stuck_on_a_peer_that_stopped_reading);
   ("a_listener_closing_a_port_is_not_held_by_a_stuck_send", a_listener_closing_a_port_is_not_held_by_a_stuck_send);
   ("a_second_caller_ending_a_port_does_not_wait_out_the_first", a_second_caller_ending_a_port_does_not_wait_out_the_first);
   ("the_standard_streams_carry_the_default_frame_limit", the_standard_streams_carry_the_default_frame_limit);
   ("the_limit_can_be_lowered_for_a_peer_that_announces_less", the_limit_can_be_lowered_for_a_peer_that_announces_less);
   ("an_argv_without_a_command_is_refused", an_argv_without_a_command_is_refused);
   ("the_allowlist_keeps_what_a_program_needs_and_drops_the_rest", the_allowlist_keeps_what_a_program_needs_and_drops_the_rest);
   ("a_secret_shaped_name_is_dropped_though_the_allowlist_would_keep_it", a_secret_shaped_name_is_dropped_though_the_allowlist_would_keep_it);
   ("what_the_application_adds_on_purpose_survives", what_the_application_adds_on_purpose_survives);
   ("with_max_frame_bytes_below_the_floor_panics_naming_both", with_max_frame_bytes_below_the_floor_panics_naming_both);
   ("spawn_port_panics_on_a_sub_floor_ceiling_before_starting_the_child", spawn_port_panics_on_a_sub_floor_ceiling_before_starting_the_child);
   ("escalate_gives_up_once_the_exit_grace_runs_out", escalate_gives_up_once_the_exit_grace_runs_out);
   ("terminate_rechecks_the_exit_watch_after_giving_up", terminate_rechecks_the_exit_watch_after_giving_up);
   ("a_tail_keeps_only_its_last_bytes", a_tail_keeps_only_its_last_bytes);
   ("the_last_line_that_says_anything_is_the_reason", the_last_line_that_says_anything_is_the_reason);
   ("an_exit_says_how_the_child_ended", an_exit_says_how_the_child_ended);
   ("a_command_that_does_not_exist_closes_the_port_and_says_why", a_command_that_does_not_exist_closes_the_port_and_says_why);
   ("a_variable_that_is_not_utf8_is_dropped_rather_than_read", a_variable_that_is_not_utf8_is_dropped_rather_than_read);
   ("a_farewell_reason_past_the_schema_limit_is_cut_rather_than_dropped", a_farewell_reason_past_the_schema_limit_is_cut_rather_than_dropped);
   ("a_farewell_keeps_its_code_when_the_reason_will_not_fit_the_frame_limit", a_farewell_keeps_its_code_when_the_reason_will_not_fit_the_frame_limit);
   ("a_reason_code_close_frame_becomes_the_sessions_closure", a_reason_code_close_frame_becomes_the_sessions_closure);
   ("an_rfc_close_code_says_nothing_about_the_session", an_rfc_close_code_says_nothing_about_the_session);
   ("a_long_reason_is_cut_to_what_rfc_6455_allows", a_long_reason_is_cut_to_what_rfc_6455_allows);
   ("the_receive_ceiling_is_what_a_peer_may_send_not_what_this_side_sends", the_receive_ceiling_is_what_a_peer_may_send_not_what_this_side_sends);
   ("a_ceiling_below_its_floor_panics_naming_both", a_ceiling_below_its_floor_panics_naming_both);
   ("the_subprotocol_is_seen_whether_it_is_alone_or_in_a_list", the_subprotocol_is_seen_whether_it_is_alone_or_in_a_list);
   ("a_dialler_that_offered_something_else_did_not_offer_this", a_dialler_that_offered_something_else_did_not_offer_this);
   ("the_bearer_token_is_read_out_of_the_authorization_header", the_bearer_token_is_read_out_of_the_authorization_header);
   ("an_undecodable_origin_is_not_the_same_as_no_origin", an_undecodable_origin_is_not_the_same_as_no_origin);
   ("a_refusal_names_the_code_the_dialler_can_read", a_refusal_names_the_code_the_dialler_can_read);
   ("the_upgrade_offers_the_subprotocol_and_carries_the_bearer", the_upgrade_offers_the_subprotocol_and_carries_the_bearer);
   ("an_address_that_is_not_a_url_is_refused_before_anything_opens", an_address_that_is_not_a_url_is_refused_before_anything_opens);
   ("a_token_that_could_not_be_a_header_value_is_refused", a_token_that_could_not_be_a_header_value_is_refused)].
