(* ===== verification/TestsSockets.v ===== *)
(** * The unit tests of local sockets

    The [tests] module of [transports/ipc/unix.rs], test by test, run on the file system of [Files.v] and
    the listeners of [Ipc.v] and [IpcPorts.v].  A process that is dropped without closing is one that
    crashes; a test's scratch directory is a directory nobody else uses. *)

From S2P Require Import Prelude Text Json Wire Frame Validate Limits Serde JsonText FrameJson Ndjson NdjsonProps Port NdjsonPort NdjsonPortProps Deadline Files Ipc IpcProps IpcAddress IpcPorts TestKit.
Local Open Scope Z_scope.

(** ** [transports/ipc/unix.rs] *)

(** The usual umask, [0o022]. *)
Definition usual_umask : Z := 18.
Definition acted (w : World) (acts : list Action) : World := run usual_umask "/tmp" w acts.
Definition scratch : World := world_new empty_dir.

(** [listen_ipc] or [close] to its end; the inodes it may take begin at [i]. *)
Definition to_its_end (t : nat) (i : Z) : list Action := map (fun n => call t (i + Z.of_nat n)) (seq 0 16).
Definition listen_acts (t : nat) (pid : N) (i : Z) : list Action := AListen t pid "mango.sock" :: to_its_end t i.
Definition close_acts (t : nat) : list Action := AClose t :: to_its_end t 0.

Definition served_by (w : World) (t : nat) (why : string) : panics IpcListener :=
  match tk_pc <$> wd_tasks w !! t with Some (Serving l) => Ok l | _ => Err why end.
Definition failed_with (w : World) (t : nat) (why : string) : panics IoError :=
  match tk_pc <$> wd_tasks w !! t with Some (LFailed error) => Ok error | _ => Err why end.

Definition exists_at (w : World) (p : Path) : bool := bool_decide (is_Some (fs_paths (wd_fs w) !! p)).
Definition inode_at (w : World) (p : Path) : option Z := fs_paths (wd_fs w) !! p.
(** The names in the directory. *)
Definition listing (w : World) : list Path := (map_to_list (fs_paths (wd_fs w))).*1.
Definition answers (w : World) : Test := let? _ := expect (dial (wd_fs w) (Beside "mango.sock")) "it still accepts a connection" in Ok tt.

Definition listening_world : panics (World * IpcListener) :=
  let w := acted scratch (listen_acts 0 5 1) in
  let? l := served_by w 0 "the address is free" in Ok (w, l).

Definition the_published_socket_is_owner_only : Test :=
  let? (w, l) := listening_world in
  let? node := expect_some (node_at (wd_fs w) (Beside (il_path l))) "the socket exists" in
  assert_eq (Z.land (n_mode node) 511) SOCKET_MODE.

Definition with_max_frame_bytes_below_the_floor_panics_naming_both : Test :=
  let? (_, l) := listening_world in
  let? message := panic_message (il_with_max_frame_bytes l 512) in
  assert (str_contains "max_frame_bytes is 512; expected at least 4096" message).

Definition nothing_is_left_beside_the_published_address : Test :=
  let? (w, _) := listening_world in
  assert_eq (listing w) [Beside "mango.sock"].

(** The longest process id Linux gives and a generous attempt; that the directory is made beside the
    address is its [Path]. *)
Definition a_staging_name_is_short_enough_to_bind_beside_a_long_address : Test :=
  let long := "/tmp/" +:+ str_repeat "a" 80 +:+ ".sock" in
  let staged := "/tmp/" +:+ staging_path 4194304 99999 +:+ "/s" in
  assert (len (to_bytes staged) <? len (to_bytes long)).

(** The directory is made, the socket is bound and restricted; the mode of the directory is looked at. *)
Definition a_staged_socket_sits_where_no_other_user_may_reach_it : Test :=
  let w := acted scratch (AListen 0 5 "mango.sock" :: calls 0 [1; 2; 3; 4; 5; 6]) in
  let? k := expect_some (wd_tasks w !! 0%nat) "a staged socket" in
  let? _ := assert (exists_at w (staged_socket (tk_dir k))) in
  let? node := expect_some (node_at (wd_fs w) (Beside (tk_dir k))) "the staging directory exists while the socket does" in
  assert_eq (Z.land (n_mode node) 511) STAGING_DIRECTORY_MODE.

(** The link leads to a directory of somebody else's; what is behind it is not this listener's to see. *)
Definition a_symlink_planted_at_the_staging_name_is_not_followed : Test :=
  let planted := acted scratch [AStranger (SMake (Beside "elsewhere") 50 KDir 493 false);
                                AStranger (SMake (Inside "elsewhere" "s") 51 KFile 420 false);
                                AStranger (SMake (Beside (staging_path 5 0)) 52 KSymlink 511 false)] in
  let w := acted planted (listen_acts 0 5 1) in
  let? error := failed_with w 0 "a name this attempt did not create is not its to clear" in
  in_turn [assert_eq (io_kind error) AlreadyExists; assert (exists_at w (Inside "elsewhere" "s"));
           assert_eq (inode_at w (Beside (staging_path 5 0))) (Some 52)].

(** A connection whose dialler sends a ping, and this process's own credentials. *)
Definition ping_line : bytes := json_bytes "{'type':'ping'}" ++ [newline].
Definition connection : Stream Pipe :=
  {| st_reader := [ReadOk ping_line]; st_writer := {| pipe_bytes := []; pipe_ended := false |};
     st_cred := Ok {| uc_pid := Some 5; uc_uid := 1000; uc_gid := 1000 |} |}.

Definition an_accepted_connection_carries_frames_and_names_its_peer : Test :=
  let? (_, l) := listening_world in
  let? (_, ports, accepted) := ipc_accept l ∅ (Ok connection) 0 in
  let? (id, identity) := expect accepted "a connection arrives" in
  let? port := expect_some (ports !! id) "the port is there" in
  in_turn [assert (bool_decide (is_Some (pi_user identity))); assert_eq (pi_process_id identity) (Some 5);
           match (ndjson_recv port).2 with
           | Polled item => assert_eq item (Some (IFrame FPing))
           | Pending => Err "recv did not resolve"
           end].

(** What the accepted port wrote reaches the dialler's. *)
Definition closing_a_listener_tells_the_sessions_it_accepted : Test :=
  let? (_, l) := listening_world in
  let? (l, ports, _) := ipc_accept l ∅ (Ok connection) 0 in
  let? port := expect_some (close_sessions (il_accepted l) ports !! 0%nat) "the port is there" in
  let? dialled := ndjson_port_new [ReadOk (pipe_bytes (ws_writer (np_writer port)))] {| pipe_bytes := []; pipe_ended := false |} DEFAULT_MAX_FRAME_BYTES in
  match (ndjson_recv dialled).2 with
  | Polled item => assert_eq item (Some (IFrame (FClose {| close_code := close_codes.RELEASED; close_reason := Some "listener closing" |})))
  | Pending => Err "recv did not resolve"
  end.

Definition closing_a_listener_takes_its_address_with_it : Test :=
  let? (w, _) := listening_world in
  in_turn [assert (exists_at w (Beside "mango.sock"));
           assert (negb (exists_at (acted w (close_acts 0)) (Beside "mango.sock")))].

(** Another listener publishes between the stale check and the link of this one. *)
Definition publishing_onto_an_address_that_appeared_meanwhile_is_refused : Test :=
  let late := acted scratch (AListen 0 5 "mango.sock" :: calls 0 [1; 2; 3; 4; 5; 6; 7]) in
  let meanwhile := acted late (listen_acts 1 7 21) in
  let? winner := served_by meanwhile 1 "the address was free" in
  let w := acted meanwhile (to_its_end 0 41) in
  let? error := failed_with w 0 "the address is no longer free" in
  in_turn [assert_eq (io_kind error) AlreadyExists; assert (str_contains "while this one was binding" (io_text error));
           assert_eq (inode_at w (Beside "mango.sock")) (Some (il_inode winner))].

Definition a_stale_socket_file_is_replaced : Test :=
  let? (w, _) := listening_world in
  let? _ := served_by (acted w (ACrash 5 :: listen_acts 1 7 21)) 1 "a stale socket is not an occupied address" in
  Ok tt.

(** The first listener died; a second one judged its file stale and is overtaken by a third. *)
Definition a_replacement_at_the_same_path_survives_a_stale_removal_judged_before_it_arrived : Test :=
  let? (w, a) := listening_world in
  let judging := acted w (ACrash 5 :: AListen 1 7 "mango.sock" :: calls 1 [21; 22]) in
  let replaced := acted judging (listen_acts 2 8 41) in
  let? b := served_by replaced 2 "a stale socket is not an occupied address" in
  let w := acted replaced [call 1 61] in
  in_turn [assert (negb (bool_decide (il_inode a = il_inode b)));
           match tk_pc <$> wd_tasks w !! 1%nat with Some LName => Ok tt | _ => Err "a path that is occupied is left alone" end;
           assert_eq (inode_at w (Beside "mango.sock")) (Some (il_inode b)); answers w].

Definition a_live_listener_is_not_stale : Test :=
  let? (w, _) := listening_world in
  let w := acted w (listen_acts 1 7 21) in
  let? error := failed_with w 1 "a live listener answers; the address is not stale" in
  in_turn [assert_eq (io_kind error) AddrInUse; answers w].

(** A's own handle, late: the replacement's inode is not the one it recorded. *)
Definition closing_leaves_a_replacement_address_alone : Test :=
  let? (w, a) := listening_world in
  let replaced := acted w (ACrash 5 :: listen_acts 1 7 21) in
  let? b := served_by replaced 1 "a stale socket is not an occupied address" in
  let late := mkWorld (wd_fs replaced) (<[0%nat := mkTask 5 "mango.sock" "" (Serving a)]> (wd_tasks replaced)) (wd_attempts replaced) in
  let w := acted late (close_acts 0) in
  in_turn [assert (negb (bool_decide (il_inode a = il_inode b))); assert (exists_at w (Beside "mango.sock")); answers w].

Definition a_regular_file_at_the_address_is_reported_not_replaced : Test :=
  let w := acted (acted scratch [AStranger (SMake (Beside "mango.sock") 50 KFile 420 false)]) (listen_acts 0 5 1) in
  let? error := failed_with w 0 "a regular file is not a stale socket" in
  in_turn [assert_eq (io_kind error) AlreadyExists; assert (str_contains "expected nothing, or a socket" (io_text error));
           assert (exists_at w (Beside "mango.sock"))].

(** [UnixStream::connect] answers at its first poll; the state says whether it was polled. *)
Definition dials (w : World) (polled : bool) : bool * poll (result (Stream Pipe) IoError) :=
  (true, Polled (match dial (wd_fs w) (Beside "mango.sock") with Ok _ => Ok connection | Err error => Err error end)).

Definition dial_error (w : World) (d : ConnectDeadline) (wakes : list Wake) (why : string) : panics (bool * ConnectError) :=
  match connect_ipc (dials w) "mango.sock" d false wakes with
  | (opened, Polled (Err error)) => Ok (opened, error)
  | _ => Err why
  end.

Definition dialling_an_address_with_no_listener_reports_the_system_error : Test :=
  let? (_, error) := dial_error scratch connect_deadline_default [{| wk_elapsed := 0; wk_cancelled := false |}] "nothing is listening" in
  match error with
  | IoConnect error => assert_eq (io_kind error) NotFound
  | _ => Err "expected an operating system error"
  end.

Definition a_dial_the_caller_already_gave_up_on_opens_nothing : Test :=
  let? (w, _) := listening_world in
  let? (opened, error) := dial_error w (with_cancel connect_deadline_default) [{| wk_elapsed := 0; wk_cancelled := true |}] "a cancelled dial is abandoned" in
  match error with
  | CancelledConnect _ => assert (negb opened)
  | _ => Err "expected Cancelled"
  end.

(** ** The suite *)

Local Open Scope string_scope.
Definition socket_tests : list (string * Test) :=
  [("the_published_socket_is_owner_only", the_published_socket_is_owner_only);
   ("with_max_frame_bytes_below_the_floor_panics_naming_both", with_max_frame_bytes_below_the_floor_panics_naming_both);
   ("nothing_is_left_beside_the_published_address", nothing_is_left_beside_the_published_address);
   ("a_staging_name_is_short_enough_to_bind_beside_a_long_address", a_staging_name_is_short_enough_to_bind_beside_a_long_address);
   ("a_staged_socket_sits_where_no_other_user_may_reach_it", a_staged_socket_sits_where_no_other_user_may_reach_it);
   ("a_symlink_planted_at_the_staging_name_is_not_followed", a_symlink_planted_at_the_staging_name_is_not_followed);
   ("an_accepted_connection_carries_frames_and_names_its_peer", an_accepted_connection_carries_frames_and_names_its_peer);
   ("closing_a_listener_tells_the_sessions_it_accepted", closing_a_listener_tells_the_sessions_it_accepted);
   ("closing_a_listener_takes_its_address_with_it", closing_a_listener_takes_its_address_with_it);
   ("publishing_onto_an_address_that_appeared_meanwhile_is_refused", publishing_onto_an_address_that_appeared_meanwhile_is_refused);
   ("a_stale_socket_file_is_replaced", a_stale_socket_file_is_replaced);
   ("a_replacement_at_the_same_path_survives_a_stale_removal_judged_before_it_arrived", a_replacement_at_the_same_path_survives_a_stale_removal_judged_before_it_arrived);
   ("a_live_listener_is_not_stale", a_live_listener_is_not_stale);
   ("closing_leaves_a_replacement_address_alone", closing_leaves_a_replacement_address_alone);
   ("a_regular_file_at_the_address_is_reported_not_replaced", a_regular_file_at_the_address_is_reported_not_replaced);
   ("dialling_an_address_with_no_listener_reports_the_system_error", dialling_an_address_with_no_listener_reports_the_system_error);
   ("a_dial_the_caller_already_gave_up_on_opens_nothing", a_dial_the_caller_already_gave_up_on_opens_nothing)].
