(* ===== verification/UnitTests.v ===== *)
(** * The crate's own unit tests

    The tests of [TestsWire.v] to [TestsSockets.v] as one suite.  They were written against the crate, not
    against this development: that the definitions pass them is evidence that the definitions are the
    code's. *)

From S2P Require Import Prelude Text Json FrameJson TestsSockets TestsStreams TestsPorts TestsCodec TestsWire TestKit.
Local Open Scope Z_scope.

Definition unit_tests : list (string * Test) := wire_tests ++ codec_tests ++ port_tests ++ stream_tests ++ socket_tests.

(** The unit tests, a computation.  All 205 of the crate's unit tests that look at no other package pass on the
    definitions of this development: versions, close codes, errors, frames and their JSON, validation,
    both codecs, catalogs, options, the memory pair, deadlines, ssh and socket addresses, the NDJSON port
    with one task and with several, launching and ending a child, WebSocket farewells and upgrades, and
    the life of a listener's socket. *)
Theorem unit_tests_pass : failures unit_tests = [] /\ length unit_tests = 205%nat.
Proof. split; vm_compute; reflexivity. Qed.
